(* ===== verification/_CoqProject ===== *)
-Q . S2P
Prelude.v
Text.v
Util.v
Result.v
TreeSitter.v
Capture.v
Query.v
Sample.v
QueryMemo.v
QueryProps.v
Chain.v
Pipeline.v
Output.v
Syntax.v
Builder.v
BuilderProps.v
BuilderFuel.v
Search.v
BuilderDemo.v
ClusterTypes.v
ClusterSlots.v
ClusterNodes.v
ClusterBus.v
ClusterGossip.v
ClusterFailover.v
ClusterPacket.v
ClusterCron.v
ClusterCommand.v
ClusterRoute.v
ClusterBitmap.v
ClusterInv.v
ClusterPreserve.v
ClusterSystem.v
ClusterSample.v
ClusterSafety.v
ClusterReports.v
ClusterRouteProps.v
ClusterClaims.v
ClusterFlaws.v
ClusterDetect.v
ClusterCommandProps.v
Word.v
StateMonad.v
ClusterConfig.v
ClusterConfigText.v
ClusterConfigRead.v
ClusterConfigLoad.v
ClusterConfigNode.v
ClusterConfigFile.v
ClusterRestart.v
ClusterLives.v
ClusterConfigExample.v
RtrsPermits.v
Rtrs.v
RtrsProps.v
RtrsLink.v
RtrsExample.v
RtrsLife.v
RtrsLifeInv.v
RtrsLifeProps.v
Uring.v
UringRing.v
UringLinks.v
UringProps.v
UringSubmit.v
UringExample.v
Malloc.v
MallocArith.v
MallocInv.v
MallocOps.v
MallocFree.v
MallocCut.v
MallocGrow.v
MallocSpec.v
MallocRealloc.v
MallocExample.v
Nfp.v
NfpAreas.v
NfpProps.v
NfpExample.v
