(* ===== verification/Prelude.v ===== *)
(** * A verification library for weggli-enhance

    weggli-enhance searches C and C++ code for patterns written as code.  The
    repository holds the engine, in Rust under [src/src/], and a corpus of C
    programs under [src/examples/] that it is tried on.  This development
    verifies the engine's algorithms, and five programs of the corpus, four
    that are complete enough to be read on their own and the core of a fifth: a Redis Cluster node
    ([cluster.c]), the memory allocator of musl ([malloc.c]), the core of a
    network card's driver ([nfp_cppcore.c]), the client of a transport
    over RDMA ([rtrs-clt.c]), and the rings of io_uring ([io_uring.c]).

    ** The engine

    A pattern is parsed by tree-sitter; the query builder turns the syntax
    tree into a tree of tree-sitter queries with sub-queries and negations;
    workers parse the files and run the trees; the results of the queries of
    a rule file are filtered against each other and written out.

    - [Text]: Rust strings as UTF-8 byte strings, with the panics of slicing.
    - [Util] ([util.rs]): number literals in 128-bit arithmetic.
    - [Result] ([result.rs]): results and their merging.
    - [TreeSitter], [Syntax]: the interface of the libraries the engine calls
      (the class [TreeSitter] with its laws [TreeSitterLaws]; pattern trees
      and cursors).  [Sample] is an instance made of tables.
    - [Capture], [Query] ([capture.rs], [query.rs]): query trees and the
      matcher, which threads its result cache.  [QueryMemo] shows that the
      cache changes nothing when query ids are unambiguous, [QueryProps] what
      the matcher returns: the selections of one match per pattern that agree
      on the variables and follow one another, less those a negation rules
      out, both said in terms of variables' texts and positions.  It needs
      distinct ids in the tree, which the builder does not always give.
    - [Builder] ([builder.rs]): the whole query builder.  [BuilderProps] and
      [BuilderFuel] show that the trees it builds are well formed and that it
      terminates; [BuilderDemo] runs patterns end to end and exhibits two
      sub-queries that share an id.
    - [Search] ([lib.rs], [rules.rs], [main.rs]): from a rule to its query
      trees, through constraints, missing semicolons and braces, and the
      location of syntax errors.
    - [Chain] ([main.rs], [filter_chainable_results]), [Pipeline]
      ([pipeline.rs]), [Output] ([sarif.rs] and the line of [terminal.rs]):
      what happens to results; threads are arbitrary interleavings of what the
      workers send.  What is said of a pipeline assumes distinct ids in every
      query tree, like [QueryProps].

    ** The cluster node

    [cluster.c] implements the cluster bus of Redis.  [ClusterTypes] has its
    state (nodes in a heap of addresses, the slot table, the effects on the
    rest of the server) and the state-and-error monad the other files use;
    everything in other files of Redis is a parameter (a class of
    functions, or inputs of an event).  The functions follow the sections of
    the source: [ClusterSlots], [ClusterNodes], [ClusterBus],
    [ClusterGossip], [ClusterFailover], [ClusterPacket], [ClusterCron],
    [ClusterCommand], [ClusterRoute].  [ClusterSystem] puts them together: an
    event is one call of the event loop, a run a sequence of events.
    [ClusterInv] states the invariants, [ClusterPreserve] shows function by
    function that they are kept, [ClusterSafety] what follows for every run
    (slot ownership, epochs, one vote per epoch).  [ClusterBitmap],
    [ClusterReports], [ClusterRouteProps], [ClusterClaims], [ClusterDetect]
    and [ClusterCommandProps] have the
    contracts of single operations (that of a configuration update covers the
    two states in which it brings the process down), [ClusterFlaws] packets that break a
    promise of the code, [ClusterSample] the environment and the run the
    witnesses use.

    [ClusterConfig] is the configuration file: [clusterLoadConfig] and
    [clusterSaveConfig] on the text of the file, with the functions of the C
    library they call.  [ClusterConfigText] is what is written, line by line,
    and [ClusterConfigRead] that its words are read back; a state is seen
    through names in [ClusterConfigLoad], where [ClusterConfigNode] and
    [ClusterConfigFile] show the effect of each line and of the file.
    [ClusterRestart] puts saving and loading together: the configuration of
    a state that can be saved ([saveable]) survives a restart.  [ClusterLives]
    has the node over many lives: slot ownership whatever the file holds, and
    one vote per epoch over all of them, as long as no hard reset and no wrap
    of the epoch sets the epochs back.  [ClusterConfigExample] runs it, and has files that the loader
    takes badly.

    ** The allocator

    [Malloc] translates [malloc.c]: memory is one map from addresses to
    64-bit words, in which chunk headers, the lists of free chunks, the bins
    and the callers' data all live, so that aliasing is modelled and any
    access to an unmapped address is a crash.  [MallocEnv] is what the file
    takes from elsewhere (system calls, atomics, page size), [MallocLaws]
    what these promise.  [MallocArith] has the arithmetic of sizes, tags and
    bins (every chunk is in the bin of its size, a search starts in that bin
    or the next, and the table of bin numbers is read inside it), [MallocInv] the invariant's parts (boundary tags, lists, bins),
    [MallocOps], [MallocFree], [MallocCut] and
    [MallocGrow] the effect of each step on an abstract heap of chunks.
    [MallocSpec] states the contract: the allocator refines the set of live
    blocks, none of whose words it touches; [MallocRealloc] the contract of
    [realloc]; [MallocExample] an instance of the system, the witnesses, and
    the copy of [realloc] that runs past its block.

    ** The driver core

    [Nfp] translates [nfp_cppcore.c]: windows ("areas") onto the buses of
    the card, with two counts each, the list of resources, and the cache of
    areas that serves reads and writes by address.  Areas live in a heap, and
    the use of a freed one is a crash.  The hardware's operations and the
    driver's other files are the classes [NfpOps] and [NfpLib]; [NfpAreas] has
    what the operations document ([NfpLaws]: they may fail, and transfer less
    than they are asked to), the invariant [nfp_ok] between accesses and the
    effect of each operation; [NfpProps] shows that access through areas
    equals access to the targets' bytes one by one, up to the first window
    or transfer that fails, and that the core is set up and taken down on any
    device without a crash or a leak.  Access through a cache of windows is
    covered when windows do not fail ([windows_reliable]); [NfpExample] has
    the run in which one does and the code uses an area it has freed, and
    runs the core on several devices.

    ** The transport client

    [RtrsPermits] has the permits of [rtrs-clt.c], which threads take and
    give back without a lock: a step is one access to the shared state, and
    the kernel's wait queue is the class [WaitQueue].  For every interleaving,
    a permit has one owner and no thread sleeps while one is free.  [Rtrs] is
    the part of the file that runs under locks: the states of a path, the
    choice of a path for a request, paths that are added and removed, link
    events, and the server's buffers.  [RtrsProps] shows that a request goes
    out if it can and that no pointer to a removed path stays, [RtrsLink]
    that the user of a session is told the truth, and which
    descriptions of the server's memory are accepted.  [RtrsExample] runs
    them, and has the runs in which a wake-up or an event is lost.

    [RtrsLife] is the life of one path: the thread that opens it, the
    reconnect work, the close work, and any number of handlers and users of
    sysfs, interleaved step by step, with the kernel's work queue as the class
    [WorkQueue].  [RtrsLifeInv] has the invariant of all reachable states, and
    [RtrsLifeProps] shows that one thread at a time works on the connections
    and that no path gets stuck; it also has the two runs in which a work is
    left behind for a path that is freed.

    ** The rings of io_uring

    [Uring] translates the parts of [io_uring.c] about the two rings that an
    application and the kernel share: posting completions, the list of those
    that do not fit, timeouts that count completions, drained requests, and
    the entries of the submission ring.  Positions are 32-bit counters that
    wrap around; what the kernel promises besides is the class [UringEnv], and
    the sizes are powers of two ([UringLaws]).  [UringRing] has the invariant
    of the rings and that every operation keeps it, [UringProps] that in every
    run no completion is lost unseen, what a flush moves, what a drained
    request waits for (the completions posted before it, dropped ones too),
    that exactly the timeouts for which the ring's count has advanced enough
    fire, and that this count goes back when timeouts fire into a full ring,
    so that the next flush fires the others too early.  [UringLinks] is chains of linked requests and what becomes of a
    chain when a request of it is done; [UringSubmit] ([io_submit_sqes] down to
    [io_queue_sqe]) makes requests and chains of the entries, none of which is
    lost, and completes at once a chain that cannot be submitted, each
    request with the error that is its own, if it has one.
    [UringExample] runs them, and has the runs in which timeouts fire too
    early or not at all.

    The allocator, the driver, the client and the rings share [StateMonad]
    (state passing with [res], and the calculus [wp] of total correctness);
    the first two share [Word] (64-bit words and masks).

    ** Conventions

    Errors are values of [res]: [Ok], [Err], [Panic] (a panic, a failed
    assertion, an access outside of memory) and [OutOfFuel].  Recursion that
    is not structural has fuel, and each theorem about such a function shows
    that a stated fuel is enough: the size of the pattern for the builder,
    the height of the tree for the matcher, two rounds for the allocator's
    loops (a single thread sees no change between the check and the lock),
    the length of an access for the driver's windows and of the file for the
    configuration's lines (each takes a byte or more).
    Integers keep their width where they can wrap ([u64] and the like).

    ** What is not modelled

    Of the engine: argument parsing, reading and writing files, YAML and
    JSON, regular expressions and parsing (library calls), the coloured
    display of [result.rs], and the letters and digits outside ASCII in the
    tests on characters of [builder.rs].  Of [cluster.c]:
    sockets, and DUMP, RESTORE and MIGRATE.  Of
    [malloc.c]: threads (its locks are no-ops with one thread), [realloc] of
    blocks with a mapping is modelled but has no contract, since [mremap] has
    no law.  Of [nfp_cppcore.c]: concurrent callers, the accessors that only
    return a field, and cached windows on a device that refuses some, but for
    the examples.  Of [rtrs-clt.c]: posting work to the hardware and what completes it, and
    the registration of memory, which are calls to the RDMA stack.  Of [io_uring.c]: what the operations of requests do
    ([io_issue_sqe] and what it calls), polling, worker threads and task work,
    registered files and buffers, and rings polled for completions.  The
    other program of the corpus ([parser.c]) is part of a larger system whose
    headers and libraries are not in the repository. *)

From Stdlib Require ZifyBool.
From stdpp Require Import base numbers gmap strings list.

Set Default Proof Using "Type".

(** ** Outcomes of Rust code

    [Ok] and [Err] are the two sides of a Rust [Result]; [Panic] is an
    unwinding panic (slice out of range, [unwrap] on [None], failed
    [assert!]); [OutOfFuel] is the artefact of a fuelled fixpoint and is
    shown unreachable for each of them. *)
Inductive res (E A : Type) : Type :=
| Ok (a : A)
| Err (e : E)
| Panic
| OutOfFuel.
Arguments Ok {E A} a.
Arguments Err {E A} e.
Arguments Panic {E A}.
Arguments OutOfFuel {E A}.

Definition res_bind {E A B : Type} (m : res E A) (k : A -> res E B) : res E B :=
  match m with
  | Ok a => k a
  | Err e => Err e
  | Panic => Panic
  | OutOfFuel => OutOfFuel
  end.

Declare Scope rust_scope.
Delimit Scope rust_scope with rust.
Notation "'let*' x ':=' m 'in' k" := (res_bind m (fun x => k))
  (at level 10, x pattern, m at level 100, k at level 200)
  : rust_scope.
Open Scope rust_scope.

(** [Option::unwrap] and checked indexing: [None] panics. *)
Definition unwrap {E A : Type} (o : option A) : res E A :=
  match o with Some a => Ok a | None => Panic end.

(** A call that returns an error or a value. *)
Definition of_sum {E A : Type} (r : E + A) : res E A :=
  match r with inl e => Err e | inr a => Ok a end.

Definition assert_that {E : Type} (b : bool) : res E unit :=
  if b then Ok tt else Panic.

Definition is_ok {E A : Type} (m : res E A) : bool :=
  match m with Ok _ => true | _ => false end.

Lemma res_bind_ok {E A B : Type} (m : res E A) (k : A -> res E B) b :
  res_bind m k = Ok b <-> exists a, m = Ok a /\ k a = Ok b.
Proof.
  split.
  - destruct m as [a| | |]; cbn; intros H; try discriminate H. by exists a.
  - by intros (a & -> & ?).
Qed.

Lemma unwrap_ok {E A : Type} (o : option A) (a : A) :
  unwrap (E:=E) o = Ok a <-> o = Some a.
Proof. destruct o; naive_solver. Qed.

(** Sequencing a fallible operation over a list, left to right. *)
Fixpoint res_mapM {E A B : Type} (f : A -> res E B) (l : list A) : res E (list B) :=
  match l with
  | [] => Ok []
  | a :: l => let* b := f a in let* bs := res_mapM f l in Ok (b :: bs)
  end.

Fixpoint res_foldM {E A S : Type} (f : S -> A -> res E S) (s : S) (l : list A) : res E S :=
  match l with
  | [] => Ok s
  | a :: l => let* s := f s a in res_foldM f s l
  end.

Lemma res_mapM_ok {E A B : Type} (f : A -> res E B) (g : A -> B) (l : list A) :
  (forall a, a ∈ l -> f a = Ok (g a)) -> res_mapM f l = Ok (g <$> l).
Proof.
  induction l as [|a l IH]; intros Hf; [done|]. cbn.
  rewrite (Hf a) by set_solver. cbn. rewrite IH by set_solver. done.
Qed.

Lemma res_foldM_inv {E A S : Type} (f : S -> A -> res E S) (P : S -> Prop)
    (l : list A) (s s' : S) :
  (forall s a s', a ∈ l -> P s -> f s a = Ok s' -> P s') ->
  P s -> res_foldM f s l = Ok s' -> P s'.
Proof.
  revert s. induction l as [|a l IH]; intros s Hf Hs Heq; cbn in Heq.
  - naive_solver.
  - apply res_bind_ok in Heq as (s1 & H1 & H2).
    eapply IH; [|eapply Hf; [|exact Hs|exact H1]|exact H2]; [|set_solver].
    intros; eapply Hf; eauto. set_solver.
Qed.

(** ** Automation *)

Ltac res_step :=
  match goal with
  | H : res_bind _ _ = Ok _ |- _ =>
      let a := fresh "a" in let H1 := fresh "Hm" in let H2 := fresh "Hk" in
      apply res_bind_ok in H as (a & H1 & H2)
  | H : unwrap _ = Ok _ |- _ => apply unwrap_ok in H
  | H : Ok _ = Ok _ |- _ => injection H as H; subst
  | H : Some _ = Some _ |- _ => injection H as H; subst
  | H : Err _ = Ok _ |- _ => discriminate H
  | H : Panic = Ok _ |- _ => discriminate H
  | H : OutOfFuel = Ok _ |- _ => discriminate H
  end.
Ltac res_inv := repeat (res_step; cbn beta iota in * ).

(** Closes a decidable goal by evaluating its decision procedure. *)
Ltac by_decide := refine (bool_decide_eq_true_1 _ _); vm_compute; reflexivity.

(** ** Functional record update

    [r <| f ::= g |>] applies [g] to field [f] of [r]; [r <| f := v |>]
    overwrites it.  A record becomes updatable through an [Updatable]
    instance that rebuilds it from its projections; the update of a single
    projection is then found by abstracting that projection. *)
Definition rd_pure {R T : Type} (x : T) : R -> T := fun _ => x.
Definition rd_ap {R A B : Type} (f : R -> A -> B) (x : R -> A) : R -> B :=
  fun r => f r (x r).
Arguments rd_pure {R T} x _ /.
Arguments rd_ap {R A B} f x _ /.

Class Updatable (R : Type) := rebuild : R -> R.
Class FieldUpdate {R T : Type} (proj : R -> T) := field_update : (T -> T) -> R -> R.

Ltac derive_field_update proj :=
  match type of proj with
  | ?R -> ?T =>
      let inst := constr:(_ : Updatable R) in
      let body := eval hnf in inst in
      match eval pattern proj in body with
      | ?abs _ => exact (fun (g : T -> T) => abs (fun r : R => g (proj r)))
      end
  end.
#[export] Hint Extern 1 (FieldUpdate ?proj) => derive_field_update proj : typeclass_instances.

Declare Scope upd_scope.
Delimit Scope upd_scope with upd.
Notation "r <| f ::= g |>" := (field_update (proj:=f) g r)
  (at level 12, f at next level, left associativity) : upd_scope.
Notation "r <| f := v |>" := (field_update (proj:=f) (fun _ => v) r)
  (at level 12, f at next level, left associativity) : upd_scope.
Notation "f <&> x" := (rd_ap f x) (at level 50, left associativity, only parsing) : upd_scope.
Open Scope upd_scope.

(** ** Machine integers *)

Definition i128_min : Z := (- 2 ^ 127)%Z.
Definition i128_max : Z := (2 ^ 127 - 1)%Z.
Definition in_i128 (v : Z) : bool := ((i128_min <=? v) && (v <=? i128_max))%Z.

(** Arithmetic that leaves its type panics in a checked build and wraps
    around otherwise; the model panics, so that a theorem that excludes the
    panic speaks about both builds. *)
Definition neg_i128 {E : Type} (v : Z) : res E Z :=
  if (v =? i128_min)%Z then Panic else Ok (- v)%Z.

Definition checked_sub {E : Type} (a b : nat) : res E nat :=
  if b <=? a then Ok (a - b) else Panic.

(** [x as u32]. *)
Definition as_u32 (x : Z) : Z := (x mod 2 ^ 32)%Z.
Definition u64 (x : Z) : Z := (x mod 2 ^ 64)%Z.
