(* ===== verification/Text.v ===== *)
(** * Rust strings

    A Rust [&str] is its UTF-8 byte sequence, kept here as a Stdlib
    [string] whose characters are the bytes.  Offsets are byte offsets, as
    in the source; slicing panics out of range and off a character
    boundary, exactly as [str]'s indexing does. *)

From Stdlib Require Import Ascii.
From stdpp Require Import base numbers pretty strings list.
From S2P Require Import Prelude.

#[global] Arguments String.append : simpl nomatch.
#[global] Arguments Ascii.eqb : simpl never.

(** A UTF-8 continuation byte, [0b10xxxxxx]. *)
Definition is_continuation (c : ascii) : bool :=
  let n := nat_of_ascii c in (128 <=? n) && (n <? 192).

Definition is_ascii_char (c : ascii) : bool := nat_of_ascii c <? 128.
#[global] Arguments is_continuation : simpl never.
#[global] Arguments is_ascii_char : simpl never.

Definition is_char_boundary (s : string) (i : nat) : bool :=
  match String.get i s with
  | Some c => negb (is_continuation c)
  | None => i =? String.length s
  end.

(** [&s[a..b]] *)
Definition slice {E : Type} (s : string) (a b : nat) : res E string :=
  if (a <=? b) && (b <=? String.length s)
     && is_char_boundary s a && is_char_boundary s b
  then Ok (String.substring a (b - a) s)
  else Panic.

(** [s.get(a..b)] *)
Definition get_range (s : string) (a b : nat) : option string :=
  if (a <=? b) && (b <=? String.length s)
     && is_char_boundary s a && is_char_boundary s b
  then Some (String.substring a (b - a) s)
  else None.

Fixpoint string_filter (P : ascii -> bool) (s : string) : string :=
  match s with
  | EmptyString => EmptyString
  | String c s => if P c then String c (string_filter P s) else string_filter P s
  end.

Fixpoint string_all (P : ascii -> bool) (s : string) : bool :=
  match s with
  | EmptyString => true
  | String c s => P c && string_all P s
  end.

(** [s.starts_with(c)] for an ASCII character. *)
Definition starts_with (c : ascii) (s : string) : bool :=
  match s with String c' _ => Ascii.eqb c c' | EmptyString => false end.

Fixpoint ends_with (c : ascii) (s : string) : bool :=
  match s with
  | EmptyString => false
  | String c' EmptyString => Ascii.eqb c c'
  | String _ s => ends_with c s
  end.

(** [s.pop()] of a string known to end in an ASCII character. *)
Fixpoint pop (s : string) : string :=
  match s with
  | EmptyString => EmptyString
  | String _ EmptyString => EmptyString
  | String c s => String c (pop s)
  end.

Definition nl : ascii := ascii_of_nat 10.
Definition nl_str : string := String nl "".

(** [s.matches(c).count()] *)
Fixpoint count_char (c : ascii) (s : string) : nat :=
  match s with
  | EmptyString => 0
  | String c' s => (if Ascii.eqb c c' then 1 else 0) + count_char c s
  end.

(** [s.rfind(c)] *)
Fixpoint rfind_char (c : ascii) (s : string) : option nat :=
  match s with
  | EmptyString => None
  | String c' s =>
      match rfind_char c s with
      | Some i => Some (S i)
      | None => if Ascii.eqb c c' then Some 0 else None
      end
  end.

(** [s.split(c)] *)
Fixpoint split_char (c : ascii) (s : string) : list string :=
  match s with
  | EmptyString => [""]
  | String c' s =>
      if Ascii.eqb c c' then "" :: split_char c s
      else match split_char c s with
           | [] => [String c' ""]
           | w :: ws => String c' w :: ws
           end
  end.

(** [s.splitn(2, c)]: the first piece, and the rest when [c] occurs. *)
Fixpoint split_once (c : ascii) (s : string) : string * option string :=
  match s with
  | EmptyString => ("", None)
  | String c' s =>
      if Ascii.eqb c c' then ("", Some s)
      else let '(a, b) := split_once c s in (String c' a, b)
  end.

(** [s.find(p).is_some()] *)
Fixpoint contains (p s : string) : bool :=
  String.prefix p s ||
  match s with
  | EmptyString => false
  | String _ s => contains p s
  end.

(** Decimal rendering of an index, [usize::to_string]. *)
Definition show_nat (n : nat) : string := pretty (N.of_nat n).

Definition ascii_between (lo hi : nat) (c : ascii) : bool :=
  let n := nat_of_ascii c in (lo <=? n) && (n <=? hi).
Definition is_digit_char (c : ascii) : bool := ascii_between 48 57 c.
Definition is_alnum_char (c : ascii) : bool :=
  ascii_between 48 57 c || ascii_between 65 90 c || ascii_between 97 122 c.

Definition upper_char (c : ascii) : ascii :=
  if ascii_between 97 122 c then ascii_of_nat (nat_of_ascii c - 32) else c.

(** [str::to_uppercase], as far as a comparison with the words NOT and
    STRICT can tell: ASCII letters, and the three non-ASCII characters
    whose uppercase is made of the letters S, T and I only (the long s,
    the two st ligatures and the dotless i). *)
Fixpoint to_uppercase (s : string) : string :=
  match s with
  | EmptyString => EmptyString
  | String "197"%char (String "191"%char s) => String "S" (to_uppercase s)
  | String "196"%char (String "177"%char s) => String "I" (to_uppercase s)
  | String "239"%char (String "172"%char (String "133"%char s)) => "ST" +:+ to_uppercase s
  | String "239"%char (String "172"%char (String "134"%char s)) => "ST" +:+ to_uppercase s
  | String c s => String (upper_char c) (to_uppercase s)
  end.

(** ** Lemmas *)

Lemma length_string_app (s t : string) :
  String.length (s +:+ t) = String.length s + String.length t.
Proof. induction s as [|c s IH]; cbn; [done|by rewrite IH]. Qed.

Lemma string_app_assoc (s t u : string) : (s +:+ t) +:+ u = s +:+ (t +:+ u).
Proof. induction s as [|c s IH]; cbn; [done|by rewrite IH]. Qed.

Lemma string_filter_app (P : ascii -> bool) (s t : string) :
  string_filter P (s +:+ t) = string_filter P s +:+ string_filter P t.
Proof. induction s as [|c s IH]; cbn; [done|]. destruct (P c); cbn; by rewrite IH. Qed.

Lemma string_filter_all (P : ascii -> bool) (s : string) :
  string_all P s = true -> string_filter P s = s.
Proof.
  induction s as [|c s IH]; cbn; [done|].
  intros [-> Hs]%andb_true_iff. by rewrite IH.
Qed.

Lemma string_all_filter (P : ascii -> bool) (s : string) :
  string_all P (string_filter P s) = true.
Proof. induction s as [|c s IH]; cbn; [done|]. destruct (P c) eqn:E; cbn; by rewrite ?E. Qed.

Lemma substring_full (s : string) : String.substring 0 (String.length s) s = s.
Proof. induction s as [|c s IH]; cbn; [done|]. by f_equal. Qed.

Lemma substring_app_r (p s : string) :
  String.substring (String.length p) (String.length s) (p +:+ s) = s.
Proof. induction p as [|c p IH]; cbn; [apply substring_full|done]. Qed.

Lemma substring_app_l (p s : string) :
  String.substring 0 (String.length p) (p +:+ s) = p.
Proof. induction p as [|c p IH]; cbn; [by destruct s|by f_equal]. Qed.

Lemma slice_get {E} (s : string) (a b : nat) :
  slice (E:=E) s a b = unwrap (get_range s a b).
Proof. unfold slice, get_range. by destruct (_ && _). Qed.

Lemma get_range_bound (s t : string) (a b : nat) :
  get_range s a b = Some t -> a <= b <= String.length s.
Proof.
  unfold get_range. intros H.
  destruct (a <=? b) eqn:E1, (b <=? String.length s) eqn:E2; cbn in H; try discriminate H.
  apply Nat.leb_le in E1, E2. lia.
Qed.
