(* ===== verification/Util.v ===== *)
(** * Number literals: [src/src/util.rs]

    [parse_number_literal] reads a C integer literal: it drops digit
    separators and the suffixes u, l and z, takes an optional minus sign,
    picks the radix from the prefix and hands the rest to
    [i128::from_str_radix].  The section [Literals] gives the grammar of
    the literals the function is meant for and their value. *)

From Stdlib Require Import Ascii.
From stdpp Require Import base numbers strings list.
From S2P Require Import Prelude Text.

(** [char::to_digit(radix)] on an ASCII character. *)
Definition to_digit (radix : Z) (c : ascii) : option Z :=
  let n := Z.of_nat (nat_of_ascii c) in
  let d := if is_digit_char c then Some (n - 48)%Z
           else if ascii_between 97 122 c then Some (n - 87)%Z
           else if ascii_between 65 90 c then Some (n - 55)%Z
           else None in
  match d with
  | Some d => if (d <? radix)%Z then Some d else None
  | None => None
  end.

(** The checked accumulation loop of [from_str_radix]: every step is a
    [checked_mul] by the radix and a [checked_add] (or [checked_sub] for a
    negative number) of the digit. *)
Fixpoint accumulate (positive : bool) (radix acc : Z) (s : string) : option Z :=
  match s with
  | EmptyString => Some acc
  | String c s =>
      match to_digit radix c with
      | None => None
      | Some d =>
          let m := (acc * radix)%Z in
          if in_i128 m then
            let a := (if positive then m + d else m - d)%Z in
            if in_i128 a then accumulate positive radix a s else None
          else None
      end
  end.

(** [i128::from_str_radix(s, radix).ok()] *)
Definition from_str_radix (s : string) (radix : Z) : option Z :=
  match s with
  | EmptyString => None
  | String c rest =>
      if Ascii.eqb c "+" || Ascii.eqb c "-" then
        match rest with
        | EmptyString => None
        | _ => accumulate (Ascii.eqb c "+") radix 0 rest
        end
      else accumulate true radix 0 s
  end.

(** The characters the filter of [parse_number_literal] drops. *)
Definition is_separator (c : ascii) : bool :=
  existsb (Ascii.eqb c) ["'"; "u"; "U"; "l"; "L"; "z"; "Z"]%char.

Definition strip_minus (s : string) : bool * string :=
  match s with
  | String c s' => if Ascii.eqb c "-" then (true, s') else (false, s)
  | EmptyString => (false, s)
  end.

(** The prefix test: offset of the digits and radix. *)
Definition radix_of (input : string) : nat * Z :=
  match get_range input 0 2 with
  | Some p =>
      if bool_decide (p = "0x") || bool_decide (p = "0X") then (2, 16%Z)
      else if bool_decide (p = "0b") || bool_decide (p = "0B") then (2, 2%Z)
      else if starts_with "0" p then (1, 8%Z)
      else (0, 10%Z)
  | None => (0, 10%Z)
  end.

Definition parse_number_literal (input : string) : res Empty_set (option Z) :=
  let input := string_filter (fun c => negb (is_separator c)) input in
  let '(negative, input) := strip_minus input in
  let '(offset, radix) := radix_of input in
  let* digits := slice input offset (String.length input) in
  match from_str_radix digits radix with
  | Some v => if negative then let* w := neg_i128 v in Ok (Some w) else Ok (Some v)
  | None => Ok None
  end.

Example parse_hex_suffix : parse_number_literal "0x100ULL" = Ok (Some 256%Z).
Proof. vm_compute. reflexivity. Qed.
Example parse_sep : parse_number_literal "100'000" = Ok (Some 100000%Z).
Proof. vm_compute. reflexivity. Qed.
Example parse_octal : parse_number_literal "010" = Ok (Some 8%Z).
Proof. vm_compute. reflexivity. Qed.
Example parse_neg : parse_number_literal "-0xbeef" = Ok (Some (-48879)%Z).
Proof. vm_compute. reflexivity. Qed.
Example parse_bad : List.map parse_number_literal ["0.0"; "not-a-literal"; "-"; ""; "abcdef"]
  = List.repeat (Ok None) 5.
Proof. vm_compute. reflexivity. Qed.
Example parse_zero : parse_number_literal "0" = Ok (Some 0%Z).
Proof. vm_compute. reflexivity. Qed.

(** ** Well-formed inputs

    The only consequence of UTF-8 validity the function depends on: a
    continuation byte never follows an ASCII byte and never comes first. *)
Fixpoint utf8_ok_from (prev_ascii : bool) (s : string) : bool :=
  match s with
  | EmptyString => true
  | String c s =>
      negb (prev_ascii && is_continuation c) && utf8_ok_from (is_ascii_char c) s
  end.
Definition utf8_ok (s : string) : bool := utf8_ok_from true s.

Lemma utf8_ok_from_weaken (s : string) b :
  utf8_ok_from true s = true -> utf8_ok_from b s = true.
Proof. destruct s, b; cbn; [done..|]. by intros [_ ->]%andb_true_iff. Qed.

Lemma utf8_ok_filter (P : ascii -> bool) (s : string) b :
  (forall c, P c = false -> is_ascii_char c = true) ->
  utf8_ok_from b s = true -> utf8_ok_from b (string_filter P s) = true.
Proof.
  intros HP. revert b. induction s as [|c s IH]; intros b; cbn; [done|].
  intros [Hc Hs]%andb_true_iff. destruct (P c) eqn:E; cbn.
  - by rewrite Hc, IH.
  - apply utf8_ok_from_weaken, IH. apply HP in E.
    by rewrite E in Hs.
Qed.

Lemma is_separator_ascii (c : ascii) : is_separator c = true -> is_ascii_char c = true.
Proof.
  unfold is_separator. rewrite existsb_exists.
  intros (x & Hx & ->%Ascii.eqb_eq).
  cbn in Hx. repeat destruct Hx as [<-|Hx]; done.
Qed.

Lemma is_char_boundary_end (s : string) : is_char_boundary s (String.length s) = true.
Proof.
  unfold is_char_boundary.
  assert (String.get (String.length s) s = None) as ->; [|apply Nat.eqb_refl].
  induction s; cbn; auto.
Qed.

Lemma strip_minus_utf8 (s : string) :
  utf8_ok s = true -> utf8_ok (strip_minus s).2 = true.
Proof.
  destruct s as [|c s]; [done|]. unfold strip_minus.
  destruct (Ascii.eqb_spec c "-") as [->|]; [|done].
  cbn. by intros ?.
Qed.

Lemma radix_of_nonneg (s : string) o radix : radix_of s = (o, radix) -> (0 <= radix)%Z.
Proof. unfold radix_of. intros H. repeat case_match; simplify_eq; lia. Qed.

(** The digits start inside the input, on a character boundary. *)
Lemma radix_of_offset (s : string) :
  utf8_ok s = true ->
  let o := (radix_of s).1 in
  o <= String.length s /\ is_char_boundary s o = true.
Proof.
  intros Hs. cbn. unfold radix_of. destruct (get_range s 0 2) as [p|] eqn:E; cycle 1.
  { cbn. split; [lia|]. destruct s as [|c s]; [done|]. cbn in Hs |- *.
    by apply andb_true_iff in Hs as [-> _]. }
  pose proof (get_range_bound _ _ _ _ E) as Hlen. unfold get_range in E.
  destruct (_ && is_char_boundary s 2) eqn:E2; [|done].
  apply andb_true_iff in E2 as [_ E2]. injection E as E.
  destruct (bool_decide (p = "0x") || _); [cbn; by split; [lia|]|].
  destruct (bool_decide (p = "0b") || _); [cbn; by split; [lia|]|].
  destruct s as [|c1 [|c2 s]]; cbn in Hlen; [lia|lia|].
  destruct p as [|c1' p]; cbn in E; [done|]. injection E as -> _.
  cbn in Hs. destruct (starts_with "0" _) eqn:E0; cbn in E0; cbn; (split; [lia|]).
  - apply Ascii.eqb_eq in E0. subst c1'. apply andb_true_iff in Hs as [_ Hs].
    change (is_ascii_char "0") with true in Hs. cbn in Hs.
    by apply andb_true_iff in Hs as [-> _].
  - by apply andb_true_iff in Hs as [-> _].
Qed.

(** ** Range of the result *)

Lemma in_i128_spec v : in_i128 v = true <-> (i128_min <= v <= i128_max)%Z.
Proof. unfold in_i128. rewrite andb_true_iff, !Z.leb_le. done. Qed.

Lemma accumulate_range positive radix acc s v :
  in_i128 acc = true -> accumulate positive radix acc s = Some v -> in_i128 v = true.
Proof.
  revert acc. induction s as [|c s IH]; intros acc Ha; cbn; [by intros [= <-]|].
  destruct (to_digit radix c) as [d|]; [|done].
  destruct (in_i128 (acc * radix)); [|done].
  destruct (in_i128 (if positive then _ else _)) eqn:E; [|done]. by apply IH.
Qed.

Lemma from_str_radix_range s radix v : from_str_radix s radix = Some v -> in_i128 v = true.
Proof.
  destruct s as [|c s]; [done|]. unfold from_str_radix.
  destruct (_ || _); [destruct s; [done|]|]; by apply accumulate_range.
Qed.

(** Without a sign the loop only adds: the value is not negative. *)
Lemma accumulate_nonneg radix acc s v :
  (0 <= radix)%Z -> (0 <= acc)%Z -> accumulate true radix acc s = Some v -> (0 <= v)%Z.
Proof.
  intros Hr. revert acc. induction s as [|c s IH]; intros acc Ha; cbn; [by intros [= <-]|].
  destruct (to_digit radix c) as [d|] eqn:Ed; [|done].
  destruct (in_i128 (acc * radix)), (in_i128 (acc * radix + d)); try done. apply IH.
  enough (0 <= d)%Z by nia. unfold to_digit, is_digit_char, ascii_between in Ed. cbv zeta in Ed.
  repeat case_match; simplify_eq; lia.
Qed.

Lemma from_str_radix_nonneg radix s v :
  (0 <= radix)%Z -> count_char "-" s = 0 -> from_str_radix s radix = Some v -> (0 <= v)%Z.
Proof.
  intros Hr Hc. destruct s as [|c s]; [done|]. cbn in Hc. unfold from_str_radix.
  destruct (Ascii.eqb_spec "-" c) as [<-|Hne]; [done|].
  rewrite (proj2 (Ascii.eqb_neq c "-")) by done.
  destruct (Ascii.eqb c "+"); cbn [orb]; [destruct s; [done|]|]; by apply accumulate_nonneg.
Qed.

Lemma count_char_filter c P s : count_char c (string_filter P s) <= count_char c s.
Proof. induction s as [|d s IH]; cbn; [done|]. destruct (P d); cbn; lia. Qed.

Lemma count_char_substring c s a n :
  count_char c (String.substring a n s) <= count_char c s.
Proof.
  revert a n. induction s as [|d s IH]; intros a n; [by destruct a, n|].
  destruct a, n; cbn; [lia| |..].
  - specialize (IH 0 n). lia.
  - specialize (IH a 0). lia.
  - specialize (IH a (S n)). lia.
Qed.

Lemma strip_minus_count s :
  count_char "-" (strip_minus s).2 + (if (strip_minus s).1 then 1 else 0) = count_char "-" s.
Proof.
  destruct s as [|c s]; [done|]. unfold strip_minus.
  destruct (Ascii.eqb_spec c "-") as [->|Hne]; cbn; [rewrite Ascii.eqb_refl|]; lia.
Qed.

(** ** The grammar of integer literals *)

Inductive lit_kind := Dec | Oct | Hex (upper : bool) | Bin (upper : bool).

Definition lit_radix (k : lit_kind) : Z :=
  match k with Dec => 10 | Oct => 8 | Hex _ => 16 | Bin _ => 2 end.

Definition lit_prefix (k : lit_kind) : string :=
  match k with
  | Dec => "" | Oct => "0"
  | Hex u => if u then "0X" else "0x"
  | Bin u => if u then "0B" else "0b"
  end.

(** A digit and the case a letter digit is written in. *)
Definition digit_char (d : Z * bool) : ascii :=
  let n := Z.to_nat d.1 in
  ascii_of_nat (if (d.1 <? 10)%Z then 48 + n else if d.2 then 55 + n else 87 + n).

Fixpoint digit_string (ds : list (Z * bool)) : string :=
  match ds with [] => "" | d :: ds => String (digit_char d) (digit_string ds) end.

Definition horner (radix acc : Z) (ds : list (Z * bool)) : Z :=
  foldl (fun a d => a * radix + d.1)%Z acc ds.

(** A literal is well formed when it has digits, each below the radix; a
    decimal literal of two digits or more does not start with zero. *)
Definition lit_wf (k : lit_kind) (ds : list (Z * bool)) : bool :=
  forallb (fun d => (0 <=? d.1) && (d.1 <? lit_radix k))%Z ds &&
  match k, ds with
  | _, [] => false
  | Dec, [_] => true
  | Dec, d :: _ => negb (d.1 =? 0)%Z
  | _, _ => true
  end.

Definition lit_string (neg : bool) (k : lit_kind) (ds : list (Z * bool)) : string :=
  (if neg then "-" else "") +:+ lit_prefix k +:+ digit_string ds.

Definition lit_value (k : lit_kind) (ds : list (Z * bool)) : Z := horner (lit_radix k) 0 ds.

Lemma digit_char_facts (d : Z * bool) (radix : Z) :
  (0 <= d.1 < radix)%Z -> (radix <= 16)%Z ->
  to_digit radix (digit_char d) = Some d.1 /\
  Ascii.eqb (digit_char d) "+" = false /\ Ascii.eqb (digit_char d) "-" = false /\
  is_ascii_char (digit_char d) = true /\ is_continuation (digit_char d) = false /\
  Ascii.eqb "0" (digit_char d) = (d.1 =? 0)%Z /\
  Ascii.eqb "x" (digit_char d) = false /\ Ascii.eqb "X" (digit_char d) = false.
Proof.
  destruct d as [d up]. cbn [fst]. intros Hd Hr.
  assert (d = 0 \/ d = 1 \/ d = 2 \/ d = 3 \/ d = 4 \/ d = 5 \/ d = 6 \/ d = 7 \/ d = 8 \/
    d = 9 \/ d = 10 \/ d = 11 \/ d = 12 \/ d = 13 \/ d = 14 \/ d = 15)%Z as Hin by lia.
  assert (forall e : Z, to_digit 16 (digit_char (d, up)) = Some e -> (e <? radix)%Z = true ->
           to_digit radix (digit_char (d, up)) = Some e) as Hto.
  { intros e. unfold to_digit. destruct (if is_digit_char _ then _ else _) as [x|]; [|done].
    destruct (x <? 16)%Z; [|done]. intros [= ->] ->. done. }
  destruct_or!; subst d; destruct up;
    (split; [apply Hto; [vm_compute; reflexivity|lia]|vm_compute; auto 10]).
Qed.

Lemma horner_mono radix acc ds :
  (2 <= radix)%Z -> (0 <= acc)%Z -> Forall (fun d => 0 <= d.1)%Z ds ->
  (acc <= horner radix acc ds)%Z.
Proof.
  intros Hr. revert acc. induction ds as [|d ds IH]; intros acc Ha Hds; cbn; [lia|].
  inversion_clear Hds. specialize (IH (acc * radix + d.1)%Z ltac:(nia) H0).
  unfold horner in IH. nia.
Qed.

(** The checked loop computes the value of the digits, or fails exactly
    when that value does not fit. *)
Lemma accumulate_digits radix acc ds :
  (2 <= radix <= 16)%Z -> (0 <= acc <= i128_max)%Z ->
  Forall (fun d => 0 <= d.1 < radix)%Z ds ->
  accumulate true radix acc (digit_string ds) =
    if (horner radix acc ds <=? i128_max)%Z then Some (horner radix acc ds) else None.
Proof.
  intros Hr. revert acc. induction ds as [|d ds IH]; intros acc Ha Hds.
  { cbn. by rewrite (proj2 (Z.leb_le _ _)) by lia. }
  inversion_clear Hds as [|? ? Hd Hds'].
  destruct (digit_char_facts d radix Hd ltac:(lia)) as [Ht _].
  cbn [digit_string accumulate]. rewrite Ht.
  assert (Forall (fun d => 0 <= d.1)%Z ds) by (eapply Forall_impl; [exact Hds'|]; cbn; lia).
  change (horner radix acc (d :: ds)) with (horner radix (acc * radix + d.1)%Z ds).
  assert (i128_min <= 0)%Z by (unfold i128_min; lia).
  pose proof (horner_mono radix (acc * radix + d.1)%Z ds ltac:(lia) ltac:(nia) H) as Hm.
  destruct (in_i128 (acc * radix)) eqn:E1; cycle 1.
  { destruct (Z.leb_spec (horner radix (acc * radix + d.1)%Z ds) i128_max); [|done].
    exfalso. apply not_true_iff_false in E1. apply E1, in_i128_spec. nia. }
  destruct (in_i128 (acc * radix + d.1)) eqn:E2; cycle 1.
  { destruct (Z.leb_spec (horner radix (acc * radix + d.1)%Z ds) i128_max); [|done].
    exfalso. apply not_true_iff_false in E2. apply E2, in_i128_spec. nia. }
  apply in_i128_spec in E2. apply IH; [nia|done].
Qed.

(** The digit string of a well-formed literal is what [radix_of] leaves to
    [from_str_radix]. *)
Lemma lit_wf_digits k ds :
  lit_wf k ds = true -> Forall (fun d => 0 <= d.1 < lit_radix k)%Z ds /\ ds <> [].
Proof.
  unfold lit_wf. intros [Hall Hk]%andb_true_iff. split.
  - apply Forall_forall. intros d Hd. rewrite forallb_forall in Hall.
    specialize (Hall d (proj1 (list_elem_of_In _ _) Hd)). lia.
  - intros ->. by destruct k.
Qed.

Lemma lit_radix_bound k : (2 <= lit_radix k <= 16)%Z.
Proof. destruct k; cbn; lia. Qed.

Lemma from_str_radix_digits radix ds :
  (2 <= radix <= 16)%Z -> ds <> [] -> Forall (fun d => 0 <= d.1 < radix)%Z ds ->
  from_str_radix (digit_string ds) radix =
    if (horner radix 0 ds <=? i128_max)%Z then Some (horner radix 0 ds) else None.
Proof.
  intros Hr Hne Hds. rewrite <-accumulate_digits; [|lia|unfold i128_max; lia|done].
  destruct ds as [|d ds]; [done|]. inversion_clear Hds.
  destruct (digit_char_facts d radix ltac:(lia) ltac:(lia)) as (_ & Hp & Hm & _).
  cbn [digit_string from_str_radix]. by rewrite Hp, Hm.
Qed.

(** Where the digits of a literal start. *)
Lemma radix_of_literal k ds :
  lit_wf k ds = true ->
  radix_of (lit_prefix k +:+ digit_string ds) =
    (String.length (lit_prefix k), lit_radix k).
Proof.
  intros Hwf. destruct (lit_wf_digits _ _ Hwf) as [Hds Hne].
  destruct ds as [|d ds]; [done|]. inversion_clear Hds as [|? ? Hd Hds'].
  pose proof (lit_radix_bound k).
  destruct (digit_char_facts d _ Hd ltac:(lia)) as (_ & _ & _ & _ & Hc & H0 & Hx & HX).
  unfold radix_of, get_range. destruct k as [| |u|u].
  - (* Dec *)
    destruct ds as [|d2 ds]; [done|]. inversion_clear Hds' as [|? ? Hd2 ?].
    destruct (digit_char_facts d2 _ Hd2 ltac:(lia)) as (_ & _ & _ & _ & Hc2 & _).
    unfold lit_wf in Hwf. apply andb_true_iff in Hwf as [_ Hz].
    apply negb_true_iff in Hz. rewrite Hz in H0.
    cbn. rewrite Hc. unfold is_char_boundary at 1. destruct ds as [|d3 ds].
    + cbn. rewrite !bool_decide_false by (intros [= Hd0 _]; rewrite Hd0 in H0; done).
      cbn. by rewrite H0.
    + inversion_clear H1 as [|? ? Hd3 ?].
      destruct (digit_char_facts d3 _ Hd3 ltac:(lia)) as (_ & _ & _ & _ & Hc3 & _).
      cbn. rewrite Hc3. cbn.
      rewrite !bool_decide_false by (intros [= Hd0 _]; rewrite Hd0 in H0; done).
      cbn. by rewrite H0.
  - (* Oct *)
    cbn. change (is_continuation "0") with false. cbn.
    assert (is_char_boundary (String "0" (String (digit_char d) (digit_string ds))) 2 = true) as ->.
    { unfold is_char_boundary. cbn. destruct ds as [|d2 ds]; [done|]. cbn.
      inversion_clear Hds' as [|? ? Hd2 ?].
      by destruct (digit_char_facts d2 _ Hd2 ltac:(lia)) as (_ & _ & _ & _ & -> & _). }
    cbn in Hd.
    rewrite !bool_decide_false; [done|..]; intros [= Heq];
      destruct (digit_char_facts d 8 Hd ltac:(lia)) as (Ht & _); rewrite Heq in Ht; done.
  - (* Hex *)
    destruct u; cbn; change (is_continuation "0") with false; cbn; rewrite Hc; done.
  - destruct u; cbn; change (is_continuation "0") with false; cbn; rewrite Hc; done.
Qed.

Lemma strip_minus_literal neg k ds :
  lit_wf k ds = true ->
  strip_minus (lit_string neg k ds) = (neg, lit_prefix k +:+ digit_string ds).
Proof.
  intros Hwf. destruct (lit_wf_digits _ _ Hwf) as [Hds Hne].
  unfold lit_string. destruct neg; [done|].
  destruct ds as [|d ds]; [done|]. inversion_clear Hds as [|? ? Hd _].
  pose proof (lit_radix_bound k).
  destruct (digit_char_facts d _ Hd ltac:(lia)) as (_ & _ & Hm & _).
  destruct k as [| |[]|[]]; cbn; by rewrite ?Hm.
Qed.

Lemma slice_suffix {E} (p s : string) :
  is_char_boundary (p +:+ s) (String.length p) = true ->
  slice (E:=E) (p +:+ s) (String.length p) (String.length (p +:+ s)) = Ok s.
Proof.
  intros Hb. unfold slice. rewrite Hb, is_char_boundary_end, Nat.leb_refl.
  rewrite length_string_app, (proj2 (Nat.leb_le _ _)) by lia. cbn.
  replace (_ - _) with (String.length s) by lia. by rewrite substring_app_r.
Qed.

Lemma literal_boundary k ds :
  lit_wf k ds = true ->
  is_char_boundary (lit_prefix k +:+ digit_string ds) (String.length (lit_prefix k)) = true.
Proof.
  intros Hwf. destruct (lit_wf_digits _ _ Hwf) as [Hds Hne].
  destruct ds as [|d ds]; [done|]. inversion_clear Hds as [|? ? Hd _].
  pose proof (lit_radix_bound k).
  destruct (digit_char_facts d _ Hd ltac:(lia)) as (_ & _ & _ & _ & Hc & _).
  unfold is_char_boundary. destruct k as [| |[]|[]]; cbn; by rewrite Hc.
Qed.

(** C37. Every C integer literal (decimal, octal, hexadecimal or binary, with
    an optional minus sign and with digit separators and u/l/z suffixes
    written anywhere) is read back as its mathematical value when the
    magnitude fits a signed 128-bit integer, and is rejected otherwise. *)
Theorem parse_number_literal_value (s : string) (neg : bool) (k : lit_kind)
    (ds : list (Z * bool)) :
  lit_wf k ds = true ->
  string_filter (fun c => negb (is_separator c)) s = lit_string neg k ds ->
  parse_number_literal s =
    Ok (if (lit_value k ds <=? i128_max)%Z
        then Some (if neg then - lit_value k ds else lit_value k ds)%Z
        else None).
Proof.
  intros Hwf Hs. unfold parse_number_literal. rewrite Hs, strip_minus_literal by done.
  rewrite radix_of_literal, slice_suffix by auto using literal_boundary. cbn [res_bind].
  destruct (lit_wf_digits _ _ Hwf) as [Hds Hne].
  rewrite from_str_radix_digits by (done || apply lit_radix_bound).
  fold (lit_value k ds). destruct (Z.leb_spec (lit_value k ds) i128_max) as [Hle|]; [|done].
  assert (0 <= lit_value k ds)%Z.
  { apply horner_mono; [apply lit_radix_bound|done|].
    eapply Forall_impl; [exact Hds|]. cbn. lia. }
  unfold neg_i128. destruct neg; [|done].
  destruct (Z.eqb_spec (lit_value k ds) i128_min); [|done]. unfold i128_min in *. lia.
Qed.

Lemma parse_number_literal_value_witness :
  parse_number_literal "-0x1'00uLL" = Ok (Some (-256)%Z).
Proof.
  apply (parse_number_literal_value _ true (Hex false) [(1, false); (0, false); (0, false)]%Z);
    vm_compute; reflexivity.
Defined.

Lemma parse_number_literal_ok (s : string) :
  utf8_ok s = true -> count_char "-" s <= 1 ->
  exists r, parse_number_literal s = Ok r /\
            match r with Some v => (i128_min <= v <= i128_max)%Z | None => True end.
Proof.
  intros Hs Hc. unfold parse_number_literal.
  set (f := string_filter _ s).
  assert (utf8_ok (strip_minus f).2 = true) as Hs'.
  { apply strip_minus_utf8, utf8_ok_filter; [|done].
    intros c Hsep. apply is_separator_ascii. by destruct (is_separator c). }
  pose proof (strip_minus_count f) as Hcount.
  pose proof (count_char_filter "-" (fun c => negb (is_separator c)) s : _ >= count_char _ f).
  destruct (strip_minus f) as [neg s']. cbn [fst snd] in *.
  destruct (radix_of_offset s' Hs') as [Hle Hb].
  destruct (radix_of s') as [o radix] eqn:Er. cbn in Hle, Hb. unfold slice.
  rewrite (proj2 (Nat.leb_le _ _) Hle), Nat.leb_refl, Hb, is_char_boundary_end. cbn [andb res_bind].
  destruct (from_str_radix _ radix) as [v|] eqn:Ev; [|by eexists].
  pose proof (proj1 (in_i128_spec _) (from_str_radix_range _ _ _ Ev)).
  destruct neg; [|by eexists].
  apply from_str_radix_nonneg in Ev; [|by apply (radix_of_nonneg s' o)|]; cycle 1.
  { pose proof (count_char_substring "-" s' o (String.length s' - o)). lia. }
  unfold neg_i128. destruct (Z.eqb_spec v i128_min); cbn; [unfold i128_min in *; lia|].
  eexists; split; [done|]. unfold i128_min, i128_max in *. lia.
Qed.

(** On any UTF-8 input with at most one minus sign, number literal or
    not, [parse_number_literal] returns: no slice is out of range or off a
    character boundary and the final negation does not overflow.  What it
    returns is nothing or a value of the signed 128-bit range. *)
Theorem parse_number_literal_total (s : string) :
  utf8_ok s = true -> count_char "-" s <= 1 ->
  exists r, parse_number_literal s = Ok r /\
            match r with Some v => (i128_min <= v <= i128_max)%Z | None => True end.
Proof. by apply parse_number_literal_ok. Qed.

Lemma parse_number_literal_total_witness :
  exists r, parse_number_literal "1.0e-5f" = Ok r /\
            match r with Some v => (i128_min <= v <= i128_max)%Z | None => True end.
Proof. apply (parse_number_literal_total "1.0e-5f"); vm_compute; [reflexivity|lia]. Defined.
