(* ===== verification/Result.v ===== *)
(** * Query results: [src/src/result.rs] (matching half)

    A [QueryResult] is a list of captured source ranges, a map from
    variables to positions in that list and the range of the outermost
    node.  [env] is the abstract view of a result, the map from variables
    to the text they are bound to; [merge] is shown to be the union of
    compatible environments, [chainable] to be compatibility. *)

From Stdlib Require Import Ascii.
From stdpp Require Import base numbers gmap strings list.
From S2P Require Import Prelude Text.

(** [Range<usize>] *)
Record range := Range { rstart : nat; rend : nat }.
#[export] Instance range_eq_dec : EqDecision range.
Proof. solve_decision. Defined.

Record CaptureResult := mkCapture {
  cr_range : range;
  query_id : nat;
  capture_idx : Z;   (* u32 *)
}.
#[export] Instance CaptureResult_eq_dec : EqDecision CaptureResult.
Proof. solve_decision. Defined.

Record QueryResult := mkQR {
  captures : list CaptureResult;
  vars : gmap string nat;
  function : range;
}.
#[export] Instance QueryResult_eq_dec : EqDecision QueryResult.
Proof. solve_decision. Defined.

Definition start_offset (q : QueryResult) : nat := rstart (function q).
Definition function_range (q : QueryResult) : range := function q.

(** [&source[range]] *)
Definition text {E : Type} (source : string) (r : range) : res E string :=
  slice source (rstart r) (rend r).

Definition value {E : Type} (q : QueryResult) (var source : string)
    : res E (option string) :=
  match vars q !! var with
  | None => Ok None
  | Some i =>
      let* c := unwrap (captures q !! i) in
      let* s := text source (cr_range c) in
      Ok (Some s)
  end.

(** The ordering test of [merge]: some range of [other] starts at or
    before the end of a range of [self]. *)
Definition out_of_order (self other : QueryResult) : bool :=
  existsb (fun r => existsb (fun r2 => rstart (cr_range r) <=? rend (cr_range r2))
                            (captures self))
          (captures other).

(** The loop of [merge] over the variables of [other], in the iteration
    order given by [kvs]; [None] is the early return. *)
Fixpoint merge_vars {E : Type} (self other : QueryResult) (source : string)
    (kvs : list (string * nat)) (acc : gmap string nat) : res E (option (gmap string nat)) :=
  match kvs with
  | [] => Ok (Some acc)
  | (k, v) :: kvs =>
      let* mine := value self k source in
      match mine with
      | None => merge_vars self other source kvs (<[k := v + length (captures self)]> acc)
      | Some s =>
          let* theirs := value other k source in
          let* t := unwrap theirs in
          if bool_decide (s = t) then merge_vars self other source kvs acc else Ok None
      end
  end.

Definition merge {E : Type} (self other : QueryResult) (source : string)
    (enforce_order : bool) : res E (option QueryResult) :=
  if enforce_order && out_of_order self other then Ok None
  else
    let* vs := merge_vars self other source (map_to_list (vars other)) (vars self) in
    match vs with
    | None => Ok None
    | Some vs => Ok (Some (mkQR (captures self ++ captures other) vs (function self)))
    end.

#[global] Arguments merge : simpl never.

(** [any] of [chainable]: does some variable of [other] clash? *)
Fixpoint clashes {E : Type} (self : QueryResult) (source : string) (other : QueryResult)
    (other_source : string) (kvs : list (string * nat)) : res E bool :=
  match kvs with
  | [] => Ok false
  | (k, _) :: kvs =>
      let* mine := value self k source in
      let* clash :=
        match mine with
        | Some s =>
            let* theirs := value other k other_source in
            let* t := unwrap theirs in
            Ok (negb (bool_decide (s = t)))
        | None => Ok false
        end in
      if clash then Ok true else clashes self source other other_source kvs
  end.

Definition chainable {E : Type} (self : QueryResult) (source : string)
    (other : QueryResult) (other_source : string) : res E bool :=
  let* b := clashes self source other other_source (map_to_list (vars other)) in
  Ok (negb b).

Definition get_capture_result (q : QueryResult) (qid : nat) (cidx : Z)
    : option CaptureResult :=
  List.find (fun c => (capture_idx c =? cidx)%Z && (query_id c =? qid)) (captures q).

(** [merge_results] / [QueryTree::merge_query_results]: all pairs, in
    order, that merge. *)
Fixpoint merge_into {E : Type} (r : QueryResult) (sub_results : list QueryResult)
    (source : string) (enforce_order : bool) : res E (list QueryResult) :=
  match sub_results with
  | [] => Ok []
  | s :: ss =>
      let* m := merge r s source enforce_order in
      let* ms := merge_into r ss source enforce_order in
      Ok (match m with Some m => m :: ms | None => ms end)
  end.

Fixpoint merge_results {E : Type} (results sub_results : list QueryResult)
    (source : string) (enforce_order : bool) : res E (list QueryResult) :=
  match results with
  | [] => Ok []
  | r :: rs =>
      let* ms := merge_into r sub_results source enforce_order in
      let* ms' := merge_results rs sub_results source enforce_order in
      Ok (ms ++ ms')
  end.

(** ** Well-formed results and their environment *)

(** The text a variable is bound to, when its position and its range make
    sense. *)
Definition binding (source : string) (q : QueryResult) (i : nat) : option string :=
  c ← captures q !! i; get_range source (rstart (cr_range c)) (rend (cr_range c)).

(** Every variable points at a captured range that is a slice of the
    source. *)
Definition wf_result (source : string) (q : QueryResult) : Prop :=
  map_Forall (fun _ i => is_Some (binding source q i)) (vars q).

#[export] Instance wf_result_dec source q : Decision (wf_result source q).
Proof. unfold wf_result. apply _. Defined.

Definition env (source : string) (q : QueryResult) : gmap string string :=
  omap (binding source q) (vars q).

(** The result [merge] builds when it succeeds. *)
Definition merged (self other : QueryResult) : QueryResult :=
  mkQR (captures self ++ captures other)
       (vars self ∪ ((fun v => v + length (captures self)) <$> vars other))
       (function self).

(** The two conditions of a merge: coherent variables and, on request,
    [other] entirely after [self]. *)
Definition mergeable (source : string) (enforce_order : bool) (q1 q2 : QueryResult) : bool :=
  negb (enforce_order && out_of_order q1 q2) &&
  bool_decide (map_agree (env source q1) (env source q2)).

#[global] Arguments mergeable : simpl never.

(** The same said of the ranges themselves: every range of [q2] starts
    strictly after the end offset of every range of [q1]. *)
Definition starts_after (q1 q2 : QueryResult) : Prop :=
  forall c1 c2, c1 ∈ captures q1 -> c2 ∈ captures q2 ->
    rend (cr_range c1) < rstart (cr_range c2).

(** What two results must satisfy to be merged. *)
Definition compatible (source : string) (enforce_order : bool) (q1 q2 : QueryResult) : Prop :=
  (enforce_order = true -> starts_after q1 q2) /\
  map_agree (env source q1) (env source q2).

Lemma out_of_order_false q1 q2 : out_of_order q1 q2 = false <-> starts_after q1 q2.
Proof.
  unfold out_of_order, starts_after.
  rewrite <-not_true_iff_false, existsb_exists. split.
  - intros H c1 c2 H1%list_elem_of_In H2%list_elem_of_In. apply Nat.nle_gt. intros Hle.
    apply H. exists c2. split; [done|]. apply existsb_exists. exists c1. by rewrite Nat.leb_le.
  - intros H (c2 & H2 & (c1 & H1 & Hle%Nat.leb_le)%existsb_exists).
    rewrite <-list_elem_of_In in H1, H2. specialize (H c1 c2 H1 H2). lia.
Qed.

Lemma mergeable_spec source eo q1 q2 :
  mergeable source eo q1 q2 = true <-> compatible source eo q1 q2.
Proof.
  unfold mergeable, compatible.
  rewrite andb_true_iff, bool_decide_eq_true, negb_true_iff, <-out_of_order_false.
  destruct eo; cbn; naive_solver.
Qed.

(** All pairs that merge, in order. *)
Definition merge_pairs (source : string) (eo : bool) (rs ss : list QueryResult)
    : list QueryResult :=
  flat_map (fun r =>
    flat_map (fun s => if mergeable source eo r s then [merged r s] else []) ss) rs.

Section merging.
Context {E : Type} (source : string).
Implicit Types q r : QueryResult.

Lemma text_get_range (r : range) :
  text (E:=E) source r = unwrap (get_range source (rstart r) (rend r)).
Proof. apply slice_get. Qed.

(** On a well-formed result the accessor never panics and reads [env]. *)
Lemma value_env q k : wf_result source q -> value (E:=E) q k source = Ok (env source q !! k).
Proof.
  intros Hwf. unfold value, env. rewrite lookup_omap.
  destruct (vars q !! k) as [i|] eqn:Hk; [|done]. cbn.
  destruct (Hwf _ _ Hk) as [t Ht]. rewrite Ht. unfold binding in Ht.
  destruct (captures q !! i) as [c|]; [|done]. cbn in *.
  by rewrite text_get_range, Ht.
Qed.

Lemma env_is_Some q k : wf_result source q ->
  is_Some (env source q !! k) <-> is_Some (vars q !! k).
Proof.
  intros Hwf. unfold env. rewrite lookup_omap.
  destruct (vars q !! k) as [i|] eqn:Hk; cbn; [|done].
  pose proof (Hwf _ _ Hk). naive_solver.
Qed.

Definition agree_at q1 q2 (k : string) : Prop :=
  match env source q1 !! k, env source q2 !! k with
  | Some s, Some t => s = t
  | _, _ => True
  end.
#[local] Instance agree_at_dec q1 q2 k : Decision (agree_at q1 q2 k).
Proof. unfold agree_at. repeat case_match; apply _. Defined.

Lemma Forall_cons_bool q1 q2 (kv : string * nat) kvs :
  bool_decide (Forall (fun kv => agree_at q1 q2 kv.1) (kv :: kvs)) =
  bool_decide (agree_at q1 q2 kv.1) && bool_decide (Forall (fun kv => agree_at q1 q2 kv.1) kvs).
Proof. rewrite <-bool_decide_and. apply bool_decide_ext. by rewrite Forall_cons. Qed.

Definition add_var q1 (m : gmap string nat) (kv : string * nat) : gmap string nat :=
  match env source q1 !! kv.1 with
  | Some _ => m
  | None => <[kv.1 := kv.2 + length (captures q1)]> m
  end.

Lemma merge_vars_spec q1 q2 kvs acc :
  wf_result source q1 -> wf_result source q2 ->
  (forall kv, kv ∈ kvs -> vars q2 !! kv.1 = Some kv.2) ->
  merge_vars (E:=E) q1 q2 source kvs acc =
    Ok (if bool_decide (Forall (fun kv => agree_at q1 q2 kv.1) kvs)
        then Some (foldl (add_var q1) acc kvs) else None).
Proof.
  intros H1 H2. revert acc. induction kvs as [|[k v] kvs IH]; intros acc Hin; [done|].
  assert (is_Some (env source q2 !! k)) as [t Ht].
  { apply env_is_Some; [done|]. exists v. apply (Hin (k, v)). set_solver. }
  cbn. rewrite (value_env q1 k H1). cbn.
  assert (agree_at q1 q2 k <->
    match env source q1 !! k with Some s => s = t | None => True end) as Hag.
  { unfold agree_at. rewrite Ht. by destruct (env source q1 !! k). }
  unfold add_var at 2. cbn.
  destruct (env source q1 !! k) as [s|] eqn:Hs.
  - rewrite (value_env q2 k H2), Ht. cbn. destruct (bool_decide_reflect (s = t)) as [Hst|Hst].
    + rewrite IH by set_solver. by rewrite Forall_cons_bool, (bool_decide_true (agree_at _ _ _)) by tauto.
    + by rewrite Forall_cons_bool, (bool_decide_false (agree_at _ _ _)) by tauto.
  - rewrite IH by set_solver. by rewrite Forall_cons_bool, (bool_decide_true (agree_at _ _ _)) by tauto.
Qed.

Lemma foldl_add_var q1 kvs acc k :
  NoDup kvs.*1 ->
  foldl (add_var q1) acc kvs !! k =
    match env source q1 !! k, (list_to_map kvs : gmap string nat) !! k with
    | None, Some v => Some (v + length (captures q1))
    | _, _ => acc !! k
    end.
Proof.
  revert acc. induction kvs as [|[k' v] kvs IH]; intros acc Hnd; cbn.
  { rewrite lookup_empty. by destruct (env source q1 !! k). }
  cbn in Hnd. apply NoDup_cons in Hnd as [Hni Hnd].
  rewrite IH by done. unfold add_var. cbn.
  destruct (decide (k = k')) as [->|Hne].
  - rewrite lookup_insert_eq.
    destruct (env source q1 !! k') eqn:He; [done|].
    rewrite (not_elem_of_list_to_map_1 kvs k') by done. by rewrite lookup_insert_eq.
  - rewrite (lookup_insert_ne _ k' k) by done.
    destruct (env source q1 !! k'); [done|].
    by rewrite (lookup_insert_ne acc k' k) by done.
Qed.

(** The merged variables do not depend on the hash map's iteration order. *)
Lemma merge_vars_permutation q1 q2 kvs :
  wf_result source q1 -> wf_result source q2 ->
  kvs ≡ₚ map_to_list (vars q2) ->
  merge_vars (E:=E) q1 q2 source kvs (vars q1) =
    Ok (if bool_decide (map_agree (env source q1) (env source q2))
        then Some (vars (merged q1 q2)) else None).
Proof.
  intros H1 H2 Hp. rewrite merge_vars_spec; [|done..|]; cycle 1.
  { intros [k v]. rewrite Hp. by rewrite elem_of_map_to_list. }
  assert (bool_decide (Forall (fun kv => agree_at q1 q2 kv.1) kvs) =
    bool_decide (map_agree (env source q1) (env source q2))) as ->.
  { apply bool_decide_ext. rewrite Hp, Forall_forall, map_agree_spec. split.
    - intros Hall k s t Hs Ht. destruct (proj1 (env_is_Some q2 k H2)) as [v Hv]; [by eexists|].
      specialize (Hall (k, v)). rewrite elem_of_map_to_list in Hall.
      specialize (Hall Hv). unfold agree_at in Hall. cbn in Hall. by rewrite Hs, Ht in Hall.
    - intros Hag [k v] _. cbn. unfold agree_at.
      destruct (env source q1 !! k) eqn:?, (env source q2 !! k) eqn:?; eauto. }
  case_bool_decide as Hag; [|done]. do 2 f_equal. cbn.
  apply map_eq. intros k. rewrite foldl_add_var; cycle 1.
  { rewrite Hp. apply NoDup_fst_map_to_list. }
  assert ((list_to_map kvs : gmap string nat) = vars q2) as ->.
  { rewrite (list_to_map_proper kvs (map_to_list (vars q2))); [apply list_to_map_to_list| |done].
    rewrite Hp. apply NoDup_fst_map_to_list. }
  rewrite lookup_union, lookup_fmap.
  pose proof (env_is_Some q1 k H1) as Hd.
  destruct (env source q1 !! k), (vars q1 !! k), (vars q2 !! k); try done; cbn;
    naive_solver.
Qed.

Lemma merge_spec q1 q2 eo :
  wf_result source q1 -> wf_result source q2 ->
  merge (E:=E) q1 q2 source eo =
    Ok (if mergeable source eo q1 q2 then Some (merged q1 q2) else None).
Proof.
  intros H1 H2. unfold merge, mergeable.
  destruct (eo && out_of_order q1 q2); [done|].
  rewrite merge_vars_permutation by done. by case_bool_decide.
Qed.

Lemma binding_merged_l q1 q2 i t :
  binding source q1 i = Some t -> binding source (merged q1 q2) i = Some t.
Proof.
  unfold binding. destruct (captures q1 !! i) as [c|] eqn:Hc; [|done]. cbn.
  by rewrite (lookup_app_l_Some _ _ _ _ Hc).
Qed.

Lemma binding_merged_r q1 q2 i :
  binding source (merged q1 q2) (i + length (captures q1)) = binding source q2 i.
Proof.
  unfold binding. cbn. rewrite lookup_app_r by lia.
  by replace (i + _ - _) with i by lia.
Qed.

Lemma merged_wf q1 q2 :
  wf_result source q1 -> wf_result source q2 -> wf_result source (merged q1 q2).
Proof.
  intros H1 H2 k i. cbn. rewrite lookup_union_Some_raw, lookup_fmap_Some.
  intros [Hk|(_ & j & <- & Hk)].
  - destruct (H1 _ _ Hk) as [t Ht]. exists t. by apply binding_merged_l.
  - rewrite binding_merged_r. by apply (H2 _ _ Hk).
Qed.

Lemma env_merged q1 q2 :
  wf_result source q1 -> env source (merged q1 q2) = env source q1 ∪ env source q2.
Proof.
  intros H1. apply map_eq. intros k. unfold env.
  rewrite lookup_union, !lookup_omap. cbn. rewrite lookup_union, lookup_fmap.
  destruct (vars q1 !! k) as [i|] eqn:Hi; cbn.
  - destruct (H1 _ _ Hi) as [t Ht]. rewrite Ht.
    destruct (vars q2 !! k) as [j|]; cbn; rewrite (binding_merged_l _ _ _ _ Ht);
      [by destruct (binding source q2 j)|done].
  - destruct (vars q2 !! k) as [j|]; cbn; [|done].
    rewrite binding_merged_r. by destruct (binding source q2 j).
Qed.

Lemma out_of_order_merged_l q1 q2 q3 :
  out_of_order (merged q1 q2) q3 = out_of_order q1 q3 || out_of_order q2 q3.
Proof.
  unfold out_of_order. cbn. induction (captures q3) as [|c cs IH]; [done|]. cbn.
  rewrite IH, existsb_app.
  repeat match goal with |- context [existsb ?f ?l] => destruct (existsb f l) end; done.
Qed.

Lemma out_of_order_merged_r q1 q2 q3 :
  out_of_order q1 (merged q2 q3) = out_of_order q1 q2 || out_of_order q1 q3.
Proof. unfold out_of_order. cbn. by rewrite existsb_app. Qed.

Lemma map_agree_union (m1 m2 m3 : gmap string string) :
  map_agree m1 m2 ->
  map_agree (m1 ∪ m2) m3 <-> map_agree m1 m3 /\ map_agree m2 m3.
Proof.
  intros H12. rewrite !map_agree_spec in *. split.
  - intros H. split; intros k x y Hx Hy; eapply H; try done.
    + by apply lookup_union_Some_l.
    + rewrite lookup_union, Hx. destruct (m1 !! k) eqn:Hk; cbn; [|done].
      f_equal. by eapply H12.
  - intros [H1 H2] k x y. rewrite lookup_union_Some_raw. naive_solver.
Qed.

Lemma mergeable_merged_l eo q1 q2 q3 :
  wf_result source q1 -> mergeable source eo q1 q2 = true ->
  mergeable source eo (merged q1 q2) q3 =
    mergeable source eo q1 q3 && mergeable source eo q2 q3.
Proof.
  intros H1 [_ Hag%bool_decide_eq_true]%andb_true_iff. unfold mergeable.
  rewrite out_of_order_merged_l, env_merged by done.
  rewrite (bool_decide_ext _ _ (map_agree_union _ _ _ Hag)), bool_decide_and.
  destruct eo, (out_of_order q1 q3), (out_of_order q2 q3), (bool_decide (map_agree (env source q1) _));
    done.
Qed.

Lemma mergeable_merged_r eo q1 q2 q3 :
  wf_result source q2 -> mergeable source eo q2 q3 = true ->
  mergeable source eo q1 (merged q2 q3) =
    mergeable source eo q1 q2 && mergeable source eo q1 q3.
Proof.
  intros H2 [_ Hag%bool_decide_eq_true]%andb_true_iff. unfold mergeable.
  rewrite out_of_order_merged_r, env_merged by done.
  assert (bool_decide (map_agree (env source q1) (env source q2 ∪ env source q3)) =
    bool_decide (map_agree (env source q1) (env source q2)) &&
    bool_decide (map_agree (env source q1) (env source q3))) as ->.
  { rewrite <-bool_decide_and. apply bool_decide_ext.
    rewrite !(symmetry_iff map_agree (env source q1)). by apply map_agree_union. }
  destruct eo, (out_of_order q1 q2), (out_of_order q1 q3),
    (bool_decide (map_agree (env source q1) (env source q2))); done.
Qed.

Lemma merged_assoc q1 q2 q3 : merged (merged q1 q2) q3 = merged q1 (merged q2 q3).
Proof.
  unfold merged. cbn. f_equal; [by rewrite app_assoc|].
  rewrite map_fmap_union, <-map_union_assoc, <-map_fmap_compose. do 2 f_equal.
  apply map_fmap_ext. intros k v _. cbn. rewrite length_app. lia.
Qed.

Lemma merge_results_spec rs ss eo :
  Forall (wf_result source) rs -> Forall (wf_result source) ss ->
  merge_results (E:=E) rs ss source eo = Ok (merge_pairs source eo rs ss).
Proof.
  intros Hrs Hss. induction Hrs as [|r rs Hr Hrs IH]; [done|]. cbn.
  assert (merge_into (E:=E) r ss source eo =
    Ok (flat_map (fun s => if mergeable source eo r s then [merged r s] else []) ss)) as ->.
  { clear IH. induction Hss as [|s ss Hs Hss IH']; [done|]. cbn.
    rewrite merge_spec, IH' by done. cbn. by destruct (mergeable source eo r s). }
  cbn. by rewrite IH.
Qed.

Lemma elem_of_merge_pairs rs ss eo q :
  q ∈ merge_pairs source eo rs ss <->
  exists r s, r ∈ rs /\ s ∈ ss /\ mergeable source eo r s = true /\ q = merged r s.
Proof.
  unfold merge_pairs. rewrite list_elem_of_In, in_flat_map. split.
  - intros (r & Hr & (s & Hs & Hq)%in_flat_map). exists r, s.
    rewrite !list_elem_of_In. destruct (mergeable source eo r s); naive_solver.
  - intros (r & s & Hr & Hs & Hm & ->). exists r. rewrite <-list_elem_of_In. split; [done|].
    apply in_flat_map. exists s. rewrite <-list_elem_of_In, Hm. set_solver.
Qed.

Lemma merge_pairs_wf rs ss eo :
  Forall (wf_result source) rs -> Forall (wf_result source) ss ->
  Forall (wf_result source) (merge_pairs source eo rs ss).
Proof.
  rewrite !Forall_forall. intros Hrs Hss q (r & s & Hr & Hs & _ & ->)%elem_of_merge_pairs.
  auto using merged_wf.
Qed.
End merging.

Lemma chainable_spec {E} q1 s1 q2 s2 :
  wf_result s1 q1 -> wf_result s2 q2 ->
  chainable (E:=E) q1 s1 q2 s2 = Ok (bool_decide (map_agree (env s1 q1) (env s2 q2))).
Proof.
  intros H1 H2. unfold chainable.
  assert (forall kvs, (forall kv, kv ∈ kvs -> vars q2 !! kv.1 = Some kv.2) ->
    clashes (E:=E) q1 s1 q2 s2 kvs = Ok (existsb (fun kv =>
      match env s1 q1 !! kv.1, env s2 q2 !! kv.1 with
      | Some s, Some t => negb (bool_decide (s = t)) | _, _ => false end) kvs)) as Hc.
  { induction kvs as [|[k v] kvs IH]; intros Hin; [done|]. cbn.
    rewrite (value_env s1 q1 k H1). cbn.
    assert (is_Some (env s2 q2 !! k)) as [t Ht].
    { apply env_is_Some; [done|]. exists v. apply (Hin (k, v)). set_solver. }
    destruct (env s1 q1 !! k) as [s|]; cbn; [|apply IH; set_solver].
    rewrite (value_env s2 q2 k H2), Ht. cbn.
    destruct (bool_decide (s = t)); cbn; [|done]. apply IH. set_solver. }
  rewrite Hc by (intros [k v]; apply elem_of_map_to_list). cbn. f_equal.
  apply eq_bool_prop_intro. rewrite negb_True, bool_decide_spec, map_agree_spec. split.
  - intros Hex k s t Hs Ht. destruct (proj1 (env_is_Some s2 q2 k H2)) as [v Hv]; [by eexists|].
    destruct (decide (s = t)) as [|Hne]; [done|]. exfalso. apply Hex.
    apply Is_true_true, existsb_exists. exists (k, v). cbn.
    rewrite Hs, Ht, bool_decide_false by done. split; [|done].
    apply list_elem_of_In. by apply elem_of_map_to_list.
  - intros Hag ([k v] & _ & Hb)%Is_true_true%existsb_exists. cbn in Hb.
    destruct (env s1 q1 !! k) eqn:Hs, (env s2 q2 !! k) eqn:Ht; try done.
    rewrite bool_decide_true in Hb by eauto. done.
Qed.

(** C33. [merge] is the union of compatible environments: for two results of
    one source whose variables point at ranges of it, it returns (never
    panics) and succeeds exactly when the two agree on the text of every
    shared variable and, if ordering is enforced, every range of the second
    starts strictly after the end offset of every range of the first
    (a range that starts where another ends is refused); the merged result
    is well formed, binds each variable of either result to the text it had
    there, concatenates the captures and keeps the first result's outermost
    node.  The outcome is the same for every iteration order of the hash map
    of variables. *)
Theorem merge_refines_union {E} source q1 q2 eo :
  wf_result source q1 -> wf_result source q2 ->
  exists m, merge (E:=E) q1 q2 source eo = Ok m /\
    match m with
    | Some q =>
        compatible source eo q1 q2 /\ wf_result source q /\
        env source q = env source q1 ∪ env source q2 /\
        captures q = captures q1 ++ captures q2 /\ function q = function q1 /\
        (forall kvs, kvs ≡ₚ map_to_list (vars q2) ->
           merge_vars (E:=E) q1 q2 source kvs (vars q1) = Ok (Some (vars q)))
    | None => ~ compatible source eo q1 q2
    end.
Proof.
  intros H1 H2. rewrite merge_spec by done. eexists; split; [done|].
  pose proof (mergeable_spec source eo q1 q2) as Hspec.
  destruct (mergeable source eo q1 q2) eqn:Hm; [|by rewrite <-Hspec].
  split; [by apply Hspec|]. repeat split; auto using merged_wf, env_merged.
  intros kvs Hkvs. rewrite merge_vars_permutation by done.
  apply andb_true_iff in Hm as [_ ->]. done.
Qed.

Definition sample_source : string := "int a = x; int b = y;".
Definition sample_qr1 : QueryResult := mkQR [mkCapture (Range 4 5) 0 0] {["$v" := 0]} (Range 0 12).
Definition sample_qr2 : QueryResult := mkQR [mkCapture (Range 15 16) 0 0] {["$w" := 0]} (Range 12 21).

Lemma merge_refines_union_witness :
  exists m, merge (E:=Empty_set) sample_qr1 sample_qr2 sample_source true = Ok (Some m) /\
    env sample_source m = {["$v" := "a"; "$w" := "b"]}.
Proof.
  destruct (merge_refines_union (E:=Empty_set) sample_source sample_qr1 sample_qr2 true)
    as ([m|] & Hm & Hp).
  - by_decide.
  - by_decide.
  - exists m. split; [exact Hm|]. destruct Hp as (_ & _ & He & _). rewrite He.
    by_decide.
  - exfalso. apply Hp, mergeable_spec. vm_compute. reflexivity.
Defined.

(** Merging is associative: folding a chain of patterns into a result
    from the left, as the multi-pattern loop does, gives the same result
    (or the same failure) as merging the tail first, ordering checks
    included. *)
Theorem merge_assoc {E} source q1 q2 q3 eo :
  wf_result source q1 -> wf_result source q2 -> wf_result source q3 ->
  (let* m := merge (E:=E) q1 q2 source eo in
   match m with Some q => merge q q3 source eo | None => Ok None end) =
  (let* m := merge (E:=E) q2 q3 source eo in
   match m with Some q => merge q1 q source eo | None => Ok None end).
Proof.
  intros H1 H2 H3. rewrite (merge_spec source q1 q2), (merge_spec source q2 q3) by done. cbn.
  destruct (mergeable source eo q1 q2) eqn:E12, (mergeable source eo q2 q3) eqn:E23;
    rewrite ?merge_spec by auto using merged_wf;
    rewrite ?mergeable_merged_l, ?mergeable_merged_r, ?E12, ?E23, ?andb_false_r, ?andb_true_r by done;
    rewrite ?merged_assoc; done.
Qed.

Lemma merge_assoc_witness :
  (let* m := merge (E:=Empty_set) sample_qr1 sample_qr2 sample_source true in
   match m with Some q => merge q sample_qr2 sample_source true | None => Ok None end) = Ok None.
Proof.
  rewrite (merge_assoc (E:=Empty_set) sample_source sample_qr1 sample_qr2 sample_qr2 true);
    [vm_compute; reflexivity|by_decide..].
Defined.

(** [chainable] decides compatibility of the two environments, each read
    in its own source file; in particular it does not matter which of the
    two results it is called on. *)
Theorem chainable_compatible {E} q1 s1 q2 s2 :
  wf_result s1 q1 -> wf_result s2 q2 ->
  chainable (E:=E) q1 s1 q2 s2 = Ok (bool_decide (map_agree (env s1 q1) (env s2 q2))) /\
  chainable (E:=E) q2 s2 q1 s1 = chainable (E:=E) q1 s1 q2 s2.
Proof.
  intros H1 H2. rewrite !chainable_spec by done. split; [done|]. f_equal.
  apply bool_decide_ext. by split; intros ?; symmetry.
Qed.

Lemma chainable_compatible_witness :
  chainable (E:=Empty_set) sample_qr2 sample_source sample_qr1 sample_source = Ok true.
Proof.
  rewrite (proj2 (chainable_compatible (E:=Empty_set) sample_qr1 sample_source sample_qr2 sample_source
    ltac:(by_decide)
    ltac:(by_decide))).
  vm_compute. reflexivity.
Defined.
