(* ===== verification/TreeSitter.v ===== *)
(** * The interface of the libraries the engine calls

    tree-sitter (syntax trees, queries and their matches) and fancy-regex
    are not part of this repository.  The engine is modelled against the
    interface below, a class of operations; [TreeSitterLaws] states what
    their documentation promises and is assumed only where it is named. *)

From stdpp Require Import base numbers strings list.
From S2P Require Import Prelude Text Result.

(** A match of a compiled query: the pattern that matched and the captured
    nodes with their capture index. *)
Record QueryMatch (node : Type) := mkMatch {
  pattern_index : nat;
  m_captures : list (node * nat);
}.
Arguments mkMatch {node}.
Arguments pattern_index {node}.
Arguments m_captures {node}.

Class TreeSitter := {
  (** compiled queries, [tree_sitter::Query] *)
  TSQuery : Type;
  pattern_count : TSQuery -> nat;
  (** nodes of a parsed source file, [tree_sitter::Node] *)
  Node : Type;
  node_id : Node -> nat;
  byte_range : Node -> range;
  named_child_count : Node -> nat;
  (** [QueryCursor::matches] *)
  ts_matches : TSQuery -> Node -> string -> list (QueryMatch Node);
  (** compiled regular expressions, [fancy_regex::Regex]; [None] is a run-time
      error of the matcher *)
  Regex : Type;
  is_match : Regex -> string -> option bool;
}.

(** Documented behaviour: node ids are unique within a tree, a match names a
    pattern of its query, nodes cover slices of the parsed text. *)
Class TreeSitterLaws (TS : TreeSitter) (source : string) : Prop := {
  node_id_inj : forall n1 n2 : Node, node_id n1 = node_id n2 -> n1 = n2;
  pattern_index_lt : forall q root m,
    m ∈ ts_matches q root source -> pattern_index m < pattern_count q;
  byte_range_slice : forall n : Node,
    is_Some (get_range source (rstart (byte_range n)) (rend (byte_range n)));
}.
