(* ===== verification/Capture.v ===== *)
(** * Query trees: the data of [src/src/capture.rs] and [src/src/query.rs]

    A weggli query is a tree of tree-sitter queries: each node carries its
    compiled query, the meaning of each capture index, the negative
    sub-queries and an id.  Sub-queries hang off captures.  The source's
    mutual recursion between [QueryTree], [Capture] and [NegativeQuery] is
    a nested one here: the latter two are parametrised by the tree type. *)

From Stdlib Require Import Ascii.
From stdpp Require Import base numbers gmap strings list.
From S2P Require Import Prelude Text Result TreeSitter.

Inductive Capture (regex tree : Type) : Type :=
| Display
| Variable_ (name : string) (constraint : option (bool * regex))
| Check (text : string)
| Number (n : Z)
| CallExpQuery (argument_count : nat) (minimum_mode : bool)
| SubWildQuery (t : tree)
| SubMultiQuery (t : tree).
Arguments Display {regex tree}.
Arguments Variable_ {regex tree}.
Arguments Check {regex tree}.
Arguments Number {regex tree}.
Arguments CallExpQuery {regex tree}.
Arguments SubWildQuery {regex tree}.
Arguments SubMultiQuery {regex tree}.

Record NegativeQuery (tree : Type) := mkNegative {
  neg_qt : tree;
  previous_capture_index : Z;   (* i64 *)
}.
Arguments mkNegative {tree}.
Arguments neg_qt {tree}.
Arguments previous_capture_index {tree}.

(** [add_capture]: the index of the new capture and the extended vector. *)
Definition add_capture {C : Type} (caps : list C) (c : C) : nat * list C :=
  (length caps, caps ++ [c]).

Definition is_sub_multi {regex tree} (c : Capture regex tree) : bool :=
  match c with SubMultiQuery _ => true | _ => false end.

(** The sub-query of a capture. *)
Definition sub_query {regex tree} (c : Capture regex tree) : option tree :=
  match c with SubWildQuery t | SubMultiQuery t => Some t | _ => None end.

Section query_tree.
Context `{TS : TreeSitter}.

Inductive QueryTree : Type :=
| mkQT (query : TSQuery)
       (qcaptures : list (Capture Regex QueryTree))
       (negations : list (NegativeQuery QueryTree))
       (qvariables : gset string)
       (qid : nat).

Definition query (t : QueryTree) : TSQuery := let 'mkQT q _ _ _ _ := t in q.
Definition qcaptures (t : QueryTree) := let 'mkQT _ c _ _ _ := t in c.
Definition negations (t : QueryTree) := let 'mkQT _ _ n _ _ := t in n.
Definition qvariables (t : QueryTree) : gset string := let 'mkQT _ _ _ v _ := t in v.
Definition qid (t : QueryTree) : nat := let 'mkQT _ _ _ _ i := t in i.

(** [QueryTree::variables]: every variable of the query, sub-queries and
    negations included. *)
Fixpoint variables (t : QueryTree) : gset string :=
  match t with
  | mkQT _ caps negs _ _ =>
      foldr (fun c acc =>
        match c with
        | Variable_ s _ => {[s]} ∪ acc
        | SubMultiQuery t | SubWildQuery t => variables t ∪ acc
        | _ => acc
        end) ∅ caps
      ∪ foldr (fun n acc => variables (neg_qt n) ∪ acc) ∅ negs
  end.

(** [QueryTree::identifiers]: every literal name of the positive part. *)
Fixpoint identifiers (t : QueryTree) : list string :=
  match t with
  | mkQT _ caps _ _ _ =>
      flat_map (fun c =>
        match c with
        | Check s => [s]
        | SubMultiQuery t | SubWildQuery t => identifiers t
        | _ => []
        end) caps
  end.

(** The direct sub-trees, and the nesting depth that bounds the recursion
    of the matcher. *)
Definition children (t : QueryTree) : list QueryTree :=
  omap sub_query (qcaptures t) ++ (neg_qt <$> negations t).

Fixpoint depth (t : QueryTree) : nat :=
  match t with
  | mkQT _ caps negs _ _ =>
      S (max_list
           (map (fun c => match c with SubWildQuery t | SubMultiQuery t => depth t | _ => 0 end) caps
            ++ map (fun n => depth (neg_qt n)) negs))
  end.

Lemma depth_child (t s : QueryTree) : s ∈ children t -> depth s < depth t.
Proof.
  destruct t as [q caps negs vs i]. cbn. intros Hin.
  apply Nat.lt_succ_r, max_list_elem_of_le. apply elem_of_app.
  unfold children in Hin. cbn in Hin. apply elem_of_app in Hin as [Hin|Hin].
  - left. apply list_elem_of_omap in Hin as (c & Hc & Hs).
    apply list_elem_of_fmap. exists c. split; [|done]. destruct c; naive_solver.
  - right. apply list_elem_of_fmap in Hin as (n & -> & Hn).
    apply list_elem_of_fmap. by exists n.
Qed.

(** [s] occurs in [t], at any depth. *)
Inductive subtree : QueryTree -> QueryTree -> Prop :=
| subtree_refl t : subtree t t
| subtree_child t s u : u ∈ children t -> subtree s u -> subtree s t.

Lemma subtree_trans t s u : subtree s t -> u ∈ children s -> subtree u t.
Proof. induction 1; eauto using subtree. Qed.

(** Induction on sub-trees, through the depth. *)
Lemma query_tree_ind (P : QueryTree -> Prop) :
  (forall t, (forall s, s ∈ children t -> P s) -> P t) -> forall t, P t.
Proof.
  intros Hstep t. remember (depth t) as n eqn:Hn. revert t Hn.
  induction n as [n IH] using lt_wf_ind. intros t ->. apply Hstep.
  intros s Hs. eapply IH; [|done]. by apply depth_child.
Qed.

(** All sub-trees, and the sub-queries of captures among them, listed. *)
Fixpoint subtrees (t : QueryTree) : list QueryTree :=
  t :: match t with
       | mkQT _ caps negs _ _ =>
           flat_map (fun c => match c with
             | SubWildQuery t | SubMultiQuery t => subtrees t | _ => [] end) caps
           ++ flat_map (fun n => subtrees (neg_qt n)) negs
       end.

Definition cached_subs (t : QueryTree) : list QueryTree :=
  flat_map (fun u => omap sub_query (qcaptures u)) (subtrees t).

Lemma subtrees_child t s u : u ∈ children t -> s ∈ subtrees u -> s ∈ subtrees t.
Proof.
  destruct t as [q caps negs vs i]. unfold children. cbn. intros Hu Hs.
  apply elem_of_cons. right. apply elem_of_app in Hu as [Hu|Hu].
  - apply elem_of_app. left. apply list_elem_of_omap in Hu as (c & Hc & Hq).
    apply list_elem_of_In, in_flat_map. exists c. split; [by apply list_elem_of_In|].
    apply list_elem_of_In. destruct c; naive_solver.
  - apply elem_of_app. right. apply list_elem_of_fmap in Hu as (n & -> & Hn).
    apply list_elem_of_In, in_flat_map. exists n. by split; apply list_elem_of_In.
Qed.

Lemma subtree_listed t s : subtree s t -> s ∈ subtrees t.
Proof.
  induction 1 as [t|t s u Hu _ IH]; [destruct t; cbn; by left|].
  by eapply subtrees_child.
Qed.

Lemma subtree_children_ind (P : QueryTree -> Prop) t :
  Forall P (subtrees t) -> forall s, subtree s t -> P s.
Proof. intros HP s Hs%subtree_listed. rewrite Forall_forall in HP. auto. Qed.
End query_tree.
