(* ===== verification/Query.v ===== *)
(** * The matcher: [src/src/query.rs]

    [match_internal] runs a query tree on a node: it collects the matches
    of the compiled query, runs the sub-queries of each, merges the results
    of all patterns and finally drops the results a negative sub-query
    rules out.  Sub-query results are memoised in a cache keyed by query id
    and node id, which the model threads explicitly.  [Reference] is the
    same matcher without the cache. *)

From Stdlib Require Import Ascii.
From stdpp Require Import base numbers gmap strings list.
From S2P Require Import Prelude Text Util Result TreeSitter Capture.

(** [Vec::dedup]: drop an element equal to its predecessor. *)
Fixpoint dedup {A : Type} `{EqDecision A} (l : list A) : list A :=
  match l with
  | [] => []
  | x :: l' =>
      match l' with
      | [] => [x]
      | y :: _ => if decide (x = y) then dedup l' else x :: dedup l'
      end
  end.

(** [CacheKey]: query id and node id; [Cache] maps it to the results. *)
Abbreviation CacheKey := (nat * nat)%type.
Abbreviation Cache := (gmap CacheKey (list QueryResult)).

Section matcher.
Context `{TS : TreeSitter}.

(** The state of the capture loop of [process_match]: captured ranges,
    variables and pending sub-queries. *)
Record pm_state := mkPM {
  pm_r : list CaptureResult;
  pm_vars : gmap string nat;
  pm_subs : list (QueryTree * Node);
}.

(** One captured node; [None] is the early [return vec![]]. *)
Definition process_capture (t : QueryTree) (source : string) (st : pm_state)
    (c : Node * nat) : res Empty_set (option pm_state) :=
  let '(node, index) := c in
  let* capture := unwrap (qcaptures t !! index) in
  let r := if is_sub_multi capture then pm_r st
           else pm_r st ++ [mkCapture (byte_range node) (qid t) (Z.of_nat index)] in
  match capture with
  | Variable_ s constraint =>
      let* passes :=
        match constraint with
        | Some (negative, regex) =>
            let* txt := text source (byte_range node) in
            let* m := unwrap (is_match regex txt) in
            Ok (negb ((m && negative) || (negb m && negb negative)))
        | None => Ok true
        end in
      if (passes : bool)
      then Ok (Some (mkPM r (<[s := length r - 1]> (pm_vars st)) (pm_subs st)))
      else Ok None
  | SubWildQuery sub | SubMultiQuery sub =>
      Ok (Some (mkPM r (pm_vars st) (pm_subs st ++ [(sub, node)])))
  | CallExpQuery len minimum =>
      let actual := named_child_count node in
      if (minimum : bool) then
        if actual <? len then Ok None else Ok (Some (mkPM r (pm_vars st) (pm_subs st)))
      else if negb (actual =? len) then Ok None
      else Ok (Some (mkPM r (pm_vars st) (pm_subs st)))
  | Number i =>
      let* txt := text source (byte_range node) in
      let* n := parse_number_literal txt in
      match n with
      | Some y => if negb (i =? y)%Z then Ok None
                  else Ok (Some (mkPM r (pm_vars st) (pm_subs st)))
      | None => Ok None
      end
  | Display | Check _ => Ok (Some (mkPM r (pm_vars st) (pm_subs st)))
  end.

Fixpoint process_captured (t : QueryTree) (source : string) (st : pm_state)
    (cs : list (Node * nat)) : res Empty_set (option pm_state) :=
  match cs with
  | [] => Ok (Some st)
  | c :: cs =>
      let* st := process_capture t source st c in
      match st with
      | Some st => process_captured t source st cs
      | None => Ok None
      end
  end.

(** The result before sub-queries: its outermost node is the first
    captured range. *)
Definition base_result (st : pm_state) : QueryResult :=
  mkQR (pm_r st) (pm_vars st)
       (match pm_r st with c :: _ => cr_range c | [] => Range 0 0 end).

(** The ordering test of a negative match against a result. *)
Definition neg_in_window (t : QueryTree) (index : Z) (result n : QueryResult) : bool :=
  let early :=
    match get_capture_result result (qid t) (as_u32 index) with
    | Some c => start_offset n <? rend (cr_range c)
    | None => false
    end in
  let late :=
    match get_capture_result result (qid t) (as_u32 (index + 1)) with
    | Some c => rstart (cr_range c) <? start_offset n
    | None => false
    end in
  negb early && negb late.

(** [any] over the matches of one negative sub-query. *)
Fixpoint neg_any (t : QueryTree) (index : Z) (source : string) (result : QueryResult)
    (ns : list QueryResult) : res Empty_set bool :=
  match ns with
  | [] => Ok false
  | n :: ns =>
      let* m := merge n result source false in
      match m with
      | None => neg_any t index source result ns
      | Some _ => if neg_in_window t index result n then Ok true
                  else neg_any t index source result ns
      end
  end.

(** [pattern_results[i].extend(rs)] *)
Definition extend_at (prs : list (list QueryResult)) (i : nat) (rs : list QueryResult)
    : res Empty_set (list (list QueryResult)) :=
  let* old := unwrap (prs !! i) in
  Ok (<[i := old ++ rs]> prs).

(** The merge loop over the results of the patterns. *)
Fixpoint merge_patterns (merged_results : list QueryResult) (source : string)
    (prs : list (list QueryResult)) : res Empty_set (list QueryResult) :=
  match prs with
  | [] => Ok merged_results
  | pr :: prs =>
      match merged_results with
      | [] => merge_patterns pr source prs
      | _ =>
          let* m := merge_results merged_results pr source true in
          match m with
          | [] => Ok []
          | _ => merge_patterns m source prs
          end
      end
  end.

Definition is_empty {A} (l : list A) : bool := match l with [] => true | _ => false end.

(** ** The memoising matcher *)

Definition SM (A : Type) : Type := Cache -> res Empty_set (A * Cache).

Fixpoint run_subqueries (rec : QueryTree -> Node -> SM (list QueryResult))
    (source : string) (subs : list (QueryTree * Node)) (results : list QueryResult)
    : SM (list QueryResult) := fun cache =>
  match subs with
  | [] => Ok (results, cache)
  | (t, n) :: subs =>
      if is_empty results then run_subqueries rec source subs results cache
      else
        let key := (qid t, node_id n) in
        let* (sub_results, cache) :=
          match cache !! key with
          | Some r => Ok (r, cache)
          | None =>
              let* (v, cache) := rec t n cache in
              Ok (v, <[key := v]> cache)
          end in
        let* merged := merge_results results sub_results source false in
        run_subqueries rec source subs merged cache
  end.

Definition process_match (rec : QueryTree -> Node -> SM (list QueryResult))
    (t : QueryTree) (source : string) (m : QueryMatch Node)
    : SM (list QueryResult) := fun cache =>
  let* st := process_captured t source (mkPM [] ∅ []) (m_captures m) in
  match st with
  | None => Ok ([], cache)
  | Some st => run_subqueries rec source (pm_subs st) [base_result st] cache
  end.

Fixpoint collect_matches (rec : QueryTree -> Node -> SM (list QueryResult))
    (t : QueryTree) (source : string) (ms : list (QueryMatch Node))
    (prs : list (list QueryResult)) : SM (list (list QueryResult)) := fun cache =>
  match ms with
  | [] => Ok (prs, cache)
  | m :: ms =>
      let* (rs, cache) := process_match rec t source m cache in
      let* prs := extend_at prs (pattern_index m) rs in
      collect_matches rec t source ms prs cache
  end.

(** [self.negations.iter().any(..)] for one result. *)
Fixpoint negated (rec : QueryTree -> Node -> SM (list QueryResult))
    (t : QueryTree) (root : Node) (source : string) (result : QueryResult)
    (negs : list (NegativeQuery QueryTree)) : SM bool := fun cache =>
  match negs with
  | [] => Ok (false, cache)
  | neg :: negs =>
      let* (ns, cache) := rec (neg_qt neg) root cache in
      let* b := neg_any t (previous_capture_index neg) source result ns in
      if b then Ok (true, cache) else negated rec t root source result negs cache
  end.

Fixpoint filter_negated (rec : QueryTree -> Node -> SM (list QueryResult))
    (t : QueryTree) (root : Node) (source : string) (results : list QueryResult)
    : SM (list QueryResult) := fun cache =>
  match results with
  | [] => Ok ([], cache)
  | r :: rs =>
      let* (b, cache) := negated rec t root source r (negations t) cache in
      let* (rs, cache) := filter_negated rec t root source rs cache in
      Ok (if b then rs else r :: rs, cache)
  end.

Fixpoint match_internal (fuel : nat) (t : QueryTree) (root : Node) (source : string)
    : SM (list QueryResult) := fun cache =>
  match fuel with
  | 0 => OutOfFuel
  | S fuel =>
      let rec t n := match_internal fuel t n source in
      let* (prs, cache) :=
        collect_matches rec t source (ts_matches (query t) root source)
          (replicate (pattern_count (query t)) []) cache in
      if existsb is_empty prs then Ok ([], cache)
      else
        let* merged := merge_patterns [] source prs in
        filter_negated rec t root source merged cache
  end.

(** [QueryTree::matches] *)
Definition matches (t : QueryTree) (root : Node) (source : string)
    : res Empty_set (list QueryResult) :=
  let* (results, _) := match_internal (depth t) t root source ∅ in
  Ok (dedup results).
End matcher.
