(* ===== verification/Sample.v ===== *)
(** * A tabulated tree-sitter

    A concrete instance of the [TreeSitter] interface, used to evaluate the
    engine on examples: nodes are numbers with a table of their ranges and
    child counts, a query lists the matches it has below each root, and a
    regular expression is a substring test.  The laws hold for every table
    whose ranges are slices of the source. *)

From stdpp Require Import base numbers gmap strings list.
From S2P Require Import Prelude Text Result TreeSitter Capture.

Definition table_query : Type := nat * list (nat * list (QueryMatch nat)).

Fixpoint table_lookup (root : nat) (l : list (nat * list (QueryMatch nat)))
    : list (QueryMatch nat) :=
  match l with
  | [] => []
  | (r, ms) :: l => if r =? root then ms else table_lookup root l
  end.

Definition table_ts (nodes : list (range * nat)) : TreeSitter := {|
  TSQuery := table_query;
  pattern_count := fst;
  Node := nat;
  node_id := fun n => n;
  byte_range := fun n => match nodes !! n with Some x => x.1 | None => Range 0 0 end;
  named_child_count := fun n => match nodes !! n with Some x => x.2 | None => 0 end;
  ts_matches := fun q root _ =>
    List.filter (fun m => pattern_index m <? q.1) (table_lookup root q.2);
  Regex := string;
  is_match := fun re s => Some (contains re s);
|}.

Lemma table_laws (nodes : list (range * nat)) (source : string) :
  is_char_boundary source 0 = true ->
  Forall (fun x => is_Some (get_range source (rstart x.1) (rend x.1))) nodes ->
  TreeSitterLaws (table_ts nodes) source.
Proof.
  intros H0 Hn. split.
  - by intros ???.
  - intros q root m Hm. cbn in *. apply list_elem_of_In, filter_In in Hm as [_ Hm]. by apply Nat.ltb_lt in Hm.
  - change (forall n : nat, is_Some (get_range source
      (rstart match nodes !! n with Some x => x.1 | None => Range 0 0 end)
      (rend match nodes !! n with Some x => x.1 | None => Range 0 0 end))).
    intros n. destruct (nodes !! n) as [x|] eqn:Hx.
    + apply (Forall_lookup_1 _ _ _ _ Hn Hx).
    + unfold get_range. cbn. rewrite H0. by eexists.
Qed.

Lemma table_lookup_elem root l m :
  m ∈ table_lookup root l -> exists e, e ∈ l /\ m ∈ e.2.
Proof.
  induction l as [|[r ms] l IH]; cbn; [by intros ?%not_elem_of_nil|].
  destruct (r =? root).
  - intros Hm. exists (r, ms). split; [by left|done].
  - intros (e & He & Hm)%IH. exists e. split; [by right|done].
Qed.

Lemma table_matches_elem nodes (q : table_query) root source m :
  m ∈ @ts_matches (table_ts nodes) q root source -> exists e, e ∈ q.2 /\ m ∈ e.2.
Proof.
  intros Hm. cbn in Hm. apply list_elem_of_In, filter_In in Hm as [Hm _].
  by eapply table_lookup_elem, list_elem_of_In.
Qed.
