(* ===== verification/QueryMemo.v ===== *)
(** * Memoisation is transparent

    The matcher of [Query] against a reference without the cache: if query
    ids determine the sub-queries they are attached to, the two compute the
    same results on every input, panics included. *)

From Stdlib Require Import Ascii.
From stdpp Require Import base numbers gmap strings list.
From S2P Require Import Prelude Text Util Result TreeSitter Capture Query Sample.

Section reference.
Context `{TS : TreeSitter}.

Fixpoint ref_subqueries (rec : QueryTree -> Node -> res Empty_set (list QueryResult))
    (source : string) (subs : list (QueryTree * Node)) (results : list QueryResult)
    : res Empty_set (list QueryResult) :=
  match subs with
  | [] => Ok results
  | (t, n) :: subs =>
      if is_empty results then ref_subqueries rec source subs results
      else
        let* sub_results := rec t n in
        let* merged := merge_results results sub_results source false in
        ref_subqueries rec source subs merged
  end.

Definition ref_match1 (rec : QueryTree -> Node -> res Empty_set (list QueryResult))
    (t : QueryTree) (source : string) (m : QueryMatch Node)
    : res Empty_set (list QueryResult) :=
  let* st := process_captured t source (mkPM [] ∅ []) (m_captures m) in
  match st with
  | None => Ok []
  | Some st => ref_subqueries rec source (pm_subs st) [base_result st]
  end.

Fixpoint ref_collect (rec : QueryTree -> Node -> res Empty_set (list QueryResult))
    (t : QueryTree) (source : string) (ms : list (QueryMatch Node))
    (prs : list (list QueryResult)) : res Empty_set (list (list QueryResult)) :=
  match ms with
  | [] => Ok prs
  | m :: ms =>
      let* rs := ref_match1 rec t source m in
      let* prs := extend_at prs (pattern_index m) rs in
      ref_collect rec t source ms prs
  end.

Fixpoint ref_negated (rec : QueryTree -> Node -> res Empty_set (list QueryResult))
    (t : QueryTree) (root : Node) (source : string) (result : QueryResult)
    (negs : list (NegativeQuery QueryTree)) : res Empty_set bool :=
  match negs with
  | [] => Ok false
  | neg :: negs =>
      let* ns := rec (neg_qt neg) root in
      let* b := neg_any t (previous_capture_index neg) source result ns in
      if b then Ok true else ref_negated rec t root source result negs
  end.

Fixpoint ref_filter (rec : QueryTree -> Node -> res Empty_set (list QueryResult))
    (t : QueryTree) (root : Node) (source : string) (results : list QueryResult)
    : res Empty_set (list QueryResult) :=
  match results with
  | [] => Ok []
  | r :: rs =>
      let* b := ref_negated rec t root source r (negations t) in
      let* rs := ref_filter rec t root source rs in
      Ok (if b then rs else r :: rs)
  end.

Definition ref_step (rec : QueryTree -> Node -> res Empty_set (list QueryResult))
    (t : QueryTree) (root : Node) (source : string) : res Empty_set (list QueryResult) :=
  let* prs := ref_collect rec t source (ts_matches (query t) root source)
                (replicate (pattern_count (query t)) []) in
  if existsb is_empty prs then Ok []
  else
    let* merged := merge_patterns [] source prs in
    ref_filter rec t root source merged.

Fixpoint ref_match (fuel : nat) (t : QueryTree) (root : Node) (source : string)
    : res Empty_set (list QueryResult) :=
  match fuel with
  | 0 => OutOfFuel
  | S fuel => ref_step (fun t n => ref_match fuel t n source) t root source
  end.

Definition reference_matches (t : QueryTree) (root : Node) (source : string)
    : res Empty_set (list QueryResult) :=
  let* results := ref_match (depth t) t root source in Ok (dedup results).

(** ** The pending sub-queries of a match are sub-queries of captures *)

Definition sub_of (t s : QueryTree) : Prop := s ∈ omap sub_query (qcaptures t).

Lemma sub_of_child t s : sub_of t s -> s ∈ children t.
Proof. unfold sub_of, children. set_solver. Qed.

Lemma neg_child t n : n ∈ negations t -> neg_qt n ∈ children t.
Proof.
  intros Hn. unfold children. apply elem_of_app. right.
  apply list_elem_of_fmap. by exists n.
Qed.

Lemma process_capture_subs t source st c st' :
  process_capture t source st c = Ok (Some st') ->
  (forall x, x ∈ pm_subs st -> sub_of t x.1) -> forall x, x ∈ pm_subs st' -> sub_of t x.1.
Proof.
  intros H Hst x. unfold process_capture in H. destruct c as [n i].
  apply res_bind_ok in H as (cap & Hcap%unwrap_ok%list_elem_of_lookup_2 & H).
  assert (forall s, sub_query cap = Some s -> sub_of t s).
  { intros s Hs. apply list_elem_of_omap. by exists cap. }
  destruct cap; repeat (res_step || case_match); simplify_eq; cbn; try apply Hst;
    rewrite elem_of_app, list_elem_of_singleton; intros [Hx| ->]; eauto.
Qed.

Lemma process_captured_subs t source st cs st' :
  process_captured t source st cs = Ok (Some st') ->
  (forall x, x ∈ pm_subs st -> sub_of t x.1) -> forall x, x ∈ pm_subs st' -> sub_of t x.1.
Proof.
  revert st. induction cs as [|c cs IH]; intros st H Hst; cbn in H; [by res_inv|].
  res_inv. destruct a as [st1|]; [|done].
  eapply IH; [done|]. by eapply process_capture_subs.
Qed.

(** ** The reference only looks at the children of a tree *)

Lemma ref_subqueries_ext rec1 rec2 source subs results :
  (forall t n, (t, n) ∈ subs -> rec1 t n = rec2 t n) ->
  ref_subqueries rec1 source subs results = ref_subqueries rec2 source subs results.
Proof.
  revert results. induction subs as [|[t n] subs IH]; intros results Hrec; [done|]. cbn.
  destruct (is_empty results); [apply IH; set_solver|].
  rewrite (Hrec t n) by set_solver.
  destruct (rec2 t n); try done. cbn. destruct (merge_results _ _ _ _); try done. cbn.
  apply IH. set_solver.
Qed.

Lemma ref_match1_ext rec1 rec2 t source m :
  (forall s n, s ∈ children t -> rec1 s n = rec2 s n) ->
  ref_match1 rec1 t source m = ref_match1 rec2 t source m.
Proof.
  intros Hrec. unfold ref_match1.
  destruct (process_captured _ _ _ _) as [[st|]| | |] eqn:Hst; try done. cbn.
  apply ref_subqueries_ext. intros s n Hin. apply Hrec, sub_of_child.
  change s with (s, n).1. eapply process_captured_subs; [exact Hst| |exact Hin]. set_solver.
Qed.

Lemma ref_collect_ext rec1 rec2 t source ms prs :
  (forall s n, s ∈ children t -> rec1 s n = rec2 s n) ->
  ref_collect rec1 t source ms prs = ref_collect rec2 t source ms prs.
Proof.
  intros Hrec. revert prs. induction ms as [|m ms IH]; intros prs; [done|]. cbn.
  rewrite (ref_match1_ext rec1 rec2) by done.
  destruct (ref_match1 _ _ _ _); try done. cbn. destruct (extend_at _ _ _); try done. apply IH.
Qed.

Lemma ref_negated_ext rec1 rec2 t root source r negs :
  (forall s, s ∈ neg_qt <$> negs -> rec1 s root = rec2 s root) ->
  ref_negated rec1 t root source r negs = ref_negated rec2 t root source r negs.
Proof.
  induction negs as [|neg negs IH]; intros Hrec; [done|]. cbn.
  rewrite Hrec by set_solver. destruct (rec2 _ _); try done. cbn.
  destruct (neg_any _ _ _ _ _) as [[]| | |]; try done. apply IH. set_solver.
Qed.

Lemma ref_filter_ext rec1 rec2 t root source rs :
  (forall s, s ∈ neg_qt <$> negations t -> rec1 s root = rec2 s root) ->
  ref_filter rec1 t root source rs = ref_filter rec2 t root source rs.
Proof.
  intros Hrec. induction rs as [|r rs IH]; [done|]. cbn.
  by rewrite (ref_negated_ext rec1 rec2), IH.
Qed.

Lemma ref_step_ext rec1 rec2 t root source :
  (forall s n, s ∈ children t -> rec1 s n = rec2 s n) ->
  ref_step rec1 t root source = ref_step rec2 t root source.
Proof.
  intros Hrec. unfold ref_step. rewrite (ref_collect_ext rec1 rec2) by done.
  destruct (ref_collect _ _ _ _ _); try done. cbn. destruct (existsb _ _); [done|].
  destruct (merge_patterns _ _ _); try done. cbn. apply ref_filter_ext.
  intros s Hs. apply Hrec. unfold children. set_solver.
Qed.

(** Fuel beyond the depth of the tree makes no difference. *)
Lemma ref_match_fuel t root source f1 f2 :
  depth t <= f1 -> depth t <= f2 ->
  ref_match f1 t root source = ref_match f2 t root source.
Proof.
  revert root f1 f2. induction t as [t IH] using query_tree_ind. intros root f1 f2 H1 H2.
  assert (0 < depth t) by (destruct t; cbn; lia).
  destruct f1 as [|f1], f2 as [|f2]; try lia. cbn. apply ref_step_ext.
  intros s n Hs. pose proof (depth_child t s Hs). apply IH; [done|lia..].
Qed.

(** ** Simulation *)

(** [m] run on any cache satisfying [S] behaves as the cache-free [p] and
    leaves a cache satisfying [S]. *)
Definition simulates {A : Type} (S : Cache -> Prop) (m : SM A) (p : res Empty_set A) : Prop :=
  forall c, S c ->
    match p with
    | Ok a => exists c', m c = Ok (a, c') /\ S c'
    | Err e => m c = Err e
    | Panic => m c = Panic
    | OutOfFuel => m c = OutOfFuel
    end.

Lemma simulates_ret {A : Type} (S : Cache -> Prop) (a : A) : simulates S (fun c => Ok (a, c)) (Ok a).
Proof. intros c Hc. by exists c. Qed.

Lemma simulates_bind {A B : Type} (S : Cache -> Prop) (m : SM A) p (k : A -> SM B) q :
  simulates S m p -> (forall a, p = Ok a -> simulates S (k a) (q a)) ->
  simulates S (fun c => let* (a, c) := m c in k a c) (let* a := p in q a).
Proof.
  intros Hm Hk c Hc. specialize (Hm c Hc). destruct p as [a| | |]; cbn in *.
  - destruct Hm as (c' & -> & Hc'). cbn. by apply Hk.
  - by rewrite Hm.
  - by rewrite Hm.
  - by rewrite Hm.
Qed.

Lemma simulates_pure {A B : Type} (S : Cache -> Prop) (p : res Empty_set A) (k : A -> SM B) q :
  (forall a, p = Ok a -> simulates S (k a) (q a)) ->
  simulates S (fun c => let* a := p in k a c) (let* a := p in q a).
Proof. intros Hk c Hc. destruct p as [a| | |]; cbn; try done. by apply Hk. Qed.
End reference.

Section memo.
Context `{TS : TreeSitter}.

(** The trees whose results are cached: sub-queries of captures. *)
Definition cached_in (T s : QueryTree) : Prop :=
  exists u, subtree u T /\ sub_of u s.

(** Query ids determine the cached sub-queries. *)
Definition ids_unique (T : QueryTree) : Prop :=
  forall s1 s2, cached_in T s1 -> cached_in T s2 -> qid s1 = qid s2 -> s1 = s2.

(** Distinct ids on the listed sub-queries are enough. *)
Lemma ids_unique_nodup T : NoDup (qid <$> cached_subs T) -> ids_unique T.
Proof.
  intros Hnd s1 s2 Hs1 Hs2 Hid.
  assert (forall s, cached_in T s -> s ∈ cached_subs T) as Hin.
  { intros s (u & Hu%subtree_listed & Hs). apply list_elem_of_In, in_flat_map.
    exists u. by split; apply list_elem_of_In. }
  apply Hin, list_elem_of_lookup in Hs1 as [i Hi].
  apply Hin, list_elem_of_lookup in Hs2 as [j Hj].
  assert (i = j) as ->; [|congruence].
  eapply (NoDup_lookup _ _ _ (qid s1)); [done|..]; rewrite list_lookup_fmap.
  - by rewrite Hi.
  - by rewrite Hj, Hid.
Qed.

Context (source : string) `{!TreeSitterLaws TS source}.

(** Every entry is what the reference computes for its key. *)
Definition cache_sound (T : QueryTree) (c : Cache) : Prop :=
  forall s n v, cached_in T s ->
    c !! (qid s, node_id n) = Some v ->
    ref_match (depth s) s n source = Ok v.

Lemma cache_sound_insert T s n v c :
  ids_unique T -> cached_in T s -> cache_sound T c ->
  ref_match (depth s) s n source = Ok v ->
  cache_sound T (<[(qid s, node_id n) := v]> c).
Proof.
  intros Hu Hs Hc Hv s' n' v' Hs'. rewrite lookup_insert. case_decide as Hk; [|by apply Hc].
  injection Hk as Hid Hn%node_id_inj. intros [= <-]. by rewrite <-(Hu s s'), <-Hn.
Qed.

Abbreviation sim T := (simulates (cache_sound T)).

Lemma run_subqueries_sim T rec fuel subs results :
  ids_unique T ->
  (forall s n, (s, n) ∈ subs -> cached_in T s /\ depth s <= fuel /\
     sim T (rec s n) (ref_match fuel s n source)) ->
  sim T (run_subqueries rec source subs results)
        (ref_subqueries (fun s n => ref_match fuel s n source) source subs results).
Proof.
  intros Hu. revert results. induction subs as [|[s n] subs IH]; intros results Hrec;
    [apply simulates_ret|].
  cbn. destruct (is_empty results); [apply IH; set_solver|].
  destruct (Hrec s n) as (Hs & Hd & Hsim); [set_solver|].
  intros c Hc. destruct (c !! (qid s, node_id n)) as [v|] eqn:Hhit.
  - pose proof (Hc s n v Hs Hhit) as Hv.
    rewrite (ref_match_fuel s n source fuel (depth s)), Hv by lia. cbn.
    apply (simulates_pure (cache_sound T)); [|done]. intros m _. apply IH. set_solver.
  - specialize (Hsim c Hc). destruct (ref_match fuel s n source) as [v| | |] eqn:Hv; cbn.
    + destruct Hsim as (c' & -> & Hc'). cbn.
      apply (simulates_pure (cache_sound T)); [intros m _; apply IH; set_solver|].
      apply cache_sound_insert; [done..|].
      by rewrite (ref_match_fuel s n source (depth s) fuel) by lia.
    + by rewrite Hsim.
    + by rewrite Hsim.
    + by rewrite Hsim.
Qed.

Section step.
Context (T t : QueryTree) (rec : QueryTree -> Node -> SM (list QueryResult)) (fuel : nat).
Hypothesis Hu : ids_unique T.
Hypothesis Ht : subtree t T.
Hypothesis Hfuel : depth t <= S fuel.
Hypothesis Hrec : forall s n, s ∈ children t -> sim T (rec s n) (ref_match fuel s n source).

Abbreviation ref := (fun s n => ref_match fuel s n source).

Lemma process_match_sim m :
  sim T (process_match rec t source m) (ref_match1 ref t source m).
Proof.
  unfold process_match, ref_match1. apply simulates_pure.
  intros [st|] Hst; [|apply simulates_ret]. apply run_subqueries_sim; [done|].
  intros s n Hin.
  assert (sub_of t s) as Hs.
  { change s with (s, n).1. eapply process_captured_subs; [exact Hst| |exact Hin]. set_solver. }
  pose proof (sub_of_child t s Hs) as Hch. pose proof (depth_child t s Hch).
  split; [by exists t|]. split; [lia|by apply Hrec].
Qed.

Lemma collect_matches_sim ms prs :
  sim T (collect_matches rec t source ms prs) (ref_collect ref t source ms prs).
Proof.
  revert prs. induction ms as [|m ms IH]; intros prs; [apply simulates_ret|]. cbn.
  apply (simulates_bind _ _ _ (fun rs c => let* prs := extend_at prs (pattern_index m) rs in
    collect_matches rec t source ms prs c)); [apply process_match_sim|].
  intros rs _. apply simulates_pure. intros prs' _. apply IH.
Qed.

Lemma negated_sim root r negs :
  (forall n, n ∈ negs -> n ∈ negations t) ->
  sim T (negated rec t root source r negs) (ref_negated ref t root source r negs).
Proof.
  induction negs as [|neg negs IH]; intros Hin; [apply simulates_ret|]. cbn.
  apply (simulates_bind _ _ _ (fun ns c =>
    let* b := neg_any t (previous_capture_index neg) source r ns in
    if b then Ok (true, c) else negated rec t root source r negs c));
    [apply Hrec, neg_child, Hin; set_solver|].
  intros ns _. apply simulates_pure. intros [] _; [apply simulates_ret|].
  apply IH. set_solver.
Qed.

Lemma filter_negated_sim root rs :
  sim T (filter_negated rec t root source rs) (ref_filter ref t root source rs).
Proof.
  induction rs as [|r rs IH]; [apply simulates_ret|]. cbn.
  apply (simulates_bind _ _ _ (fun b c =>
    let* (rs, c) := filter_negated rec t root source rs c in
    Ok (if (b : bool) then rs else r :: rs, c))); [by apply negated_sim|].
  intros b _. apply (simulates_bind _ _ _ (fun rs c => Ok (if (b : bool) then rs else r :: rs, c)));
    [done|]. intros ? _. apply simulates_ret.
Qed.
End step.

Lemma match_internal_sim T fuel t root :
  ids_unique T -> subtree t T -> depth t <= fuel ->
  sim T (match_internal fuel t root source) (ref_match fuel t root source).
Proof.
  intros Hu. revert t root. induction fuel as [|fuel IH]; intros t root Ht Hd.
  { destruct t; cbn in Hd; lia. }
  assert (forall s n, s ∈ children t ->
    sim T (match_internal fuel s n source) (ref_match fuel s n source)) as Hrec.
  { intros s n Hs. pose proof (depth_child t s Hs). apply IH; [|lia].
    by eapply subtree_trans. }
  cbn [match_internal ref_match]. unfold ref_step.
  apply (simulates_bind _ _ _ (fun prs cache =>
    if existsb is_empty prs then Ok ([], cache)
    else let* merged := merge_patterns [] source prs in
         filter_negated (fun t n => match_internal fuel t n source) t root source merged cache));
    [by apply (collect_matches_sim T)|].
  intros prs _. destruct (existsb is_empty prs); [apply simulates_ret|].
  apply simulates_pure. intros ms _. by apply (filter_negated_sim T).
Qed.
End memo.

Lemma matches_cache_transparent_eq `{TS : TreeSitter} (source : string)
    `{!TreeSitterLaws TS source} (t : QueryTree) (root : Node) :
  ids_unique t -> matches t root source = reference_matches t root source.
Proof.
  intros Hu. unfold matches, reference_matches.
  pose proof (match_internal_sim source t (depth t) t root Hu (subtree_refl t) (le_n _) ∅) as H.
  assert (cache_sound source t ∅) as H0 by (intros s n v _; by rewrite lookup_empty).
  specialize (H H0). destruct (ref_match (depth t) t root source); [|by rewrite H..].
  by destruct H as (c' & -> & _).
Qed.

(** C2. The sub-query cache is transparent: when the ids of a query tree
    determine its cached sub-queries, [matches] returns exactly what the
    matcher without any cache returns, on every tree and source, and panics
    exactly when it does. *)
Theorem matches_cache_transparent `{TS : TreeSitter} (source : string)
    `{!TreeSitterLaws TS source} (t : QueryTree) (root : Node) :
  ids_unique t -> matches t root source = reference_matches t root source.
Proof. by apply matches_cache_transparent_eq. Qed.

(** ** A worked example: two calls, a sub-query on each, one negation *)

Definition demo_source : string := "f(a); g(b);".
Definition demo_nodes : list (range * nat) :=
  [(Range 0 11, 2); (Range 0 4, 2); (Range 2 3, 0); (Range 6 10, 2); (Range 8 9, 0)].
#[export] Instance demo_ts : TreeSitter := table_ts demo_nodes.
#[export] Instance demo_laws : TreeSitterLaws demo_ts demo_source.
Proof. apply table_laws; [reflexivity|]. by_decide. Qed.

Definition demo_sub : QueryTree :=
  mkQT ((1, [(1, [mkMatch 0 [(2, 0)]]); (3, [mkMatch 0 [(4, 0)]])]) : table_query)
       [Variable_ "$x" None] [] {["$x"]} 1.
Definition demo_neg : QueryTree :=
  mkQT ((1, [(0, [mkMatch 0 [(4, 0)]])]) : table_query) [Check "b"] [] ∅ 2.
Definition demo_tree : QueryTree :=
  mkQT ((1, [(0, [mkMatch 0 [(2, 0); (1, 1)]; mkMatch 0 [(4, 0); (3, 1)]])]) : table_query)
       [Variable_ "$x" None; SubWildQuery demo_sub]
       [mkNegative demo_neg (-1)] {["$x"]} 0.

Lemma matches_cache_transparent_witness :
  matches demo_tree (0 : @Node demo_ts) demo_source = reference_matches demo_tree (0 : @Node demo_ts) demo_source /\
  (length <$> match reference_matches demo_tree (0 : @Node demo_ts) demo_source with
              | Ok rs => Some rs | _ => None end) = Some 1.
Proof.
  split; [|vm_compute; reflexivity].
  apply (matches_cache_transparent demo_source demo_tree 0).
  apply ids_unique_nodup. by_decide.
Defined.
