(* ===== verification/QueryProps.v ===== *)
(** * What the matcher returns

    Absence of panics and well-formedness of results, the meaning of a
    multi-pattern query as ordered coherent selections, and the meaning of
    negative sub-queries.  The statements are about the cache-free
    reference of [QueryMemo], which the matcher equals. *)

From Stdlib Require Import Ascii.
From stdpp Require Import base numbers gmap strings list.
From S2P Require Import Prelude Text Util Result TreeSitter Capture Query Sample QueryMemo.

(** ** Selections *)

(** One result per pattern: every two agree on their variables, and the
    ranges of the later one start after those of the earlier one. *)
Definition coherent (source : string) (q : QueryResult) (qs : list QueryResult) : Prop :=
  forall i j qi qj, i < j -> (q :: qs) !! i = Some qi -> (q :: qs) !! j = Some qj ->
    compatible source true qi qj.

Section selections.
Context (source : string).

Lemma coherent_cons q q' qs :
  coherent source q (q' :: qs) <->
    Forall (compatible source true q) (q' :: qs) /\ coherent source q' qs.
Proof.
  unfold coherent. rewrite Forall_lookup. split.
  - intros H. split.
    + intros i x Hi. by apply (H 0 (S i)); [lia|..].
    + intros i j qi qj Hij Hi Hj. by apply (H (S i) (S j)); [lia|..].
  - intros [Hq H] [|i] [|j] qi qj Hij Hi Hj; try lia; cbn in Hi, Hj.
    + injection Hi as <-. by apply (Hq j).
    + apply (H i j); [lia|done..].
Qed.

Lemma coherent_nil q : coherent source q [].
Proof. intros [|i] [|j] qi qj Hij Hi Hj; done || lia. Qed.

Lemma compatible_merged_l q q1 x :
  wf_result source q -> compatible source true q q1 ->
  compatible source true (merged q q1) x <->
    compatible source true q x /\ compatible source true q1 x.
Proof.
  intros Hq Hm%mergeable_spec. rewrite <-!mergeable_spec.
  by rewrite mergeable_merged_l, andb_true_iff.
Qed.

Lemma coherent_merged q q1 qs :
  wf_result source q -> compatible source true q q1 ->
  coherent source (merged q q1) qs <->
    Forall (compatible source true q) qs /\ coherent source q1 qs.
Proof.
  intros Hq Hm. destruct qs as [|q2 qs].
  { split; [|intros _]; auto using coherent_nil. }
  rewrite !coherent_cons.
  rewrite (Forall_iff (compatible source true (merged q q1)) (q2 :: qs)
    (fun x => compatible source true q x /\ compatible source true q1 x))
    by (intros x; by apply compatible_merged_l).
  rewrite Forall_and. tauto.
Qed.

Lemma merge_patterns_acc ms prs :
  ms <> [] -> Forall (wf_result source) ms -> Forall (Forall (wf_result source)) prs ->
  exists out, merge_patterns ms source prs = Ok out /\
    Forall (wf_result source) out /\
    forall q, q ∈ out <->
      exists m qs, m ∈ ms /\ Forall2 (fun q pr => q ∈ pr) qs prs /\
        coherent source m qs /\ q = foldl merged m qs.
Proof.
  intros Hne Hms Hprs. revert ms Hne Hms. induction Hprs as [|pr prs Hpr Hprs IH];
    intros ms Hne Hms.
  { exists ms. split; [done|]. split; [done|]. intros q. split.
    - intros Hq. exists q, []. split; [done|]. split; [done|]. split; [apply coherent_nil|done].
    - by intros (m & qs & Hm & ->%Forall2_nil_inv_r & _ & ->). }
  cbn [merge_patterns]. destruct ms as [|m0 ms']; [done|]. set (ms := m0 :: ms') in *.
  rewrite merge_results_spec by done. cbn [res_bind].
  assert (forall q, (exists m qs, m ∈ ms /\ Forall2 (fun q pr => q ∈ pr) qs (pr :: prs) /\
        coherent source m qs /\ q = foldl merged m qs) <->
      (exists m qs, m ∈ merge_pairs source true ms pr /\ Forall2 (fun q pr => q ∈ pr) qs prs /\
        coherent source m qs /\ q = foldl merged m qs)) as Hsplit.
  { intros q. rewrite Forall_forall in Hms. split.
    - intros (m & qs & Hm & (q1 & qs' & Hq1 & Hqs & ->)%Forall2_cons_inv_r & Hc & ->).
      apply coherent_cons in Hc as [[Hm1 Hall]%Forall_cons Hc].
      exists (merged m q1), qs'.
      split; [apply elem_of_merge_pairs; exists m, q1; by rewrite mergeable_spec|].
      split; [done|]. split; [|done]. apply coherent_merged; auto.
    - intros (m & qs & (m' & q1 & Hm' & Hq1 & Hm1%mergeable_spec & ->)%elem_of_merge_pairs & Hqs & Hc & ->).
      exists m', (q1 :: qs). split; [done|]. split; [by constructor|].
      apply coherent_merged in Hc as [Hall Hc]; [|auto|done].
      split; [|done]. apply coherent_cons. split; [by constructor|done]. }
  pose proof (merge_pairs_wf source ms pr true Hms Hpr) as Hwf.
  destruct (merge_pairs source true ms pr) as [|x xs] eqn:Ems.
  - exists []. split; [done|]. split; [constructor|]. intros q. rewrite Hsplit.
    split; [by intros ?%not_elem_of_nil|]. by intros (m & _ & ?%not_elem_of_nil & _).
  - destruct (IH (x :: xs)) as (out & Hout & Hwo & Hin); [done..|].
    exists out. split; [done|]. split; [done|]. intros q. by rewrite Hsplit, <-Hin.
Qed.
End selections.

(** C38. The multi-pattern merge loop computes exactly the ordered coherent
    selections: on pattern result lists that are all non-empty (the case the
    matcher continues in) it returns without panicking, and a result is in
    its output if and only if it is the merge of one result per pattern such
    that every two agree on their shared variables and every range of the
    later pattern starts strictly after the end of every range of the
    earlier one. *)
Theorem merge_patterns_selections source pr prs :
  pr <> [] -> Forall (wf_result source) pr -> Forall (Forall (wf_result source)) prs ->
  exists out, merge_patterns [] source (pr :: prs) = Ok out /\
    Forall (wf_result source) out /\
    forall q, q ∈ out <->
      exists q0 qs, q0 ∈ pr /\ Forall2 (fun q pr => q ∈ pr) qs prs /\
        coherent source q0 qs /\ q = foldl merged q0 qs.
Proof. intros Hne Hpr Hprs. cbn. by apply merge_patterns_acc. Qed.

Lemma merge_patterns_selections_witness :
  exists out, merge_patterns [] sample_source [[sample_qr1]; [sample_qr1; sample_qr2]] = Ok out /\
    merged sample_qr1 sample_qr2 ∈ out.
Proof.
  destruct (merge_patterns_selections sample_source [sample_qr1] [[sample_qr1; sample_qr2]])
    as (out & Hout & _ & Hin).
  - discriminate.
  - by_decide.
  - by_decide.
  - exists out. split; [exact Hout|]. apply Hin. exists sample_qr1, [sample_qr2].
    split; [by_decide|]. split; [by_decide|].
    split; [|reflexivity]. apply coherent_cons. split; [|apply coherent_nil].
    constructor; [|constructor]. apply mergeable_spec. vm_compute. reflexivity.
Defined.

(** ** Totality *)

Section totality.
Context `{TS : TreeSitter} (source : string) `{!TreeSitterLaws TS source}.

(** A node the matcher can read a number from. *)
Definition readable (n : Node) : Prop :=
  forall s, get_range source (rstart (byte_range n)) (rend (byte_range n)) = Some s ->
    utf8_ok s = true /\ count_char "-" s <= 1.

(** What the matcher relies on for one tree: every capture index of every
    match has an entry in the capture vector, regular expressions do not
    fail, and number captures are on readable nodes. *)
Definition tree_ok (t : QueryTree) : Prop :=
  forall root m, m ∈ ts_matches (query t) root source ->
    Forall (fun c => match qcaptures t !! c.2 with
      | None => False
      | Some (Variable_ _ (Some (_, re))) => forall s, is_Some (is_match re s)
      | Some (Number _) => readable c.1
      | Some _ => True
      end) (m_captures m).

Definition all_ok (T : QueryTree) : Prop := forall t, subtree t T -> tree_ok t.

Lemma node_text {E} (n : Node) :
  exists s, text (E:=E) source (byte_range n) = Ok s /\
    get_range source (rstart (byte_range n)) (rend (byte_range n)) = Some s.
Proof.
  destruct (byte_range_slice n) as [s Hs]. exists s. by rewrite text_get_range, Hs.
Qed.

(** The state of the capture loop: every variable has a captured range and
    all captured ranges are slices. *)
Definition pm_inv (st : pm_state) : Prop :=
  Forall (fun c => is_Some (get_range source (rstart (cr_range c)) (rend (cr_range c)))) (pm_r st) /\
  map_Forall (fun _ i => i < length (pm_r st)) (pm_vars st).

Lemma pm_inv_push st t n i :
  pm_inv st -> pm_inv (mkPM (pm_r st ++ [mkCapture (byte_range n) t i]) (pm_vars st) (pm_subs st)).
Proof.
  intros [H1 H2]. split; cbn.
  - apply Forall_app. split; [done|]. constructor; [|constructor]. cbn. apply byte_range_slice.
  - intros k j Hj. specialize (H2 k j Hj). cbn in H2. rewrite length_app. lia.
Qed.

Lemma pm_inv_var st s i :
  pm_inv st -> i < length (pm_r st) ->
  pm_inv (mkPM (pm_r st) (<[s := i]> (pm_vars st)) (pm_subs st)).
Proof. intros [H1 H2] Hi. split; cbn; [done|]. by apply map_Forall_insert_2. Qed.

Lemma process_capture_total t st c :
  pm_inv st ->
  match qcaptures t !! c.2 with
  | None => False
  | Some (Variable_ _ (Some (_, re))) => forall s, is_Some (is_match re s)
  | Some (Number _) => readable c.1
  | Some _ => True
  end ->
  exists o, process_capture t source st c = Ok o /\
    match o with Some st' => pm_inv st' | None => True end.
Proof.
  destruct c as [n i]. cbn [fst snd]. intros Hst Hc. unfold process_capture.
  destruct (qcaptures t !! i) as [cap|]; [|done]. cbn [unwrap res_bind].
  pose proof (pm_inv_push st (qid t) n (Z.of_nat i) Hst) as Hpush.
  destruct cap as [|s o|s|k|k b|s|s]; cbn [is_sub_multi].
  - eexists; split; [done|]. apply Hpush.
  - assert (exists b : bool, (match o with
      | Some (negative, regex) =>
          let* txt := text source (byte_range n) in
          let* m := unwrap (is_match regex txt) in
          Ok (negb ((m && negative) || (negb m && negb negative)))
      | None => Ok true end : res Empty_set bool) = Ok b) as [b ->].
    { destruct o as [[neg re]|]; [|by eexists].
      destruct (node_text (E:=Empty_set) n) as (s' & -> & _). cbn.
      destruct (Hc s') as [m ->]. cbn. by eexists. }
    cbn. destruct b; [|by eexists]. eexists; split; [done|].
    refine (pm_inv_var _ s _ Hpush _). cbn. rewrite length_app. cbn. lia.
  - eexists; split; [done|]. apply Hpush.
  - destruct (node_text (E:=Empty_set) n) as (s' & -> & Hs'). cbn.
    destruct (Hc s' Hs') as [Hu Hm].
    destruct (parse_number_literal_ok s' Hu Hm) as ([y|] & -> & _); cbn; [|by eexists].
    destruct (negb _); eexists; (split; [done|]); [done|apply Hpush].
  - destruct b, (named_child_count n <? k), (negb (named_child_count n =? k)); eexists; (split; [done|]); try done; apply Hpush.
  - eexists; split; [done|]. exact Hpush.
  - eexists; split; [done|]. exact Hst.
Qed.

Lemma process_captured_total t st cs :
  pm_inv st ->
  Forall (fun c => match qcaptures t !! c.2 with
      | None => False
      | Some (Variable_ _ (Some (_, re))) => forall s, is_Some (is_match re s)
      | Some (Number _) => readable c.1
      | Some _ => True
      end) cs ->
  exists o, process_captured t source st cs = Ok o /\
    match o with Some st' => pm_inv st' | None => True end.
Proof.
  intros Hst Hcs. revert st Hst. induction Hcs as [|c cs Hc Hcs IH]; intros st Hst.
  { by eexists. }
  cbn. destruct (process_capture_total t st c Hst Hc) as ([st'|] & -> & Hst'); cbn; [|by eexists].
  by apply IH.
Qed.

Lemma base_result_wf st : pm_inv st -> wf_result source (base_result st).
Proof.
  intros [H1 H2] k i Hk. specialize (H2 k i Hk). cbn in H2.
  apply lookup_lt_is_Some in H2 as [c Hc]. unfold binding. cbn. rewrite Hc. cbn.
  by eapply (Forall_lookup_1 _ _ _ _ H1).
Qed.

(** A sub-tree call that returns well-formed results. *)
Definition returns_wf (p : res Empty_set (list QueryResult)) : Prop :=
  exists rs, p = Ok rs /\ Forall (wf_result source) rs.

Lemma ref_subqueries_total rec subs results :
  (forall s n, (s, n) ∈ subs -> returns_wf (rec s n)) ->
  Forall (wf_result source) results ->
  returns_wf (ref_subqueries rec source subs results).
Proof.
  revert results. induction subs as [|[s n] subs IH]; intros results Hrec Hwf; [by exists results|].
  cbn. destruct (is_empty results); [apply IH; [set_solver|done]|].
  destruct (Hrec s n) as (rs & -> & Hrs); [set_solver|]. cbn.
  rewrite merge_results_spec by done. cbn.
  apply IH; [set_solver|by apply merge_pairs_wf].
Qed.

Lemma ref_match1_total rec t root m :
  tree_ok t -> m ∈ ts_matches (query t) root source ->
  (forall s n, s ∈ children t -> returns_wf (rec s n)) ->
  returns_wf (ref_match1 rec t source m).
Proof.
  intros Hok Hm Hrec. unfold ref_match1.
  destruct (process_captured_total t (mkPM [] ∅ []) (m_captures m)) as ([st|] & Hst & Hinv).
  - split; cbn; [constructor|]. by intros k i; rewrite lookup_empty.
  - by eapply Hok.
  - rewrite Hst. cbn. apply ref_subqueries_total.
    + intros s n Hin. apply Hrec, sub_of_child. change s with (s, n).1.
      eapply process_captured_subs; [exact Hst| |exact Hin]. set_solver.
    + constructor; [|constructor]. by apply base_result_wf.
  - rewrite Hst. by exists [].
Qed.

Lemma ref_collect_total rec t root ms prs :
  tree_ok t -> (forall m, m ∈ ms -> m ∈ ts_matches (query t) root source) ->
  (forall s n, s ∈ children t -> returns_wf (rec s n)) ->
  length prs = pattern_count (query t) -> Forall (Forall (wf_result source)) prs ->
  exists prs', ref_collect rec t source ms prs = Ok prs' /\
    length prs' = pattern_count (query t) /\ Forall (Forall (wf_result source)) prs'.
Proof.
  intros Hok Hms Hrec. revert prs. induction ms as [|m ms IH]; intros prs Hlen Hwf; [by exists prs|].
  cbn. destruct (ref_match1_total rec t root m) as (rs & -> & Hrs); [done|set_solver|done|]. cbn.
  assert (pattern_index m < length prs) as [old Hold]%lookup_lt_is_Some.
  { rewrite Hlen. apply (pattern_index_lt (query t) root). set_solver. }
  unfold extend_at. rewrite Hold. cbn. apply IH; [set_solver|by rewrite length_insert|].
  apply Forall_insert; [done|]. apply Forall_app. split; [|done].
  by eapply (Forall_lookup_1 _ _ _ _ Hwf).
Qed.

(** [c] is the capture of a result for one query and capture index: the
    first of its captures with the two. *)
Definition captured_at (q : QueryResult) (id : nat) (index : Z) (c : CaptureResult) : Prop :=
  exists before after, captures q = before ++ c :: after /\
    query_id c = id /\ capture_idx c = index /\
    Forall (fun c' => ~ (query_id c' = id /\ capture_idx c' = index)) before.

(** [n] starts in the window of a negation: not before the end of the
    capture the negation follows, and not after the start of the next one,
    where the result has these captures. *)
Definition in_window (t : QueryTree) (index : Z) (r n : QueryResult) : Prop :=
  (forall c, captured_at r (qid t) (as_u32 index) c ->
     rend (cr_range c) <= rstart (function n)) /\
  (forall c, captured_at r (qid t) (as_u32 (index + 1)) c ->
     rstart (function n) <= rstart (cr_range c)).

Lemma captured_at_spec q id index c :
  captured_at q id index c <-> get_capture_result q id index = Some c.
Proof.
  unfold captured_at, get_capture_result. generalize (captures q). intros l.
  induction l as [|a l IH]; cbn.
  { split; [|done]. by intros ([|] & ? & ? & _). }
  destruct ((capture_idx a =? index)%Z && (query_id a =? id)) eqn:Ea.
  - apply andb_true_iff in Ea as [Hi%Z.eqb_eq Hq%Nat.eqb_eq]. split.
    + intros ([|b bs] & after & [= -> ->] & _ & _ & Hb); [done|].
      apply Forall_cons in Hb as [[] _]. done.
    + intros [= ->]. exists [], l. repeat split; auto.
  - assert (~ (query_id a = id /\ capture_idx a = index)) as Hn.
    { intros [<- <-]. by rewrite Z.eqb_refl, Nat.eqb_refl in Ea. }
    rewrite <-IH. split.
    + intros ([|b bs] & after & [= -> ->] & Hq & Hi & Hb); [tauto|].
      apply Forall_cons in Hb as [_ Hb]. by exists bs, after.
    + intros (bs & after & -> & Hq & Hi & Hb). exists (a :: bs), after.
      repeat split; auto.
Qed.

Lemma neg_in_window_spec t index r n :
  neg_in_window t index r n = true <-> in_window t index r n.
Proof.
  unfold neg_in_window, in_window, start_offset.
  setoid_rewrite captured_at_spec. rewrite andb_true_iff, !negb_true_iff.
  f_equiv; destruct (get_capture_result r (qid t) _) as [c|];
    rewrite ?Nat.ltb_ge; naive_solver.
Qed.

Definition ruled_out_by (t : QueryTree) (index : Z) (r : QueryResult) (n : QueryResult) : bool :=
  mergeable source false n r && neg_in_window t index r n.

(** A match of a negative sub-query rules a result out when the two agree
    on their variables and it starts in the window of the negation. *)
Definition rules_out (t : QueryTree) (index : Z) (r n : QueryResult) : Prop :=
  map_agree (env source n) (env source r) /\ in_window t index r n.

Lemma ruled_out_by_spec t index r n :
  ruled_out_by t index r n = true <-> rules_out t index r n.
Proof.
  unfold ruled_out_by, rules_out. rewrite andb_true_iff, mergeable_spec, neg_in_window_spec.
  unfold compatible. naive_solver.
Qed.

Lemma neg_any_spec t index r ns :
  wf_result source r -> Forall (wf_result source) ns ->
  neg_any t index source r ns = Ok (existsb (ruled_out_by t index r) ns).
Proof.
  intros Hr Hns. induction Hns as [|n ns Hn Hns IH]; [done|]. cbn.
  rewrite merge_spec, IH by done. cbn.
  destruct (existsb (ruled_out_by t index r) ns); unfold ruled_out_by;
    by destruct (mergeable source false n r), (neg_in_window t index r n).
Qed.

(** Some match of some negation rules the result out. *)
Definition excluded (rec : QueryTree -> Node -> res Empty_set (list QueryResult))
    (t : QueryTree) (root : Node) (r : QueryResult) (negs : list (NegativeQuery QueryTree)) : Prop :=
  exists neg ns n, neg ∈ negs /\ rec (neg_qt neg) root = Ok ns /\ n ∈ ns /\
    rules_out t (previous_capture_index neg) r n.

Lemma ref_negated_spec rec t root r negs :
  wf_result source r ->
  (forall neg, neg ∈ negs -> returns_wf (rec (neg_qt neg) root)) ->
  exists b, ref_negated rec t root source r negs = Ok b /\
    (b = true <-> excluded rec t root r negs).
Proof.
  intros Hr. induction negs as [|neg negs IH]; intros Hrec.
  { exists false. split; [done|]. split; [done|]. by intros (? & ? & ? & ?%not_elem_of_nil & _). }
  cbn. destruct (Hrec neg) as (ns & Hns & Hwf); [set_solver|]. rewrite Hns. cbn.
  rewrite neg_any_spec by done. cbn. destruct (existsb _ ns) eqn:Ex.
  - exists true. split; [done|]. split; [|done]. intros _.
    apply existsb_exists in Ex as (n & Hn & Hb%ruled_out_by_spec). exists neg, ns, n.
    rewrite list_elem_of_In. split; [by left|]. split; [done|]. split; [by apply list_elem_of_In|done].
  - destruct IH as (b & -> & Hb); [set_solver|]. exists b. split; [done|]. rewrite Hb.
    split; intros (neg' & ns' & n & Hneg & Hns' & Hn & Hro); exists neg', ns', n.
    + split; [set_solver|done].
    + apply elem_of_cons in Hneg as [->|Hneg]; [|done].
      exfalso. rewrite Hns in Hns'. injection Hns' as <-.
      apply not_true_iff_false in Ex. apply Ex, existsb_exists. exists n.
      split; [by apply list_elem_of_In|by apply ruled_out_by_spec].
Qed.

Lemma ref_filter_spec rec t root rs :
  Forall (wf_result source) rs ->
  (forall neg, neg ∈ negations t -> returns_wf (rec (neg_qt neg) root)) ->
  exists out, ref_filter rec t root source rs = Ok out /\
    Forall (wf_result source) out /\
    forall r, r ∈ out <-> r ∈ rs /\ ~ excluded rec t root r (negations t).
Proof.
  intros Hrs Hrec. induction Hrs as [|r rs Hr Hrs (out & Hout & Hwf & Hin)].
  { exists []. split; [done|]. split; [constructor|]. set_solver. }
  cbn. destruct (ref_negated_spec rec t root r (negations t) Hr Hrec) as (b & -> & Hb). cbn.
  rewrite Hout. cbn. destruct b.
  - exists out. split; [done|]. split; [done|]. intros r'. rewrite Hin, elem_of_cons.
    split; [tauto|]. intros [[->|?] ?]; tauto.
  - exists (r :: out). split; [done|]. split; [by constructor|]. intros r'.
    rewrite !elem_of_cons, Hin. split; [|tauto].
    intros [->|?]; [|tauto]. split; [by left|]. rewrite <-Hb. done.
Qed.

(** A result selected from the pattern results. *)
Definition selected (prs : list (list QueryResult)) (r : QueryResult) : Prop :=
  match prs with
  | [] => False
  | pr :: prs =>
      exists q0 qs, q0 ∈ pr /\ Forall2 (fun q pr => q ∈ pr) qs prs /\
        coherent source q0 qs /\ r = foldl merged q0 qs
  end.

Lemma selected_nonempty prs r : selected prs r -> existsb is_empty prs = false.
Proof.
  destruct prs as [|pr prs]; [done|]. intros (q0 & qs & Hq0 & Hqs & _).
  cbn. apply orb_false_iff. split; [by destruct pr; [apply not_elem_of_nil in Hq0|]|].
  clear Hq0. induction Hqs as [|q pr' qs prs Hq Hqs IH]; [done|]. cbn.
  rewrite IH. by destruct pr'; [apply not_elem_of_nil in Hq|].
Qed.

Lemma ref_step_spec rec t root :
  tree_ok t -> (forall s n, s ∈ children t -> returns_wf (rec s n)) ->
  exists prs rs,
    ref_collect rec t source (ts_matches (query t) root source)
      (replicate (pattern_count (query t)) []) = Ok prs /\
    ref_step rec t root source = Ok rs /\ Forall (wf_result source) rs /\
    forall r, r ∈ rs <-> selected prs r /\ ~ excluded rec t root r (negations t).
Proof.
  intros Hok Hrec. unfold ref_step.
  destruct (ref_collect_total rec t root (ts_matches (query t) root source)
    (replicate (pattern_count (query t)) [])) as (prs & Hprs & _ & Hwf); [done|done|done|..].
  { apply length_replicate. } { by apply Forall_replicate. }
  exists prs. rewrite Hprs. cbn [res_bind]. destruct (existsb is_empty prs) eqn:Ee.
  { exists []. do 2 (split; [done|]). split; [constructor|]. intros r. split; [by intros ?%not_elem_of_nil|].
    intros [Hs%selected_nonempty _]. congruence. }
  destruct prs as [|pr prs].
  { exists []. do 2 (split; [done|]). split; [constructor|]. intros r.
    split; [by intros ?%not_elem_of_nil|]. by intros [[] _]. }
  cbn in Ee. apply orb_false_iff in Ee as [Ee _]. apply Forall_cons in Hwf as [Hpr Hwf].
  destruct (merge_patterns_acc source pr prs) as (ms & Hms & Hwm & Hin); [by destruct pr|done|done|].
  cbn [merge_patterns]. rewrite Hms. cbn [res_bind].
  destruct (ref_filter_spec rec t root ms Hwm) as (out & Hout & Hwo & Hino).
  { intros neg Hneg. apply Hrec, neg_child, Hneg. }
  exists out. do 3 (split; [done|]). intros r. rewrite Hino, Hin. done.
Qed.

Lemma ref_match_total t root fuel :
  all_ok t -> depth t <= fuel -> returns_wf (ref_match fuel t root source).
Proof.
  revert root fuel. induction t as [t IH] using query_tree_ind. intros root fuel Hok Hd.
  destruct fuel as [|fuel]; [destruct t; cbn in Hd; lia|]. cbn.
  destruct (ref_step_spec (fun s n => ref_match fuel s n source) t root) as (_ & rs & _ & Hrs & Hwf & _).
  - apply Hok, subtree_refl.
  - intros s n Hs. apply IH; [done| |].
    + intros u Hu. apply Hok. by eapply subtree_child.
    + pose proof (depth_child t s Hs). lia.
  - by exists rs.
Qed.

Lemma excluded_ext rec1 rec2 t root r negs :
  (forall n, n ∈ negs -> rec1 (neg_qt n) root = rec2 (neg_qt n) root) ->
  excluded rec1 t root r negs <-> excluded rec2 t root r negs.
Proof.
  intros Heq. split; intros (neg & ns & n & Hneg & Hrec & H); exists neg, ns, n.
  - by rewrite <-Heq.
  - by rewrite Heq.
Qed.
End totality.

Lemma elem_of_dedup {A} `{EqDecision A} (l : list A) (x : A) : x ∈ dedup l <-> x ∈ l.
Proof.
  induction l as [|a l IH]; [done|]. cbn. destruct l as [|b l]; [done|].
  rewrite (elem_of_cons (b :: l)), <-IH. case_decide as Hab; [|by rewrite elem_of_cons].
  split; [tauto|]. intros [->|?]; [|done]. rewrite IH, Hab. by left.
Qed.

Lemma Forall_dedup {A} `{EqDecision A} (P : A -> Prop) (l : list A) :
  Forall P l -> Forall P (dedup l).
Proof. rewrite !Forall_forall. intros H x Hx. by apply H, elem_of_dedup. Qed.

(** The results of a query, without cache and at sufficient depth. *)
Definition results_of `{TS : TreeSitter} (source : string) (t : QueryTree) (root : Node)
    : res Empty_set (list QueryResult) := ref_match (depth t) t root source.

Lemma matches_characterised `{TS : TreeSitter} (source : string) `{!TreeSitterLaws TS source}
    (t : QueryTree) (root : Node) :
  ids_unique t -> all_ok source t ->
  exists prs rs,
    ref_collect (results_of source) t source (ts_matches (query t) root source)
      (replicate (pattern_count (query t)) []) = Ok prs /\
    matches t root source = Ok rs /\ Forall (wf_result source) rs /\
    forall r, r ∈ rs <->
      selected source prs r /\ ~ excluded source (results_of source) t root r (negations t).
Proof.
  intros Hu Hok. rewrite matches_cache_transparent_eq by done. unfold reference_matches.
  assert (0 < depth t) by (destruct t; cbn; lia).
  destruct (ref_step_spec source (fun s n => ref_match (depth t) s n source) t root)
    as (prs & rs & Hprs & Hrs & Hwf & Hin).
  { apply Hok, subtree_refl. }
  { intros s n Hs. pose proof (depth_child t s Hs). apply ref_match_total; [done| |lia].
    intros u Hsu. apply Hok. by eapply subtree_child. }
  assert (forall s n, s ∈ children t -> ref_match (depth t) s n source = results_of source s n) as Heq.
  { intros s n Hs. pose proof (depth_child t s Hs). unfold results_of.
    rewrite (ref_match_fuel s n source (depth t) (depth s)) by lia. done. }
  exists prs, (dedup rs). rewrite <-Hprs. split; [symmetry; by apply ref_collect_ext|]. split.
  { rewrite (ref_match_fuel t root source (depth t) (S (depth t))) by lia. cbn. by rewrite Hrs. }
  split; [by apply Forall_dedup|]. intros r. rewrite elem_of_dedup, Hin. f_equiv. f_equiv.
  apply excluded_ext. intros n Hn. apply Heq, neg_child, Hn.
Qed.

Lemma matches_returns `{TS : TreeSitter} (source : string) `{!TreeSitterLaws TS source}
    (t : QueryTree) (root : Node) :
  ids_unique t -> all_ok source t ->
  exists rs, matches t root source = Ok rs /\ Forall (wf_result source) rs.
Proof.
  intros Hu Hok. destruct (matches_characterised source t root Hu Hok)
    as (prs & rs & _ & Hrs & Hwf & _). by exists rs.
Qed.

(** C1. What a query returns.  Assume tree-sitter behaves as documented, the
    query trees below the root carry distinct ids ([ids_unique]; the tree
    builder does not guarantee it: [BuilderDemo.shared_ids_change_results]
    is a pattern whose built tree repeats an id and whose results the shared
    cache entry changes) and the query texts fit the capture vectors of
    every tree ([all_ok]: a capture index of a match has an entry, regular
    expressions do not fail, number captures are on readable nodes).  Then
    [matches] returns (no panic, no lost recursion) a list of well-formed
    results, and a result is in it if and only if it is the merge of one
    match per pattern (sub-queries merged in), every two of which agree on
    their shared variables with the ranges of the later one starting
    strictly after the ends of those of the earlier one, and no match of a
    negative sub-query rules it out: none that agrees with it on the shared
    variables and starts neither before the end of the capture the negation
    follows nor after the start of the capture after it. *)
Theorem matches_spec `{TS : TreeSitter} (source : string) `{!TreeSitterLaws TS source}
    (t : QueryTree) (root : Node) :
  ids_unique t -> all_ok source t ->
  exists prs rs,
    ref_collect (results_of source) t source (ts_matches (query t) root source)
      (replicate (pattern_count (query t)) []) = Ok prs /\
    matches t root source = Ok rs /\ Forall (wf_result source) rs /\
    forall r, r ∈ rs <->
      selected source prs r /\ ~ excluded source (results_of source) t root r (negations t).
Proof. by apply matches_characterised. Qed.

Lemma demo_all_ok : all_ok demo_source demo_tree.
Proof.
  refine (subtree_children_ind (tree_ok demo_source) demo_tree _). repeat (constructor; [|]); [..|constructor];
    intros root m (e & He & Hm)%(table_matches_elem demo_nodes); cbn in He;
    repeat (apply elem_of_cons in He as [->|He]; [cbn in Hm;
      repeat (apply elem_of_cons in Hm as [->|Hm]; [by repeat constructor|]);
      by apply not_elem_of_nil in Hm|]);
    by apply not_elem_of_nil in He.
Qed.

Lemma matches_spec_witness :
  exists rs, matches demo_tree (0 : @Node demo_ts) demo_source = Ok rs /\
    Forall (wf_result demo_source) rs.
Proof.
  destruct (matches_spec demo_source demo_tree (0 : @Node demo_ts)) as (prs & rs & _ & Hrs & Hwf & _).
  - apply ids_unique_nodup. by_decide.
  - apply demo_all_ok.
  - exists rs. split; assumption.
Defined.
