(* ===== verification/Chain.v ===== *)
(** * Cross-query filtering: [filter_chainable_results] of [src/src/main.rs]

    The results of all queries of a rule file are filtered so that each
    kept result has, for every other query that produced results, a result
    with compatible variables.  Results arrive from worker threads in an
    arbitrary order; the filter is shown to be a plain set-comprehension, so
    what is kept does not depend on that order. *)

From Stdlib Require Import Ascii.
From stdpp Require Import base numbers gmap strings list.
From S2P Require Import Prelude Text Result.

(** [ResultsCtx] of [types.rs]. *)
Record ResultsCtx := mkCtx {
  query_index : nat;
  path : string;
  source : string;
  result : QueryResult;
  reason : string;
  issue : string;
}.

(** [groups.entry(q).or_default().push(idx)] for every result in turn. *)
Definition push_group (g : gmap nat (list nat)) (p : nat * ResultsCtx) : gmap nat (list nat) :=
  <[query_index p.2 := default [] (g !! query_index p.2) ++ [p.1]]> g.

Fixpoint enumerate_from {A : Type} (n : nat) (l : list A) : list (nat * A) :=
  match l with [] => [] | x :: l => (n, x) :: enumerate_from (S n) l end.

Definition group_results (results : list ResultsCtx) : gmap nat (list nat) :=
  foldl push_group ∅ (enumerate_from 0 results).

(** [indices_j.iter().any(..)] *)
Fixpoint has_chainable {E : Type} (results : list ResultsCtx) (a : ResultsCtx)
    (indices_j : list nat) : res E bool :=
  match indices_j with
  | [] => Ok false
  | idx_b :: rest =>
      let* b := unwrap (results !! idx_b) in
      let* c := chainable (result a) (source a) (result b) (source b) in
      if c then Ok true else has_chainable results a rest
  end.

(** The inner loop over the other groups, with its [break]. *)
Fixpoint chainable_with_all {E : Type} (results : list ResultsCtx) (query_i : nat)
    (a : ResultsCtx) (groups : list (nat * list nat)) : res E bool :=
  match groups with
  | [] => Ok true
  | (query_j, indices_j) :: rest =>
      if query_i =? query_j then chainable_with_all results query_i a rest
      else
        let* h := has_chainable results a indices_j in
        if (h : bool) then chainable_with_all results query_i a rest else Ok false
  end.

Definition mark_one {E : Type} (results : list ResultsCtx) (groups : list (nat * list nat))
    (query_i : nat) (keep : list bool) (idx_a : nat) : res E (list bool) :=
  let* a := unwrap (results !! idx_a) in
  let* b := chainable_with_all results query_i a groups in
  if idx_a <? length keep then Ok (<[idx_a := b]> keep) else Panic.

Definition mark_group {E : Type} (results : list ResultsCtx) (groups : list (nat * list nat))
    (keep : list bool) (g : nat * list nat) : res E (list bool) :=
  res_foldM (mark_one results groups g.1) keep g.2.

Fixpoint collect_kept {E : Type} (keep : list bool) (results : list (nat * ResultsCtx))
    : res E (list ResultsCtx) :=
  match results with
  | [] => Ok []
  | (idx, r) :: rest =>
      let* k := unwrap (keep !! idx) in
      let* rs := collect_kept keep rest in
      Ok (if (k : bool) then r :: rs else rs)
  end.

(** [groups] in the iteration order [order] of the hash map. *)
Definition filter_chainable_in {E : Type} (order : list (nat * list nat))
    (results : list ResultsCtx) : res E (list ResultsCtx) :=
  match results with
  | [] => Ok results
  | _ =>
      if length order <=? 1 then Ok results
      else
        let* keep := res_foldM (mark_group results order) (replicate (length results) false) order in
        collect_kept keep (enumerate_from 0 results)
  end.

Definition filter_chainable_results {E : Type} (results : list ResultsCtx)
    : res E (list ResultsCtx) :=
  filter_chainable_in (map_to_list (group_results results)) results.

(** ** The specification *)

Definition compatible (a b : ResultsCtx) : Prop :=
  map_agree (env (source a) (result a)) (env (source b) (result b)).

(** Every other query that has results has one compatible with [a]. *)
Definition chained (results : list ResultsCtx) (a : ResultsCtx) : Prop :=
  Forall (fun c => query_index c <> query_index a ->
    Exists (fun b => query_index b = query_index c /\ compatible a b) results) results.

#[export] Instance compatible_dec a b : Decision (compatible a b).
Proof. unfold compatible. apply _. Defined.
#[export] Instance chained_dec results a : Decision (chained results a).
Proof. unfold chained. apply _. Defined.

Definition ctx_wf (c : ResultsCtx) : Prop := wf_result (source c) (result c).
#[export] Instance ctx_wf_dec c : Decision (ctx_wf c).
Proof. unfold ctx_wf. apply _. Defined.

Lemma filter_all {A} (P : A -> Prop) `{!forall x, Decision (P x)} (l : list A) :
  Forall P l -> filter P l = l.
Proof. induction 1 as [|x l Hx Hl IH]; [done|]. by rewrite filter_cons_True, IH. Qed.

(** ** Groups *)

Lemma elem_of_enumerate {A} n (l : list A) i x :
  (i, x) ∈ enumerate_from n l <-> n <= i /\ l !! (i - n) = Some x.
Proof.
  revert n. induction l as [|y l IH]; intros n; cbn.
  { split; [by intros ?%not_elem_of_nil|]. by intros [_ ?]. }
  rewrite elem_of_cons, IH. split.
  - intros [[= -> ->]|[Hi Hl]]; [by rewrite Nat.sub_diag|].
    split; [lia|]. by replace (i - n) with (S (i - S n)) by lia.
  - intros [Hi Hl]. destruct (decide (i = n)) as [->|].
    + rewrite Nat.sub_diag in Hl. injection Hl as ->. by left.
    + right. split; [lia|]. by replace (i - n) with (S (i - S n)) in Hl by lia.
Qed.

(** Position [i] is in the group of [q] exactly when result [i] is of [q]. *)
Lemma push_groups_spec l g q i :
  i ∈ default [] (foldl push_group g l !! q) <->
    i ∈ default [] (g !! q) \/ exists r, (i, r) ∈ l /\ query_index r = q.
Proof.
  revert g. induction l as [|[j r] l IH]; intros g; cbn.
  { split; [by left|]. intros [?|(r & ?%not_elem_of_nil & _)]; done. }
  rewrite IH. unfold push_group. cbn. rewrite lookup_insert. case_decide as Hq; cbn.
  - rewrite elem_of_app, list_elem_of_singleton, Hq. setoid_rewrite elem_of_cons. naive_solver.
  - setoid_rewrite elem_of_cons. naive_solver.
Qed.

Lemma group_results_spec results q i :
  i ∈ default [] (group_results results !! q) <->
    exists r, results !! i = Some r /\ query_index r = q.
Proof.
  unfold group_results. rewrite push_groups_spec, lookup_empty. cbn.
  setoid_rewrite elem_of_enumerate. setoid_rewrite Nat.sub_0_r.
  split; [|intros (r & Hr & Hq); right; exists r; auto with lia].
  intros [?%not_elem_of_nil|(r & [_ Hr] & Hq)]; [done|eauto].
Qed.

Lemma push_groups_nonempty l g q ids :
  (forall q ids, g !! q = Some ids -> ids <> []) ->
  foldl push_group g l !! q = Some ids -> ids <> [].
Proof.
  revert g. induction l as [|[j r] l IH]; intros g Hg; cbn; [apply Hg|].
  apply IH. intros q' ids'. unfold push_group. cbn. rewrite lookup_insert. case_decide; [|apply Hg].
  intros [= <-]. by destruct (default [] _).
Qed.

Lemma group_results_in results q ids :
  group_results results !! q = Some ids ->
  ids <> [] /\ forall i, i ∈ ids <-> exists r, results !! i = Some r /\ query_index r = q.
Proof.
  intros H. split.
  - eapply push_groups_nonempty; [|exact H]. intros ??. by rewrite lookup_empty.
  - intros i. rewrite <-group_results_spec, H. done.
Qed.

Lemma group_results_some results i r :
  results !! i = Some r -> exists ids, group_results results !! query_index r = Some ids /\ i ∈ ids.
Proof.
  intros Hr. destruct (group_results results !! query_index r) as [ids|] eqn:Hg.
  - exists ids. split; [done|]. destruct (group_results_in _ _ _ Hg) as [_ ->]. eauto.
  - assert (i ∈ default [] (group_results results !! query_index r)) as Hin.
    { apply group_results_spec. eauto. }
    rewrite Hg in Hin. by apply not_elem_of_nil in Hin.
Qed.

Section filtering.
Context {E : Type} (results : list ResultsCtx) (order : list (nat * list nat)).
Hypothesis Hwf : Forall ctx_wf results.
Hypothesis Horder : order ≡ₚ map_to_list (group_results results).

Lemma order_group q ids : (q, ids) ∈ order <-> group_results results !! q = Some ids.
Proof. by rewrite Horder, elem_of_map_to_list. Qed.

Definition partner (a : ResultsCtx) (i : nat) : Prop :=
  exists b, results !! i = Some b /\ compatible a b.

#[local] Instance partner_dec a i : Decision (partner a i).
Proof.
  unfold partner.
  destruct (results !! i) as [b|]; [|right; naive_solver].
  destruct (decide (compatible a b)); [left; eauto|right; naive_solver].
Defined.

Lemma has_chainable_spec a ids :
  ctx_wf a -> (forall i, i ∈ ids -> is_Some (results !! i)) ->
  has_chainable (E:=E) results a ids =
    Ok (bool_decide (Exists (partner a) ids)).
Proof.
  intros Ha His. induction ids as [|i ids IH].
  { reflexivity. }
  cbn [has_chainable]. destruct (His i) as [b Hb]; [by left|]. rewrite Hb. cbn [unwrap res_bind].
  pose proof (Forall_lookup_1 _ _ _ _ Hwf Hb) as Hbwf.
  rewrite chainable_spec by done. cbn [res_bind]. fold (compatible a b).
  destruct (decide (compatible a b)) as [Hc|Hc].
  - rewrite (bool_decide_true (compatible a b)) by done.
    rewrite bool_decide_true; [done|]. apply Exists_cons. left. by exists b.
  - rewrite (bool_decide_false (compatible a b)), IH by (done || (intros; apply His; by right)). f_equal. apply bool_decide_ext.
    rewrite Exists_cons. split; [by right|]. intros [(b' & Hb' & Hc')|?]; [|done].
    rewrite Hb in Hb'. injection Hb' as <-. done.
Qed.

Lemma chainable_with_all_spec a gs :
  ctx_wf a -> (forall g, g ∈ gs -> g ∈ order) ->
  chainable_with_all (E:=E) results (query_index a) a gs =
    Ok (bool_decide (Forall (fun g => query_index a <> g.1 ->
      Exists (partner a) g.2) gs)).
Proof.
  intros Ha Hgs. induction gs as [|[q ids] gs IH]; [done|].
  cbn [chainable_with_all]. assert (forall g, g ∈ gs -> g ∈ order) as Hgs' by (intros; apply Hgs; by right).
  destruct (Nat.eqb_spec (query_index a) q) as [Hq|Hq].
  - rewrite IH by done. f_equal. apply bool_decide_ext. rewrite Forall_cons. cbn. naive_solver.
  - rewrite has_chainable_spec; [|done|]; cycle 1.
    { intros i Hi. assert ((q, ids) ∈ order) as Hin by (apply Hgs; by left).
      apply order_group, group_results_in in Hin as [_ Hin]. apply Hin in Hi as (r & -> & _). by eexists. }
    cbn [res_bind]. destruct (decide (Exists (partner a) ids)) as [He|He].
    + rewrite (bool_decide_true (Exists (partner a) ids)) by done. rewrite IH by done. f_equal. apply bool_decide_ext. rewrite Forall_cons. cbn. naive_solver.
    + rewrite (bool_decide_false (Exists (partner a) ids)) by done.
      rewrite bool_decide_false; [done|]. rewrite Forall_cons. cbn. naive_solver.
Qed.

Lemma chained_groups a :
  Forall (fun g => query_index a <> g.1 ->
    Exists (partner a) g.2) order <->
  chained results a.
Proof.
  unfold chained. rewrite !Forall_forall. split.
  - intros H c Hc Hq. apply list_elem_of_lookup in Hc as [i Hi].
    destruct (group_results_some _ _ _ Hi) as (ids & His & _).
    specialize (H (query_index c, ids)). rewrite order_group in H. cbn in H.
    destruct (proj1 (Exists_exists _ _) (H His (not_eq_sym Hq))) as (j & Hj & b & Hb & Hcb).
    apply Exists_exists. exists b. split; [by eapply list_elem_of_lookup_2|]. split; [|done].
    apply group_results_in in His as [_ His]. apply His in Hj as (b' & Hb' & Hqb).
    rewrite Hb in Hb'. by injection Hb' as <-.
  - intros H [q ids] Hin Hq. cbn in *. apply order_group, group_results_in in Hin as [Hne Hin].
    destruct ids as [|i0 ids]; [done|]. destruct (proj1 (Hin i0)) as (c & Hc & Hcq); [by left|].
    destruct (proj1 (Exists_exists _ _) (H c (list_elem_of_lookup_2 _ _ _ Hc) ltac:(congruence)))
      as (b & Hb & Hqb & Hcomp).
    apply list_elem_of_lookup in Hb as [j Hj]. apply Exists_exists. exists j.
    split; [|by exists b]. apply Hin. exists b. split; [done|congruence].
Qed.

Definition target (i : nat) : bool :=
  match results !! i with Some a => bool_decide (chained results a) | None => false end.

Lemma mark_one_spec q ids keep i :
  (q, ids) ∈ order -> i ∈ ids -> length keep = length results ->
  mark_one (E:=E) results order q keep i = Ok (<[i := target i]> keep).
Proof.
  intros Hg Hi Hlen. apply order_group, group_results_in in Hg as [_ Hg].
  apply Hg in Hi as (a & Ha & <-). unfold mark_one, target. rewrite Ha. cbn [unwrap res_bind].
  rewrite chainable_with_all_spec; [|by eapply (Forall_lookup_1 _ _ _ _ Hwf)|done].
  cbn [res_bind]. rewrite (bool_decide_ext _ _ (chained_groups a)).
  apply lookup_lt_Some in Ha. by rewrite Hlen, (proj2 (Nat.ltb_lt _ _) Ha).
Qed.

(** Marking the members [l] of a group sets exactly their flags. *)
Lemma mark_members_spec q ids l keep :
  (q, ids) ∈ order -> (forall i, i ∈ l -> i ∈ ids) -> length keep = length results ->
  exists keep', res_foldM (mark_one (E:=E) results order q) keep l = Ok keep' /\
    length keep' = length results /\
    forall i, keep' !! i = if decide (i ∈ l) then ((fun _ => target i) <$> (results !! i)) else keep !! i.
Proof.
  intros Hg. revert keep. induction l as [|j l IH]; intros keep Hl Hlen; [by exists keep|].
  cbn. rewrite (mark_one_spec q ids) by (try apply Hl; set_solver). cbn.
  destruct (IH (<[j := target j]> keep)) as (keep' & -> & Hlen' & Hk);
    [set_solver|by rewrite length_insert|].
  exists keep'. do 2 (split; [done|]). intros i. rewrite Hk.
  assert (j < length results) as Hj.
  { assert (j ∈ ids) as Hj by set_solver. apply order_group, group_results_in in Hg as [_ Hg].
    apply Hg in Hj as (a & Ha%lookup_lt_Some & _). done. }
  destruct (decide (i ∈ l)), (decide (i ∈ j :: l)) as [|Hn]; try done; [set_solver| |].
  - assert (i = j) as -> by set_solver. rewrite list_lookup_insert_eq by lia.
    by apply lookup_lt_is_Some in Hj as [a ->].
  - rewrite list_lookup_insert_ne; [done|]. intros ->. apply Hn. by left.
Qed.

Lemma mark_groups_spec gs keep :
  (forall g, g ∈ gs -> g ∈ order) -> length keep = length results ->
  exists keep', res_foldM (mark_group (E:=E) results order) keep gs = Ok keep' /\
    length keep' = length results /\
    forall i, (exists g, g ∈ gs /\ i ∈ g.2) \/ keep !! i = ((fun _ => target i) <$> (results !! i)) ->
      keep' !! i = ((fun _ => target i) <$> (results !! i)).
Proof.
  revert keep. induction gs as [|[q ids] gs IH]; intros keep Hgs Hlen.
  { exists keep. do 2 (split; [done|]). by intros i [(g & ?%not_elem_of_nil & _)|?]. }
  cbn [res_foldM].
  change (mark_group results order keep (q, ids)) with (res_foldM (mark_one (E:=E) results order q) keep ids).
  destruct (mark_members_spec q ids ids keep) as (k1 & -> & Hl1 & Hk1);
    [apply Hgs; by left|done|done|]. cbn [res_bind].
  destruct (IH k1) as (k2 & -> & Hl2 & Hk2); [intros; apply Hgs; by right|done|].
  exists k2. do 2 (split; [done|]). intros i Hi. apply Hk2. rewrite Hk1.
  destruct (decide (i ∈ ids)); [by right|].
  destruct Hi as [(g & [->|Hg]%elem_of_cons & Hi)|Hi]; [done|left; eauto|by right].
Qed.

Lemma collect_kept_spec keep n l :
  (forall i r, l !! i = Some r -> results !! (n + i) = Some r) ->
  (forall i, keep !! i = ((fun _ => target i) <$> (results !! i))) ->
  collect_kept (E:=E) keep (enumerate_from n l) = Ok (filter (chained results) l).
Proof.
  intros Hl Hk. revert n Hl. induction l as [|r l IH]; intros n Hl; [done|].
  cbn [enumerate_from collect_kept]. rewrite Hk.
  pose proof (Hl 0 r eq_refl) as Hr. rewrite Nat.add_0_r in Hr. rewrite Hr.
  change ((fun _ => target n) <$> Some r) with (Some (target n)). cbn [unwrap res_bind].
  rewrite IH; cycle 1.
  { intros i r' Hi. replace (S n + i) with (n + S i) by lia. by apply Hl. }
  cbn [res_bind]. unfold target. rewrite Hr, filter_cons.
  destruct (decide (chained results r)); by rewrite ?bool_decide_true, ?bool_decide_false by done.
Qed.

Lemma single_group_chained :
  length order <= 1 -> Forall (chained results) results.
Proof.
  intros Hlen. apply Forall_forall. intros a Ha. apply Forall_forall. intros c Hc Hne. exfalso.
  apply list_elem_of_lookup in Ha as [i Ha], Hc as [j Hc].
  destruct (group_results_some _ _ _ Ha) as (ia & Hia & _).
  destruct (group_results_some _ _ _ Hc) as (ic & Hic & _).
  apply order_group in Hia, Hic.
  destruct order as [|g1 [|g2 o]]; cbn in Hlen; [by apply not_elem_of_nil in Hia| |lia].
  apply list_elem_of_singleton in Hia, Hic. congruence.
Qed.

Lemma filter_chainable_in_spec :
  filter_chainable_in (E:=E) order results = Ok (filter (chained results) results).
Proof.
  destruct (decide (results = [])) as [Hnil|Hnil].
  { clear -Hnil. by rewrite Hnil. }
  transitivity (if length order <=? 1 then Ok results else
    let* keep := res_foldM (mark_group (E:=E) results order)
                   (replicate (length results) false) order in
    collect_kept keep (enumerate_from 0 results)).
  { clear -Hnil. by destruct results. }
  destruct (Nat.leb_spec (length order) 1) as [Hle|Hgt].
  { f_equal. symmetry. apply filter_all, single_group_chained, Hle. }
  destruct (mark_groups_spec order (replicate (length results) false)) as (keep & -> & _ & Hk);
    [done|apply length_replicate|]. cbn [res_bind].
  apply collect_kept_spec; [done|]. intros i. apply Hk.
  destruct (results !! i) as [a|] eqn:Ha.
  - left. destruct (group_results_some _ _ _ Ha) as (ids & Hids & Hi).
    exists (query_index a, ids). by rewrite order_group.
  - right. change (replicate (length results) false !! i = None). apply lookup_ge_None. rewrite length_replicate. by apply lookup_ge_None.
Qed.
End filtering.

Lemma chained_perm results results' a :
  results ≡ₚ results' -> chained results a <-> chained results' a.
Proof.
  intros Hp. unfold chained. rewrite !Forall_forall.
  split; intros H c Hc Hq.
  - rewrite <-Hp. apply H; [by rewrite Hp|done].
  - rewrite Hp. apply H; [by rewrite <-Hp|done].
Qed.

Lemma filter_chainable_perm {E : Type} (results results' : list ResultsCtx) :
  Forall ctx_wf results -> results ≡ₚ results' ->
  exists kept kept',
    filter_chainable_results (E:=E) results = Ok kept /\
    filter_chainable_results (E:=E) results' = Ok kept' /\ kept ≡ₚ kept'.
Proof.
  intros Hwf Hperm.
  exists (filter (chained results) results), (filter (chained results') results').
  split; [by apply filter_chainable_in_spec|].
  split; [apply filter_chainable_in_spec; [by rewrite <-Hperm|done]|].
  transitivity (filter (chained results) results'); [by apply filter_Permutation|].
  rewrite (list_filter_iff (chained results) (chained results')); [done|].
  intros a. apply chained_perm, Hperm.
Qed.

(** C29. [filter_chainable_results] keeps a result exactly when every other
    query that produced results has one with compatible variables, and keeps
    the kept ones in arrival order; it never panics, whatever order the hash
    map of groups is walked in; and since workers deliver results in an
    arbitrary order: permuting its input only permutes its output. *)
Theorem filter_chainable_spec {E : Type} (results results' : list ResultsCtx)
    (order : list (nat * list nat)) :
  Forall ctx_wf results -> order ≡ₚ map_to_list (group_results results) ->
  results ≡ₚ results' ->
  filter_chainable_in (E:=E) order results = Ok (filter (chained results) results) /\
  exists kept kept',
    filter_chainable_results (E:=E) results = Ok kept /\
    filter_chainable_results (E:=E) results' = Ok kept' /\ kept ≡ₚ kept'.
Proof.
  intros Hwf Horder Hperm.
  split; [by apply filter_chainable_in_spec|by apply filter_chainable_perm].
Qed.

Definition chain_source : string := "f(a); g(b); f(b);".
Definition chain_ctx (q : nat) (s e : nat) : ResultsCtx :=
  mkCtx q "x.c" chain_source (mkQR [mkCapture (Range s e) q 0] {["$v" := 0]} (Range s e)) "r" "i".
(** Query 0 finds a and b, query 1 finds b only. *)
Definition chain_results : list ResultsCtx := [chain_ctx 0 2 3; chain_ctx 0 8 9; chain_ctx 1 14 15].

Lemma filter_chainable_spec_witness :
  filter_chainable_results (E:=Empty_set) chain_results = Ok [chain_ctx 0 8 9; chain_ctx 1 14 15].
Proof.
  unfold filter_chainable_results.
  rewrite (proj1 (filter_chainable_spec (E:=Empty_set) chain_results chain_results
    (map_to_list (group_results chain_results)) ltac:(by_decide) (Permutation_refl _) (Permutation_refl _))).
  vm_compute. reflexivity.
Defined.
