(* ===== verification/Pipeline.v ===== *)
(** * The worker pipeline: [src/src/pipeline.rs]

    Files whose text contains every identifier of some work item are parsed
    and each query is run on each parsed file; its matches are filtered by
    the --unique and --limit options and sent to the collector.  The
    workers run in parallel: the collector receives some interleaving of
    what they send. *)

From Stdlib Require Import Ascii.
From stdpp Require Import base numbers gmap strings list.
From S2P Require Import Prelude Text Util Result TreeSitter Capture Query Sample QueryMemo QueryProps Chain.

Record Options := mkOptions { limit : bool; unique : bool }.

(** ** Filtering the matches of one query in one file *)

(** [keys().map(value.unwrap()).all(|x| seen.insert(x))] in the iteration
    order [keys]. *)
Fixpoint all_fresh {E : Type} (m : QueryResult) (source : string) (keys : list string)
    (seen : gset string) : res E bool :=
  match keys with
  | [] => Ok true
  | k :: keys =>
      let* v := value m k source in
      let* x := unwrap v in
      if decide (x ∈ seen) then Ok false else all_fresh m source keys ({[x]} ∪ seen)
  end.

Definition check_unique {E : Type} (o : Options) (source : string) (m : QueryResult) : res E bool :=
  if unique o then all_fresh m source (map_to_list (vars m)).*1 ∅ else Ok true.

(** [skip_set.insert(m.start_offset())] *)
Definition check_limit (o : Options) (skip_set : gset nat) (m : QueryResult) : bool * gset nat :=
  if limit o then (negb (bool_decide (start_offset m ∈ skip_set)), {[start_offset m]} ∪ skip_set)
  else (true, skip_set).

(** [matches.filter(check_unique).filter(check_limit)]: the filters are
    lazy, so only matches that pass the first reach the second. *)
Fixpoint filter_matches {E : Type} (o : Options) (source : string) (skip_set : gset nat)
    (ms : list QueryResult) : res E (list QueryResult) :=
  match ms with
  | [] => Ok []
  | m :: ms =>
      let* u := check_unique o source m in
      if u then
        let '(l, skip_set) := check_limit o skip_set m in
        let* rest := filter_matches o source skip_set ms in
        Ok (if (l : bool) then m :: rest else rest)
      else filter_matches o source skip_set ms
  end.

(** ** Files and queries *)

Section workers.
Context `{TS : TreeSitter}.

Record WorkItem := mkWork {
  qt : QueryTree;
  wi_identifiers : list string;
  wi_reason : string;
  wi_issue : string;
}.

(** The prefilter of [parse_files_worker]. *)
Definition potential_match (work : list WorkItem) (source : string) : bool :=
  existsb (fun w => forallb (fun i => contains i source) (wi_identifiers w)) work.

(** A file as the first worker sees it: its path, its contents when it can
    be read (decoded), and the tree the parser returns for it. *)
Record SourceFile := mkFile {
  f_path : string;
  f_source : option string;
  f_tree : option Node;
}.

(** [maybe_parse] *)
Definition maybe_parse (work : list WorkItem) (f : SourceFile) : option (string * Node * string) :=
  match f_source f with
  | None => None
  | Some source =>
      if negb (potential_match work source) then None
      else match f_tree f with
           | Some tree => Some (source, tree, f_path f)
           | None => None
           end
  end.

(** One query of [execute_queries_worker] on one parsed file. *)
Definition run_query (o : Options) (ast : string * Node * string) (i : nat) (w : WorkItem)
    : res Empty_set (list ResultsCtx) :=
  let '(src, tree, path) := ast in
  let* ms := matches (qt w) tree src in
  match ms with
  | [] => Ok []
  | _ =>
      let* kept := filter_matches o src ∅ ms in
      Ok ((fun m => mkCtx i path src m (wi_reason w) (wi_issue w)) <$> kept)
  end.

Fixpoint run_queries (o : Options) (ast : string * Node * string) (i : nat)
    (work : list WorkItem) : res Empty_set (list ResultsCtx) :=
  match work with
  | [] => Ok []
  | w :: work =>
      let* rs := run_query o ast i w in
      let* rest := run_queries o ast (S i) work in
      Ok (rs ++ rest)
  end.

(** What the workers send for one file. *)
Definition run_file (o : Options) (work : list WorkItem) (f : SourceFile)
    : res Empty_set (list ResultsCtx) :=
  match maybe_parse work f with
  | None => Ok []
  | Some ast => run_queries o ast 0 work
  end.

(** The interleavings of the messages of the workers. *)
Inductive interleave {A : Type} : list (list A) -> list A -> Prop :=
| interleave_done streams : Forall (fun s => s = []) streams -> interleave streams []
| interleave_step pre x s post out :
    interleave (pre ++ s :: post) out -> interleave (pre ++ (x :: s) :: post) (x :: out).

(** The collector's vector after one run over [files]: some interleaving of
    what the workers send. *)
Definition collected (o : Options) (work : list WorkItem) (files : list SourceFile)
    (results : list ResultsCtx) : Prop :=
  exists per_file, res_mapM (run_file o work) files = Ok per_file /\ interleave per_file results.
End workers.

(** ** The filters *)

(** No two variables of a result are bound to the same text. *)
Definition distinct_values (source : string) (m : QueryResult) : Prop :=
  forall k1 k2 v, env source m !! k1 = Some v -> env source m !! k2 = Some v -> k1 = k2.

Lemma nodup_omap {A B} (f : A -> option B) (l : list A) :
  NoDup l ->
  NoDup (omap f l) <->
    forall k1 k2 v, k1 ∈ l -> k2 ∈ l -> f k1 = Some v -> f k2 = Some v -> k1 = k2.
Proof.
  induction 1 as [|k l Hni Hnd IH].
  { split; [by intros _ ??? ?%not_elem_of_nil|constructor]. }
  change (omap f (k :: l)) with (match f k with Some y => y :: omap f l | None => omap f l end).
  destruct (f k) as [v|] eqn:Hk.
  - rewrite NoDup_cons, IH, list_elem_of_omap. setoid_rewrite elem_of_cons. split.
    + intros [Hno Hinj] k1 k2 w [->|H1] [->|H2] Hf1 Hf2; [done|..].
      * exfalso. apply Hno. exists k2. split; [done|congruence].
      * exfalso. apply Hno. exists k1. split; [done|congruence].
      * eauto.
    + intros H. split; [|eauto]. intros (x & Hx & Hfx).
      apply Hni. by rewrite (H k x v) by auto.
  - rewrite IH. setoid_rewrite elem_of_cons. split; [|eauto].
    intros H k1 k2 w [->|H1] [->|H2] Hf1 Hf2; [congruence..|eauto].
Qed.

Section filters.
Context {E : Type} (source : string).

Lemma all_fresh_spec m keys seen :
  wf_result source m -> (forall k, k ∈ keys -> is_Some (vars m !! k)) ->
  exists b, all_fresh (E:=E) m source keys seen = Ok b /\
    (b = true <-> NoDup (omap (env source m !!.) keys) /\
                  forall x, x ∈ omap (env source m !!.) keys -> x ∉ seen).
Proof.
  intros Hwf. revert seen. induction keys as [|k keys IH]; intros seen Hk.
  { exists true. split; [done|]. split; [|done]. intros _. split; [constructor|].
    by intros x ?%not_elem_of_nil. }
  destruct (proj2 (env_is_Some source m k Hwf)) as [v Hv]; [apply Hk; by left|].
  cbn [all_fresh]. rewrite (value_env source m k Hwf). rewrite Hv. cbn [res_bind unwrap].
  change (omap (env source m !!.) (k :: keys)) with
    (match env source m !! k with Some y => y :: omap (env source m !!.) keys
     | None => omap (env source m !!.) keys end). rewrite Hv. setoid_rewrite NoDup_cons.
  setoid_rewrite elem_of_cons. case_decide as Hs.
  - exists false. split; [done|]. split; [done|]. intros [_ H]. by destruct (H v); [left|].
  - destruct (IH ({[v]} ∪ seen)) as (b & -> & Hb); [intros; apply Hk; by right|].
    exists b. split; [done|]. rewrite Hb. setoid_rewrite not_elem_of_union.
    setoid_rewrite not_elem_of_singleton. split.
    + intros [Hnd H]. split; [split; [|done]|].
      * intros Hin. by destruct (H v Hin).
      * intros x [->|Hx]; [done|]. by apply H.
    + intros [[Hni Hnd] H]. split; [done|]. intros x Hx. split; [by intros ->|].
      apply H. by right.
Qed.

Lemma check_unique_spec o m :
  wf_result source m ->
  exists b, check_unique (E:=E) o source m = Ok b /\
    (b = true <-> (unique o = true -> distinct_values source m)).
Proof.
  intros Hwf. unfold check_unique. destruct (unique o); [|exists true; split; [done|]; naive_solver].
  destruct (all_fresh_spec m (map_to_list (vars m)).*1 ∅ Hwf) as (b & -> & Hb).
  { intros k (kv & -> & Hin)%list_elem_of_fmap. destruct kv as [k' i].
    apply elem_of_map_to_list in Hin. by exists i. }
  exists b. split; [done|]. rewrite Hb. clear Hb.
  assert (forall k v, env source m !! k = Some v -> k ∈ (map_to_list (vars m)).*1) as Hdom.
  { intros k v Hv. destruct (proj1 (env_is_Some source m k Hwf)) as [i Hi]; [by exists v|].
    apply list_elem_of_fmap. exists (k, i). split; [done|]. by apply elem_of_map_to_list. }
  rewrite (nodup_omap _ _ (NoDup_fst_map_to_list (vars m))). unfold distinct_values.
  split; [intros [H _] _; eauto|].
  intros H. split; [eauto|]. intros x _. apply not_elem_of_empty.
Qed.

(** The matches --unique lets through. *)
Definition passes (o : Options) (m : QueryResult) : Prop :=
  unique o = true -> distinct_values source m.

Lemma filter_matches_spec o skip_set ms :
  Forall (wf_result source) ms ->
  exists out, filter_matches (E:=E) o source skip_set ms = Ok out /\
    sublist out ms /\ Forall (passes o) out /\
    (limit o = false -> forall m, m ∈ ms -> passes o m -> m ∈ out) /\
    (limit o = true ->
       NoDup (start_offset <$> out) /\
       Forall (fun m => start_offset m ∉ skip_set) out /\
       forall m, m ∈ ms -> passes o m -> start_offset m ∉ skip_set ->
         exists m', m' ∈ out /\ start_offset m' = start_offset m).
Proof.
  intros Hwf. revert skip_set. induction Hwf as [|m ms Hm Hms IH]; intros skip.
  { exists []. repeat split; try constructor; try done; by intros m ?%not_elem_of_nil. }
  cbn. destruct (check_unique_spec o m Hm) as (u & -> & Hu). cbn. fold (passes o m) in Hu.
  unfold check_limit. destruct u.
  - assert (passes o m) as Hp by by apply Hu. destruct (limit o) eqn:El.
    + destruct (IH ({[start_offset m]} ∪ skip)) as (out & -> & Hsub & Hpass & _ & Hlim). cbn.
      destruct (Hlim eq_refl) as (Hnd & Hskip & Hcov). clear Hlim IH.
      destruct (bool_decide_reflect (start_offset m ∈ skip)) as [Hin|Hin]; cbn.
      * exists out. split; [done|]. split; [by apply sublist_cons|]. split; [done|]. split; [done|].
        intros _. split; [done|]. split; [eapply Forall_impl; [exact Hskip|]; cbn; intros x; rewrite not_elem_of_union; tauto|].
        intros x Hx Hpx Hsx. apply elem_of_cons in Hx as [->|Hx]; [done|].
        apply Hcov; [done..|]. rewrite not_elem_of_union, not_elem_of_singleton.
        split; [|done]. intros He. by rewrite He in Hsx.
      * exists (m :: out). split; [done|]. split; [by apply sublist_skip|]. split; [by constructor|].
        split; [done|]. intros _. split; [|split].
        -- cbn. apply NoDup_cons. split; [|done]. intros (x & Hx & Hxo)%list_elem_of_fmap.
           rewrite Forall_forall in Hskip. specialize (Hskip x Hxo). cbn in Hskip. set_solver.
        -- constructor; [done|]. eapply Forall_impl; [exact Hskip|].
           cbn. intros x. rewrite not_elem_of_union. tauto.
        -- intros x Hx Hpx Hsx. destruct (decide (start_offset x = start_offset m)) as [He|He].
           { exists m. split; [by left|done]. }
           apply elem_of_cons in Hx as [->|Hx]; [done|].
           destruct (Hcov x Hx Hpx) as (m' & Hm' & He').
           { by rewrite not_elem_of_union, not_elem_of_singleton. }
           exists m'. split; [by right|done].
    + destruct (IH skip) as (out & -> & Hsub & Hpass & Hno & _). cbn.
      exists (m :: out). split; [done|]. split; [by apply sublist_skip|]. split; [by constructor|].
      split; [|done]. intros _ x [->|Hx]%elem_of_cons Hpx; [by left|right; by apply Hno].
  - assert (~ passes o m) as Hp by (intros H; by apply Hu in H).
    destruct (IH skip) as (out & -> & Hsub & Hpass & Hno & Hlim). exists out.
    split; [done|]. split; [by apply sublist_cons|]. split; [done|]. split.
    + intros He x [->|Hx]%elem_of_cons Hpx; [done|by apply Hno].
    + intros He. destruct (Hlim He) as (Hnd & Hskip & Hcov). repeat split; [done..|].
      intros x [->|Hx]%elem_of_cons Hpx Hsx; [done|by apply Hcov].
Qed.
End filters.

(** ** The pipeline as a whole *)

Lemma interleave_perm {A} (streams : list (list A)) out :
  interleave streams out -> out ≡ₚ concat streams.
Proof.
  induction 1 as [streams Hall|pre x s post out _ IH].
  - induction Hall as [|s l -> _ IH]; [done|]. exact IH.
  - rewrite IH, !concat_app. cbn. by rewrite (Permutation_middle _ _ x).
Qed.

Lemma interleave_exists {A} (streams : list (list A)) : exists out, interleave streams out.
Proof.
  assert (forall n (l : list (list A)), sum_list_with length l = n -> exists out, interleave l out) as H;
    [|by eapply H].
  induction n as [|n IH]; intros l Hl.
  - exists []. constructor. induction l as [|s l IHl]; [constructor|]. cbn in Hl.
    constructor; [by destruct s|]. apply IHl. lia.
  - assert (exists pre x s post, l = pre ++ (x :: s) :: post) as (pre & x & s & post & ->).
    { clear IH. induction l as [|s l IHl]; [done|]. destruct s as [|x s].
      - destruct (IHl Hl) as (pre & x & s & post & ->). by exists ([] :: pre), x, s, post.
      - by exists [], x, s, l. }
    destruct (IH (pre ++ s :: post)) as [out Hout].
    { rewrite sum_list_with_app in *. cbn in *. lia. }
    exists (x :: out). by constructor.
Qed.

Section pipeline.
Context `{TS : TreeSitter} (o : Options) (work : list WorkItem).

(** The documented behaviour of tree-sitter on the file, and compiled
    queries whose parts fit together. *)
Definition file_ok (f : SourceFile) : Prop :=
  forall src, f_source f = Some src ->
    TreeSitterLaws TS src /\ Forall (fun w => ids_unique (qt w) /\ all_ok src (qt w)) work.

Lemma run_queries_total src tree path ws i :
  TreeSitterLaws TS src -> Forall (fun w => ids_unique (qt w) /\ all_ok src (qt w)) ws ->
  exists rs, run_queries o (src, tree, path) i ws = Ok rs /\ Forall ctx_wf rs.
Proof.
  intros Hlaws Hws. revert i. induction Hws as [|w ws [Hu Hok] _ IH]; intros i; [by exists []|].
  cbn. destruct (matches_returns src (qt w) tree Hu Hok) as (ms & Hms & Hwf).
  rewrite Hms. cbn. destruct (IH (S i)) as (rest & Hrest & Hwr).
  destruct ms as [|m ms]; cbn [res_bind].
  - rewrite Hrest. by exists rest.
  - destruct (filter_matches_spec (E:=Empty_set) src o ∅ (m :: ms) Hwf) as (out & -> & Hsub & _).
    cbn [res_bind]. rewrite Hrest. eexists; split; [done|]. apply Forall_app. split; [|done].
    apply Forall_fmap, Forall_forall. intros x Hx. rewrite Forall_forall in Hwf.
    by eapply Hwf, elem_of_sublist.
Qed.

Lemma run_file_total f : file_ok f -> exists rs, run_file o work f = Ok rs /\ Forall ctx_wf rs.
Proof.
  intros Hf. unfold run_file, maybe_parse. destruct (f_source f) as [src|] eqn:Hs; [|by exists []].
  destruct (negb _); [by exists []|]. destruct (f_tree f) as [tree|]; [|by exists []].
  destruct (Hf src Hs) as [Hl Hw]. by apply run_queries_total.
Qed.

Lemma run_files_total files :
  Forall file_ok files ->
  exists per, res_mapM (run_file o work) files = Ok per /\ Forall (Forall ctx_wf) per.
Proof.
  induction 1 as [|f files Hf _ (per & Hper & Hwf)]; [by exists []|]. cbn.
  destruct (run_file_total f Hf) as (rs & -> & Hrs). cbn. rewrite Hper. cbn.
  eexists; split; [done|]. by constructor.
Qed.
End pipeline.

(** C40. --unique and --limit, for the matches of one query in one file: the
    filters return (no [unwrap] fails) a sub-list in match order in which,
    under --unique, no two variables of a match are bound to the same text;
    without --limit every such match is kept; under --limit at most one match
    per outermost node is kept, and one is kept for every node that has a
    match passing --unique. *)
Theorem filter_matches_correct {E : Type} (o : Options) (source : string) (ms : list QueryResult) :
  Forall (wf_result source) ms ->
  exists out, filter_matches (E:=E) o source ∅ ms = Ok out /\
    sublist out ms /\ Forall (passes source o) out /\
    (limit o = false -> forall m, m ∈ ms -> passes source o m -> m ∈ out) /\
    (limit o = true -> NoDup (start_offset <$> out) /\
       forall m, m ∈ ms -> passes source o m ->
         exists m', m' ∈ out /\ start_offset m' = start_offset m).
Proof.
  intros Hwf. destruct (filter_matches_spec (E:=E) source o ∅ ms Hwf)
    as (out & Hout & Hsub & Hpass & Hno & Hlim).
  exists out. do 4 (split; [done|]). intros Hl. destruct (Hlim Hl) as (Hnd & _ & Hcov).
  split; [done|]. intros m Hm Hp. apply Hcov; [done..|]. apply not_elem_of_empty.
Qed.

Lemma filter_matches_correct_witness :
  exists out, filter_matches (E:=Empty_set) (mkOptions true true) sample_source ∅
      [sample_qr1; sample_qr1; sample_qr2] = Ok out /\
    sublist out [sample_qr1; sample_qr1; sample_qr2].
Proof.
  destruct (filter_matches_correct (E:=Empty_set) (mkOptions true true) sample_source
    [sample_qr1; sample_qr1; sample_qr2]) as (out & H1 & H2 & _).
  - by_decide.
  - exists out. split; assumption.
Defined.

(** C30. The parallel pipeline is deterministic up to order.  Assume of every
    file that can be read that tree-sitter behaves as documented on it, and
    of every work item that its query trees carry distinct ids and that its
    query texts fit its capture vectors on the file ([ids_unique] and
    [all_ok], the conditions of [QueryProps.matches_spec]; a built tree can
    repeat an id).  Then the workers deliver a result vector (nothing
    panics), and whichever interleavings of their messages two runs collect,
    the cross-query filter returns on both and keeps the same results up to
    order. *)
Theorem pipeline_schedule_independent `{TS : TreeSitter} (o : Options) (work : list WorkItem)
    (files : list SourceFile) :
  Forall (file_ok work) files ->
  (exists results, collected o work files results) /\
  forall r1 r2, collected o work files r1 -> collected o work files r2 ->
    exists k1 k2, filter_chainable_results (E:=Empty_set) r1 = Ok k1 /\
      filter_chainable_results (E:=Empty_set) r2 = Ok k2 /\ k1 ≡ₚ k2.
Proof.
  intros Hf. destruct (run_files_total o work files Hf) as (per & Hper & Hwf). split.
  - destruct (interleave_exists per) as [out Hout]. exists out, per. done.
  - intros r1 r2 (p1 & Hp1 & H1%interleave_perm) (p2 & Hp2 & H2%interleave_perm).
    rewrite Hper in Hp1, Hp2. injection Hp1 as <-. injection Hp2 as <-.
    assert (Forall ctx_wf r1) as Hwf1 by (rewrite H1; by apply Forall_concat).
    apply filter_chainable_perm; [done|]. by rewrite H1, H2.
Qed.

Definition demo_work : list WorkItem := [mkWork demo_tree ["a"] "reason" "issue"].
Definition demo_files : list SourceFile :=
  [mkFile "x.c" (Some demo_source) (Some (0 : @Node demo_ts)); mkFile "y.c" None None].

Lemma pipeline_schedule_independent_witness :
  exists results, collected (mkOptions false false) demo_work demo_files results.
Proof.
  apply (pipeline_schedule_independent (mkOptions false false) demo_work demo_files).
  apply Forall_cons; split; [|apply Forall_singleton; intros src H; discriminate H].
  intros src H. injection H as <-. split; [apply demo_laws|]. apply Forall_singleton.
  split; [apply ids_unique_nodup; by_decide|apply demo_all_ok].
Defined.
