(* ===== verification/Output.v ===== *)
(** * Output: [src/src/output/sarif.rs] and the line of [terminal.rs]

    Byte offsets become line and column numbers, results are deduplicated
    by (path, start line, issue) and turned into SARIF results.  The SARIF
    builders and the JSON serializer are library code: the model stops at
    the record of the values the builders are given. *)

From Stdlib Require Import Ascii.
From stdpp Require Import base numbers gmap strings list.
From S2P Require Import Prelude Text Result Chain.

(** [byte_to_line]: 0-based line number. *)
Definition byte_to_line {E : Type} (source : string) (byte_offset : nat) : res E nat :=
  let* s := slice source 0 (byte_offset `min` String.length source) in
  Ok (count_char nl s).

(** [byte_to_column]: 1-based column number. *)
Definition byte_to_column {E : Type} (source : string) (byte_offset : nat) : res E nat :=
  let clamped := byte_offset `min` String.length source in
  let* s := slice source 0 clamped in
  match rfind_char nl s with
  | Some last_newline => checked_sub clamped last_newline
  | None => Ok (clamped + 1)
  end.

(** The line [print_terminal] prints: 1-based, without clamping. *)
Definition terminal_line {E : Type} (c : ResultsCtx) : res E nat :=
  let* s := slice (source c) 0 (start_offset (result c)) in
  Ok (count_char nl s + 1).

Record OutputResults := mkOut {
  o_query_index : nat;
  o_path : string;
  o_reason : string;
  o_issue : string;
  start_line : Z;
  start_column : Z;
  end_line : Z;
  end_column : Z;
}.

Definition to_output {E : Type} (r : ResultsCtx) : res E OutputResults :=
  let s := start_offset (result r) in
  let e := rend (function_range (result r)) in
  let* sl := byte_to_line (source r) s in
  let* sc := byte_to_column (source r) s in
  let* el := byte_to_line (source r) e in
  let* ec := byte_to_column (source r) e in
  Ok (mkOut (query_index r) (path r) (reason r) (issue r)
        (Z.of_nat sl) (Z.of_nat sc) (Z.of_nat el) (Z.of_nat ec)).

Definition dedup_key (o : OutputResults) : string * Z * string := (o_path o, start_line o, o_issue o).

(** [if seen.insert(key) { unique_results.push(result) }] *)
Fixpoint dedup_results (seen : gset (string * Z * string)) (l : list OutputResults)
    : list OutputResults :=
  match l with
  | [] => []
  | r :: l =>
      if decide (dedup_key r ∈ seen) then dedup_results seen l
      else r :: dedup_results ({[dedup_key r]} ∪ seen) l
  end.

(** The values a SARIF result is built from. *)
Record SarifResult := mkSarif {
  rule_id : string;
  rule_index : Z;
  message : string;
  uri : string;
  region : Z * Z * Z * Z;
}.

Definition to_sarif (r : OutputResults) : SarifResult :=
  mkSarif (o_issue r) (Z.of_nat (o_query_index r)) (o_reason r) (o_path r)
    (start_line r, start_column r, end_line r, end_column r).

(** The results of [generate_sarif] and the match count it prints. *)
Definition generate_sarif {E : Type} (results : list ResultsCtx)
    : res E (list SarifResult * nat) :=
  let* out := res_mapM to_output results in
  let rs := to_sarif <$> dedup_results ∅ out in
  Ok (rs, length rs).

(** ** Line and column determine the offset *)

(** Offset of the first byte of line [n]. *)
Fixpoint line_start (lines : list string) (n : nat) {struct n} : nat :=
  match n, lines with
  | S n, l :: lines => String.length l + 1 + line_start lines n
  | _, _ => 0
  end.

Lemma split_char_cons c s : exists w ws, split_char c s = w :: ws.
Proof.
  induction s as [|d s (w & ws & IH)]; cbn; [eauto|].
  destruct (Ascii.eqb c d); [eauto|]. rewrite IH. eauto.
Qed.

Lemma rfind_char_bound c s i : rfind_char c s = Some i -> i < String.length s.
Proof.
  revert i. induction s as [|d s IH]; intros i; cbn; [done|].
  destruct (rfind_char c s) as [j|]; [intros [= <-]; specialize (IH j eq_refl); lia|].
  destruct (Ascii.eqb c d); [intros [= <-]; lia|done].
Qed.

(** Column of a prefix: what follows its last newline. *)
Definition column_of (s : string) : nat :=
  match rfind_char nl s with
  | Some i => String.length s - i
  | None => String.length s + 1
  end.

Lemma rfind_none_count c s : rfind_char c s = None <-> count_char c s = 0.
Proof.
  induction s as [|d s IH]; cbn; [done|].
  destruct (rfind_char c s) as [i|], (Ascii.eqb c d); cbn; split; intros H;
    first [done | by apply IH in H | by apply IH].
Qed.

(** The start of line [count] of a text, plus the column of a prefix with
    that many newlines, is the length of the prefix. *)
Lemma line_column_prefix p s :
  line_start (split_char nl (p +:+ s)) (count_char nl p) + column_of p = String.length p + 1.
Proof.
  induction p as [|c p IH]; [done|].
  unfold column_of in *. cbn [String.append split_char count_char rfind_char String.length].
  destruct (Ascii.eqb nl c) eqn:Ec.
  - cbn [plus line_start]. destruct (rfind_char nl p) as [i|] eqn:Er; cbn; lia.
  - cbn [plus]. destruct (split_char_cons nl (p +:+ s)) as (w & ws & Hw).
    change (String c p +:+ s) with (String c (p +:+ s)). 
    destruct (rfind_char nl p) as [i|] eqn:Er.
    + rewrite Hw in *. pose proof (rfind_char_bound _ _ _ Er).
      destruct (count_char nl p) as [|k] eqn:Ek.
      { apply rfind_none_count in Ek. congruence. }
      cbn [line_start] in *. cbn. lia.
    + apply rfind_none_count in Er as Ek. rewrite Ek in *. rewrite Hw in *. cbn in *. lia.
Qed.

Lemma substring_split (s : string) n :
  n <= String.length s ->
  exists t, s = String.substring 0 n s +:+ t /\ String.length (String.substring 0 n s) = n.
Proof.
  revert n. induction s as [|c s IH]; intros [|n] Hn; cbn in *; try lia.
  - by exists "".
  - by exists (String c s).
  - destruct (IH n) as (t & Ht & Hl); [lia|]. exists t. by rewrite Hl, <-Ht.
Qed.

Lemma slice_prefix {E} (s : string) n :
  is_char_boundary s 0 = true -> n <= String.length s -> is_char_boundary s n = true ->
  slice (E:=E) s 0 n = Ok (String.substring 0 n s).
Proof.
  intros H0 Hn Hb. unfold slice. rewrite H0, Hb, (proj2 (Nat.leb_le _ _) Hn). cbn.
  by rewrite Nat.sub_0_r.
Qed.

(** A byte offset a node can have. *)
Definition valid_offset (source : string) (off : nat) : Prop :=
  is_char_boundary source 0 = true /\ off <= String.length source /\
  is_char_boundary source off = true.

#[export] Instance valid_offset_dec source off : Decision (valid_offset source off).
Proof. unfold valid_offset. apply _. Defined.

Lemma byte_position {E} source off :
  valid_offset source off ->
  exists l c, byte_to_line (E:=E) source off = Ok l /\ byte_to_column (E:=E) source off = Ok c /\
    slice (E:=E) source 0 off = Ok (String.substring 0 off source) /\
    l = count_char nl (String.substring 0 off source) /\ 1 <= c /\
    line_start (split_char nl source) l + c = off + 1.
Proof.
  intros (H0 & Hle & Hb). unfold byte_to_line, byte_to_column.
  rewrite Nat.min_l, slice_prefix by done. cbn [res_bind].
  destruct (substring_split source off Hle) as (t & Ht & Hlen).
  set (p := String.substring 0 off source) in *.
  pose proof (line_column_prefix p t) as Hp. rewrite <-Ht, Hlen in Hp. unfold column_of in Hp.
  destruct (rfind_char nl p) as [i|] eqn:Hi.
  - pose proof (rfind_char_bound _ _ _ Hi). unfold checked_sub.
    rewrite (proj2 (Nat.leb_le _ _)) by lia.
    exists (count_char nl p), (off - i). repeat split; [lia|]. by rewrite Hlen in Hp.
  - exists (count_char nl p), (off + 1). repeat split; [lia|]. by rewrite Hlen in Hp.
Qed.

(** The offsets of a result lie in its source. *)
Definition ctx_offsets (c : ResultsCtx) : Prop :=
  valid_offset (source c) (start_offset (result c)) /\
  valid_offset (source c) (rend (function_range (result c))).

#[export] Instance ctx_offsets_dec c : Decision (ctx_offsets c).
Proof. unfold ctx_offsets. apply _. Defined.

(** [region] locates a result: both ends are given as a 0-based line and a
    1-based column from which the byte offset can be recomputed. *)
Definition locates (c : ResultsCtx) (r : Z * Z * Z * Z) : Prop :=
  let lines := split_char nl (source c) in
  let '(sl, sc, el, ec) := r in
  (1 <= sc /\ 1 <= ec /\ 0 <= sl /\ 0 <= el /\
   Z.of_nat (line_start lines (Z.to_nat sl)) + sc = Z.of_nat (start_offset (result c)) + 1 /\
   Z.of_nat (line_start lines (Z.to_nat el)) + ec =
     Z.of_nat (rend (function_range (result c))) + 1)%Z.

Definition out_region (o : OutputResults) : Z * Z * Z * Z :=
  (start_line o, start_column o, end_line o, end_column o).

Lemma to_output_spec {E} c :
  ctx_offsets c ->
  exists o, to_output (E:=E) c = Ok o /\ locates c (out_region o) /\
    terminal_line (E:=E) c = Ok (Z.to_nat (start_line o) + 1) /\
    o_path o = path c /\ o_issue o = issue c /\ o_query_index o = query_index c.
Proof.
  intros [Hs He]. unfold to_output, terminal_line.
  destruct (byte_position (E:=E) _ _ Hs) as (sl & sc & -> & -> & -> & Hsl & Hsc1 & Hsc).
  destruct (byte_position (E:=E) _ _ He) as (el & ec & -> & -> & _ & _ & Hec1 & Hec).
  cbn. eexists. split; [done|]. cbn. rewrite !Nat2Z.id, <-Hsl.
  split; [|done]. repeat split; lia.
Qed.

Lemma dedup_results_spec seen l :
  sublist (dedup_results seen l) l /\
  NoDup (dedup_key <$> dedup_results seen l) /\
  Forall (fun o => dedup_key o ∉ seen) (dedup_results seen l) /\
  forall o, o ∈ l -> dedup_key o ∉ seen -> dedup_key o ∈ dedup_key <$> dedup_results seen l.
Proof.
  revert seen. induction l as [|r l IH]; intros seen; cbn.
  { repeat split; try constructor. by intros o ?%not_elem_of_nil. }
  case_decide as Hin.
  - destruct (IH seen) as (H1 & H2 & H3 & H4). split; [by constructor|]. do 2 (split; [done|]).
    intros o [->|Ho]%elem_of_cons Hs; [done|auto].
  - destruct (IH ({[dedup_key r]} ∪ seen)) as (H1 & H2 & H3 & H4).
    split; [by constructor|]. cbn. split; [|split].
    + constructor; [|done]. intros (o & Ho & Hin')%list_elem_of_fmap.
      rewrite Forall_forall in H3. specialize (H3 o Hin'). cbn beta in H3.
      rewrite not_elem_of_union, not_elem_of_singleton, <-Ho in H3. tauto.
    + constructor; [done|]. eapply Forall_impl; [exact H3|]. intros o.
      cbn beta. rewrite not_elem_of_union. tauto.
    + intros o Ho Hs. rewrite elem_of_cons.
      destruct (decide (dedup_key o = dedup_key r)); [by left|right].
      apply elem_of_cons in Ho as [->|Ho]; [done|]. apply H4; [done|].
      by rewrite not_elem_of_union, not_elem_of_singleton.
Qed.

Lemma res_mapM_forall2 {E A B} (f : A -> res E B) (P : A -> B -> Prop) l :
  Forall (fun a => exists b, f a = Ok b /\ P a b) l ->
  exists bs, res_mapM f l = Ok bs /\ Forall2 P l bs.
Proof.
  induction 1 as [|a l (b & Hb & HP) _ (bs & Hbs & HF)]; [by exists []|].
  exists (b :: bs). cbn. rewrite Hb. cbn. rewrite Hbs. split; [done|by constructor].
Qed.

Lemma generate_sarif_ok {E} cs :
  Forall ctx_offsets cs ->
  exists out, res_mapM (to_output (E:=E)) cs = Ok out /\
    Forall2 (fun c o => locates c (out_region o) /\
      terminal_line (E:=E) c = Ok (Z.to_nat (start_line o) + 1) /\
      o_path o = path c /\ o_issue o = issue c /\ o_query_index o = query_index c) cs out /\
    generate_sarif (E:=E) cs = Ok (to_sarif <$> dedup_results ∅ out, length (dedup_results ∅ out)).
Proof.
  intros Hcs. destruct (res_mapM_forall2 (to_output (E:=E)) (fun c o => locates c (out_region o) /\
      terminal_line (E:=E) c = Ok (Z.to_nat (start_line o) + 1) /\
      o_path o = path c /\ o_issue o = issue c /\ o_query_index o = query_index c) cs) as (out & Hout & HF).
  { eapply Forall_impl; [exact Hcs|]. intros c Hc. by apply to_output_spec. }
  exists out. do 2 (split; [done|]). unfold generate_sarif. rewrite Hout. cbn.
  by rewrite length_fmap.
Qed.

(** C34. SARIF positions and deduplication: for results whose ranges lie in
    their sources, the report is produced; every entry comes from a result
    whose start and end offsets can be recomputed from the entry's lines and
    columns (lines counted from 0, columns from 1); no two entries share
    path, start line and issue; and every result is represented by an entry
    with its path, start line and issue. *)
Theorem generate_sarif_locates {E} (cs : list ResultsCtx) :
  Forall ctx_offsets cs ->
  exists rs n, generate_sarif (E:=E) cs = Ok (rs, n) /\ n = length rs /\
    (forall r, r ∈ rs -> exists c, c ∈ cs /\ locates c (region r) /\
       uri r = path c /\ rule_id r = issue c /\ rule_index r = Z.of_nat (query_index c)) /\
    NoDup ((fun r => (uri r, (region r).1.1.1, rule_id r)) <$> rs) /\
    (forall c, c ∈ cs -> exists r, r ∈ rs /\ uri r = path c /\ rule_id r = issue c /\
       terminal_line (E:=E) c = Ok (Z.to_nat (region r).1.1.1 + 1)).
Proof.
  intros Hcs. destruct (generate_sarif_ok (E:=E) cs Hcs) as (out & _ & HF & Hgen).
  destruct (dedup_results_spec ∅ out) as (Hsub & Hnd & _ & Hcov).
  exists (to_sarif <$> dedup_results ∅ out), (length (dedup_results ∅ out)).
  split; [done|]. split; [by rewrite length_fmap|]. split; [|split].
  - intros r (o & -> & Ho)%list_elem_of_fmap.
    apply (elem_of_sublist _ out) in Ho; [|done]. apply list_elem_of_lookup in Ho as [i Hi].
    destruct (Forall2_lookup_r _ _ _ _ _ HF Hi) as (c & Hc & Hl & _ & Hp & Hs & Hq).
    exists c. split; [by eapply list_elem_of_lookup_2|]. cbn. rewrite Hq. done.
  - rewrite <-list_fmap_compose. exact Hnd.
  - intros c Hc. apply list_elem_of_lookup in Hc as [i Hi].
    destruct (Forall2_lookup_l _ _ _ _ _ HF Hi) as (o & Ho & _ & Ht & Hp & Hs & _).
    assert (dedup_key o ∈ dedup_key <$> dedup_results ∅ out) as (o' & Hk & Ho')%list_elem_of_fmap.
    { apply Hcov; [by eapply list_elem_of_lookup_2|apply not_elem_of_empty]. }
    exists (to_sarif o'). split; [apply list_elem_of_fmap; by exists o'|].
    injection Hk as Hk1 Hk2 Hk3. cbn. rewrite <-Hk1, <-Hk2, <-Hk3. auto.
Qed.

Definition sarif_source : string := "int f;" +:+ nl_str +:+ "g();" +:+ nl_str.
Definition sarif_ctx : ResultsCtx :=
  mkCtx 0 "x.c" sarif_source (mkQR [mkCapture (Range 7 11) 0 0] ∅ (Range 7 11)) "r" "i".

Lemma generate_sarif_locates_witness :
  exists rs n, generate_sarif (E:=Empty_set) [sarif_ctx; sarif_ctx] = Ok (rs, n) /\ n = length rs.
Proof.
  destruct (generate_sarif_locates (E:=Empty_set) [sarif_ctx; sarif_ctx]) as (rs & n & H & Hn & _).
  - by_decide.
  - exists rs, n. split; assumption.
Defined.

(** Off by one between the two outputs: for the same result the start
    line written to SARIF, which counts from 1, is one less than the line
    printed on the terminal; a match on the first line of a file is
    reported with start line 0. *)
Theorem sarif_line_is_zero_based {E} (c : ResultsCtx) :
  ctx_offsets c ->
  exists o, to_output (E:=E) c = Ok o /\
    terminal_line (E:=E) c = Ok (Z.to_nat (start_line o) + 1) /\
    (count_char nl (String.substring 0 (start_offset (result c)) (source c)) = 0 ->
     start_line o = 0%Z).
Proof.
  intros Hc. destruct (to_output_spec (E:=E) c Hc) as (o & Ho & Hl & Ht & _).
  exists o. do 2 (split; [done|]). intros H0.
  destruct Hc as [Hs _]. unfold terminal_line in Ht.
  destruct (byte_position (E:=E) _ _ Hs) as (l & cc & _ & _ & Hsl & _).
  rewrite Hsl in Ht. cbn in Ht. injection Ht as Ht.
  unfold locates, out_region in Hl. destruct Hl as (_ & _ & Hl & _). lia.
Qed.

Lemma sarif_line_is_zero_based_witness :
  exists o, to_output (E:=Empty_set) sarif_ctx = Ok o /\
    terminal_line (E:=Empty_set) sarif_ctx = Ok (Z.to_nat (start_line o) + 1).
Proof.
  destruct (sarif_line_is_zero_based (E:=Empty_set) sarif_ctx) as (o & H1 & H2 & _).
  - by_decide.
  - exists o. split; assumption.
Defined.
