(* ===== verification/Syntax.v ===== *)
(** * Pattern syntax trees and cursors

    The tree-sitter API the query builder walks the parsed pattern with:
    nodes with a kind, a named flag, a field name inside their parent, a
    byte range and children; and cursors, which move to the first child,
    the next sibling and the parent without leaving the node they were
    created on.  This is the data the parser hands over, not its algorithm:
    parsing itself is a parameter of [Search]. *)

From Stdlib Require Import Ascii.
From stdpp Require Import base numbers strings list.
From S2P Require Import Prelude Text.

Inductive stree : Type :=
| SNode (kind : string) (named : bool) (field : option string)
        (start_byte end_byte : nat) (s_children : list stree).

Definition s_kind (t : stree) : string := let 'SNode k _ _ _ _ _ := t in k.
Definition is_named (t : stree) : bool := let 'SNode _ n _ _ _ _ := t in n.
Definition s_field (t : stree) : option string := let 'SNode _ _ f _ _ _ := t in f.
Definition s_start (t : stree) : nat := let 'SNode _ _ _ s _ _ := t in s.
Definition s_end (t : stree) : nat := let 'SNode _ _ _ _ e _ := t in e.
Definition s_children (t : stree) : list stree := let 'SNode _ _ _ _ _ cs := t in cs.

Fixpoint tsize (t : stree) : nat :=
  match t with SNode _ _ _ _ _ cs => S (sum_list_with tsize cs) end.

(** A node of a tree: the sub-tree and its ancestors, nearest first. *)
Record node := mkNode { n_tree : stree; n_parents : list stree }.

Definition kind (n : node) : string := s_kind (n_tree n).
Definition parent (n : node) : option node :=
  match n_parents n with p :: ps => Some (mkNode p ps) | [] => None end.
Definition node_children (n : node) : list node :=
  (fun t => mkNode t (n_tree n :: n_parents n)) <$> s_children (n_tree n).
Definition named_children (n : node) : list node :=
  List.filter (fun m => is_named (n_tree m)) (node_children n).
Definition child (n : node) (i : nat) : option node := node_children n !! i.
Definition named_child (n : node) (i : nat) : option node := named_children n !! i.
Definition named_child_count_s (n : node) : nat := length (named_children n).
Definition child_by_field_name (n : node) (f : string) : option node :=
  List.find (fun m => bool_decide (s_field (n_tree m) = Some f)) (node_children n).

(** [&source[n.byte_range()]] *)
Definition node_text {E : Type} (source : string) (n : node) : res E string :=
  slice source (s_start (n_tree n)) (s_end (n_tree n)).

(** A cursor: the current sub-tree, its right siblings, the path up to the
    node the cursor was created on, and the ancestors beyond it. *)
Record TreeCursor := mkCursor {
  cur : stree;
  cur_right : list stree;
  cur_up : list (stree * list stree);
  cur_outer : list stree;
}.

Definition walk (n : node) : TreeCursor := mkCursor (n_tree n) [] [] (n_parents n).

Definition cursor_node (c : TreeCursor) : node :=
  mkNode (cur c) ((fst <$> cur_up c) ++ cur_outer c).

Definition goto_first_child (c : TreeCursor) : option TreeCursor :=
  match s_children (cur c) with
  | [] => None
  | t :: ts => Some (mkCursor t ts ((cur c, cur_right c) :: cur_up c) (cur_outer c))
  end.

Definition goto_next_sibling (c : TreeCursor) : option TreeCursor :=
  match cur_right c with
  | [] => None
  | t :: ts => Some (mkCursor t ts (cur_up c) (cur_outer c))
  end.

Definition goto_parent (c : TreeCursor) : option TreeCursor :=
  match cur_up c with
  | [] => None
  | (t, ts) :: up => Some (mkCursor t ts up (cur_outer c))
  end.

(** A move whose result the source ignores: on failure the cursor stays. *)
Definition try_move (move : TreeCursor -> option TreeCursor) (c : TreeCursor) : TreeCursor :=
  match move c with Some c => c | None => c end.

Definition field_name (c : TreeCursor) : option string :=
  match cur_up c with [] => None | _ => s_field (cur c) end.

(** Moving down and then along the siblings comes back with [goto_parent]. *)
Lemma goto_parent_first_child c c' : goto_first_child c = Some c' -> goto_parent c' = Some c.
Proof.
  unfold goto_first_child. destruct c as [t r u o]; cbn. destruct (s_children t); [done|].
  by intros [= <-].
Qed.

Lemma goto_parent_next_sibling c c' : goto_next_sibling c = Some c' -> goto_parent c' = goto_parent c.
Proof.
  unfold goto_next_sibling. destruct c as [t [|s ss] u o]; cbn; [done|]. by intros [= <-].
Qed.

(** Sizes: the current sub-tree and everything to its right. *)
Definition csize (c : TreeCursor) : nat := tsize (cur c) + sum_list_with tsize (cur_right c).

Lemma tsize_pos t : 0 < tsize t.
Proof. destruct t; cbn; lia. Qed.

Lemma tsize_children t : tsize t = S (sum_list_with tsize (s_children t)).
Proof. by destruct t. Qed.

Lemma tsize_in t ts : t ∈ ts -> tsize t <= sum_list_with tsize ts.
Proof. apply sum_list_with_in. Qed.

Lemma tsize_child n i m : child n i = Some m -> tsize (n_tree m) < tsize (n_tree n).
Proof.
  unfold child, node_children. rewrite list_lookup_fmap.
  intros (t & Hi & ->)%fmap_Some. cbn. rewrite (tsize_children (n_tree n)).
  apply list_elem_of_lookup_2, tsize_in in Hi. lia.
Qed.

Lemma node_children_size n m : m ∈ node_children n -> tsize (n_tree m) < tsize (n_tree n).
Proof. intros [i Hi]%list_elem_of_lookup. by eapply tsize_child. Qed.

Lemma named_child_size n i m : named_child n i = Some m -> tsize (n_tree m) < tsize (n_tree n).
Proof.
  unfold named_child, named_children. intros Hm%list_elem_of_lookup_2.
  apply list_elem_of_In, filter_In in Hm as [Hm _]. by apply node_children_size, list_elem_of_In.
Qed.

Lemma child_by_field_size n f m :
  child_by_field_name n f = Some m -> tsize (n_tree m) < tsize (n_tree n).
Proof.
  unfold child_by_field_name. intros [Hm _]%find_some. by apply node_children_size, list_elem_of_In.
Qed.

Lemma goto_first_child_size c c' : goto_first_child c = Some c' -> csize c' < tsize (cur c).
Proof.
  unfold goto_first_child. rewrite (tsize_children (cur c)).
  destruct (s_children (cur c)); [done|]. intros [= <-]. unfold csize. cbn. lia.
Qed.

Lemma goto_next_sibling_size c c' :
  goto_next_sibling c = Some c' -> csize c' + tsize (cur c) = csize c.
Proof.
  unfold goto_next_sibling, csize. destruct (cur_right c); [done|]. intros [= <-]. cbn. lia.
Qed.
