(* ===== verification/Builder.v ===== *)
(** * The query builder: [src/src/builder.rs]

    The parsed pattern is walked with cursors and turned into the text of a
    tree-sitter query plus the vector of captures that gives each capture
    name its meaning.  Query text is kept as pieces: literal text, and
    references to captures; [render] is the text the source builds with
    [format!].  Cursors are mutable in the source: every function returns
    the cursor it leaves behind together with the builder's new state. *)

From Stdlib Require Import Ascii.
From stdpp Require Import base numbers gmap strings list.
From S2P Require Import Prelude Text Util Result TreeSitter Capture Syntax.

Definition QueryError : Type := string.

(** ** Query text *)

Inductive piece := TStr (s : string) | TCap (n : nat).
Definition sexp := list piece.

Definition render_piece (p : piece) : string :=
  match p with TStr s => s | TCap n => show_nat n end.
Definition render (s : sexp) : string := foldr (fun p acc => render_piece p +:+ acc) "" s.

Definition quote : string := String (ascii_of_nat 34) "".
Definition quoted (s : string) : string := quote +:+ s +:+ quote.

Definition str_eq (a b : string) : bool := bool_decide (a = b).
Definition str_in (a : string) (l : list string) : bool := existsb (str_eq a) l.

(** [RegexMap] of [lib.rs] *)
Abbreviation RegexMap R := (gmap string (bool * R)).

Section builder.
Context `{TS : TreeSitter}.
(** [Query::new]: tree-sitter's query compiler, an error or a query. *)
Context (ts_query : string -> QueryError + TSQuery).

(** [QueryBuilder]: the mutable part; the query source and the regex
    constraints never change and are parameters of the functions. *)
Record QueryBuilder := mkBuilder {
  b_captures : list (Capture Regex QueryTree);
  b_negations : list (NegativeQuery QueryTree);
  b_id : nat;
}.
#[global] Instance QueryBuilder_upd : Updatable QueryBuilder :=
  (rd_pure mkBuilder <&> b_captures <&> b_negations <&> b_id)%upd.

(** What every building function returns: text, cursor, builder. *)
Definition built : Type := sexp * TreeCursor * QueryBuilder.

Context (source : string) (regexes : RegexMap Regex).

(** [add_capture(&mut self.captures, c)], returning the index. *)
Definition push_capture (b : QueryBuilder) (c : Capture Regex QueryTree) : nat * QueryBuilder :=
  let '(i, caps) := add_capture (b_captures b) c in (i, b <| b_captures := caps |>).

Definition get_text {E : Type} (n : node) : res E string := node_text source n.

(** [process_captures]: equality predicates for the captures from [offset]
    on, and the variables seen.  Variables are grouped in a hash map whose
    iteration order the source leaves open. *)
Definition capture_vars (caps : list (nat * Capture Regex QueryTree)) : gmap string (list nat) :=
  foldl (fun m c =>
    match c.2 with
    | Variable_ v _ => <[v := default [] (m !! v) ++ [c.1]]> m
    | _ => m
    end) ∅ caps.

Definition check_predicates (caps : list (nat * Capture Regex QueryTree)) : sexp :=
  flat_map (fun c : nat * Capture Regex QueryTree =>
    match c.2 with
    | Check s => [TStr "(#eq? @"; TCap c.1; TStr (" " +:+ quoted s +:+ ")")]
    | _ => []
    end) caps.

Definition equality_predicates (vars : list (string * list nat)) : sexp :=
  flat_map (fun kv : string * list nat =>
    match kv.2 with
    | a :: rest =>
        flat_map (fun b => [TStr "(#eq? @"; TCap a; TStr " @"; TCap b; TStr ")"]) rest
    | [] => []
    end) vars.

Fixpoint enumerate_caps (n : nat) (l : list (Capture Regex QueryTree))
    : list (nat * Capture Regex QueryTree) :=
  match l with [] => [] | c :: l => (n, c) :: enumerate_caps (S n) l end.

Definition process_captures (captures : list (Capture Regex QueryTree)) (offset : nat)
    (variables : gset string) : sexp * gset string :=
  let caps := enumerate_caps offset (drop offset captures) in
  (check_predicates caps ++ equality_predicates (map_to_list (capture_vars caps)),
   variables ∪ list_to_set (omap (fun c : nat * Capture Regex QueryTree =>
     match c.2 with Variable_ v _ => Some v | _ => None end) caps)).

(** ** Classification of pattern nodes *)

(** [is_subexpr_wildcard] *)
Definition is_subexpr_wildcard (q : node) : res QueryError bool :=
  if negb (str_eq (kind q) "call_expression") then Ok false
  else
    let* f := unwrap (child_by_field_name q "function") in
    let* t := get_text f in
    Ok (str_eq t "_").

Definition is_comparison_binary_exp (n : node) : bool :=
  match child n 1 with
  | Some op => str_in (kind op) [">"; "<"; "<="; ">="]
  | None => false
  end.

Definition is_commutative_binary_exp (n : node) : bool :=
  match child n 1 with
  | Some op => str_in (kind op) ["+"; "*"; "&"; "|"; "=="; "!="]
  | None => false
  end.

Definition is_transformable_binary_exp (n : node) : bool :=
  is_comparison_binary_exp n || is_commutative_binary_exp n.

Definition alt_op (op : string) : string :=
  if str_eq op ">" then "<"
  else if str_eq op "<" then ">"
  else if str_eq op "<=" then ">="
  else if str_eq op ">=" then "<="
  else op.

(** [p.starts_with('$') && p.chars().skip(1).all(is_numeric)]; of the digits
    outside ASCII, which Rust counts too, the model knows none. *)
Definition is_num_var (p : string) : bool :=
  match p with
  | String c rest => Ascii.eqb c "$" && string_all is_digit_char rest
  | EmptyString => false
  end.

(** [build_identifier] *)
Definition build_identifier (c : TreeCursor) (b : QueryBuilder) (parent_kind : string)
    : res QueryError built :=
  let n := cursor_node c in
  let* pattern := get_text n in
  if str_eq pattern "_" then Ok ([TStr "(_)"], c, b)
  else
    let result :=
      if str_eq (kind n) "type_identifier"
      then "[ (type_identifier) (sized_type_specifier) (primitive_type)]"
      else if str_eq (kind n) "identifier" && starts_with "$" pattern then
        if is_num_var pattern && negb (str_eq parent_kind "declarator")
        then "(number_literal)"
        else "[(identifier) (field_expression) (field_identifier)]"
      else "(" +:+ kind n +:+ ")" in
    let capture :=
      if starts_with "$" pattern then Variable_ pattern (regexes !! pattern)
      else Check pattern in
    let '(i, b) := push_capture b capture in
    Ok ([TStr (result +:+ " @"); TCap i], c, b).

(** The pre-scan of an argument list for the variadic wildcard: how many
    named children are the identifier [__]. *)
Definition is_variadic {E : Type} (n : node) : res E bool :=
  if is_named (n_tree n) && str_eq (kind n) "identifier" then
    let* t := get_text n in Ok (str_eq t "__")
  else Ok false.

Fixpoint count_variadic {E : Type} (ns : list node) : res E nat :=
  match ns with
  | [] => Ok 0
  | n :: ns =>
      let* v := is_variadic n in
      let* k := count_variadic ns in
      Ok (if (v : bool) then S k else k)
  end.

(** ** The recursive functions, open in [build] and [_build_query_tree] *)

Section open_recursion.
Context (rec_build : TreeCursor -> QueryBuilder -> nat -> bool -> string -> res QueryError built).
Context (rec_tree : TreeCursor -> nat -> bool -> bool -> res QueryError QueryTree).
Context (loop_fuel : nat).

Definition moved (o : option TreeCursor) : res QueryError TreeCursor := unwrap o.

(** [build_negative_query]: the last capture that is not a multi-pattern
    sub-query fixes where the negation starts. *)
Fixpoint last_capture (i : nat) (caps : list (Capture Regex QueryTree)) : Z :=
  match caps with
  | [] => -1
  | c :: caps =>
      match last_capture (S i) caps with
      | (-1)%Z => if is_sub_multi c then -1 else Z.of_nat i
      | j => j
      end
  end.

Definition build_negative_query (c : TreeCursor) (b : QueryBuilder)
    : res QueryError QueryBuilder :=
  let* negated_query := unwrap (child (cursor_node c) 2) in
  let before := last_capture 0 (b_captures b) in
  let b := b <| b_id ::= S |> in
  let* t := rec_tree (walk negated_query) (b_id b) false false in
  Ok (b <| b_negations ::= fun ns => ns ++ [mkNegative t before] |>).

(** [build_call_expr]; [None] leaves the call to the default case. *)
Definition build_call_expr (c : TreeCursor) (b : QueryBuilder) (depth : nat) (strict : bool)
    (parent_kind : string) : res QueryError (option (sexp * QueryBuilder)) :=
  let n := cursor_node c in
  let* wild := is_subexpr_wildcard n in
  if wild then
    let* args := unwrap (child_by_field_name n "arguments") in
    let arg := try_move goto_next_sibling (try_move goto_first_child (walk args)) in
    let copy := try_move goto_next_sibling arg in
    match goto_next_sibling copy with
    | Some _ => Ok None
    | None =>
        if depth =? 0 then
          let* (s, _, b) := rec_build arg b depth strict parent_kind in
          Ok (Some (s, b))
        else
          let b := b <| b_id ::= S |> in
          let* t := rec_tree arg (b_id b) false strict in
          let '(i, b) := push_capture b (SubWildQuery t) in
          Ok (Some ([TStr "_ @"; TCap i], b))
    end
  else
    let* function := unwrap (child_by_field_name n "function") in
    let* arguments := unwrap (child_by_field_name n "arguments") in
    if str_eq (kind function) "identifier" then
      let* pattern := get_text function in
      if negb (starts_with "$" pattern) then
        let '(i, b) := push_capture b (Check pattern) in
        let* (a, _, b) := rec_build (walk arguments) b (depth + 1) false parent_kind in
        let fs :=
          if strict then [TStr "(identifier) @"; TCap i]
          else [TStr "[(field_expression field: (field_identifier)@"; TCap i;
                TStr ") (identifier) @"; TCap i; TStr "]"] in
        Ok (Some ([TStr "(call_expression function: "] ++ fs ++ [TStr " arguments: "] ++ a ++
                  [TStr ")"], b))
      else Ok None
    else Ok None.

(** [build_assignment] *)
Definition optional_cast (r : sexp) : sexp :=
  [TStr "[(cast_expression value: "] ++ r ++ [TStr ") "] ++ r ++ [TStr "]"].

Definition build_assignment (c : TreeCursor) (b : QueryBuilder) (depth : nat) (strict : bool)
    : res QueryError built :=
  let k := kind (cursor_node c) in
  let* c := moved (goto_first_child c) in
  let* (lhs, c, b) := rec_build c b (depth + 1) strict k in
  let left_is_identifier := str_eq (kind (cursor_node c)) "identifier" in
  let* c := moved (goto_next_sibling c) in
  if negb (str_eq (kind (cursor_node c)) "=") || negb left_is_identifier then
    let* (operator, c, b) := rec_build c b (depth + 1) strict k in
    let* c := moved (goto_next_sibling c) in
    let* (r, c, b) := rec_build c b (depth + 1) strict k in
    let rhs := optional_cast r in
    Ok ([TStr "(assignment_expression left: "] ++ lhs ++ [TStr " "] ++ operator ++
        [TStr " right: "] ++ rhs ++ [TStr ")"], try_move goto_parent c, b)
  else
    let* c := moved (goto_next_sibling c) in
    let* (r, c, b) := rec_build c b (depth + 1) strict k in
    let rhs := optional_cast r in
    Ok ([TStr "[(assignment_expression left: "] ++ lhs ++ [TStr " right: "] ++ rhs ++
        [TStr ") (init_declarator declarator: "] ++ lhs ++ [TStr " value: "] ++ rhs ++
        [TStr ") (init_declarator declarator:(pointer_declarator declarator: "] ++ lhs ++
        [TStr ") value: "] ++ rhs ++ [TStr ")]"], try_move goto_parent c, b).

(** Binary expressions that also match with the operands swapped. *)
Definition build_binary (c : TreeCursor) (b : QueryBuilder) (depth : nat) (strict : bool)
    : res QueryError built :=
  let k := kind (cursor_node c) in
  let* c := moved (goto_first_child c) in
  let* (lhs, c, b) := rec_build c b (depth + 1) strict k in
  let* c := moved (goto_next_sibling c) in
  let op := kind (cursor_node c) in
  let* c := moved (goto_next_sibling c) in
  let* (rhs, c, b) := rec_build c b (depth + 1) strict k in
  Ok ([TStr "[(binary_expression left: "] ++ lhs ++
      [TStr (" operator: " +:+ quoted op +:+ " right: ")] ++ rhs ++
      [TStr ") (binary_expression left: "] ++ rhs ++
      [TStr (" operator: " +:+ quoted (alt_op op) +:+ " right: ")] ++ lhs ++ [TStr ")]"],
      try_move goto_parent c, b).

(** Should the expression of an expression statement replace it? *)
Definition should_unwrap (n : node) (strict : bool) : res QueryError bool :=
  match named_child n 0, parent n with
  | Some ch, Some p =>
      if str_in (kind p) ["compound_statement"; "labeled_statement"; "translation_unit"] then
        let* unwrap1 := if strict then is_subexpr_wildcard ch else Ok true in
        let* unwrap2 :=
          if str_eq (kind p) "labeled_statement" then
            let* l := unwrap (child p 0) in
            let* label := get_text l in
            let label := to_uppercase label in
            Ok (if negb (str_eq label "NOT") && negb (str_eq label "STRICT") then false else unwrap1)
          else Ok unwrap1 in
        let* t := get_text ch in
        Ok (if str_eq t "_" then false else unwrap2)
      else Ok false
  | _, _ => Ok false
  end.

Definition build_number (c : TreeCursor) (b : QueryBuilder) : res QueryError built :=
  let* pattern := get_text (cursor_node c) in
  let* capture :=
    match parse_number_literal pattern with
    | Ok (Some num) => Ok (Number num)
    | Ok None => Ok (Check pattern)
    | Err _ | Panic => Panic
    | OutOfFuel => OutOfFuel
    end in
  let '(i, b) := push_capture b capture in
  Ok ([TStr "(number_literal) @"; TCap i], c, b).

(** A quoted variable; any other string literal takes the default case. *)
Definition build_string (c : TreeCursor) (b : QueryBuilder) : res QueryError (option built) :=
  let* pattern := get_text (cursor_node c) in
  let* last := checked_sub (String.length pattern) 1 in
  let* unquoted := slice pattern 1 last in
  if starts_with "$" unquoted then
    let '(i, b) := push_capture b (Variable_ unquoted (regexes !! unquoted)) in
    Ok (Some ([TStr "(string_literal) @"; TCap i], c, b))
  else Ok None.

(** Is the text of a keyword worth highlighting?  (Letters outside ASCII do
    not occur in the keywords of C.) *)
Definition displayable (s : string) : bool :=
  string_all (fun ch => is_alnum_char ch || Ascii.eqb ch (ascii_of_nat 34)) s &&
  negb (str_eq s (quote +:+ quote +:+ quote)).

(** One iteration of the default case's loop, without the move. *)
Definition build_child (k : string) (anchoring is_funcdef : bool) (depth : nat) (strict : bool)
    (result : sexp) (c : TreeCursor) (b : QueryBuilder) : res QueryError built :=
  match field_name c with
  | Some n =>
      let* (t, c, b) := rec_build c b (depth + 1) strict n in
      Ok (result ++ [TStr (" " +:+ n +:+ ":")] ++
          (if str_eq n "declarator" && is_funcdef
           then [TStr "([(_ "] ++ t ++ [TStr ") ("] ++ t ++ [TStr ")])"]
           else t), c, b)
  | None =>
      if is_named (cur c) then
        let* v := if str_eq k "argument_list" then is_variadic (cursor_node c) else Ok false in
        if (v : bool) then Ok (result, c, b)
        else
          let* (t, c, b) := rec_build c b (depth + 1) strict k in
          Ok (result ++ (if anchoring then [TStr " ."] else []) ++ [TStr " "] ++ t, c, b)
      else
        let* (t, c, b) := rec_build c b (depth + 1) strict k in
        if displayable (render t) then
          let '(i, b) := push_capture b Display in
          Ok (result ++ [TStr " "] ++ t ++ [TStr " @"; TCap i], c, b)
        else Ok (result, c, b)
  end.

Fixpoint build_loop (n : nat) (k : string) (anchoring is_funcdef : bool) (depth : nat)
    (strict : bool) (result : sexp) (c : TreeCursor) (b : QueryBuilder) : res QueryError built :=
  match n with
  | 0 => OutOfFuel
  | S n =>
      let* (result, c, b) := build_child k anchoring is_funcdef depth strict result c b in
      match goto_next_sibling c with
      | None => Ok (result, c, b)
      | Some c => build_loop n k anchoring is_funcdef depth strict result c b
      end
  end.

Definition build_default (c : TreeCursor) (b : QueryBuilder) (depth : nat) (strict : bool)
    : res QueryError built :=
  let n := cursor_node c in
  let k := kind n in
  let* variadic_count :=
    if str_eq k "argument_list" then count_variadic (node_children n) else Ok 0 in
  let has_variadic := 0 <? variadic_count in
  let anchoring :=
    str_eq k "argument_list" && (1 <? named_child_count_s n) && negb has_variadic in
  let is_funcdef := str_eq k "function_definition" in
  let result := [TStr ("(" +:+ k)] in
  match goto_first_child c with
  | None => Ok (result ++ [TStr ")"], c, b)
  | Some c =>
      let* (result, c, b) := build_loop loop_fuel k anchoring is_funcdef depth strict result c b in
      let c := try_move goto_parent c in
      if str_eq k "argument_list" then
        let named_count := named_child_count_s (cursor_node c) in
        let* len := checked_sub named_count variadic_count in
        let '(i, b) := push_capture b
          (if has_variadic then CallExpQuery len true else CallExpQuery named_count false) in
        Ok (result ++ [TStr ") @"; TCap i], c, b)
      else Ok (result ++ [TStr ")"], c, b)
  end.

(** [build] *)
Definition build_body (c : TreeCursor) (b : QueryBuilder) (depth : nat) (strict : bool)
    (parent_kind : string) : res QueryError built :=
  let n := cursor_node c in
  let k := kind n in
  if negb (is_named (cur c)) then Ok ([TStr (quoted k)], c, b)
  else if str_eq k "binary_expression" && is_transformable_binary_exp n then
    build_binary c b depth strict
  else if str_eq k "labeled_statement" then
    let* l := unwrap (child n 0) in
    let* label := get_text l in
    let label := to_uppercase label in
    if str_eq label "NOT" then
      let* b := build_negative_query c b in Ok ([], c, b)
    else if str_eq label "STRICT" then
      match named_child n 1 with
      | Some ch =>
          let* (s, _, b) := rec_build (walk ch) b depth true k in Ok (s, c, b)
      | None => Ok ([], c, b)
      end
    else build_default c b depth strict
  else if str_eq k "compound_statement" && (0 <? named_child_count_s n) then
    let b := b <| b_id ::= S |> in
    let* t := rec_tree (walk n) (b_id b) true false in
    let '(i, b) := push_capture b (SubMultiQuery t) in
    Ok ([TStr "(compound_statement) @"; TCap i], c, b)
  else if str_in k ["identifier"; "type_identifier"; "field_identifier"; "sized_type_specifier";
                    "primitive_type"; "namespace_identifier"] then
    build_identifier c b parent_kind
  else if str_eq k "assignment_expression" then build_assignment c b depth strict
  else if str_eq k "call_expression" then
    let* o := build_call_expr c b depth strict k in
    match o with
    | Some (s, b) => Ok (s, c, b)
    | None => build_default c b depth strict
    end
  else if str_eq k "expression_statement" then
    let* u := should_unwrap n strict in
    if (u : bool) then rec_build (try_move goto_first_child c) b depth strict k
    else build_default c b depth strict
  else if str_eq k "number_literal" then build_number c b
  else if str_eq k "string_literal" then
    let* o := build_string c b in
    match o with
    | Some r => Ok r
    | None => build_default c b depth strict
    end
  else build_default c b depth strict.

(** The statements of a multi-pattern query, one root pattern each. *)
Fixpoint build_patterns (t : stree) (rest : list stree) (up : list (stree * list stree))
    (outer : list stree) (strict : bool) (k : string) (s : sexp) (b : QueryBuilder)
    (variables : gset string) : res QueryError (sexp * QueryBuilder * gset string) :=
  match rest with
  | [] => Ok (s, b, variables)
  | t' :: rest =>
      let before := length (b_captures b) in
      let* (child_sexp, _, b) :=
        rec_build (walk (cursor_node (mkCursor t (t' :: rest) up outer))) b 0 strict k in
      let '(captures, variables) := process_captures (b_captures b) before variables in
      let s := if str_eq (render child_sexp) "" then s
               else s ++ [TStr "("] ++ child_sexp ++ [TStr " "] ++ captures ++ [TStr ")"] in
      build_patterns t' rest up outer strict k s b variables
  end.

(** [_build_query_tree] *)
Definition tree_body (c : TreeCursor) (id : nat) (is_multi_pattern strict_mode : bool)
    : res QueryError QueryTree :=
  let b := mkBuilder [] [] id in
  let c := if str_eq (kind (cursor_node c)) "translation_unit"
           then try_move goto_first_child c else c in
  let k := kind (cursor_node c) in
  let* (text, b, variables) :=
    if negb is_multi_pattern then
      let needs_anchor := str_eq k "compound_statement" && (id =? 0) in
      let* (s, _, b) := rec_build c b 0 strict_mode k in
      let '(s, b) :=
        if negb needs_anchor then
          let '(i, b) := push_capture b Display in (s ++ [TStr "@"; TCap i], b)
        else (s, b) in
      let '(preds, variables) := process_captures (b_captures b) 0 ∅ in
      let s := s ++ preds in
      Ok (if needs_anchor then
            let '(i, b) := push_capture b Display in
            ([TStr "(function_definition body: "] ++ s ++ [TStr ") @"; TCap i], b, variables)
          else ([TStr "("] ++ s ++ [TStr ")"], b, variables))
    else
      let* c := moved (goto_first_child c) in
      let* c := moved (goto_next_sibling c) in
      build_patterns (cur c) (cur_right c) (cur_up c) (cur_outer c) strict_mode k [] b ∅ in
  let* q := of_sum (ts_query (render text)) in
  Ok (mkQT q (b_captures b) (b_negations b) variables id).
End open_recursion.

Fixpoint build (fuel : nat) (c : TreeCursor) (b : QueryBuilder) (depth : nat) (strict : bool)
    (parent_kind : string) {struct fuel} : res QueryError built :=
  match fuel with
  | 0 => OutOfFuel
  | S fuel => build_body (build fuel) (build_tree fuel) fuel c b depth strict parent_kind
  end
with build_tree (fuel : nat) (c : TreeCursor) (id : nat) (is_multi_pattern strict_mode : bool)
    {struct fuel} : res QueryError QueryTree :=
  match fuel with
  | 0 => OutOfFuel
  | S fuel => tree_body (build fuel) c id is_multi_pattern strict_mode
  end.

(** [build_query_tree]; the fuel is a bound on the recursion depth. *)
Definition build_query_tree (c : TreeCursor) : res QueryError QueryTree :=
  build_tree (2 * csize c + 2) c 0 false false.
End builder.
