(* ===== verification/BuilderProps.v ===== *)
(** * What the query builder guarantees

    The text of a query refers to its captures in the order in which the
    builder numbered them, sub-queries get the ids that follow their
    parent's, negative sub-queries refer to captures that exist, and the
    recursion terminates. *)

From Stdlib Require Import Ascii.
From stdpp Require Import base numbers pretty gmap strings list.
From S2P Require Import Prelude Text Util Result TreeSitter Capture Syntax Builder.

(** ** Capture references in a query text *)

Fixpoint caps_of (s : sexp) : list nat :=
  match s with
  | [] => []
  | TStr _ :: s => caps_of s
  | TCap i :: s => i :: caps_of s
  end.

(** The distinct captures of a text in the order of their first occurrence:
    the order in which tree-sitter numbers the captures of a query. *)
Fixpoint first_seen (seen : list nat) (l : list nat) : list nat :=
  match l with
  | [] => []
  | i :: l => if bool_decide (i ∈ seen) then first_seen seen l else i :: first_seen (i :: seen) l
  end.

Definition capture_order (s : sexp) : list nat := first_seen [] (caps_of s).

(** Reading a text with [n] captures numbered so far: every reference is to
    one of them or to the next one. *)
Fixpoint scan (n : nat) (s : sexp) : option nat :=
  match s with
  | [] => Some n
  | TStr _ :: s => scan n s
  | TCap i :: s => if i <? n then scan n s else if i =? n then scan (S n) s else None
  end.

Lemma scan_app n s1 s2 : scan n (s1 ++ s2) = scan n s1 ≫= fun m => scan m s2.
Proof.
  revert n. induction s1 as [|[x|i] s1 IH]; intros n; cbn [scan app]; [done|apply IH|].
  repeat case_match; auto.
Qed.

Lemma scan_str n x s : scan n (TStr x :: s) = scan n s.
Proof. done. Qed.

Lemma scan_nil n : scan n [] = Some n.
Proof. done. Qed.

Lemma scan_new n s : scan n (TCap n :: s) = scan (S n) s.
Proof. cbn [scan]. by rewrite Nat.ltb_irrefl, Nat.eqb_refl. Qed.

Lemma scan_old n i s : i < n -> scan n (TCap i :: s) = scan n s.
Proof. intros H%Nat.ltb_lt. cbn [scan]. by rewrite H. Qed.

Lemma scan_le n s m : scan n s = Some m -> n <= m.
Proof.
  revert n. induction s as [|[x|i] s IH]; intros n H; cbn [scan] in H; [by simplify_eq|by apply IH|].
  repeat case_match; try done; apply IH in H; lia.
Qed.

Lemma scan_again n s m k : scan n s = Some m -> m <= k -> scan k s = Some k.
Proof.
  revert n. induction s as [|[x|i] s IH]; intros n H Hk; cbn [scan] in *; [done|eauto|].
  assert (Hi : i < k) by (repeat case_match; try done; apply scan_le in H; lia).
  apply Nat.ltb_lt in Hi. rewrite Hi. repeat case_match; try done; eauto.
Qed.

Lemma scan_first_seen n s m seen :
  scan n s = Some m -> (forall i, i ∈ seen <-> i < n) ->
  first_seen seen (caps_of s) = seq n (m - n).
Proof.
  revert n seen. induction s as [|[x|i] s IH]; intros n seen H Hs; cbn [scan caps_of first_seen] in *.
  - simplify_eq. by rewrite Nat.sub_diag.
  - by apply IH.
  - destruct (i <? n) eqn:Hi.
    + rewrite bool_decide_true by (apply Hs; lia). by apply IH.
    + destruct (i =? n) eqn:Hin; [|done].
      rewrite bool_decide_false by (rewrite Hs; lia). apply Nat.eqb_eq in Hin as ->.
      pose proof (scan_le _ _ _ H). replace (m - n) with (S (m - S n)) by lia. cbn [seq]. f_equal.
      apply IH; [done|]. intros i. rewrite elem_of_cons, Hs. lia.
Qed.

Lemma scan_capture_order s n : scan 0 s = Some n -> capture_order s = seq 0 n.
Proof.
  intros H. unfold capture_order. rewrite (scan_first_seen 0 s n [] H).
  - by rewrite Nat.sub_0_r.
  - intros i. rewrite elem_of_nil. lia.
Qed.

(** References to existing captures only. *)
Definition refs_below (n : nat) (s : sexp) : Prop := Forall (fun i => i < n) (caps_of s).

Lemma caps_of_app s1 s2 : caps_of (s1 ++ s2) = caps_of s1 ++ caps_of s2.
Proof. induction s1 as [|[]]; cbn; [done|done|]. by f_equal. Qed.

Lemma scan_refs_below n s : refs_below n s -> scan n s = Some n.
Proof.
  unfold refs_below. induction s as [|[x|i] s IH]; cbn [scan caps_of]; [done|done|].
  intros [Hi%Nat.ltb_lt Hs]%Forall_cons. rewrite Hi. auto.
Qed.

Section builder_props.
Context `{TS : TreeSitter}.
Context (ts_query : string -> QueryError + TSQuery).
Context (source : string) (regexes : RegexMap Regex).

(** ** The predicates of [process_captures] refer to existing captures *)

Lemma enumerate_caps_bound n l i c :
  (i, c) ∈ enumerate_caps n l -> n <= i < n + length l /\ l !! (i - n) = Some c.
Proof.
  revert n. induction l as [|a l IH]; intros n; cbn; [by intros ?%not_elem_of_nil|].
  intros [[= -> ->]|H%IH]%elem_of_cons; [rewrite Nat.sub_diag; split; [lia|done]|].
  destruct H as [? H]. split; [lia|]. by replace (i - n) with (S (i - S n)) by lia.
Qed.

Lemma check_predicates_below n caps :
  (forall c, c ∈ caps -> c.1 < n) -> refs_below n (check_predicates caps).
Proof.
  unfold refs_below, check_predicates. induction caps as [|c caps IH]; intros H; cbn; [constructor|].
  rewrite caps_of_app. apply Forall_app. split.
  - destruct c.2; cbn; repeat constructor. apply H. by left.
  - apply IH. intros. apply H. by right.
Qed.

Lemma capture_vars_bound n caps v l :
  (forall c, c ∈ caps -> c.1 < n) -> capture_vars caps !! v = Some l -> Forall (fun i => i < n) l.
Proof.
  unfold capture_vars. intros H.
  assert (Hg : forall m : gmap string (list nat),
    (forall v l, m !! v = Some l -> Forall (fun i => i < n) l) ->
    forall v l, foldl (fun m c => match c.2 with
      | Variable_ v _ => <[v := default [] (m !! v) ++ [c.1]]> m | _ => m end) m caps !! v = Some l ->
      Forall (fun i => i < n) l); [|by apply Hg; intros ??; rewrite lookup_empty].
  clear v l. induction caps as [|c caps IH]; intros m Hm v l; cbn; [apply Hm|].
  apply IH; [intros; apply H; by right|]. clear v l. intros v l.
  destruct c.2 as [|x ?| | | | |]; try apply Hm.
  destruct (decide (x = v)) as [->|Hx].
  - rewrite lookup_insert_eq. intros [= <-]. apply Forall_app. split.
    + destruct (m !! v) eqn:E; cbn; [by eapply Hm|constructor].
    + repeat constructor. apply H. by left.
  - rewrite lookup_insert_ne by done. apply Hm.
Qed.

Lemma equality_predicates_below n vars :
  (forall kv, kv ∈ vars -> Forall (fun i => i < n) kv.2) -> refs_below n (equality_predicates vars).
Proof.
  unfold refs_below, equality_predicates. induction vars as [|[k l] vars IH]; intros H; cbn; [constructor|].
  rewrite caps_of_app. apply Forall_app. split; [|apply IH; intros; apply H; by right].
  specialize (H (k, l) ltac:(by left)). cbn in H.
  destruct l as [|a l]; cbn; [constructor|]. apply Forall_cons in H as [Ha Hl].
  induction l as [|b l IHl]; cbn; [constructor|].
  apply Forall_cons in Hl as [? ?]. constructor; [done|]. constructor; [done|]. auto.
Qed.

Lemma process_captures_scan caps offset vs s vs' :
  process_captures caps offset vs = (s, vs') -> scan (length caps) s = Some (length caps).
Proof.
  intros [= <- _]. apply scan_refs_below. unfold refs_below. rewrite caps_of_app.
  assert (Hb : forall c, c ∈ enumerate_caps offset (drop offset caps) -> c.1 < length caps).
  { intros [i c] [Hi _]%enumerate_caps_bound. rewrite length_drop in Hi. cbn. lia. }
  apply Forall_app. split; [by apply check_predicates_below|].
  apply equality_predicates_below. intros [v l] Hv%elem_of_map_to_list.
  by eapply capture_vars_bound.
Qed.

(** ** The variables of a query's own captures *)
Definition capture_names (caps : list (Capture Regex QueryTree)) : gset string :=
  list_to_set (omap (fun c => match c with Variable_ v _ => Some v | _ => None end) caps).

Lemma process_captures_vars caps offset vs s vs' :
  process_captures caps offset vs = (s, vs') -> vs' = vs ∪ capture_names (drop offset caps).
Proof.
  intros [= _ <-]. f_equal. unfold capture_names. f_equal.
  generalize (drop offset caps). intros l. generalize offset.
  induction l as [|c l IH]; intros o; cbn [enumerate_caps omap list_omap]; [done|].
  cbn. rewrite IH. done.
Qed.

Lemma capture_names_app l1 l2 : capture_names (l1 ++ l2) = capture_names l1 ∪ capture_names l2.
Proof. unfold capture_names. by rewrite omap_app, list_to_set_app_L. Qed.

(** ** What holds of a built query tree *)

(** A negative query is anchored after a capture that shows up in results,
    or before all of them. *)
Definition anchor_ok (caps : list (Capture Regex QueryTree)) (n : NegativeQuery QueryTree) : Prop :=
  previous_capture_index n = (-1)%Z \/
  exists i c, previous_capture_index n = Z.of_nat i /\ caps !! i = Some c /\ is_sub_multi c = false.

Record well_built (t : QueryTree) : Prop := {
  wb_numbering : exists text, ts_query (render text) = inr (query t) /\
    capture_order text = seq 0 (length (qcaptures t));
  wb_ids : qid <$> children t ≡ₚ seq (S (qid t)) (length (children t));
  wb_variables : qvariables t = capture_names (qcaptures t);
  wb_negations : Forall (anchor_ok (qcaptures t)) (negations t);
}.

Definition good (t : QueryTree) : Prop := forall s, subtree s t -> well_built s.

Lemma good_intro t : well_built t -> Forall good (children t) -> good t.
Proof.
  intros Ht Hc s Hs. inversion Hs as [|? ? u Hu Hsu]; subst; [done|].
  rewrite Forall_forall in Hc. by eapply Hc.
Qed.

(** ** The builder's invariant *)

Definition b_subs (b : QueryBuilder) : list QueryTree :=
  omap sub_query (b_captures b) ++ (neg_qt <$> b_negations b).

Record binv (base : nat) (b : QueryBuilder) : Prop := {
  bi_base : base <= b_id b;
  bi_ids : qid <$> b_subs b ≡ₚ seq (S base) (b_id b - base);
  bi_good : Forall good (b_subs b);
  bi_negs : Forall (anchor_ok (b_captures b)) (b_negations b);
}.

(** Building a text from [b], ending in [b']. *)
Record steps (base : nat) (b : QueryBuilder) (s : sexp) (b' : QueryBuilder) : Prop := {
  st_scan : scan (length (b_captures b)) s = Some (length (b_captures b'));
  st_prefix : b_captures b `prefix_of` b_captures b';
  st_inv : binv base b -> binv base b';
}.

Lemma binv_new base : binv base (mkBuilder [] [] base).
Proof. split; cbn; [done|by rewrite Nat.sub_diag|constructor..]. Qed.

Lemma anchor_ok_prefix caps caps' n : caps `prefix_of` caps' -> anchor_ok caps n -> anchor_ok caps' n.
Proof.
  intros Hp [H|(i & c & Hi & Hc & Hm)]; [by left|right]. exists i, c.
  split_and!; [done| |done]. by eapply prefix_lookup_Some.
Qed.

Lemma last_capture_spec n caps :
  last_capture n caps = (-1)%Z \/
  exists i c, last_capture n caps = Z.of_nat (n + i) /\ caps !! i = Some c /\ is_sub_multi c = false.
Proof.
  revert n. induction caps as [|c caps IH]; intros n; cbn [last_capture]; [by left|].
  destruct (IH (S n)) as [->|(i & d & Hi & Hd & Hm)].
  - destruct (is_sub_multi c) eqn:Hc; [by left|right]. exists 0, c.
    split_and!; [by rewrite Nat.add_0_r|done|done].
  - right. exists (S i), d. split_and!; [|done|done].
    rewrite Hi. destruct (Z.of_nat (S n + i)) eqn:E; [lia..|]. lia.
Qed.

Lemma steps_refl base b : steps base b [] b.
Proof. by split. Qed.

Lemma steps_app base b s1 b1 s2 b2 :
  steps base b s1 b1 -> steps base b1 s2 b2 -> steps base b (s1 ++ s2) b2.
Proof.
  intros [H1 P1 I1] [H2 P2 I2]. split; [|by etrans|auto]. by rewrite scan_app, H1.
Qed.

Lemma steps_str base b x s b' : steps base b s b' -> steps base b (TStr x :: s) b'.
Proof. intros [H P I]. by split. Qed.

Lemma steps_str_r base b x s b' : steps base b s b' -> steps base b (s ++ [TStr x]) b'.
Proof. intros H. eapply steps_app; [done|]. apply steps_str, steps_refl. Qed.

(** The same text once more, or any text over captures already numbered. *)
Lemma steps_scan base b s b' t :
  steps base b s b' -> scan (length (b_captures b')) t = Some (length (b_captures b')) ->
  steps base b (s ++ t) b'.
Proof. intros [H P I] Ht. split; [by rewrite scan_app, H|done|done]. Qed.

Lemma steps_again base b s b' b'' t :
  steps base b s b' -> steps base b' t b'' ->
  scan (length (b_captures b'')) s = Some (length (b_captures b'')).
Proof. intros [H _ _] [H' _ _]. eapply scan_again; [done|]. by apply scan_le in H'. Qed.

(** Pushing captures. *)
Lemma steps_push base b c i b' s :
  push_capture b c = (i, b') -> sub_query c = None ->
  (i < length (b_captures b') ->
   scan (length (b_captures b')) s = Some (length (b_captures b'))) ->
  steps base b (TCap i :: s) b'.
Proof.
  intros [= <- <-] Hc. cbn. rewrite length_app. cbn. rewrite Nat.add_1_r. intros Hs. split; cbn -[scan].
  - rewrite scan_new, length_app. cbn -[scan]. rewrite Nat.add_1_r. apply Hs. lia.
  - by apply prefix_app_r.
  - intros [H1 H2 H3 H4]. split; cbn; [done|..].
    + unfold b_subs in *. cbn. by rewrite omap_app; cbn; rewrite Hc, app_nil_r.
    + unfold b_subs in *. cbn. by rewrite omap_app; cbn; rewrite Hc, app_nil_r.
    + eapply Forall_impl; [done|]. intros n. apply anchor_ok_prefix. by apply prefix_app_r.
Qed.

Lemma seq_grow base n : base <= n -> seq (S base) (S n - base) = seq (S base) (n - base) ++ [S n].
Proof.
  intros H. replace (S n - base) with (S (n - base)) by lia. rewrite seq_S.
  do 3 f_equal. lia.
Qed.

Lemma binv_add_sub base b b' t :
  binv base b -> good t -> qid t = S (b_id b) -> b_id b' = S (b_id b) ->
  b_subs b' ≡ₚ b_subs b ++ [t] -> Forall (anchor_ok (b_captures b')) (b_negations b') ->
  binv base b'.
Proof.
  intros [H1 H2 H3 H4] Ht Hq Hid Hs Hn. split; [lia| | |done].
  - rewrite Hs, fmap_app, H2, Hid, seq_grow by done. cbn. by rewrite Hq.
  - rewrite Hs. apply Forall_app. split; [done|by apply Forall_singleton].
Qed.

Lemma steps_push_sub base b c t i b' :
  sub_query c = Some t -> good t -> qid t = S (b_id b) ->
  push_capture (b <| b_id ::= S |>) c = (i, b') -> steps base b [TCap i] b'.
Proof.
  intros Hc Ht Hq [= <- <-]. split.
  - cbn -[scan]. by rewrite scan_new, length_app, Nat.add_1_r.
  - cbn. by apply prefix_app_r.
  - intros Hb. eapply (binv_add_sub base b _ t); [done..|reflexivity| |].
    + unfold b_subs. cbn. rewrite omap_app. cbn. rewrite Hc.
      rewrite <-!app_assoc. apply Permutation_app_head, Permutation_app_comm.
    + cbn. eapply Forall_impl; [apply Hb|]. intros n. apply anchor_ok_prefix. by apply prefix_app_r.
Qed.

Lemma steps_push_neg base b t :
  good t -> qid t = S (b_id b) ->
  steps base b [] (b <| b_id ::= S |>
    <| b_negations ::= fun ns => ns ++ [mkNegative t (last_capture 0 (b_captures b))] |>).
Proof.
  intros Ht Hq. split; [done|done|]. intros Hb.
  eapply (binv_add_sub base b _ t); [done..|reflexivity| |].
  - unfold b_subs. cbn. by rewrite fmap_app, app_assoc.
  - cbn. apply Forall_app. split; [apply Hb|]. apply Forall_singleton. unfold anchor_ok. cbn.
    destruct (last_capture_spec 0 (b_captures b)) as [->|(i & c & -> & ?)]; [by left|right; eauto].
Qed.

(** ** The functions of the builder, one level of recursion at a time *)

Ltac open_result :=
  repeat match goal with
  | p : (_ * _)%type |- _ => destruct p
  | H : Ok (_, _) = Ok (_, _) |- _ => injection H as H; subst
  | H : Ok (Some (_, _)) = Ok (Some (_, _)) |- _ => injection H as H; subst
  | H : Ok (Some (_, _, _)) = Ok (Some (_, _, _)) |- _ => injection H as H; subst
  | H : Ok None = Ok (Some _) |- _ => discriminate H
  | H : (let '(_, _) := ?m in _) = Ok _ |- _ => destruct m eqn:?
  | _ => progress (res_inv; simplify_eq)
  end.

Context (base : nat).
Context (rec_build : TreeCursor -> QueryBuilder -> nat -> bool -> string -> res QueryError built).
Context (rec_tree : TreeCursor -> nat -> bool -> bool -> res QueryError QueryTree).
Context (loop_fuel : nat).
Context (Hbuild : forall c b d strict k s c' b',
  rec_build c b d strict k = Ok (s, c', b') -> steps base b s b').
Context (Hanon : forall c b d strict k s c' b',
  rec_build c b d strict k = Ok (s, c', b') -> is_named (cur c) = false -> b' = b).
Context (Htree : forall c i multi strict t,
  rec_tree c i multi strict = Ok t -> good t /\ qid t = i).

Lemma build_identifier_steps c b k s c' b' :
  build_identifier source regexes c b k = Ok (s, c', b') -> steps base b s b'.
Proof.
  unfold build_identifier. intros H. open_result. destruct (str_eq _ "_"); open_result.
  - apply steps_str, steps_refl.
  - apply steps_str. eapply steps_push; [eassumption| |done]. by destruct (starts_with "$" _).
Qed.

Lemma build_negative_query_steps c b b' :
  build_negative_query rec_tree c b = Ok b' -> steps base b [] b'.
Proof.
  unfold build_negative_query. intros H. open_result.
  match goal with H : rec_tree _ _ _ _ = Ok _ |- _ => apply Htree in H as [? ?] end.
  by apply steps_push_neg.
Qed.

Lemma build_number_steps c b s c' b' :
  build_number source c b = Ok (s, c', b') -> steps base b s b'.
Proof.
  unfold build_number. intros H. open_result.
  apply steps_str. eapply steps_push; [eassumption| |done].
  destruct (parse_number_literal _) as [[]|[]| |]; by open_result.
Qed.

Lemma build_string_steps c b s c' b' :
  build_string source regexes c b = Ok (Some (s, c', b')) -> steps base b s b'.
Proof.
  unfold build_string. intros H. open_result. destruct (starts_with "$" _); open_result.
  apply steps_str. by eapply steps_push; [eassumption|..].
Qed.

(** Uses the induction hypotheses, and reads a text piece by piece. *)
Ltac use_rec :=
  repeat match goal with
  | H : rec_build _ _ _ _ _ = Ok _ |- _ => apply Hbuild in H
  | H : rec_tree _ _ _ _ = Ok _ |- _ => apply Htree in H as [? ?]
  end.
Ltac scan_text :=
  repeat first
    [ done
    | rewrite scan_app
    | rewrite scan_str
    | rewrite scan_nil
    | match goal with
      | H : scan ?n ?s = Some _ |- context [scan ?n ?s] => rewrite H
      | |- context [_ ≫= _] => cbn [mbind option_bind]
      end
    | rewrite scan_old by lia ].

Lemma build_call_expr_steps c b d strict k s b' :
  build_call_expr source rec_build rec_tree c b d strict k = Ok (Some (s, b')) -> steps base b s b'.
Proof.
  unfold build_call_expr. intros H. open_result. destruct a; open_result.
  - destruct (goto_next_sibling _); [done|]. destruct (d =? 0); open_result; use_rec; [done|].
    apply steps_str. eapply steps_push_sub; last eassumption; done.
  - destruct (str_eq _ _); open_result. destruct (negb _); open_result. use_rec.
    apply steps_str. eapply steps_app; [|apply steps_str, steps_str_r; eassumption].
    destruct strict; apply steps_str; (eapply steps_push; [eassumption|done|]).
    + done.
    + intros. scan_text.
Qed.

(** Text over the captures of the text before it. *)
Lemma steps_then b s b' t :
  steps base b s b' ->
  (scan (length (b_captures b')) s = Some (length (b_captures b')) ->
   scan (length (b_captures b')) t = Some (length (b_captures b'))) ->
  steps base b (s ++ t) b'.
Proof.
  intros H Ht. eapply steps_scan; [done|]. apply Ht.
  eapply scan_again; [apply H|done].
Qed.

Lemma optional_cast_steps b s b' : steps base b s b' -> steps base b (optional_cast s) b'.
Proof.
  intros H. unfold optional_cast. apply steps_str. eapply steps_then; [done|].
  intros. scan_text.
Qed.

(** Two operands around an operator, with anything over them after it. *)
Lemma steps_operands b l b1 m b2 r b3 x y z :
  steps base b l b1 -> steps base b1 m b2 -> steps base b2 r b3 ->
  (scan (length (b_captures b3)) l = Some (length (b_captures b3)) ->
   scan (length (b_captures b3)) m = Some (length (b_captures b3)) ->
   scan (length (b_captures b3)) r = Some (length (b_captures b3)) ->
   scan (length (b_captures b3)) z = Some (length (b_captures b3))) ->
  steps base b (TStr x :: l ++ m ++ TStr y :: r ++ z) b3.
Proof.
  intros Hl Hm Hr Hz. apply steps_str. eapply steps_app; [done|]. eapply steps_app; [done|].
  apply steps_str. eapply steps_scan; [done|]. apply Hz.
  - eapply steps_again; [exact Hl|]. by eapply steps_app.
  - by eapply steps_again.
  - eapply scan_again; [apply Hr|done].
Qed.

Lemma build_assignment_steps c b d strict s c' b' :
  build_assignment rec_build c b d strict = Ok (s, c', b') -> steps base b s b'.
Proof.
  unfold build_assignment, moved. intros H. open_result. destruct (_ || _); open_result; use_rec.
  - apply steps_str. eapply steps_app; [done|]. apply steps_str. eapply steps_app; [done|].
    apply steps_str.
    eapply (steps_app _ _ (optional_cast _)); [by apply optional_cast_steps|apply steps_str, steps_refl].
  - match goal with Hl : steps base b ?l ?b1, Hr : steps base ?b1 ?r b' |- _ =>
      apply (steps_operands b l b1 [] b1 (optional_cast r) b');
      [done|apply steps_refl|by apply optional_cast_steps|intros];
      pose proof (scan_again _ _ _ _ (st_scan _ _ _ _ Hr) (le_n _)); scan_text end.
Qed.

Lemma build_binary_steps c b d strict s c' b' :
  build_binary rec_build c b d strict = Ok (s, c', b') -> steps base b s b'.
Proof.
  unfold build_binary, moved. intros H. open_result. use_rec.
  match goal with Hl : steps base b ?l ?b1, Hr : steps base ?b1 ?r b' |- _ =>
    apply (steps_operands b l b1 [] b1 r b'); [done|apply steps_refl|done|intros; scan_text] end.
Qed.

Lemma build_child_steps k anch fd d strict b0 r c b s c' b' :
  steps base b0 r b ->
  build_child source rec_build k anch fd d strict r c b = Ok (s, c', b') -> steps base b0 s b'.
Proof.
  unfold build_child. intros Hr H. destruct (field_name c); open_result; use_rec.
  - eapply steps_app; [done|]. apply steps_str. destruct (_ && _); [|done].
    apply steps_str. eapply steps_then; [done|]. intros. scan_text.
  - destruct (is_named (cur c)) eqn:Hn; open_result.
    + destruct a; open_result; [done|]. use_rec. eapply steps_app; [done|].
      destruct anch; repeat apply steps_str; done.
    + pose proof (Hanon _ _ _ _ _ _ _ _ Hm Hn) as ->. use_rec.
      destruct (displayable _); open_result; [|done].
      eapply steps_app; [done|]. apply steps_str. eapply steps_app; [done|].
      apply steps_str. by eapply steps_push; [eassumption|..].
Qed.

Lemma build_loop_steps n k anch fd d strict b0 r c b s c' b' :
  steps base b0 r b ->
  build_loop source rec_build n k anch fd d strict r c b = Ok (s, c', b') -> steps base b0 s b'.
Proof.
  revert r c b. induction n as [|n IH]; intros r c b Hr H; cbn [build_loop] in H; [done|].
  apply res_bind_ok in H as ([[r1 c1] b1] & H1 & H2).
  apply (build_child_steps _ _ _ _ _ b0) in H1; [|done].
  destruct (goto_next_sibling c1); open_result; [by eapply IH|done].
Qed.

Lemma build_default_steps c b d strict s c' b' :
  build_default source rec_build loop_fuel c b d strict = Ok (s, c', b') -> steps base b s b'.
Proof.
  unfold build_default. intros H. apply res_bind_ok in H as (v & _ & H).
  destruct (goto_first_child c); open_result.
  2: { apply steps_str, steps_str, steps_refl. }
  match goal with H : build_loop _ _ _ _ _ _ _ _ _ _ _ = Ok _ |- _ =>
    apply (build_loop_steps _ _ _ _ _ _ b) in H; [|apply steps_str, steps_refl] end.
  destruct (str_eq _ "argument_list"); open_result; [|by apply steps_str_r].
  eapply steps_app; [done|]. apply steps_str.
  eapply steps_push; [eassumption|by destruct (0 <? v)|done].
Qed.

Lemma build_body_steps c b d strict k s c' b' :
  build_body source regexes rec_build rec_tree loop_fuel c b d strict k = Ok (s, c', b') ->
  steps base b s b'.
Proof.
  unfold build_body. intros H.
  destruct (negb _); [open_result; apply steps_str, steps_refl|].
  destruct (_ && is_transformable_binary_exp _); [by eapply build_binary_steps|].
  destruct (str_eq _ "labeled_statement").
  { open_result. destruct (str_eq _ "NOT"); open_result.
    { by eapply build_negative_query_steps. }
    destruct (str_eq _ "STRICT"); [|by eapply build_default_steps].
    destruct (named_child _ _); open_result; [by eapply Hbuild|apply steps_refl]. }
  destruct (_ && (0 <? _)).
  { open_result. use_rec. apply steps_str. eapply steps_push_sub; last eassumption; done. }
  destruct (str_in _ _); [by eapply build_identifier_steps|].
  destruct (str_eq _ "assignment_expression"); [by eapply build_assignment_steps|].
  destruct (str_eq _ "call_expression").
  { open_result. destruct a as [[]|]; open_result;
      [by eapply build_call_expr_steps|by eapply build_default_steps]. }
  destruct (str_eq _ "expression_statement").
  { open_result. destruct a; [by eapply Hbuild|by eapply build_default_steps]. }
  destruct (str_eq _ "number_literal"); [by eapply build_number_steps|].
  destruct (str_eq _ "string_literal"); [|by eapply build_default_steps].
  open_result. destruct a as [[[]]|]; open_result;
    [by eapply build_string_steps|by eapply build_default_steps].
Qed.

Lemma build_body_anon c b d strict k s c' b' :
  build_body source regexes rec_build rec_tree loop_fuel c b d strict k = Ok (s, c', b') ->
  is_named (cur c) = false -> b' = b.
Proof. unfold build_body. intros H Hn. rewrite Hn in H. cbn [negb] in H. by open_result. Qed.
End builder_props.

(** ** Rendered text *)

Lemma string_app_nil (a b : string) : a +:+ b = "" -> a = "" /\ b = "".
Proof. destruct a; cbn; [auto|done]. Qed.

Lemma pretty_go_nonempty (x : N) s : (0 < x)%N -> pretty_N_go x s <> "".
Proof.
  revert s. induction (N.lt_wf_0 x) as [x _ IH]. intros s Hx. rewrite pretty_N_go_step by done.
  destruct (decide (x `div` 10 = 0)%N) as [->|Hd]; [by rewrite pretty_N_go_0|].
  apply IH; [by apply N.div_lt|by apply N.neq_0_lt_0].
Qed.

Lemma show_nat_nonempty n : show_nat n <> "".
Proof.
  unfold show_nat, pretty, pretty_N. destruct (decide _); [done|]. apply pretty_go_nonempty. lia.
Qed.

Lemma render_empty s : render s = "" -> caps_of s = [].
Proof.
  induction s as [|[x|i] s IH]; cbn; [done|..]; intros [H1 H2]%string_app_nil; [auto|].
  by apply show_nat_nonempty in H1.
Qed.

Lemma scan_no_caps n s : caps_of s = [] -> scan n s = Some n.
Proof. intros H. apply scan_refs_below. unfold refs_below. rewrite H. constructor. Qed.

(** ** One level of [_build_query_tree] *)

Section tree_props.
Context `{TS : TreeSitter}.
Context (ts_query : string -> QueryError + TSQuery).
Context (rec_build : TreeCursor -> QueryBuilder -> nat -> bool -> string -> res QueryError built).
Context (Hbuild : forall base c b d strict k s c' b',
  rec_build c b d strict k = Ok (s, c', b') -> steps ts_query base b s b').

Lemma capture_names_prefix (caps caps' : list (Capture Regex QueryTree)) :
  caps `prefix_of` caps' ->
  capture_names caps' = capture_names caps ∪ capture_names (drop (length caps) caps').
Proof. intros [k ->]. by rewrite drop_app_length, capture_names_app. Qed.

Lemma build_patterns_steps base b0 t rest up outer strict k s b vars s' b' vars' :
  steps ts_query base b0 s b -> vars = capture_names (b_captures b) ->
  build_patterns rec_build t rest up outer strict k s b vars = Ok (s', b', vars') ->
  steps ts_query base b0 s' b' /\ vars' = capture_names (b_captures b').
Proof.
  revert t s b vars. induction rest as [|t' rest IH]; intros t s b vars Hs Hv H; cbn [build_patterns] in H.
  { by simplify_eq. }
  apply res_bind_ok in H as ([[s1 c1] b1] & H1 & H2). apply (Hbuild base) in H1.
  destruct (process_captures _ _ _) as [preds vars1] eqn:Hp.
  eapply IH; [| |exact H2].
  - destruct (str_eq (render s1) "") eqn:He.
    + apply bool_decide_eq_true in He. apply render_empty, (scan_no_caps (length (b_captures b))) in He.
      pose proof (st_scan _ _ _ _ _ H1) as Hc. rewrite He in Hc. injection Hc as Hc.
      destruct H1 as [_ P I], Hs as [S0 P0 I0]. split; [by rewrite S0, Hc|by etrans|auto].
    + eapply steps_app; [done|]. apply steps_str. eapply steps_app; [done|]. apply steps_str.
      eapply (steps_scan _ _ _ []); [apply steps_refl|].
      rewrite scan_app. erewrite process_captures_scan by done. done.
  - apply process_captures_vars in Hp as ->. subst vars. symmetry.
    apply capture_names_prefix. apply H1.
Qed.

Lemma tree_body_good c i multi strict t :
  tree_body ts_query rec_build c i multi strict = Ok t -> good ts_query t /\ qid t = i.
Proof.
  unfold tree_body. intros H.
  set (c0 := if str_eq _ "translation_unit" then _ else c) in H.
  apply res_bind_ok in H as ([[text b] vars] & Ht & H).
  apply res_bind_ok in H as (q & Hq & [= <-]).
  assert (steps ts_query i (mkBuilder [] [] i) text b /\ vars = capture_names (b_captures b))
    as [[Hscan _ Hinv] ->].
  2: { specialize (Hinv (binv_new ts_query i)) as [_ Hids Hgood Hnegs]. split; [|done].
    apply good_intro; [|exact Hgood]. split; [|..|done].
    - exists text. split; [|by apply scan_capture_order].
      destruct (ts_query _); cbn in Hq; by simplify_eq.
    - cbn. unfold children, b_subs in *. cbn in *.
      apply Permutation_length in Hids as Hl. rewrite length_fmap, length_seq in Hl. by rewrite Hl.
    - done. }
  destruct multi; cbn [negb] in Ht.
  - apply res_bind_ok in Ht as (c1 & _ & Ht). apply res_bind_ok in Ht as (c2 & _ & Ht).
    eapply build_patterns_steps; [| |exact Ht]; [apply steps_refl|done].
  - apply res_bind_ok in Ht as ([[s1 c1] b1] & H1 & Ht). apply (Hbuild i) in H1.
    destruct (_ && (i =? 0)); cbn [negb] in Ht.
    + destruct (process_captures _ _ _) as [preds vars1] eqn:Hp.
      injection Ht as <- <- <-. split.
      * apply steps_str. rewrite <-app_assoc. eapply steps_app; [done|].
        eapply (steps_app _ _ _ preds).
        { eapply (steps_scan _ _ _ []); [apply steps_refl|]. by eapply process_captures_scan. }
        apply steps_str. by eapply steps_push; [reflexivity|..].
      * apply process_captures_vars in Hp as ->. rewrite drop_0. unfold capture_names. cbn [b_captures].
        rewrite union_empty_l_L. change (b_captures _) with (b_captures b1 ++ [@Display Regex QueryTree]) at 2.
        by rewrite omap_app, app_nil_r.
    + destruct (push_capture b1 Display) as [j b2] eqn:Hpush.
      destruct (process_captures _ _ _) as [preds vars1] eqn:Hp.
      injection Ht as <- <- <-. split.
      * apply steps_str. rewrite <-!app_assoc. eapply steps_app; [done|].
        apply steps_str. eapply steps_push; [exact Hpush|done|]. intros _.
        rewrite scan_app. erewrite process_captures_scan by done. done.
      * apply process_captures_vars in Hp as ->. rewrite drop_0. set_solver.
Qed.
End tree_props.

Section top.
Context `{TS : TreeSitter}.
Context (ts_query : string -> QueryError + TSQuery).
Context (source : string) (regexes : RegexMap Regex).

Lemma build_steps fuel :
  (forall base c b d strict k s c' b',
    build ts_query source regexes fuel c b d strict k = Ok (s, c', b') ->
    steps ts_query base b s b' /\ (is_named (cur c) = false -> b' = b)) /\
  (forall c i multi strict t,
    build_tree ts_query source regexes fuel c i multi strict = Ok t -> good ts_query t /\ qid t = i).
Proof.
  induction fuel as [|fuel [IHb IHt]]; [done|]. split.
  - intros base c b d strict k s c' b' H. cbn [build] in H. split.
    + eapply build_body_steps; [..|exact H]; [|naive_solver|exact IHt]. intros. by eapply IHb.
    + intros. by eapply build_body_anon.
  - intros c i multi strict t H. cbn [build_tree] in H. eapply tree_body_good; [|exact H].
    intros. by eapply IHb.
Qed.

(** C3. Whatever pattern is built, in the whole query tree it yields: the
    captures of each query occur in its text first in the order of their
    indices (the order in which tree-sitter numbers them, so that the
    matcher's [captures[c.index]] finds the right entry); the direct
    sub-queries and negations of a query have the ids that follow its own;
    a query's variables are those of its captures; and a negation is
    anchored before everything or at an existing capture that appears in
    results. *)
Theorem build_query_tree_well_built (c : TreeCursor) (t : QueryTree) :
  build_query_tree ts_query source regexes c = Ok t ->
  qid t = 0 /\ forall s, subtree s t -> well_built ts_query s.
Proof. intros H. by apply build_steps in H as [Hg ?]. Qed.
End top.
