(* ===== verification/BuilderFuel.v ===== *)
(** * The builder's recursion terminates

    Cursors only move below the node they were handed, so the recursion of
    [build] and [_build_query_tree] is bounded by the size of the pattern. *)

From Stdlib Require Import Ascii.
From stdpp Require Import base numbers gmap strings list.
From S2P Require Import Prelude Text Util Result TreeSitter Capture Syntax Builder.

(** ** Cursors below a cursor *)

Inductive below (c : TreeCursor) : TreeCursor -> Prop :=
| below_first c' : goto_first_child c = Some c' -> below c c'
| below_next c1 c' : below c c1 -> goto_next_sibling c1 = Some c' -> below c c'
| below_down c1 c' : below c c1 -> goto_first_child c1 = Some c' -> below c c'.

Definition at_or_below (c c' : TreeCursor) : Prop := c' = c \/ below c c'.

Lemma below_trans c c1 c2 : below c c1 -> below c1 c2 -> below c c2.
Proof. intros H. induction 1; [by eapply below_down|by eapply below_next|by eapply below_down]. Qed.

Lemma below_at c c1 c2 : below c c1 -> at_or_below c1 c2 -> below c c2.
Proof. intros H [->|H']; [done|by eapply below_trans]. Qed.

Lemma goto_parent_below c c' p : below c c' -> goto_parent c' = Some p -> at_or_below c p.
Proof.
  intros H. revert p. induction H as [c' H|c1 c' H IH Hn|c1 c' H IH Hd]; intros p Hp.
  - apply goto_parent_first_child in H. left. congruence.
  - apply goto_parent_next_sibling in Hn. apply IH. congruence.
  - apply goto_parent_first_child in Hd. right. congruence.
Qed.

Lemma try_parent_below c c' : below c c' -> at_or_below c (try_move goto_parent c').
Proof.
  intros H. unfold try_move. destruct (goto_parent c') eqn:Hp; [|by right].
  by eapply goto_parent_below.
Qed.

Lemma csize_below c c' : below c c' -> csize c' < tsize (cur c).
Proof.
  induction 1 as [c' H|c1 c' H IH Hn|c1 c' H IH Hd].
  - by apply goto_first_child_size.
  - apply goto_next_sibling_size in Hn. lia.
  - apply goto_first_child_size in Hd. unfold csize in *. lia.
Qed.

Lemma below_size c c' : below c c' -> tsize (cur c') < tsize (cur c).
Proof. intros H%csize_below. unfold csize in H. lia. Qed.

Lemma csize_at_or_below c c' : at_or_below c c' -> csize c' <= csize c.
Proof. intros [->|H%csize_below]; [done|]. unfold csize at 2. lia. Qed.

Lemma try_move_next_size c : tsize (cur (try_move goto_next_sibling c)) <= csize c.
Proof.
  unfold try_move. destruct (goto_next_sibling c) eqn:H; [|unfold csize; lia].
  apply goto_next_sibling_size in H. unfold csize in *. lia.
Qed.

(** The argument of a wildcard call lies inside the argument list. *)
Lemma wildcard_arg_size n :
  tsize (cur (try_move goto_next_sibling (try_move goto_first_child (walk n)))) <= tsize (n_tree n).
Proof.
  etrans; [apply try_move_next_size|]. unfold try_move.
  destruct (goto_first_child (walk n)) eqn:H.
  - apply goto_first_child_size in H. cbn in H. lia.
  - unfold csize. cbn. lia.
Qed.

(** ** Results that are not an exhausted fuel *)

Definition fine {E A : Type} (P : A -> Prop) (m : res E A) : Prop :=
  match m with Ok a => P a | OutOfFuel => False | _ => True end.

Lemma fine_bind {E A B : Type} (Q : A -> Prop) (P : B -> Prop) (m : res E A) (k : A -> res E B) :
  fine Q m -> (forall a, Q a -> fine P (k a)) -> fine P (res_bind m k).
Proof. destruct m; cbn; auto. Qed.

Lemma fine_unwrap {E A : Type} (o : option A) : fine (E:=E) (fun a => o = Some a) (unwrap o).
Proof. by destruct o. Qed.

Lemma fine_any {E A : Type} (P : A -> Prop) (m : res E A) : fine P m -> fine (fun _ => True) m.
Proof. by destruct m. Qed.

Lemma fine_text {E : Type} source n : fine (E:=E) (fun _ => True) (get_text source n).
Proof. unfold get_text, node_text, slice. by case_match. Qed.

Lemma fine_wild source n : fine (fun _ => True) (is_subexpr_wildcard source n).
Proof.
  unfold is_subexpr_wildcard. destruct (negb _); [done|].
  eapply fine_bind; [apply fine_unwrap|]. intros f _. by eapply fine_bind; [apply fine_text|].
Qed.

Lemma fine_variadic {E : Type} source n : fine (E:=E) (fun _ => True) (is_variadic source n).
Proof. unfold is_variadic. destruct (_ && _); [|done]. by eapply fine_bind; [apply fine_text|]. Qed.

Lemma fine_count {E : Type} source ns : fine (E:=E) (fun _ => True) (count_variadic source ns).
Proof.
  induction ns as [|n ns IH]; cbn [count_variadic]; [done|].
  eapply fine_bind; [apply fine_variadic|]. intros. by eapply fine_bind; [exact IH|].
Qed.

Lemma fine_checked_sub {E : Type} a b : fine (E:=E) (fun _ => True) (checked_sub a b).
Proof. unfold checked_sub. by case_match. Qed.

Lemma fine_slice {E : Type} s a b : fine (E:=E) (fun _ => True) (slice s a b).
Proof. unfold slice. by case_match. Qed.

Lemma parse_number_fuel s : parse_number_literal s <> OutOfFuel.
Proof.
  unfold parse_number_literal. destruct (strip_minus _) as [neg i]. destruct (radix_of i) as [o r].
  unfold slice. case_match; cbn; [|done]. destruct (from_str_radix _ _); [|done].
  destruct neg; [|done]. unfold neg_i128. by destruct (_ =? _)%Z.
Qed.

Create HintDb fine.
#[local] Hint Resolve fine_unwrap fine_text fine_wild fine_variadic fine_count fine_checked_sub
  fine_slice : fine.
Ltac bind := eapply fine_bind; [solve [eauto with fine]|]; intros.

Section one_level.
Context `{TS : TreeSitter}.
Context (ts_query : string -> QueryError + TSQuery).
Context (source : string) (regexes : RegexMap Regex).
Context (rec_build : TreeCursor -> QueryBuilder -> nat -> bool -> string -> res QueryError built).
Context (rec_tree : TreeCursor -> nat -> bool -> bool -> res QueryError QueryTree).
Context (loop_fuel : nat) (c0 : TreeCursor).

(** A built text whose cursor stayed at or below [c]. *)
Definition ends (c : TreeCursor) (r : built) : Prop := at_or_below c r.1.2.

Context (Hbuild : forall c b d strict k,
  tsize (cur c) < tsize (cur c0) -> fine (ends c) (rec_build c b d strict k)).
Context (Htree : forall c i multi strict,
  tsize (cur c) < tsize (cur c0) \/ (multi = true /\ cur c = cur c0) ->
  fine (fun _ => True) (rec_tree c i multi strict)).

(** A recursive call on a cursor below leaves the cursor below. *)
Lemma rec_below c b d strict k :
  below c0 c -> fine (fun r : built => below c0 r.1.2) (rec_build c b d strict k).
Proof.
  intros H. specialize (Hbuild c b d strict k (below_size _ _ H)).
  destruct (rec_build _ _ _ _ _); cbn in *; [|done..]. by eapply below_at.
Qed.

Lemma moved_below c o : (forall c', o = Some c' -> below c c') -> fine (below c) (moved o).
Proof. destruct o; cbn; auto. Qed.

#[local] Hint Resolve rec_below below_first below_next try_parent_below : fine.
#[local] Hint Extern 1 (fine _ (moved _)) => apply moved_below : fine.
Ltac rec := eapply fine_bind; [apply rec_below; eassumption|]; intros [[? ?] ?] ?; cbn beta iota in *;
  cbn [fst snd] in *.
Ltac move_on := eapply (fine_bind (below c0)); [apply moved_below; intros; solve [eauto with fine]|]; intros.

Lemma build_binary_fine b d strict : fine (ends c0) (build_binary rec_build c0 b d strict).
Proof. unfold build_binary. move_on. rec. move_on. move_on. rec. by apply try_parent_below. Qed.

Lemma build_assignment_fine b d strict : fine (ends c0) (build_assignment rec_build c0 b d strict).
Proof.
  unfold build_assignment. move_on. rec. move_on. destruct (_ || _).
  - rec. move_on. rec. by apply try_parent_below.
  - move_on. rec. by apply try_parent_below.
Qed.

Lemma build_identifier_fine b k : fine (ends c0) (build_identifier source regexes c0 b k).
Proof. unfold build_identifier. bind. destruct (str_eq _ "_"); by left. Qed.

Lemma build_negative_query_fine b : fine (fun _ => True) (build_negative_query rec_tree c0 b).
Proof.
  unfold build_negative_query. bind.
  eapply fine_bind; [apply Htree; left; by apply (tsize_child (cursor_node c0) 2)|]. done.
Qed.

Lemma build_call_expr_fine b d strict k :
  fine (fun _ => True) (build_call_expr source rec_build rec_tree c0 b d strict k).
Proof.
  unfold build_call_expr. bind. destruct a.
  - eapply fine_bind; [apply fine_unwrap|]. intros args Hargs.
    pose proof (child_by_field_size _ _ _ Hargs). pose proof (wildcard_arg_size args).
    destruct (goto_next_sibling _); [done|]. destruct (d =? 0).
    + eapply fine_bind; [eapply fine_any, Hbuild; cbn in *; lia|]. by intros [[? ?] ?].
    + eapply fine_bind; [apply Htree; left; cbn in *; lia|]. done.
  - bind. eapply fine_bind; [apply fine_unwrap|]. intros args Hargs.
    pose proof (child_by_field_size _ _ _ Hargs).
    destruct (str_eq _ _); [|done]. bind. destruct (negb _); [|done]. cbn [push_capture add_capture].
    eapply fine_bind; [eapply fine_any, Hbuild; cbn in *; lia|]. by intros [[? ?] ?].
Qed.

Lemma should_unwrap_fine strict :
  fine (fun u => u = true -> is_Some (goto_first_child c0))
       (should_unwrap source (cursor_node c0) strict).
Proof.
  unfold should_unwrap. destruct (named_child _ 0) as [ch|] eqn:Hch; [|by cbn].
  assert (is_Some (goto_first_child c0)).
  { unfold named_child, named_children, node_children in Hch. unfold goto_first_child. cbn in Hch.
    destruct (s_children (cur c0)); [done|by eexists]. }
  destruct (parent _); [|by cbn]. destruct (str_in _ _); [|by cbn].
  eapply (fine_bind (fun _ => True)); [destruct strict; [apply fine_wild|done]|intros ? _].
  eapply (fine_bind (fun _ => True)).
  { destruct (str_eq _ _); [|done]. bind. by bind. }
  intros. bind. by cbn.
Qed.

Lemma build_number_fine b : fine (ends c0) (build_number source c0 b).
Proof.
  unfold build_number. bind. eapply (fine_bind (fun _ => True)).
  - pose proof (parse_number_fuel a). by destruct (parse_number_literal a) as [[]|[]| |].
  - intros. by left.
Qed.

Lemma build_string_fine b :
  fine (fun o => forall r, o = Some r -> ends c0 r) (build_string source regexes c0 b).
Proof.
  unfold build_string. bind. bind. bind. destruct (starts_with _ _); cbn; [|done].
  intros r [= <-]. by left.
Qed.

Lemma build_child_fine k anch fd d strict r c b :
  below c0 c ->
  fine (fun x : built => at_or_below c x.1.2)
       (build_child source rec_build k anch fd d strict r c b).
Proof.
  intros Hc. pose proof (below_size _ _ Hc) as Hsz. unfold build_child. destruct (field_name c).
  - eapply fine_bind; [by apply Hbuild|]. by intros [[? ?] ?].
  - destruct (is_named _).
    + eapply (fine_bind (fun _ => True)); [destruct (str_eq _ _); eauto with fine; done|].
      intros v _. destruct v; [by left|].
      eapply fine_bind; [by apply Hbuild|]. by intros [[? ?] ?].
    + eapply fine_bind; [by apply Hbuild|]. intros [[? ?] ?] ?. by destruct (displayable _).
Qed.

Lemma build_loop_fine n k anch fd d strict r c b :
  below c0 c -> csize c <= n ->
  fine (fun x : built => below c0 x.1.2)
       (build_loop source rec_build n k anch fd d strict r c b).
Proof.
  revert r c b. induction n as [|n IH]; intros r c b Hc Hn; cbn [build_loop].
  { pose proof (tsize_pos (cur c)). unfold csize in Hn. lia. }
  eapply fine_bind; [by apply build_child_fine|]. intros [[r1 c1] b1] H1. cbn in H1.
  pose proof (below_at _ _ _ Hc H1).
  destruct (goto_next_sibling c1) as [c2|] eqn:Hs; [|done].
  apply IH; [by eapply below_next|]. apply goto_next_sibling_size in Hs.
  pose proof (tsize_pos (cur c1)). apply csize_at_or_below in H1. lia.
Qed.

Lemma build_default_fine b d strict :
  tsize (cur c0) <= S loop_fuel ->
  fine (ends c0) (build_default source rec_build loop_fuel c0 b d strict).
Proof.
  intros Hfuel. unfold build_default. eapply (fine_bind (fun _ => True)).
  { destruct (str_eq _ _); [apply fine_count|done]. }
  intros v _. destruct (goto_first_child c0) as [c1|] eqn:Hc1; [|by left].
  eapply fine_bind.
  { apply build_loop_fine; [by apply below_first|]. apply goto_first_child_size in Hc1. lia. }
  intros [[r c2] b2] H2. cbn in H2. apply try_parent_below in H2.
  destruct (str_eq _ _); [|done]. by bind.
Qed.

Lemma build_body_fine b d strict k :
  tsize (cur c0) <= S loop_fuel ->
  fine (ends c0) (build_body source regexes rec_build rec_tree loop_fuel c0 b d strict k).
Proof.
  intros Hfuel. pose proof (build_default_fine b d strict Hfuel) as Hdef.
  unfold build_body. destruct (negb _); [by left|].
  destruct (_ && is_transformable_binary_exp _); [apply build_binary_fine|].
  destruct (str_eq _ "labeled_statement").
  { bind. bind. destruct (str_eq _ "NOT").
    { eapply fine_bind; [apply build_negative_query_fine|]. by left. }
    destruct (str_eq _ "STRICT"); [|done].
    destruct (named_child _ _) eqn:Hch; [|by left].
    apply named_child_size in Hch. eapply fine_bind; [eapply fine_any, Hbuild; exact Hch|].
    intros [[? ?] ?] _. by left. }
  destruct (_ && (0 <? _)).
  { eapply fine_bind; [apply Htree; by right|]. by left. }
  destruct (str_in _ _); [apply build_identifier_fine|].
  destruct (str_eq _ "assignment_expression"); [apply build_assignment_fine|].
  destruct (str_eq _ "call_expression").
  { eapply fine_bind; [apply build_call_expr_fine|]. intros [[]|] _; [by left|done]. }
  destruct (str_eq _ "expression_statement").
  { eapply fine_bind; [apply should_unwrap_fine|]. intros [] Hu; [|done].
    destruct (Hu eq_refl) as [c1 Hc1]. unfold try_move. rewrite Hc1.
    pose proof (rec_below c1 b d strict (kind (cursor_node c0)) (below_first _ _ Hc1)) as Hr.
    destruct (rec_build _ _ _ _ _); try done. by right. }
  destruct (str_eq _ "number_literal"); [apply build_number_fine|].
  destruct (str_eq _ "string_literal"); [|done].
  eapply fine_bind; [apply build_string_fine|]. intros [r|] Hr; [by apply Hr|done].
Qed.
End one_level.

Section tree_level.
Context `{TS : TreeSitter}.
Context (ts_query : string -> QueryError + TSQuery).
Context (rec_build : TreeCursor -> QueryBuilder -> nat -> bool -> string -> res QueryError built).
Context (bound : nat).
Context (Hbuild : forall c b d strict k, tsize (cur c) <= bound -> fine (ends c) (rec_build c b d strict k)).

Lemma build_patterns_fine t rest up outer strict k s b vars :
  tsize t + sum_list_with tsize rest <= bound ->
  fine (fun _ => True) (build_patterns rec_build t rest up outer strict k s b vars).
Proof.
  revert t s b vars. induction rest as [|t' rest IH]; intros t s b vars Hb; cbn [build_patterns]; [done|].
  cbn in Hb. eapply fine_bind; [eapply fine_any, Hbuild; cbn; lia|].
  intros [[s1 c1] b1] _. destruct (process_captures _ _ _). apply IH. lia.
Qed.

Lemma tree_body_fine c i multi strict :
  (multi = false -> tsize (cur c) <= bound) -> (multi = true -> tsize (cur c) <= S bound) ->
  fine (fun _ => True) (tree_body ts_query rec_build c i multi strict).
Proof.
  intros Hs Hm. unfold tree_body.
  set (c0 := if str_eq _ "translation_unit" then _ else c).
  assert (Hc0 : tsize (cur c0) <= tsize (cur c)).
  { unfold c0, try_move. destruct (str_eq _ _); [|done].
    destruct (goto_first_child c) as [c'|] eqn:Hc; [|done].
    apply goto_first_child_size in Hc. unfold csize in Hc. lia. }
  eapply (fine_bind (fun _ => True)); [|intros [[text b] vars] _].
  2: { destruct (ts_query _); done. }
  destruct multi; cbn [negb].
  - specialize (Hm eq_refl). eapply fine_bind; [apply fine_unwrap|]. intros c1 Hc1.
    apply goto_first_child_size in Hc1. eapply fine_bind; [apply fine_unwrap|]. intros c2 Hc2.
    apply goto_next_sibling_size in Hc2. apply build_patterns_fine. unfold csize in *. lia.
  - specialize (Hs eq_refl). eapply fine_bind; [apply Hbuild; lia|]. intros [[s1 c1] b1] _.
    by destruct (_ && (i =? 0)); cbn -[process_captures]; destruct (process_captures _ _ _).
Qed.
End tree_level.

Section termination.
Context `{TS : TreeSitter}.
Context (ts_query : string -> QueryError + TSQuery).
Context (source : string) (regexes : RegexMap Regex).

Ltac div2_lia :=
  match goal with
  | fuel : nat |- context [Nat.div2 ?fuel] =>
      pose proof (Nat.div2_odd fuel); destruct (Nat.odd fuel); cbn [Nat.b2n] in *; lia
  | H : context [Nat.div2 ?fuel] |- _ =>
      pose proof (Nat.div2_odd fuel); destruct (Nat.odd fuel); cbn [Nat.b2n] in *; lia
  end.

Lemma build_fine fuel :
  (forall c b d strict k, 2 * tsize (cur c) <= fuel ->
    fine (ends c) (build ts_query source regexes fuel c b d strict k)) /\
  (forall c i multi strict, 1 <= fuel ->
    (multi = false -> 2 * tsize (cur c) + 1 <= fuel) -> (multi = true -> 2 * tsize (cur c) - 1 <= fuel) ->
    fine (fun _ => True) (build_tree ts_query source regexes fuel c i multi strict)).
Proof.
  induction fuel as [|fuel [IHb IHt]].
  { split; [|intros; lia]. intros c **. pose proof (tsize_pos (cur c)). lia. }
  split.
  - intros c b d strict k Hf. cbn [build]. pose proof (tsize_pos (cur c)). apply build_body_fine.
    + intros c' **. apply IHb. lia.
    + intros c' ? multi ? [Hlt|[-> Heq]]; pose proof (tsize_pos (cur c'));
        apply IHt; intros; try done; rewrite ?Heq in *; lia.
    + lia.
  - intros c i multi strict Hf H1 H2. cbn [build_tree].
    apply (tree_body_fine _ _ (Nat.div2 fuel)).
    + intros. apply IHb. div2_lia.
    + intros Hm. specialize (H1 Hm). div2_lia.
    + intros Hm. specialize (H2 Hm). div2_lia.
Qed.

Lemma build_query_tree_ends (c : TreeCursor) : build_query_tree ts_query source regexes c <> OutOfFuel.
Proof.
  unfold build_query_tree. destruct (build_fine (2 * csize c + 2)) as [_ H].
  specialize (H c 0 false false). destruct (build_tree _ _ _ _ _ _ _ _) eqn:E; try done.
  exfalso. apply H; [lia| |done]. intros _. unfold csize. lia.
Qed.

(** C28. Building a query terminates on every pattern, well-formed or not:
    the recursion of [build] and [_build_query_tree], each of which calls
    the other, and the sibling loops never exceed the fuel
    [build_query_tree] provides, which is linear in the pattern's size. *)
Theorem build_query_tree_terminates (c : TreeCursor) :
  build_query_tree ts_query source regexes c <> OutOfFuel.
Proof. apply build_query_tree_ends. Qed.
End termination.
