(* ===== verification/Search.v ===== *)
(** * From the rule file to query trees: [lib.rs], [rules.rs], [main.rs]

    A rule has patterns and constraints on their variables.  A constraint
    [$x=regex] or [$x!=regex] is compiled by [process_regexes]; a pattern is
    parsed, completed by a missing semicolon or braces, validated and built by
    [parse_search_pattern].  tree-sitter's parser, the compiler of regular
    expressions and the colours of messages are parameters. *)

From Stdlib Require Import Ascii.
From stdpp Require Import base numbers gmap strings list.
From S2P Require Import Prelude Text TreeSitter Capture Pipeline Syntax Builder BuilderProps BuilderFuel.

(** ** The libraries *)

(** [tree_sitter::Parser], on the text of a pattern: the root of the tree, and
    what a node tells about errors. *)
Class PatternParser := {
  pattern_parse : string -> stree;
  has_error : stree -> bool;
  is_error : stree -> bool;
  is_missing : stree -> bool;
}.

Inductive style := Red | Bold | Italic.

(** A node and the nodes below it. *)
Inductive below (t : stree) : stree -> Prop :=
| below_refl : below t t
| below_child u v : below t u -> v ∈ s_children u -> below t v.

(** Documented behaviour: a node has an error when it is one, or stands for
    missing text, or contains one; nodes are slices of the text, which starts
    at a character. *)
Class PatternParserLaws `(PatternParser) : Prop := {
  has_error_spec : forall t, has_error t = is_error t || is_missing t || existsb has_error (s_children t);
  parsed_slices : forall p t, is_char_boundary p 0 = true -> below (pattern_parse p) t ->
    is_Some (get_range p 0 (s_start t)) /\ is_Some (get_range p (s_start t) (s_end t)) /\
    is_Some (get_range p (s_end t) (String.length p));
}.

Section search.
Context `{TS : TreeSitter} `{PP : PatternParser}.
Context (ts_query : string -> QueryError + TSQuery) (styled : list style -> string -> string).
Context {regex_error : Type} (regex_new : string -> regex_error + Regex).

(** ** [lib.rs]: patterns *)

Definition VALID_NODE_KINDS : list string :=
  ["compound_statement"; "function_definition"; "struct_specifier"; "enum_specifier"; "union_specifier"; "class_specifier"].

(** The two normalisations of [parse_search_pattern]. *)
Definition add_semicolon (pattern : string) : string * stree :=
  let tree := pattern_parse pattern in
  if has_error tree && negb (ends_with ";" pattern) then
    let temp := pattern +:+ ";" in
    let fixed := pattern_parse temp in
    if negb (has_error fixed) then (temp, fixed) else (pattern, tree)
  else (pattern, tree).
Definition add_braces (p : string) (tree : stree) : string * stree :=
  if negb (has_error tree) then
    match s_children tree with
    | n :: _ =>
        if negb (str_in (s_kind n) VALID_NODE_KINDS) then
          let temp := "{" +:+ p +:+ "}" in
          let fixed := pattern_parse temp in
          if negb (has_error fixed) then (temp, fixed) else (p, tree)
        else (p, tree)
    | [] => (p, tree)
    end
  else (p, tree).

(** The search for the first error in [validate_query]; each round moves down
    or to the right. *)
Fixpoint first_error (fuel : nat) (c : TreeCursor) : res QueryError (option stree) :=
  match fuel with
  | O => OutOfFuel
  | S fuel =>
      if has_error (cur c) then
        if is_error (cur c) || is_missing (cur c) then Ok (Some (cur c))
        else match goto_first_child c with Some c => first_error fuel c | None => Ok None end
      else match goto_next_sibling c with Some c => first_error fuel c | None => Ok None end
  end.

Definition error_message (query : string) (n : stree) : res QueryError string :=
  let* before := slice query 0 (s_start n) in
  let missing := if is_missing n then
    styled [Red] " [MISSING " +:+ styled [Red; Bold] (s_kind n) +:+ styled [Red] " ] " else "" in
  let* text := slice query (s_start n) (s_end n) in
  let* after := slice query (s_end n) (String.length query) in
  Ok (" " +:+ styled [Italic] before +:+ missing +:+ styled [Red; Italic; Bold] text +:+ styled [Italic] after).

Definition validate_query (tree : stree) (query : string) (force : bool) : res QueryError TreeCursor :=
  let c := walk (mkNode tree []) in
  if has_error tree && negb force then
    let* first := first_error (csize c) c in
    let* details := match first with Some n => error_message query n | None => Ok "" end in
    Err (styled [Red; Bold] "Error! Query parsing failed:" +:+ details)
  else if 1 <? named_child_count_s (cursor_node c) then
    Err (styled [Red] "Error: " +:+ "'" +:+ query +:+ "' query contains multiple root nodes")
  else
    let c := try_move goto_first_child c in
    if negb (str_in (kind (cursor_node c)) VALID_NODE_KINDS) then
      Err (styled [Red] "Error: " +:+ "'" +:+ query +:+ "' is not a supported query root node.")
    else Ok c.

Definition parse_search_pattern (pattern : string) (force_query : bool) (regex_constraints : RegexMap Regex)
    : res QueryError QueryTree :=
  let '(p, tree) := add_semicolon pattern in
  let '(p, tree) := add_braces p tree in
  let* c := validate_query tree p force_query in
  build_query_tree ts_query p regex_constraints c.

(** ** [rules.rs]: constraints *)

Inductive RegexError := InvalidArg (s : string) | InvalidRegex (e : regex_error).

(** The variable, whether the constraint is negative, and the expression. *)
Definition split_constraint (r : string) : option (string * bool * string) :=
  match split_once "=" r with
  | (_, None) => None
  | (var, Some raw_regex) =>
      let normalized_var := if starts_with "$" var then var else "$" +:+ var in
      let negative := ends_with "!" normalized_var in
      Some (if negative then pop normalized_var else normalized_var, negative, raw_regex)
  end.

Fixpoint process_regexes_from (result : RegexMap Regex) (regexes : list string) : res RegexError (RegexMap Regex) :=
  match regexes with
  | [] => Ok result
  | r :: regexes =>
      match split_constraint r with
      | None => Err (InvalidArg r)
      | Some (var, negative, raw) =>
          match regex_new raw with
          | inl e => Err (InvalidRegex e)
          | inr re => process_regexes_from (<[var := (negative, re)]> result) regexes
          end
      end
  end.
Definition process_regexes : list string -> res RegexError (RegexMap Regex) := process_regexes_from ∅.

(** ** [main.rs]: rules *)

(** [Rule] of [types.rs]. *)
Record Rule := mkRule { ru_reason : string; ru_regexes : list string; ru_patterns : list string }.

(** Why the program exits. *)
Inductive RuleError :=
| BadRegex (e : RegexError)
| BadPattern (message : QueryError)
| BadVariables (vs : gset string).   (* none of them occurs in a pattern *)

Definition compile_pattern (force : bool) (m : RegexMap Regex) (reason issue pattern : string) : res RuleError WorkItem :=
  match parse_search_pattern pattern force m with
  | Ok qt => Ok (mkWork qt (identifiers qt) reason issue)
  | Err message => Err (BadPattern message)
  | Panic => Panic
  | OutOfFuel => OutOfFuel
  end.
Fixpoint compile_patterns (force : bool) (m : RegexMap Regex) (reason issue : string) (patterns : list string)
    : res RuleError (list WorkItem * gset string) :=
  match patterns with
  | [] => Ok ([], ∅)
  | p :: patterns =>
      let* w := compile_pattern force m reason issue p in
      let* (ws, vs) := compile_patterns force m reason issue patterns in
      Ok (w :: ws, variables (qt w) ∪ vs)
  end.

Definition compile_rule (force : bool) (issue : string) (rule : Rule) : res RuleError (list WorkItem) :=
  match process_regexes (ru_regexes rule) with
  | Ok m =>
      let* (works, vs) := compile_patterns force m (ru_reason rule) issue (ru_patterns rule) in
      if bool_decide (dom m ⊆ vs) then Ok works else Err (BadVariables (dom m ∖ vs))
  | Err e => Err (BadRegex e)
  | Panic => Panic
  | OutOfFuel => OutOfFuel
  end.
Fixpoint compile_rules (force : bool) (issue : string) (rules : list Rule) : res RuleError (list WorkItem) :=
  match rules with
  | [] => Ok []
  | r :: rules =>
      let* ws := compile_rule force issue r in
      let* rest := compile_rules force issue rules in
      Ok (ws ++ rest)
  end.
End search.

(** ** Errors in a pattern *)

Section errors.
Context `{PP : PatternParser} `{!PatternParserLaws PP}.

(** The nodes of a tree, a node before those below it. *)
Fixpoint preorder (t : stree) : list stree :=
  match t with SNode _ _ _ _ _ cs => t :: flat_map preorder cs end.
Definition faulty (t : stree) : bool := is_error t || is_missing t.
Definition faults (ts : list stree) : list stree := List.filter faulty (flat_map preorder ts).

Lemma preorder_eq t : preorder t = t :: flat_map preorder (s_children t).
Proof. by destruct t. Qed.
Lemma faults_cons t ts : faults (t :: ts) = faults [t] ++ faults ts.
Proof. unfold faults. cbn [flat_map]. by rewrite app_nil_r, List.filter_app. Qed.
Lemma faults_one t : faults [t] = (if faulty t then [t] else []) ++ faults (s_children t).
Proof. unfold faults. cbn [flat_map]. rewrite app_nil_r, preorder_eq. cbn. by destruct (faulty t). Qed.

Lemma has_error_faults n : forall t, tsize t <= n -> has_error t = negb (bool_decide (faults [t] = [])).
Proof.
  induction n as [|n IH]; intros t Hn; [pose proof (tsize_pos t); lia|]. rewrite has_error_spec, faults_one. fold (faulty t).
  destruct (faulty t); cbn [orb app]; [done|]. rewrite tsize_children in Hn.
  assert (Hc : forall u, u ∈ s_children t -> tsize u <= n) by (intros u Hu%tsize_in; lia). clear Hn.
  induction (s_children t) as [|u us IHu]; [done|]. cbn [existsb]. rewrite (IH u) by (apply Hc; left). rewrite IHu by (intros; apply Hc; by right).
  rewrite (faults_cons u us). do 3 case_bool_decide; cbn; try done; destruct (faults [u]), (faults us); done.
Qed.
Lemma has_error_iff t : has_error t = true <-> faults [t] <> [].
Proof. rewrite (has_error_faults (tsize t)) by done. case_bool_decide; cbn; naive_solver. Qed.

(** The search finds the first fault in document order. *)
Lemma first_error_first fuel : forall c n rest, csize c <= fuel -> faults (cur c :: cur_right c) = n :: rest ->
  first_error fuel c = Ok (Some n).
Proof.
  induction fuel as [|fuel IH]; intros c n rest Hf Hn; cbn [first_error].
  { unfold csize in Hf. pose proof (tsize_pos (cur c)). lia. }
  rewrite faults_cons in Hn. destruct (has_error (cur c)) eqn:He.
  - fold (faulty (cur c)). apply has_error_iff in He. rewrite faults_one in Hn, He. destruct (faulty (cur c)); [by injection Hn as <-|].
    cbn in Hn, He. unfold goto_first_child. destruct (s_children (cur c)) as [|t ts] eqn:Hc; [done|].
    destruct (faults (t :: ts)) as [|x xs] eqn:Hx; [done|]. injection Hn as <- _. apply (IH _ x xs); [|done]. cbn.
    assert (goto_first_child c = Some (mkCursor t ts ((cur c, cur_right c) :: cur_up c) (cur_outer c))) as Hg
      by (unfold goto_first_child; by rewrite Hc).
    apply goto_first_child_size in Hg. unfold csize in *. cbn in *. lia.
  - assert (faults [cur c] = []) as H0 by (destruct (faults [cur c]) eqn:E; [done|];
      assert (has_error (cur c) = true) by (apply has_error_iff; by rewrite E); congruence).
    rewrite H0 in Hn. cbn in Hn. unfold goto_next_sibling. destruct (cur_right c) as [|t ts] eqn:Hr; [done|].
    apply (IH _ n rest); [|done]. unfold csize in *. rewrite Hr in Hf. cbn in *. pose proof (tsize_pos (cur c)). lia.
Qed.

Lemma below_step t v : below t v <-> v = t \/ exists u, u ∈ s_children t /\ below u v.
Proof.
  split.
  - induction 1 as [|u v Hu IH Hv]; [by left|]. right. destruct IH as [->|(w & Hw & Hb)]; [exists v; split; [done|constructor]|].
    exists w. split; [done|]. by econstructor.
  - intros [->|(u & Hu & Hb)]; [constructor|]. induction Hb as [|w v Hw IH Hv]; [econstructor; [constructor|done]|by econstructor].
Qed.
Lemma fault_below n : forall t v, tsize t <= n -> v ∈ faults [t] -> below t v /\ faulty v = true.
Proof.
  induction n as [|n IH]; intros t v Hn Hv; [pose proof (tsize_pos t); lia|]. rewrite faults_one in Hv. rewrite tsize_children in Hn.
  apply elem_of_app in Hv as [Hv|Hv].
  - destruct (faulty t) eqn:Ht; [|by apply not_elem_of_nil in Hv]. apply list_elem_of_singleton in Hv as ->. split; [constructor|done].
  - assert (exists u, u ∈ s_children t /\ v ∈ faults [u]) as (u & Hu & Hv').
    { clear Hn. induction (s_children t) as [|u us IHu]; [by apply not_elem_of_nil in Hv|]. rewrite faults_cons in Hv.
      apply elem_of_app in Hv as [Hv|Hv]; [exists u; split; [left|done]|]. destruct (IHu Hv) as (w & Hw & Hv'). exists w. split; [by right|done]. }
    destruct (IH u v) as [Hb Hf]; [apply tsize_in in Hu; lia|done|]. split; [|done]. apply below_step. right. eauto.
Qed.
(** It always ends. *)
Lemma first_error_ends fuel : forall c, csize c <= fuel -> first_error fuel c <> OutOfFuel.
Proof.
  induction fuel as [|fuel IH]; intros c Hf; cbn [first_error].
  { unfold csize in Hf. pose proof (tsize_pos (cur c)). lia. }
  destruct (has_error (cur c)).
  - destruct (_ || _); [done|]. destruct (goto_first_child c) as [c'|] eqn:Hc; [|done]. apply IH.
    apply goto_first_child_size in Hc. unfold csize in Hf. lia.
  - destruct (goto_next_sibling c) as [c'|] eqn:Hc; [|done]. apply IH. apply goto_next_sibling_size in Hc. pose proof (tsize_pos (cur c)). lia.
Qed.
End errors.

(** ** What a pattern is compiled to *)

Section patterns.
Context `{TS : TreeSitter} `{PP : PatternParser}.
Context (ts_query : string -> QueryError + TSQuery) (styled : list style -> string -> string).

Definition normalized (pattern : string) : string * stree :=
  let '(p, tree) := add_semicolon pattern in add_braces p tree.
(** The patterns that may be compiled in place of one. *)
Definition completions (pattern : string) : list string :=
  [pattern; pattern +:+ ";"; "{" +:+ pattern +:+ "}"; "{" +:+ (pattern +:+ ";") +:+ "}"].

Lemma completion_boundary pattern p : is_char_boundary pattern 0 = true -> p ∈ completions pattern -> is_char_boundary p 0 = true.
Proof.
  intros H Hp. unfold completions in Hp. rewrite !elem_of_cons in Hp. destruct Hp as [->|[->|[->|[->|[]%elem_of_nil]]]]; try done.
  by destruct pattern.
Qed.
Lemma add_semicolon_spec pattern : let '(p, tree) := add_semicolon pattern in
  tree = pattern_parse p /\ (p = pattern \/ p = pattern +:+ ";" /\ has_error (pattern_parse p) = false /\ has_error (pattern_parse pattern) = true).
Proof.
  unfold add_semicolon. destruct (_ && _) eqn:H; [|by split; [|left]]. apply andb_true_iff in H as [H _].
  destruct (has_error (pattern_parse (pattern +:+ ";"))) eqn:He; cbn [negb]; [by split; [|left]|]. split; [done|]. by right.
Qed.
Lemma add_braces_spec p : let '(q, tree) := add_braces p (pattern_parse p) in
  tree = pattern_parse q /\ (q = p \/ q = "{" +:+ p +:+ "}" /\ has_error (pattern_parse q) = false /\ has_error (pattern_parse p) = false).
Proof.
  unfold add_braces. destruct (has_error (pattern_parse p)) eqn:He; cbn [negb]; [by split; [|left]|].
  destruct (s_children (pattern_parse p)) as [|n l]; [by split; [|left]|]. destruct (str_in _ _); cbn [negb]; [by split; [|left]|].
  destruct (has_error (pattern_parse ("{" +:+ p +:+ "}"))) eqn:He2; cbn [negb]; [by split; [|left]|]. split; [done|]. by right.
Qed.
Lemma normalized_spec pattern : let '(p, tree) := normalized pattern in
  tree = pattern_parse p /\ p ∈ completions pattern /\ (p = pattern \/ has_error (pattern_parse p) = false).
Proof.
  unfold normalized. pose proof (add_semicolon_spec pattern) as H. destruct (add_semicolon pattern) as [p1 t1]. destruct H as [-> H1].
  pose proof (add_braces_spec p1) as H. destruct (add_braces p1 _) as [p2 t2]. destruct H as [-> H2]. split; [done|]. unfold completions.
  destruct H2 as [->|(-> & He & _)], H1 as [->|(-> & He1 & _)]; (split; [set_solver|]); auto.
Qed.
Lemma parse_normalized pattern force m : parse_search_pattern ts_query styled pattern force m =
  (let '(p, tree) := normalized pattern in
   let* c := validate_query styled tree p force in build_query_tree ts_query p m c).
Proof.
  unfold parse_search_pattern, normalized. destruct (add_semicolon pattern) as [p tree]. by destruct (add_braces p tree).
Qed.

(** A tree whose root holds one supported node. *)
Definition supported (tree : stree) (c : TreeCursor) : Prop :=
  named_child_count_s (mkNode tree []) <= 1 /\ c = try_move goto_first_child (walk (mkNode tree [])) /\
  s_kind (cur c) ∈ VALID_NODE_KINDS.

Lemma str_in_elem x l : str_in x l = true <-> x ∈ l.
Proof.
  unfold str_in. rewrite existsb_exists. split.
  - intros (y & Hy & He). unfold str_eq in He. apply bool_decide_eq_true in He as ->. by apply list_elem_of_In.
  - intros H. exists x. split; [by apply list_elem_of_In|]. by apply bool_decide_eq_true.
Qed.

Lemma validate_ok tree p force c : validate_query styled tree p force = Ok c <->
  (has_error tree = true -> force = true) /\ supported tree c.
Proof.
  unfold validate_query, supported. change (cursor_node (walk (mkNode tree []))) with (mkNode tree []).
  split.
  - destruct (has_error tree && negb force) eqn:He.
    { intros H. apply res_bind_ok in H as (o & _ & H). apply res_bind_ok in H as (d & _ & H). done. }
    destruct (Nat.ltb_spec 1 (named_child_count_s (mkNode tree []))) as [Hc|Hc]; [done|].
    destruct (str_in _ _) eqn:Hk; cbn [negb]; [|done]. intros [= <-]. split; [|split; [lia|split; [done|by apply str_in_elem in Hk]]].
    intros Ht. rewrite Ht in He. by destruct force.
  - intros (He & Hc & -> & Hk). assert (has_error tree && negb force = false) as ->.
    { destruct (has_error tree); [by rewrite He|done]. }
    rewrite (proj2 (Nat.ltb_ge _ _)) by lia. apply str_in_elem in Hk. change (kind (cursor_node ?c)) with (s_kind (cur c)). by rewrite Hk.
Qed.

(** C25. A pattern is compiled to a query of what it says.  When
    [parse_search_pattern] accepts a pattern, then it is the tree the builder
    makes of the pattern itself, or of the pattern with a semicolon, or with
    braces, or both, put around it, and in the last three cases of one without
    a syntax error; the tree holds one node, of a supported kind, and is free
    of errors unless that was forced; and the query tree is well built, down to
    every sub-query. *)
Theorem parse_search_pattern_sound pattern force m t :
  parse_search_pattern ts_query styled pattern force m = Ok t ->
  exists p c, p ∈ completions pattern /\ (p = pattern \/ has_error (pattern_parse p) = false) /\
  (has_error (pattern_parse p) = true -> force = true) /\ supported (pattern_parse p) c /\
  build_query_tree ts_query p m c = Ok t /\ qid t = 0 /\ (forall s, subtree s t -> well_built ts_query s).
Proof.
  rewrite parse_normalized. pose proof (normalized_spec pattern) as Hn. destruct (normalized pattern) as [p tree]. destruct Hn as (-> & Hin & Hp).
  intros H. apply res_bind_ok in H as (c & [He Hs]%validate_ok & H). exists p, c. pose proof H as Hb. apply build_steps in Hb as [Hg Hq].
  split_and!; done.
Qed.

(** C27. A syntax error is located.  When the normalised pattern has errors and
    that is not forced, the pattern is rejected, without a panic, and the
    message marks the first fault of the tree in document order: the text
    before it, the kind that is missing if it stands for missing text, its
    text, and the text after it. *)
Theorem syntax_error_located `{!PatternParserLaws PP} pattern m :
  is_char_boundary pattern 0 = true -> has_error (normalized pattern).2 = true ->
  let '(p, tree) := normalized pattern in
  exists n before text after, head (faults [tree]) = Some n /\ below tree n /\ faulty n = true /\
  get_range p 0 (s_start n) = Some before /\ get_range p (s_start n) (s_end n) = Some text /\
  get_range p (s_end n) (String.length p) = Some after /\
  parse_search_pattern ts_query styled pattern false m = Err (styled [Red; Bold] "Error! Query parsing failed:" +:+ (" " +:+ styled [Italic] before +:+
    (if is_missing n then styled [Red] " [MISSING " +:+ styled [Red; Bold] (s_kind n) +:+ styled [Red] " ] " else "") +:+
    styled [Red; Italic; Bold] text +:+ styled [Italic] after)).
Proof.
  intros Hp0 He. pose proof (parse_normalized pattern false m) as Hpn. pose proof (normalized_spec pattern) as Hn.
  destruct (normalized pattern) as [p tree]. destruct Hn as (-> & Hin & _). cbn in He. pose proof (completion_boundary _ _ Hp0 Hin) as Hp. set (tree := pattern_parse p) in *.
  pose proof (proj1 (has_error_iff tree) He) as Hf. destruct (faults [tree]) as [|n rest] eqn:Hfs; [done|].
  assert (below tree n /\ faulty n = true) as [Hb Hn] by (apply (fault_below (tsize tree)); [done|rewrite Hfs; left]).
  destruct (parsed_slices p n Hp Hb) as ([b H1] & [x H2] & [a H3]). exists n, b, x, a. split_and!; try done.
  rewrite Hpn. unfold validate_query. rewrite He. cbn [andb negb].
  rewrite (first_error_first _ (walk (mkNode tree [])) n rest) by done. cbn [res_bind]. unfold error_message.
  rewrite !slice_get, H1, H2, H3. done.
Qed.

(** Compiling a pattern terminates. *)
Lemma parse_search_pattern_ends pattern force m : parse_search_pattern ts_query styled pattern force m <> OutOfFuel.
Proof.
  rewrite parse_normalized. destruct (normalized pattern) as [p tree].
  assert (Hv : validate_query styled tree p force <> OutOfFuel).
  { unfold validate_query. destruct (_ && _); [|destruct (_ <? _); [done|by destruct (negb _)]].
    pose proof (first_error_ends (csize (walk (mkNode tree []))) (walk (mkNode tree [])) ltac:(done)) as Hfe.
    destruct (first_error _ _) as [[n|]| | |]; try done. cbn. unfold error_message, slice. by repeat case_match. }
  destruct (validate_query _ _ _ _) as [c| | |]; try done. apply build_query_tree_ends.
Qed.
End patterns.

(** ** What a rule is compiled to *)

Section rules.
Context `{TS : TreeSitter} `{PP : PatternParser}.
Context (ts_query : string -> QueryError + TSQuery) (styled : list style -> string -> string).
Context {regex_error : Type} (regex_new : string -> regex_error + Regex).





End rules.
