(* ===== verification/BuilderDemo.v ===== *)
(** * A pattern end to end: building, matching, and an id collision

    The pattern [{{{a;}}{b;}}] is built into its query tree and run against
    the function body [{{{a;}}{a;}}].  Sub-query ids follow their parent's,
    so the inner block of the first statement and the second statement get
    the same id, and with it the same entries of the matcher's cache: the
    pattern matches a body that contains no [b].  At the end, patterns as they
    are typed: one that is completed, and one with a syntax error. *)

From Stdlib Require Import Ascii.
From stdpp Require Import base numbers gmap strings list.
From S2P Require Import Prelude Text Result TreeSitter Capture Query QueryMemo Sample Pipeline Syntax Builder BuilderProps Search.

Definition blocks_source : string := "{{{a;}}{b;}}".

Definition brace (ch : string) (i : nat) : stree := SNode ch false None i (i + 1) [].
Definition block (s e : nat) (stmts : list stree) : stree :=
  SNode "compound_statement" true None s e ([brace "{" s] ++ stmts ++ [brace "}" (e - 1)]).
Definition name_statement (i : nat) : stree :=
  SNode "expression_statement" true None i (i + 2)
    [SNode "identifier" true None i (i + 1) []; brace ";" (i + 1)].
Definition blocks_pattern : stree :=
  SNode "translation_unit" true None 0 12
    [block 0 12 [block 1 7 [block 2 6 [name_statement 3]]; block 7 11 [name_statement 8]]].

(** The body it is run against: the function, its four blocks, the names. *)
Definition body_source : string := "{{{a;}}{a;}}".
Definition body_nodes : list (range * nat) :=
  [(Range 0 12, 1); (Range 0 12, 2); (Range 1 7, 1); (Range 2 6, 1); (Range 7 11, 1);
   (Range 3 4, 0); (Range 8 9, 0)].
#[export] Instance body_ts : TreeSitter := table_ts body_nodes.

(** tree-sitter on the four texts the builder produces. *)
Definition inner_blocks (n : nat) : list nat :=
  match n with 1 => [1; 2; 3; 4] | 2 => [2; 3] | 3 => [3] | 4 => [4] | _ => [] end.
Definition inner_names (n : nat) : list nat :=
  match n with 1 => [5; 6] | 2 | 3 => [5] | 4 => [6] | _ => [] end.
Definition below_each (f : nat -> list (QueryMatch nat)) : list (nat * list (QueryMatch nat)) :=
  (fun n => (n, f n)) <$> seq 0 7.
Definition one (n : nat) : QueryMatch nat := mkMatch 0 [(n, 0)].

Definition q_function : table_query := (1, [(0, [mkMatch 0 [(0, 1); (1, 0)]])]).
Definition q_two_blocks : table_query :=
  (2, below_each (fun n => flat_map (fun b => [mkMatch 0 [(b, 0)]; mkMatch 1 [(b, 1)]]) (inner_blocks n))).
Definition q_block : table_query := (1, below_each (fun n => one <$> inner_blocks n)).
Definition q_a : table_query := (1, below_each (fun n => one <$> inner_names n)).
Definition q_b : table_query := (1, []).
Definition text_of_name (x : string) : string :=
  "((identifier) @0 (#eq? @0 " +:+ quoted x +:+ "))".
Definition compile (s : string) : QueryError + table_query :=
  if str_eq s (text_of_name "a") then inr q_a
  else if str_eq s (text_of_name "b") then inr q_b
  else if str_eq s "((compound_statement) @0 )" then inr q_block
  else if str_eq s "((compound_statement) @0 )((compound_statement) @1 )" then inr q_two_blocks
  else if str_eq s "(function_definition body: (compound_statement) @0) @1" then inr q_function
  else inl s.

Definition built_blocks : res QueryError QueryTree :=
  build_query_tree (TS:=body_ts) compile blocks_source ∅ (walk (mkNode blocks_pattern [])).

Definition count_results (r : res Empty_set (list QueryResult)) : option nat :=
  match r with Ok rs => Some (length rs) | _ => None end.

(** The ids the builder hands out are not unique within a query tree: for
    [{{{a;}}{b;}}] two sub-queries that both use the result cache have id 3.
    Through the cache the pattern then matches the body [{{{a;}}{a;}}],
    which the same matcher without a cache rejects. *)
Theorem shared_ids_change_results :
  exists t, built_blocks = Ok t /\ (qid <$> cached_subs t) = [1; 2; 3; 3] /\
    count_results (matches t (0 : @Node body_ts) body_source) = Some 1 /\
    count_results (reference_matches t (0 : @Node body_ts) body_source) = Some 0.
Proof.
  destruct built_blocks as [t| | |] eqn:E; [|vm_compute in E; discriminate E..].
  exists t. split; [done|]. vm_compute in E. injection E as <-. by vm_compute.
Qed.

(** The pattern is built, so that its tree is well built. *)
Lemma build_query_tree_well_built_witness :
  exists t, built_blocks = Ok t /\ qid t = 0 /\ well_built (TS:=body_ts) compile t.
Proof.
  destruct built_blocks as [t| | |] eqn:E; [|vm_compute in E; discriminate E..].
  destruct (build_query_tree_well_built (TS:=body_ts) compile blocks_source ∅ _ t E) as [H1 H2].
  exists t. split; [reflexivity|]. split; [exact H1|]. apply H2. constructor.
Defined.

(** ** Patterns as they are typed *)

(** tree-sitter's parser on [a], which lacks its semicolon, on what it is
    completed to, and on a call without its parenthesis. *)
Definition unit_of (n : nat) (ts : list stree) : stree := SNode "translation_unit" true None 0 n ts.
Definition parse_table (p : string) : stree :=
  if str_eq p "a" then unit_of 1 [SNode "ERROR" true None 0 1 []]
  else if str_eq p "a;" then unit_of 2 [name_statement 0]
  else if str_eq p "{a;}" then unit_of 4 [block 0 4 [name_statement 1]]
  else if str_eq p "{f(;}" then
    unit_of 5 [SNode "compound_statement" true None 0 5
      [brace "{" 0; SNode "identifier" true None 1 2 []; brace "(" 2; SNode ")" false None 3 3 []; brace ";" 3; brace "}" 4]]
  else unit_of 0 [SNode "ERROR" true None 0 0 []].
Definition node_missing (t : stree) : bool := (s_start t =? s_end t) && str_eq (s_kind t) ")".
#[export] Instance table_parser : PatternParser := {|
  pattern_parse := parse_table;
  is_error t := str_eq (s_kind t) "ERROR";
  is_missing := node_missing;
  has_error t := existsb (fun u => str_eq (s_kind u) "ERROR" || node_missing u) (preorder t) |}.

Lemma preorder_child n : forall t u v, tsize t <= n -> u ∈ preorder t -> v ∈ s_children u -> v ∈ preorder t.
Proof.
  induction n as [|n IH]; intros t u v Hn Hu Hv; [pose proof (tsize_pos t); lia|]. rewrite preorder_eq in *.
  rewrite tsize_children in Hn. right. apply list_elem_of_In, in_flat_map. apply elem_of_cons in Hu as [->|Hu].
  - exists v. split; [by apply list_elem_of_In|]. rewrite preorder_eq. by left.
  - apply list_elem_of_In, in_flat_map in Hu as (w & Hw & Hu). exists w. split; [done|]. apply list_elem_of_In. apply list_elem_of_In in Hw, Hu.
    apply (IH w u v); [apply tsize_in in Hw; lia|done|done].
Qed.
Lemma below_preorder t u : below t u -> u ∈ preorder t.
Proof. induction 1 as [|u v Hb IH Hv]; [rewrite preorder_eq; by left|by eapply preorder_child]. Qed.

Lemma boundary_end p : is_char_boundary p (String.length p) = true.
Proof.
  unfold is_char_boundary. assert (String.get (String.length p) p = None) as ->; [by induction p|]. apply Nat.eqb_refl.
Qed.
Definition slices_ok (p : string) (t : stree) : bool :=
  forallb (fun ab : nat * nat => bool_decide (is_Some (get_range p ab.1 ab.2)))
    [(0, s_start t); (s_start t, s_end t); (s_end t, String.length p)].
#[export] Instance table_parser_laws : PatternParserLaws table_parser.
Proof.
  split.
  - intros t. cbn -[str_eq]. rewrite preorder_eq. cbn -[str_eq]. f_equal. induction (s_children t) as [|u us IH]; [done|].
    cbn -[str_eq]. rewrite existsb_app. by f_equal.
  - intros p t Hp Hb%below_preorder%list_elem_of_In. assert (Hall : forallb (slices_ok p) (preorder (parse_table p)) = true).
    { unfold parse_table, str_eq. repeat (case_bool_decide; [subst; by vm_compute|]). cbn. unfold slices_ok. cbn.
      unfold get_range. rewrite Hp, boundary_end, Nat.leb_refl. cbn. by rewrite Nat.leb_refl. }
    rewrite forallb_forall in Hall. specialize (Hall t Hb). unfold slices_ok in Hall. cbn in Hall.
    rewrite !andb_true_iff, !bool_decide_eq_true in Hall. by destruct Hall as (? & ? & ? & _).
Qed.

Definition marks (l : list style) (s : string) : string := s.
Definition regex_of (s : string) : unit + @Regex body_ts := inr s.

(** [a] is completed twice. *)
Lemma parse_search_pattern_sound_witness :
  exists t, parse_search_pattern (TS:=body_ts) compile marks "a" false ∅ = Ok t /\
  exists p c, p ∈ completions "a" /\ (p = "a" \/ has_error (pattern_parse p) = false) /\
  (has_error (pattern_parse p) = true -> false = true) /\ supported (pattern_parse p) c /\
  build_query_tree (TS:=body_ts) compile p ∅ c = Ok t /\ qid t = 0 /\ (forall s, subtree s t -> well_built (TS:=body_ts) compile s).
Proof.
  destruct (parse_search_pattern (TS:=body_ts) compile marks "a" false ∅) as [t| | |] eqn:E; [|vm_compute in E; discriminate E..].
  exists t. split; [reflexivity|]. exact (parse_search_pattern_sound (TS:=body_ts) compile marks "a" false ∅ t E).
Defined.

(** In [{f(;}] a parenthesis is missing before the semicolon. *)
Lemma syntax_error_located_witness :
  (normalized "{f(;}").1 = "{f(;}" /\
  parse_search_pattern (TS:=body_ts) compile marks "{f(;}" false ∅ = Err "Error! Query parsing failed: {f( [MISSING ) ] ;}".
Proof.
  split; [by vm_compute|].
  pose proof (syntax_error_located (TS:=body_ts) compile marks "{f(;}" ∅ eq_refl ltac:(by vm_compute)) as H.
  change (normalized "{f(;}") with ("{f(;}", parse_table "{f(;}") in H.
  destruct H as (n & b & x & a & Hh & _ & _ & Hb & Hx & Ha & H). vm_compute in Hh. injection Hh as <-.
  vm_compute in Hb, Hx, Ha. injection Hb as <-. injection Hx as <-. injection Ha as <-. rewrite H. by vm_compute.
Defined.

(** A rule with the pattern [a], and one with a constraint on a variable that
    its pattern does not have. *)
Example compile_rules_run :
  (exists w, compile_rules (TS:=body_ts) compile marks regex_of false "issue" [mkRule "reason" [] ["a"]] = Ok [w] /\ wi_identifiers w = ["a"]) /\
  compile_rule (TS:=body_ts) compile marks regex_of false "issue" (mkRule "reason" ["$x!=y"] ["a"]) =
    Err (BadVariables {["$x"]}).
Proof. split; [eexists; split; [vm_compute; reflexivity|]|]; by vm_compute. Qed.
