(* ===== verification/ClusterTypes.v ===== *)
(** * The state of a Redis Cluster node: [src/examples/cluster.c]

    The example corpus the engine is run on contains the Redis Cluster bus
    implementation.  This file models the data its functions share: cluster
    nodes in a heap of addresses (the node table, the slot tables, the
    slave arrays and the failure reports all point into it), the cluster
    state, and the effects on the rest of the server.

    Constants and types of [cluster.h] and functions of other files of that
    project are not part of this repository: they are the fields of
    [ClusterEnv].  Functions run in a state monad whose errors are failed
    [serverAssert]s and dereferences of addresses that hold no node. *)

From Stdlib Require Import Ascii.
From stdpp Require Import base numbers gmap strings list.
From S2P Require Import Prelude Text.

(** ** What the file takes from elsewhere *)

(** The node flags: bits of a 16-bit word. *)
Inductive NodeFlag :=
| MASTER | SLAVE | PFAIL | FAIL | MYSELF | HANDSHAKE | NOADDR | MEET | MIGRATE_TO | NOFAILOVER.

(** The work postponed to [clusterBeforeSleep]: [CLUSTER_TODO_*]. *)
Inductive TodoFlag :=
| TODO_HANDLE_FAILOVER | TODO_UPDATE_STATE | TODO_SAVE_CONFIG | TODO_FSYNC_CONFIG.

Inductive ClusterStatus := CLUSTER_OK | CLUSTER_FAIL.

(** Why a slave does not fail over: [CLUSTER_CANT_FAILOVER_*]. *)
Inductive CantFailover :=
| CANT_FAILOVER_NONE | CANT_FAILOVER_DATA_AGE | CANT_FAILOVER_WAITING_DELAY
| CANT_FAILOVER_EXPIRED | CANT_FAILOVER_WAITING_VOTES.

(** The message types of the bus: [CLUSTERMSG_TYPE_*]. *)
Inductive MsgType :=
| PING | PONG | MEET_MSG | FAIL_MSG | PUBLISH | FAILOVER_AUTH_REQUEST | FAILOVER_AUTH_ACK
| UPDATE | MFSTART.

#[export] Instance NodeFlag_eq_dec : EqDecision NodeFlag.
Proof. solve_decision. Defined.
#[export] Instance TodoFlag_eq_dec : EqDecision TodoFlag.
Proof. solve_decision. Defined.
#[export] Instance ClusterStatus_eq_dec : EqDecision ClusterStatus.
Proof. solve_decision. Defined.
#[export] Instance CantFailover_eq_dec : EqDecision CantFailover.
Proof. solve_decision. Defined.
#[export] Instance MsgType_eq_dec : EqDecision MsgType.
Proof. solve_decision. Defined.

(** A node's address in the heap. *)
Abbreviation ptr := nat.

Class ClusterEnv := {
  (** [cluster.h]: the bit of each [CLUSTER_NODE_*] flag and the tests on
      flag words, sizes, factors *)
  flag_bit : NodeFlag -> Z;
  flags_master : Z -> bool;
  flags_slave : Z -> bool;
  flags_handshake : Z -> bool;
  flags_has_addr : Z -> bool;
  flags_timed_out : Z -> bool;
  flags_failed : Z -> bool;
  CLUSTER_SLOTS : nat;
  CLUSTER_NAMELEN : nat;
  CLUSTER_FAIL_REPORT_VALIDITY_MULT : Z;
  CLUSTER_FAIL_UNDO_TIME_MULT : Z;
  CLUSTER_MF_TIMEOUT : Z;
  CLUSTER_SLAVE_MIGRATION_DELAY : Z;
  CLUSTER_CANT_FAILOVER_RELOG_PERIOD : Z;
  CLUSTER_PORT_INCR : Z;
  CLUSTER_PROTO_VER : Z;
  (** sizes of the message types: the header without the data union, a
      gossip entry, and the other members of the union *)
  sizeof_header : Z;
  sizeof_gossip : Z;
  sizeof_fail : Z;
  sizeof_publish : Z;
  sizeof_update : Z;
  (** [server.cluster_*] and others: the configuration *)
  cluster_node_timeout : Z;
  cluster_require_full_coverage : bool;
  cluster_slave_validity_factor : Z;
  cluster_migration_barrier : Z;
  NET_IP_STR_LEN : nat;
  repl_ping_slave_period : Z;
  server_port : Z;
  cluster_announce_port : Z;
  cluster_announce_bus_port : Z;
  (** functions of other files: hashing, addresses, random names, the
      iteration order of the dictionary, the key space *)
  crc16 : string -> Z;
  inet_normalize : string -> option string;
  strcaseeq : string -> string -> bool;
  getRandomHexChars : nat -> string;
  dict_iter : gmap string ptr -> list (string * ptr);
  dictGetRandomKey : gmap string ptr -> nat -> option (string * ptr);
  countKeysInSlot : nat -> Z;
  getKeysInSlot : nat -> Z -> list string;
  getLongLong : string -> option Z;
  anetConnect : string -> Z -> option (string * option string);
}.

(** What the headers and the dictionary document. *)
Class ClusterLaws (E : ClusterEnv) : Prop := {
  flag_bit_inj : forall f g, flag_bit f = flag_bit g -> f = g;
  flag_bit_range : forall f, (0 <= flag_bit f < 16)%Z;
  flags_master_spec : forall w, flags_master w = Z.testbit w (flag_bit MASTER);
  flags_slave_spec : forall w, flags_slave w = Z.testbit w (flag_bit SLAVE);
  flags_handshake_spec : forall w, flags_handshake w = Z.testbit w (flag_bit HANDSHAKE);
  flags_has_addr_spec : forall w, flags_has_addr w = negb (Z.testbit w (flag_bit NOADDR));
  flags_timed_out_spec : forall w, flags_timed_out w = Z.testbit w (flag_bit PFAIL);
  flags_failed_spec : forall w, flags_failed w = Z.testbit w (flag_bit FAIL);
  dict_iter_perm : forall m, dict_iter m ≡ₚ map_to_list m;
  cluster_slots_bytes : 8 * (CLUSTER_SLOTS / 8) = CLUSTER_SLOTS;
  getLongLong_range : forall s z, getLongLong s = Some z -> (- 2 ^ 63 <= z < 2 ^ 63)%Z;
  dictGetRandomKey_in : forall m i kv, dictGetRandomKey m i = Some kv -> m !! kv.1 = Some kv.2;
}.

(** ** Nodes *)

Record FailReport := mkFailReport { fr_node : ptr; fr_time : Z }.

(** [numslaves] is the length of [slaves]. *)
Record clusterNode := mkNode {
  n_name : string;
  n_ctime : Z;
  n_configEpoch : Z;
  n_flags : Z;
  n_slots : list Z;          (* unsigned char[CLUSTER_SLOTS/8] *)
  n_numslots : Z;
  n_slaves : list ptr;
  n_slaveof : option ptr;
  n_ping_sent : Z;
  n_pong_received : Z;
  n_fail_time : Z;
  n_link : option nat;
  n_ip : string;
  n_port : Z;
  n_cport : Z;
  n_fail_reports : list FailReport;
  n_voted_time : Z;
  n_orphaned_time : Z;
  n_repl_offset_time : Z;
  n_repl_offset : Z;
}.
#[export] Instance clusterNode_upd : Updatable clusterNode :=
  (rd_pure mkNode <&> n_name <&> n_ctime <&> n_configEpoch <&> n_flags <&> n_slots <&> n_numslots
   <&> n_slaves <&> n_slaveof <&> n_ping_sent <&> n_pong_received <&> n_fail_time <&> n_link
   <&> n_ip <&> n_port <&> n_cport <&> n_fail_reports <&> n_voted_time <&> n_orphaned_time
   <&> n_repl_offset_time <&> n_repl_offset)%upd.

(** A connection: the node it belongs to, if known, and the addresses of its
    two ends. *)
Record clusterLink := mkLink {
  l_node : option ptr;
  l_ctime : Z;
  l_peer_ip : string;           (* anetPeerToString *)
  l_sock_ip : option string;    (* anetSockName *)
}.
#[export] Instance clusterLink_upd : Updatable clusterLink :=
  (rd_pure mkLink <&> l_node <&> l_ctime <&> l_peer_ip <&> l_sock_ip)%upd.

Definition numslaves (n : clusterNode) : Z := Z.of_nat (length (n_slaves n)).

(** ** Messages of the cluster bus, fields in host byte order *)

Record Gossip := mkGossip {
  g_nodename : string;
  g_ping_sent : Z;
  g_pong_received : Z;
  g_ip : string;
  g_port : Z;
  g_cport : Z;
  g_flags : Z;
}.

Record Publish := mkPublish { channel_len : Z; message_len : Z; bulk_data : string }.

(** The header and, side by side, the members of the data union. *)
Record clusterMsg := mkMsg {
  h_totlen : Z;
  h_ver : Z;
  h_type : option MsgType;       (* [None]: a type this version does not know *)
  h_count : Z;
  h_sender : string;
  h_myslots : list Z;
  h_slaveof : option string;     (* [None]: CLUSTER_NODE_NULL_NAME *)
  h_myip : string;
  h_port : Z;
  h_cport : Z;
  h_flags : Z;
  h_state : ClusterStatus;
  h_paused : bool;               (* mflags[0] & CLUSTERMSG_FLAG0_PAUSED *)
  h_forceack : bool;             (* mflags[0] & CLUSTERMSG_FLAG0_FORCEACK *)
  h_currentEpoch : Z;
  h_configEpoch : Z;
  h_offset : Z;
  h_gossip : list Gossip;
  h_fail_about : string;
  h_publish : Publish;
  h_update_epoch : Z;
  h_update_name : string;
  h_update_slots : list Z;
}.
#[export] Instance clusterMsg_upd : Updatable clusterMsg :=
  (rd_pure mkMsg <&> h_totlen <&> h_ver <&> h_type <&> h_count <&> h_sender <&> h_myslots
   <&> h_slaveof <&> h_myip <&> h_port <&> h_cport <&> h_flags <&> h_state <&> h_paused
   <&> h_forceack <&> h_currentEpoch <&> h_configEpoch <&> h_offset <&> h_gossip
   <&> h_fail_about <&> h_publish <&> h_update_epoch <&> h_update_name <&> h_update_slots)%upd.

(** ** Effects on the rest of the server, in order *)

Inductive effect :=
| FreeLink (link : nat)
| SendMessage (link : nat) (msg : clusterMsg)
| SaveConfig (fsync : bool)
| ReplicationSetMaster (ip : string) (port : Z)
| ReplicationUnsetMaster
| DelKeysInSlot (slot : nat)
| EmptyDb
| PauseClients (until : Z)
| UnpauseClients
| PublishMessage (channel message : string)
| EpochWrapped.              (* ghost: a 64-bit epoch counter wrapped around *)

(** ** The cluster state *)

Record cluster := mkCluster {
  heap : gmap ptr clusterNode;
  next_ptr : ptr;
  next_link : nat;
  links : gmap nat clusterLink;
  nodes : gmap string ptr;
  myself : ptr;
  currentEpoch : Z;
  lastVoteEpoch : Z;
  state : ClusterStatus;
  size : Z;
  slots : gmap nat ptr;
  importing_slots_from : gmap nat ptr;
  migrating_slots_to : gmap nat ptr;
  nodes_black_list : gmap string Z;
  failover_auth_time : Z;
  failover_auth_count : Z;
  failover_auth_sent : bool;
  failover_auth_rank : Z;
  failover_auth_epoch : Z;
  cant_failover_reason : CantFailover;
  mf_end : Z;
  mf_slave : option ptr;
  mf_master_offset : Z;
  mf_can_start : bool;
  todo_before_sleep : list TodoFlag;
  stats_pfail_nodes : Z;
  stats_received : list MsgType;
  stats_sent : list MsgType;
  random_count : nat;
  (** static variables of the functions *)
  among_minority_time : Z;
  first_call_time : Z;
  lastlog_time : Z;
  (** the clock and the replication state the handlers read *)
  mstime : Z;
  unixtime : Z;
  clients_paused : bool;
  repl_connected : bool;
  master_lastinteraction : Z;
  repl_down_since : Z;
  slave_offset : Z;
  master_repl_offset : Z;
  pubsub_active : bool;
  random_delay : Z;
  masterhost : bool;
  cluster_announce_ip : option string;
  prev_announce_ip : option string;
  cron_iteration : Z;
  effects : list effect;
}.
#[export] Instance cluster_upd : Updatable cluster :=
  (rd_pure mkCluster <&> heap <&> next_ptr <&> next_link <&> links <&> nodes <&> myself <&> currentEpoch <&> lastVoteEpoch
   <&> state <&> size <&> slots <&> importing_slots_from <&> migrating_slots_to <&> nodes_black_list
   <&> failover_auth_time <&> failover_auth_count <&> failover_auth_sent <&> failover_auth_rank
   <&> failover_auth_epoch <&> cant_failover_reason <&> mf_end <&> mf_slave <&> mf_master_offset
   <&> mf_can_start <&> todo_before_sleep <&> stats_pfail_nodes <&> stats_received
   <&> stats_sent <&> random_count <&> among_minority_time
   <&> first_call_time <&> lastlog_time <&> mstime <&> unixtime <&> clients_paused <&> repl_connected
   <&> master_lastinteraction <&> repl_down_since
   <&> slave_offset <&> master_repl_offset <&> pubsub_active <&> random_delay <&> masterhost <&> cluster_announce_ip <&> prev_announce_ip
   <&> cron_iteration <&> effects)%upd.

(** ** The monad of the cluster functions *)

Definition C (A : Type) : Type := cluster -> res Empty_set (A * cluster).
Definition cret {A} (a : A) : C A := fun s => Ok (a, s).
Definition cbind {A B} (m : C A) (k : A -> C B) : C B := fun s =>
  let* (a, s) := m s in k a s.
Notation "'let!' x ':=' m 'in' k" := (cbind m (fun x => k))
  (at level 10, x pattern, m at level 100, k at level 200) : rust_scope.
Notation "m ;; k" := (cbind m (fun _ : unit => k))
  (at level 100, k at level 200, right associativity) : rust_scope.

Definition gets {A} (f : cluster -> A) : C A := fun s => Ok (f s, s).
Definition modify (f : cluster -> cluster) : C unit := fun s => Ok (tt, f s).
Definition skip : C unit := cret tt.
Definition crash {A} : C A := fun _ => Panic.
Definition serverAssert (b : bool) : C unit := if b then skip else crash.
Definition emit (e : effect) : C unit := modify (fun s => s <| effects ::= fun es => es ++ [e] |>).

(** [*p] and [p->field = v]: an address that holds no node is a crash. *)
Definition deref (p : ptr) : C clusterNode := fun s =>
  match heap s !! p with Some n => Ok (n, s) | None => Panic end.
Definition update (p : ptr) (f : clusterNode -> clusterNode) : C unit := fun s =>
  match heap s !! p with
  | Some n => Ok (tt, s <| heap ::= <[p := f n]> |>)
  | None => Panic
  end.

Definition deref_link (l : nat) : C clusterLink := fun s =>
  match links s !! l with Some n => Ok (n, s) | None => Panic end.

Definition cwhen (b : bool) (m : C unit) : C unit := if b then m else skip.

Fixpoint cfor {A} (l : list A) (f : A -> C unit) : C unit :=
  match l with
  | [] => skip
  | a :: l => f a ;; cfor l f
  end.

Fixpoint cfold {A S} (l : list A) (acc : S) (f : S -> A -> C S) : C S :=
  match l with
  | [] => cret acc
  | a :: l => let! acc := f acc a in cfold l acc f
  end.

Definition clusterDoBeforeSleep (l : list TodoFlag) : C unit :=
  modify (fun s => s <| todo_before_sleep ::= fun t => l ++ t |>).
Definition clear_todo (f : TodoFlag) : C unit :=
  modify (fun s => s <| todo_before_sleep ::= List.filter (fun g => negb (bool_decide (g = f))) |>).
(** The file itself is [ClusterConfig.clusterSaveConfig]; dying because it
    cannot be written is left out. *)
Definition clusterSaveConfigOrDie (do_fsync : bool) : C unit :=
  clear_todo TODO_SAVE_CONFIG ;;
  cwhen do_fsync (clear_todo TODO_FSYNC_CONFIG) ;;
  emit (SaveConfig do_fsync).
Definition todo_set (f : TodoFlag) (s : cluster) : bool := bool_decide (f ∈ todo_before_sleep s).

(** [currentEpoch++] on a [uint64_t]; wrapping around leaves a ghost mark. *)
Definition next_epoch : C unit :=
  let! e := gets currentEpoch in
  modify (fun s => s <| currentEpoch := u64 (e + 1) |>) ;;
  cwhen (u64 (e + 1) =? 0)%Z (emit EpochWrapped).

(** ** Flags *)

Section flags.
Context `{E : ClusterEnv}.
Definition has_flag (f : NodeFlag) (flags : Z) : bool := Z.testbit flags (flag_bit f).
Definition flag (f : NodeFlag) : Z := Z.setbit 0 (flag_bit f).
Definition set_flag (f : NodeFlag) (flags : Z) : Z := Z.setbit flags (flag_bit f).
Definition clear_flag (f : NodeFlag) (flags : Z) : Z := Z.clearbit flags (flag_bit f).

Definition nodeIsMaster (n : clusterNode) : bool := flags_master (n_flags n).
Definition nodeIsSlave (n : clusterNode) : bool := flags_slave (n_flags n).
Definition nodeInHandshake (n : clusterNode) : bool := flags_handshake (n_flags n).
Definition nodeHasAddr (n : clusterNode) : bool := flags_has_addr (n_flags n).
Definition nodeTimedOut (n : clusterNode) : bool := flags_timed_out (n_flags n).
Definition nodeFailed (n : clusterNode) : bool := flags_failed (n_flags n).

(** [memcpy] or [strncpy] into an address buffer, terminated. *)
Definition ip_copy (ip : string) : string := String.substring 0 (NET_IP_STR_LEN - 1) ip.

(** The value of the node table iterator, in the dictionary's order. *)
Definition all_nodes : C (list ptr) := gets (fun s => snd <$> dict_iter (nodes s)).

Lemma has_set_flag `{!ClusterLaws E} f g w :
  has_flag f (set_flag g w) = bool_decide (f = g) || has_flag f w.
Proof.
  unfold has_flag, set_flag. rewrite Z.setbit_eqb by apply flag_bit_range. f_equal.
  case_bool_decide as H; [subst; by rewrite Z.eqb_refl|].
  apply Z.eqb_neq. intros Hf. by apply H, flag_bit_inj.
Qed.

Lemma has_clear_flag `{!ClusterLaws E} f g w :
  has_flag f (clear_flag g w) = negb (bool_decide (f = g)) && has_flag f w.
Proof.
  unfold has_flag, clear_flag. rewrite Z.clearbit_eqb, andb_comm by apply flag_bit_range. f_equal. f_equal.
  case_bool_decide as H; [subst; by rewrite Z.eqb_refl|].
  apply Z.eqb_neq. intros Hf. by apply H, flag_bit_inj.
Qed.
End flags.
