(* ===== verification/ClusterSlots.v ===== *)
(** * Slot bitmaps, slot ownership and the cluster state
    ([src/examples/cluster.c], "Slots management" and "Cluster state
    evaluation function") *)

From Stdlib Require Import Ascii.
From stdpp Require Import base numbers gmap strings list.
From S2P Require Import Prelude Text ClusterTypes.

(** ** Bitmaps: arrays of bytes

    Positions are below eight times the length of the array; outside, where
    C has no defined behaviour, a bit reads as clear and writes are lost. *)

Definition bit_mask (pos : nat) : Z := Z.shiftl 1 (Z.land (Z.of_nat pos) 7).
Definition bitmap_byte (bitmap : list Z) (pos : nat) : Z := default 0%Z (bitmap !! (pos / 8)).

Definition bitmapTestBit (bitmap : list Z) (pos : nat) : bool :=
  negb (Z.land (bitmap_byte bitmap pos) (bit_mask pos) =? 0)%Z.
Definition bitmapSetBit (bitmap : list Z) (pos : nat) : list Z :=
  alter (fun b => Z.lor b (bit_mask pos)) (pos / 8) bitmap.
Definition bitmapClearBit (bitmap : list Z) (pos : nat) : list Z :=
  alter (fun b => Z.land b (Z.lnot (bit_mask pos))) (pos / 8) bitmap.

Section slots.
Context `{E : ClusterEnv}.

Definition all_slots : list nat := seq 0 CLUSTER_SLOTS.

Definition clusterMastersHaveSlaves : C bool :=
  let! l := all_nodes in
  let! slaves := cfold l 0%Z (fun acc p =>
    let! node := deref p in
    cret (if nodeIsSlave node then acc else (acc + numslaves node)%Z)) in
  cret (negb (slaves =? 0)%Z).

(** Sets the slot bit and returns the old value. *)
Definition clusterNodeSetSlotBit (n : ptr) (slot : nat) : C bool :=
  let! node := deref n in
  let old := bitmapTestBit (n_slots node) slot in
  update n (fun node => node <| n_slots ::= fun b => bitmapSetBit b slot |>) ;;
  (if negb old then
     update n (fun node => node <| n_numslots ::= fun k => (k + 1)%Z |>) ;;
     let! node := deref n in
     if (n_numslots node =? 1)%Z then
       let! have := clusterMastersHaveSlaves in
       cwhen have (update n (fun node => node <| n_flags ::= set_flag MIGRATE_TO |>))
     else skip
   else skip) ;;
  cret old.

Definition clusterNodeClearSlotBit (n : ptr) (slot : nat) : C bool :=
  let! node := deref n in
  let old := bitmapTestBit (n_slots node) slot in
  update n (fun node => node <| n_slots ::= fun b => bitmapClearBit b slot |>) ;;
  cwhen old (update n (fun node => node <| n_numslots ::= fun k => (k - 1)%Z |>)) ;;
  cret old.

Definition clusterNodeGetSlotBit (n : clusterNode) (slot : nat) : bool :=
  bitmapTestBit (n_slots n) slot.

(** [C_OK] is [true], [C_ERR] is [false]. *)
Definition clusterAddSlot (n : ptr) (slot : nat) : C bool :=
  let! owner := gets (fun s => slots s !! slot) in
  match owner with
  | Some _ => cret false
  | None =>
      let! _ := clusterNodeSetSlotBit n slot in
      modify (fun s => s <| slots ::= <[slot := n]> |>) ;;
      cret true
  end.

Definition clusterDelSlot (slot : nat) : C bool :=
  let! owner := gets (fun s => slots s !! slot) in
  match owner with
  | None => cret false
  | Some n =>
      let! old := clusterNodeClearSlotBit n slot in
      serverAssert old ;;
      modify (fun s => s <| slots ::= delete slot |>) ;;
      cret true
  end.

(** The count is incremented for every slot, set or not. *)
Definition clusterDelNodeSlots (n : ptr) : C Z :=
  cfold all_slots 0%Z (fun deleted j =>
    let! node := deref n in
    let! _ := if clusterNodeGetSlotBit node j then clusterDelSlot j else cret false in
    cret (deleted + 1)%Z).

Definition clusterCloseAllSlots : C unit :=
  modify (fun s => s <| migrating_slots_to := ∅ |> <| importing_slots_from := ∅ |>).

(** ** Cluster state evaluation *)

Definition CLUSTER_MAX_REJOIN_DELAY : Z := 5000.
Definition CLUSTER_MIN_REJOIN_DELAY : Z := 500.
Definition CLUSTER_WRITABLE_DELAY : Z := 2000.

(** Is some slot unassigned, or served by a failing node? *)
Fixpoint uncovered (l : list nat) : C bool :=
  match l with
  | [] => cret false
  | j :: l =>
      let! owner := gets (fun s => slots s !! j) in
      match owner with
      | None => cret true
      | Some p =>
          let! node := deref p in
          if has_flag FAIL (n_flags node) then cret true else uncovered l
      end
  end.

(** The masters serving slots, and the reachable ones among them. *)
Definition count_masters : C (Z * Z) :=
  let! l := all_nodes in
  cfold l (0, 0)%Z (fun acc p =>
    let! node := deref p in
    cret (if nodeIsMaster node && negb (n_numslots node =? 0)%Z then
            ((acc.1 + 1)%Z,
             if negb (has_flag FAIL (n_flags node) || has_flag PFAIL (n_flags node))
             then (acc.2 + 1)%Z else acc.2)
          else acc)).

Definition rejoin_delay : Z :=
  let d := if (cluster_node_timeout >? CLUSTER_MAX_REJOIN_DELAY)%Z
           then CLUSTER_MAX_REJOIN_DELAY else cluster_node_timeout in
  if (d <? CLUSTER_MIN_REJOIN_DELAY)%Z then CLUSTER_MIN_REJOIN_DELAY else d.

Definition clusterUpdateState : C unit :=
  clear_todo TODO_UPDATE_STATE ;;
  let! first := gets first_call_time in
  let! now := gets mstime in
  cwhen (first =? 0)%Z (modify (fun s => s <| first_call_time := now |>)) ;;
  let! first := gets first_call_time in
  let! me := gets myself in
  let! myself := deref me in
  let! st := gets state in
  if nodeIsMaster myself && bool_decide (st = CLUSTER_FAIL) &&
     (now - first <? CLUSTER_WRITABLE_DELAY)%Z then skip
  else
    let! hole := if cluster_require_full_coverage then uncovered all_slots else cret false in
    let new_state := if (hole : bool) then CLUSTER_FAIL else CLUSTER_OK in
    let! (sz, reachable_masters) := count_masters in
    modify (fun s => s <| size := sz |>) ;;
    let needed_quorum := (sz / 2 + 1)%Z in
    let minority := (reachable_masters <? needed_quorum)%Z in
    let new_state := if minority then CLUSTER_FAIL else new_state in
    cwhen minority (modify (fun s => s <| among_minority_time := now |>)) ;;
    if bool_decide (new_state = st) then skip
    else
      let! minority_time := gets among_minority_time in
      if bool_decide (new_state = CLUSTER_OK) && nodeIsMaster myself &&
         (now - minority_time <? rejoin_delay)%Z then skip
      else modify (fun s => s <| state := new_state |>).

(** [verifyClusterConfigWithData], given the sizes of the databases. *)
Definition verifyClusterConfigWithData (db_sizes : list Z) : C bool :=
  let! me := gets myself in
  let! node := deref me in
  if nodeIsSlave node then cret true
  else if existsb (fun n => negb (n =? 0)%Z) (drop 1 db_sizes) then cret false
  else
    let! update_config := cfold all_slots 0%Z (fun updates j =>
      if (countKeysInSlot j =? 0)%Z then cret updates
      else
        let! owner := gets (fun s => slots s !! j) in
        let! importing := gets (fun s => importing_slots_from s !! j) in
        if bool_decide (owner = Some me) || bool_decide (importing <> None) then cret updates
        else
          match owner with
          | None => let! _ := clusterAddSlot me j in cret (updates + 1)%Z
          | Some o =>
              modify (fun s => s <| importing_slots_from ::= <[j := o]> |>) ;;
              cret (updates + 1)%Z
          end) in
    cwhen (negb (update_config =? 0)%Z) (clusterSaveConfigOrDie true) ;;
    cret true.

(** ** Becoming a slave *)

(** [clusterNodeRemoveSlave] and [clusterNodeAddSlave]. *)
Fixpoint remove_first (p : ptr) (l : list ptr) : option (list ptr) :=
  match l with
  | [] => None
  | q :: l => if decide (q = p) then Some l else cons q <$> remove_first p l
  end.

Definition clusterNodeRemoveSlave (master slave : ptr) : C bool :=
  let! m := deref master in
  match remove_first slave (n_slaves m) with
  | Some rest =>
      update master (fun m =>
        (if decide (rest = []) then m <| n_flags ::= clear_flag MIGRATE_TO |> else m)
        <| n_slaves := rest |>) ;;
      cret true
  | None => cret false
  end.

Definition clusterNodeAddSlave (master slave : ptr) : C bool :=
  let! m := deref master in
  if bool_decide (slave ∈ n_slaves m) then cret false
  else
    update master (fun m => m <| n_slaves ::= fun l => l ++ [slave] |>
                              <| n_flags ::= set_flag MIGRATE_TO |>) ;;
    cret true.

Definition resetManualFailover : C unit :=
  let! s := gets id in
  cwhen (negb (mf_end s =? 0)%Z && clients_paused s) (emit UnpauseClients) ;;
  modify (fun s => s <| mf_end := 0%Z |> <| mf_can_start := false |>
                     <| mf_slave := None |> <| mf_master_offset := 0%Z |>).

Definition clusterSetMaster (n : ptr) : C unit :=
  let! me := gets myself in
  serverAssert (negb (bool_decide (n = me))) ;;
  let! m := deref me in
  serverAssert (n_numslots m =? 0)%Z ;;
  (if nodeIsMaster m then
     update me (fun m => m <| n_flags ::= fun w =>
       set_flag SLAVE (clear_flag MIGRATE_TO (clear_flag MASTER w)) |>) ;;
     clusterCloseAllSlots
   else
     match n_slaveof m with
     | Some old => let! _ := clusterNodeRemoveSlave old me in skip
     | None => skip
     end) ;;
  update me (fun m => m <| n_slaveof := Some n |>) ;;
  let! _ := clusterNodeAddSlave n me in
  let! master := deref n in
  emit (ReplicationSetMaster (n_ip master) (n_port master)) ;;
  resetManualFailover.
End slots.
