(* ===== verification/ClusterNodes.v ===== *)
(** * Nodes of a cluster ([src/examples/cluster.c], "CLUSTER node API",
    "config epoch handling", "nodes blacklist") *)

From Stdlib Require Import Ascii.
From stdpp Require Import base numbers gmap strings list.
From S2P Require Import Prelude Text ClusterTypes ClusterSlots.

(** ** Key hashing *)

(** The loop that looks for a character: its position, or the length. *)
Fixpoint index_char (c : ascii) (key : string) : nat :=
  match key with
  | EmptyString => 0
  | String a key => if Ascii.eqb a c then 0 else S (index_char c key)
  end.

(** The part of the key that is hashed. *)
Definition hash_tag (key : string) : string :=
  let keylen := String.length key in
  let s := index_char "{" key in
  if s =? keylen then key
  else
    let e := S s + index_char "}" (String.substring (S s) (keylen - S s) key) in
    if (e =? keylen) || (e =? S s) then key
    else String.substring (S s) (e - s - 1) key.

Section nodes.
Context `{E : ClusterEnv}.

Definition keyHashSlot (key : string) : Z := Z.land (crc16 (hash_tag key)) 16383.

(** ** Node creation and lookup *)

Definition createClusterNode (nodename : option string) (flags : Z) : C ptr :=
  let! s := gets id in
  let p := next_ptr s in
  modify (fun s => s <| next_ptr ::= S |> <| heap ::= <[p := mkNode
    (match nodename with Some n => n | None => getRandomHexChars p end)
    (mstime s) 0 flags (replicate (CLUSTER_SLOTS / 8) 0%Z) 0 [] None 0 0 0 None "" 0 0 [] 0 0 0 0]> |>) ;;
  cret p.

Definition clusterAddNode (p : ptr) : C bool :=
  let! node := deref p in
  let! known := gets (fun s => nodes s !! n_name node) in
  match known with
  | Some _ => cret false
  | None => modify (fun s => s <| nodes ::= <[n_name node := p]> |>) ;; cret true
  end.

Definition clusterLookupNode (name : string) : C (option ptr) := gets (fun s => nodes s !! name).

(** [dictDelete]: was the key there? *)
Definition dictDelete_node (name : string) : C bool :=
  let! known := gets (fun s => nodes s !! name) in
  match known with
  | Some _ => modify (fun s => s <| nodes ::= delete name |>) ;; cret true
  | None => cret false
  end.

Definition clusterRenameNode (p : ptr) (newname : string) : C unit :=
  let! node := deref p in
  let! deleted := dictDelete_node (n_name node) in
  serverAssert deleted ;;
  update p (fun node => node <| n_name := newname |>) ;;
  let! _ := clusterAddNode p in skip.

(** ** Failure reports *)

(** Update the report of [sender], if there is one. *)
Fixpoint refresh_report (sender : ptr) (now : Z) (l : list FailReport) : option (list FailReport) :=
  match l with
  | [] => None
  | fr :: l =>
      if decide (fr_node fr = sender) then Some (mkFailReport sender now :: l)
      else cons fr <$> refresh_report sender now l
  end.

Definition clusterNodeAddFailureReport (failing sender : ptr) : C bool :=
  let! node := deref failing in
  let! now := gets mstime in
  match refresh_report sender now (n_fail_reports node) with
  | Some l => update failing (fun n => n <| n_fail_reports := l |>) ;; cret false
  | None =>
      update failing (fun n => n <| n_fail_reports ::= fun l => l ++ [mkFailReport sender now] |>) ;;
      cret true
  end.

Definition report_maxtime : Z := cluster_node_timeout * CLUSTER_FAIL_REPORT_VALIDITY_MULT.
Definition report_valid (now : Z) (fr : FailReport) : bool := (now - fr_time fr <=? report_maxtime)%Z.

Definition clusterNodeCleanupFailureReports (p : ptr) : C unit :=
  let! now := gets mstime in
  update p (fun n => n <| n_fail_reports ::= List.filter (report_valid now) |>).

Fixpoint remove_report (sender : ptr) (l : list FailReport) : option (list FailReport) :=
  match l with
  | [] => None
  | fr :: l => if decide (fr_node fr = sender) then Some l else cons fr <$> remove_report sender l
  end.

Definition clusterNodeDelFailureReport (p sender : ptr) : C bool :=
  let! node := deref p in
  match remove_report sender (n_fail_reports node) with
  | None => cret false
  | Some l =>
      update p (fun n => n <| n_fail_reports := l |>) ;;
      clusterNodeCleanupFailureReports p ;;
      cret true
  end.

Definition clusterNodeFailureReportsCount (p : ptr) : C Z :=
  clusterNodeCleanupFailureReports p ;;
  let! node := deref p in
  cret (Z.of_nat (length (n_fail_reports node))).

Definition clusterCountNonFailingSlaves (n : clusterNode) : C Z :=
  cfold (n_slaves n) 0%Z (fun ok p =>
    let! s := deref p in cret (if nodeFailed s then ok else (ok + 1)%Z)).

(** ** Removing nodes *)

Definition createClusterLink (node : option ptr) (peer : string) (sock : option string) (id : nat) : C unit :=
  modify (fun s => s <| links ::= <[id := mkLink node (mstime s) peer sock]> |>).

Definition freeClusterLink (l : nat) : C unit :=
  let! link := deref_link l in
  match l_node link with
  | Some p => update p (fun n => n <| n_link := None |>)
  | None => skip
  end ;;
  modify (fun s => s <| links ::= delete l |>) ;;
  emit (FreeLink l).

Definition freeClusterNode (p : ptr) : C unit :=
  let! n := deref p in
  cfor (n_slaves n) (fun q => update q (fun s => s <| n_slaveof := None |>)) ;;
  let! n := deref p in
  match n_slaveof n with
  | Some master => if nodeIsSlave n then let! _ := clusterNodeRemoveSlave master p in skip else skip
  | None => skip
  end ;;
  let! deleted := dictDelete_node (n_name n) in
  serverAssert deleted ;;
  match n_link n with Some l => freeClusterLink l | None => skip end ;;
  modify (fun s => s <| heap ::= delete p |>).

Definition clusterDelNode (p : ptr) : C unit :=
  cfor all_slots (fun j =>
    let! s := gets id in
    cwhen (bool_decide (importing_slots_from s !! j = Some p))
      (modify (fun s => s <| importing_slots_from ::= delete j |>)) ;;
    cwhen (bool_decide (migrating_slots_to s !! j = Some p))
      (modify (fun s => s <| migrating_slots_to ::= delete j |>)) ;;
    if bool_decide (slots s !! j = Some p) then let! _ := clusterDelSlot j in skip else skip) ;;
  let! l := all_nodes in
  cfor l (fun q =>
    if decide (q = p) then skip
    else let! _ := clusterNodeDelFailureReport q p in skip) ;;
  freeClusterNode p.

(** ** Config epochs *)

Definition clusterGetMaxEpoch : C Z :=
  let! l := all_nodes in
  let! max := cfold l 0%Z (fun max p =>
    let! node := deref p in
    cret (if (n_configEpoch node >? max)%Z then n_configEpoch node else max)) in
  let! cur := gets currentEpoch in
  cret (if (max <? cur)%Z then cur else max).

Definition clusterBumpConfigEpochWithoutConsensus : C bool :=
  let! maxEpoch := clusterGetMaxEpoch in
  let! me := gets myself in
  let! node := deref me in
  if (n_configEpoch node =? 0)%Z || negb (n_configEpoch node =? maxEpoch)%Z then
    next_epoch ;;
    let! e := gets currentEpoch in
    update me (fun n => n <| n_configEpoch := e |>) ;;
    clusterDoBeforeSleep [TODO_SAVE_CONFIG; TODO_FSYNC_CONFIG] ;;
    cret true
  else cret false.

(** [memcmp] on node names of equal length. *)
Fixpoint memcmp (a b : string) : Z :=
  match a, b with
  | String x a, String y b =>
      if Ascii.eqb x y then memcmp a b
      else (Z.of_nat (nat_of_ascii x) - Z.of_nat (nat_of_ascii y))%Z
  | _, _ => 0
  end.

Definition clusterHandleConfigEpochCollision (sender : ptr) : C unit :=
  let! me := gets myself in
  let! sn := deref sender in
  let! my := deref me in
  if negb (n_configEpoch sn =? n_configEpoch my)%Z || negb (nodeIsMaster sn) || negb (nodeIsMaster my)
  then skip
  else if (memcmp (n_name sn) (n_name my) <=? 0)%Z then skip
  else
    next_epoch ;;
    let! e := gets currentEpoch in
    update me (fun n => n <| n_configEpoch := e |>) ;;
    clusterSaveConfigOrDie true.

(** ** The blacklist *)

Definition CLUSTER_BLACKLIST_TTL : Z := 60.

Definition clusterBlacklistCleanup : C unit :=
  modify (fun s => s <| nodes_black_list ::= filter (fun kv => ~ (kv.2 < unixtime s)%Z) |>).

Definition clusterBlacklistAddNode (p : ptr) : C unit :=
  let! node := deref p in
  clusterBlacklistCleanup ;;
  modify (fun s => s <| nodes_black_list ::=
    <[n_name node := (unixtime s + CLUSTER_BLACKLIST_TTL)%Z]> |>).

Definition clusterBlacklistExists (nodeid : string) : C bool :=
  clusterBlacklistCleanup ;;
  gets (fun s => bool_decide (is_Some (nodes_black_list s !! nodeid))).
End nodes.
