(* ===== verification/ClusterBus.v ===== *)
(** * Building and sending bus messages ([src/examples/cluster.c],
    [clusterSendMessage] to [clusterSendMFStart]) *)

From Stdlib Require Import Ascii.
From stdpp Require Import base numbers gmap strings list.
From S2P Require Import Prelude Text ClusterTypes ClusterSlots ClusterNodes.

Section bus.
Context `{E : ClusterEnv}.

Definition u16 (x : Z) : Z := (x mod 2 ^ 16)%Z.

(** ** Sending *)

Definition clusterSendMessage (link : nat) (msg : clusterMsg) : C unit :=
  let! _ := deref_link link in
  emit (SendMessage link msg) ;;
  match h_type msg with
  | Some t => modify (fun s => s <| stats_sent ::= cons t |>)
  | None => skip
  end.

Definition clusterBroadcastMessage (msg : clusterMsg) : C unit :=
  let! l := all_nodes in
  cfor l (fun p =>
    let! node := deref p in
    match n_link node with
    | None => skip
    | Some link =>
        if has_flag MYSELF (n_flags node) || has_flag HANDSHAKE (n_flags node) then skip
        else clusterSendMessage link msg
    end).

(** ** The header *)

Definition announced_port : Z :=
  if (cluster_announce_port =? 0)%Z then server_port else cluster_announce_port.
Definition announced_cport : Z :=
  if (cluster_announce_bus_port =? 0)%Z then (server_port + CLUSTER_PORT_INCR)%Z
  else cluster_announce_bus_port.

Definition hdr_totlen (type : MsgType) : Z :=
  match type with
  | FAIL_MSG => sizeof_header + sizeof_fail
  | UPDATE => sizeof_header + sizeof_update
  | _ => 0
  end.

Definition clusterBuildMessageHdr (type : MsgType) : C clusterMsg :=
  let! s := gets id in
  let! me := deref (myself s) in
  let! master := match n_slaveof me with
                 | Some m => if nodeIsSlave me then deref m else cret me
                 | None => cret me
                 end in
  let! slaveof := match n_slaveof me with
                  | Some m => let! n := deref m in cret (Some (n_name n))
                  | None => cret None
                  end in
  cret (mkMsg (hdr_totlen type) CLUSTER_PROTO_VER (Some type) 0 (n_name me) (n_slots master) slaveof
    (default "" (ip_copy <$> cluster_announce_ip s)) (u16 announced_port) (u16 announced_cport) (u16 (n_flags me))
    (state s) (nodeIsMaster me && negb (mf_end s =? 0)%Z) false
    (u64 (currentEpoch s)) (u64 (n_configEpoch master))
    (u64 (if nodeIsSlave me then slave_offset s else master_repl_offset s))
    [] "" (mkPublish 0 0 "") 0 "" []).

(** ** Gossip entries *)

Definition clusterNodeIsInGossipSection (gossip : list Gossip) (n : clusterNode) : bool :=
  existsb (fun g => bool_decide (g_nodename g = n_name n)) gossip.

Definition clusterSetGossipEntry (n : clusterNode) : Gossip :=
  mkGossip (n_name n) (as_u32 (Z.quot (n_ping_sent n) 1000)) (as_u32 (Z.quot (n_pong_received n) 1000))
    (n_ip n) (u16 (n_port n)) (u16 (n_cport n)) (u16 (n_flags n)).

Definition random_node : C (option ptr) :=
  let! s := gets id in
  modify (fun s => s <| random_count ::= S |>) ;;
  cret (snd <$> dictGetRandomKey (nodes s) (random_count s)).

(** The random part of the gossip section: [maxiterations] attempts. *)
Fixpoint random_gossip (maxiterations : nat) (freshnodes wanted : Z) (gossip : list Gossip)
    : C (Z * list Gossip) :=
  match maxiterations with
  | 0 => cret (freshnodes, gossip)
  | S maxiterations =>
      if (freshnodes >? 0)%Z && (Z.of_nat (length gossip) <? wanted)%Z then
        let! picked := random_node in
        match picked with
        | None => crash
        | Some this =>
            let! me := gets myself in
            if decide (this = me) then random_gossip maxiterations freshnodes wanted gossip
            else
              let! n := deref this in
              if has_flag PFAIL (n_flags n) then random_gossip maxiterations freshnodes wanted gossip
              else if has_flag HANDSHAKE (n_flags n) || has_flag NOADDR (n_flags n) ||
                      (bool_decide (n_link n = None) && (n_numslots n =? 0)%Z)
              then random_gossip maxiterations (freshnodes - 1) wanted gossip
              else if clusterNodeIsInGossipSection gossip n
              then random_gossip maxiterations freshnodes wanted gossip
              else random_gossip maxiterations (freshnodes - 1) wanted
                     (gossip ++ [clusterSetGossipEntry n])
        end
      else cret (freshnodes, gossip)
  end.

(** The nodes in PFAIL state, at most [pfail_wanted] of them. *)
Fixpoint pfail_gossip (l : list ptr) (pfail_wanted : Z) (gossip : list Gossip) : C (list Gossip) :=
  match l with
  | [] => cret gossip
  | p :: l =>
      if (pfail_wanted >? 0)%Z then
        let! n := deref p in
        if has_flag HANDSHAKE (n_flags n) || has_flag NOADDR (n_flags n) || negb (has_flag PFAIL (n_flags n))
        then pfail_gossip l pfail_wanted gossip
        else pfail_gossip l (pfail_wanted - 1) (gossip ++ [clusterSetGossipEntry n])
      else cret gossip
  end.

Definition clusterSendPing (link : nat) (type : MsgType) : C unit :=
  let! s := gets id in
  let dictSize := Z.of_nat (base.size (nodes s)) in
  let freshnodes := (dictSize - 2)%Z in
  let wanted := (dictSize / 10)%Z in
  let wanted := if (wanted <? 3)%Z then 3%Z else wanted in
  let wanted := if (wanted >? freshnodes)%Z then freshnodes else wanted in
  let pfail_wanted := stats_pfail_nodes s in
  let! l := deref_link link in
  match l_node l with
  | Some p => cwhen (bool_decide (type = PING)) (update p (fun n => n <| n_ping_sent := mstime s |>))
  | None => skip
  end ;;
  let! hdr := clusterBuildMessageHdr type in
  let! (_, gossip) := random_gossip (Z.to_nat (wanted * 3)) freshnodes wanted [] in
  let! all := all_nodes in
  let! gossip := if (pfail_wanted =? 0)%Z then cret gossip else pfail_gossip all pfail_wanted gossip in
  let gossipcount := Z.of_nat (length gossip) in
  let totlen := (sizeof_header + sizeof_gossip * gossipcount)%Z in
  clusterSendMessage link
    (hdr <| h_count := u16 gossipcount |> <| h_totlen := as_u32 totlen |> <| h_gossip := gossip |>).

(** ** The messages *)

(** [CLUSTER_BROADCAST_LOCAL_SLAVES] is [true], [.._ALL] is [false]. *)
Definition clusterBroadcastPong (local_slaves : bool) : C unit :=
  let! l := all_nodes in
  cfor l (fun p =>
    let! node := deref p in
    let! me := gets myself in
    let! my := deref me in
    match n_link node with
    | None => skip
    | Some link =>
        if bool_decide (p = me) || nodeInHandshake node then skip
        else
          let local_slave :=
            nodeIsSlave node && bool_decide (n_slaveof node <> None) &&
            (bool_decide (n_slaveof node = Some me) || bool_decide (n_slaveof node = n_slaveof my)) in
          if local_slaves && negb local_slave then skip
          else clusterSendPing link PONG
    end).

Definition clusterSendPublish (link : option nat) (channel message : string) : C unit :=
  let! hdr := clusterBuildMessageHdr PUBLISH in
  let clen := as_u32 (Z.of_nat (String.length channel)) in
  let mlen := as_u32 (Z.of_nat (String.length message)) in
  let msg := hdr <| h_publish := mkPublish clen mlen (channel +:+ message) |>
                 <| h_totlen := as_u32 (sizeof_header + sizeof_publish - 8 + clen + mlen) |> in
  match link with
  | Some l => clusterSendMessage l msg
  | None => clusterBroadcastMessage msg
  end.

Definition clusterPropagatePublish (channel message : string) : C unit :=
  clusterSendPublish None channel message.

Definition clusterSendFail (nodename : string) : C unit :=
  let! hdr := clusterBuildMessageHdr FAIL_MSG in
  clusterBroadcastMessage (hdr <| h_fail_about := nodename |>).

Definition clusterSendUpdate (link : option nat) (p : ptr) : C unit :=
  match link with
  | None => skip
  | Some link =>
      let! hdr := clusterBuildMessageHdr UPDATE in
      let! node := deref p in
      clusterSendMessage link (hdr <| h_update_name := n_name node |>
        <| h_update_epoch := u64 (n_configEpoch node) |> <| h_update_slots := n_slots node |>)
  end.

Definition clusterRequestFailoverAuth : C unit :=
  let! hdr := clusterBuildMessageHdr FAILOVER_AUTH_REQUEST in
  let! mf := gets mf_end in
  clusterBroadcastMessage (hdr <| h_forceack := negb (mf =? 0)%Z |> <| h_totlen := sizeof_header |>).

(** [clusterSendFailoverAuth] and [clusterSendMFStart]. *)
Definition send_to_node (type : MsgType) (p : ptr) : C unit :=
  let! node := deref p in
  match n_link node with
  | None => skip
  | Some link =>
      let! hdr := clusterBuildMessageHdr type in
      clusterSendMessage link (hdr <| h_totlen := sizeof_header |>)
  end.

Definition clusterSendFailoverAuth (p : ptr) : C unit := send_to_node FAILOVER_AUTH_ACK p.
Definition clusterSendMFStart (p : ptr) : C unit := send_to_node MFSTART p.
End bus.
