(* ===== verification/ClusterGossip.v ===== *)
(** * Failure detection, handshakes and gossip
    ([src/examples/cluster.c], "CLUSTER messages exchange") *)

From Stdlib Require Import Ascii.
From stdpp Require Import base numbers gmap strings list.
From S2P Require Import Prelude Text ClusterTypes ClusterSlots ClusterNodes ClusterBus.

Section gossip.
Context `{E : ClusterEnv}.

(** ** Failure detection *)

Definition markNodeAsFailingIfNeeded (p : ptr) : C unit :=
  let! sz := gets size in
  let needed_quorum := (sz / 2 + 1)%Z in
  let! node := deref p in
  if negb (nodeTimedOut node) then skip
  else if nodeFailed node then skip
  else
    let! failures := clusterNodeFailureReportsCount p in
    let! me := gets myself in
    let! my := deref me in
    let failures := if nodeIsMaster my then (failures + 1)%Z else failures in
    if (failures <? needed_quorum)%Z then skip
    else
      let! now := gets mstime in
      update p (fun n => n <| n_flags ::= fun w => set_flag FAIL (clear_flag PFAIL w) |>
                           <| n_fail_time := now |>) ;;
      let! my := deref me in
      let! node := deref p in
      cwhen (nodeIsMaster my) (clusterSendFail (n_name node)) ;;
      clusterDoBeforeSleep [TODO_UPDATE_STATE; TODO_SAVE_CONFIG].

Definition clearNodeFailureIfNeeded (p : ptr) : C unit :=
  let! now := gets mstime in
  let! node := deref p in
  serverAssert (nodeFailed node) ;;
  cwhen (nodeIsSlave node || (n_numslots node =? 0)%Z)
    (update p (fun n => n <| n_flags ::= clear_flag FAIL |>) ;;
     clusterDoBeforeSleep [TODO_UPDATE_STATE; TODO_SAVE_CONFIG]) ;;
  let! node := deref p in
  cwhen (nodeIsMaster node && (n_numslots node >? 0)%Z &&
         (now - n_fail_time node >? cluster_node_timeout * CLUSTER_FAIL_UNDO_TIME_MULT)%Z)
    (update p (fun n => n <| n_flags ::= clear_flag FAIL |>) ;;
     clusterDoBeforeSleep [TODO_UPDATE_STATE; TODO_SAVE_CONFIG]).

(** ** Handshakes *)

Definition same_address (n : clusterNode) (ip : string) (port cport : Z) : bool :=
  strcaseeq (n_ip n) ip && (n_port n =? port)%Z && (n_cport n =? cport)%Z.

Fixpoint handshake_among (l : list ptr) (ip : string) (port cport : Z) : C bool :=
  match l with
  | [] => cret false
  | p :: l =>
      let! node := deref p in
      if nodeInHandshake node && same_address node ip port cport then cret true
      else handshake_among l ip port cport
  end.

Definition clusterHandshakeInProgress (ip : string) (port cport : Z) : C bool :=
  let! l := all_nodes in handshake_among l ip port cport.

(** What [clusterStartHandshake] returns: started, or its [errno]. *)
Inductive Handshake := Started | EAGAIN | EINVAL.

Definition clusterStartHandshake (ip : string) (port cport : Z) : C Handshake :=
  match inet_normalize ip with
  | None => cret EINVAL
  | Some norm_ip =>
      if ((port <=? 0) || (port >? 65535) || (cport <=? 0) || (cport >? 65535))%Z then cret EINVAL
      else
        let! busy := clusterHandshakeInProgress norm_ip port cport in
        if (busy : bool) then cret EAGAIN
        else
          let! n := createClusterNode None (set_flag MEET (flag HANDSHAKE)) in
          update n (fun n => n <| n_ip := norm_ip |> <| n_port := port |> <| n_cport := cport |>) ;;
          let! _ := clusterAddNode n in
          cret Started
  end.

(** ** Flag names, also for the log of gossip entries *)

Definition redisNodeFlagsTable : list (NodeFlag * string) :=
  [(MYSELF, "myself,"); (MASTER, "master,"); (SLAVE, "slave,"); (PFAIL, "fail?,"); (FAIL, "fail,");
   (HANDSHAKE, "handshake,"); (NOADDR, "noaddr,")].

(** [sdsIncrLen(ci,-1)]: on an empty string its assertion fails. *)
Fixpoint drop_last (s : string) : option string :=
  match s with
  | EmptyString => None
  | String _ EmptyString => Some EmptyString
  | String c s => String c <$> drop_last s
  end.

Definition representClusterNodeFlags (ci : string) (flags : Z) : C string :=
  let ci := if (flags =? 0)%Z then ci +:+ "noflags,"
            else foldl (fun ci e => if has_flag e.1 flags then ci +:+ e.2 else ci) ci redisNodeFlagsTable in
  match drop_last ci with Some ci => cret ci | None => crash end.

(** ** The gossip section *)

Definition any_fail (flags : Z) : bool := has_flag FAIL flags || has_flag PFAIL flags.

(** What a master says about a node we know. *)
Definition gossip_report (sender node : ptr) (flags : Z) : C unit :=
  if any_fail flags then
    let! _ := clusterNodeAddFailureReport node sender in
    markNodeAsFailingIfNeeded node
  else let! _ := clusterNodeDelFailureReport node sender in skip.

Definition gossip_pong (g : Gossip) (p : ptr) : C unit :=
  let! node := deref p in
  if negb (any_fail (g_flags g)) && (n_ping_sent node =? 0)%Z then
    let! reports := clusterNodeFailureReportsCount p in
    if (reports =? 0)%Z then
      let pongtime := (g_pong_received g * 1000)%Z in
      let! now := gets mstime in
      let! node := deref p in
      cwhen ((pongtime <=? now + 500) && (pongtime >? n_pong_received node))%Z
        (update p (fun n => n <| n_pong_received := pongtime |>))
    else skip
  else skip.

Definition gossip_address (g : Gossip) (p : ptr) : C unit :=
  let! node := deref p in
  if any_fail (n_flags node) && negb (has_flag NOADDR (g_flags g)) && negb (any_fail (g_flags g)) &&
     negb (same_address node (g_ip g) (g_port g) (g_cport g))
  then
    match n_link node with Some l => freeClusterLink l | None => skip end ;;
    update p (fun n => n <| n_ip := g_ip g |> <| n_port := g_port g |> <| n_cport := g_cport g |>
                         <| n_flags ::= clear_flag NOADDR |>)
  else skip.

Definition gossip_unknown (sender : option ptr) (g : Gossip) : C unit :=
  if bool_decide (sender <> None) && negb (has_flag NOADDR (g_flags g)) then
    let! banned := clusterBlacklistExists (g_nodename g) in
    if (banned : bool) then skip
    else let! _ := clusterStartHandshake (g_ip g) (g_port g) (g_cport g) in skip
  else skip.

Definition gossip_entry (sender : option ptr) (g : Gossip) : C unit :=
  let! _ := representClusterNodeFlags "" (g_flags g) in
  let! known := clusterLookupNode (g_nodename g) in
  match known with
  | Some node =>
      let! me := gets myself in
      match sender with
      | Some s =>
          let! sn := deref s in
          if nodeIsMaster sn && negb (bool_decide (node = me))
          then gossip_report s node (g_flags g) else skip
      | None => skip
      end ;;
      gossip_pong g node ;;
      gossip_address g node
  | None => gossip_unknown sender g
  end.

Definition clusterProcessGossipSection (hdr : clusterMsg) (link : nat) : C unit :=
  let! l := deref_link link in
  let! known := clusterLookupNode (h_sender hdr) in
  let sender := match l_node l with Some n => Some n | None => known end in
  cfor (take (Z.to_nat (h_count hdr)) (h_gossip hdr)) (gossip_entry sender).

(** ** Addresses and roles *)

Definition nodeIp2String (link : nat) (announced_ip : string) : C string :=
  if bool_decide (announced_ip = "") then let! l := deref_link link in cret (l_peer_ip l)
  else cret (ip_copy announced_ip).

Definition nodeUpdateAddressIfNeeded (p : ptr) (link : nat) (hdr : clusterMsg) : C bool :=
  let! node := deref p in
  if bool_decide (n_link node = Some link) then cret false
  else
    let! ip := nodeIp2String link (h_myip hdr) in
    if (n_port node =? h_port hdr)%Z && (n_cport node =? h_cport hdr)%Z && bool_decide (ip = n_ip node)
    then cret false
    else
      update p (fun n => n <| n_ip := ip |> <| n_port := h_port hdr |> <| n_cport := h_cport hdr |>) ;;
      match n_link node with Some l => freeClusterLink l | None => skip end ;;
      update p (fun n => n <| n_flags ::= clear_flag NOADDR |>) ;;
      let! me := gets myself in
      let! my := deref me in
      cwhen (nodeIsSlave my && bool_decide (n_slaveof my = Some p))
        (emit (ReplicationSetMaster ip (h_port hdr))) ;;
      cret true.

Definition clusterSetNodeAsMaster (p : ptr) : C unit :=
  let! n := deref p in
  if nodeIsMaster n then skip
  else
    match n_slaveof n with
    | Some master =>
        let! _ := clusterNodeRemoveSlave master p in
        let! me := gets myself in
        cwhen (negb (bool_decide (p = me))) (update p (fun n => n <| n_flags ::= set_flag MIGRATE_TO |>))
    | None => skip
    end ;;
    update p (fun n => n <| n_flags ::= fun w => set_flag MASTER (clear_flag SLAVE w) |>
                         <| n_slaveof := None |>) ;;
    clusterDoBeforeSleep [TODO_SAVE_CONFIG; TODO_UPDATE_STATE].

(** ** Slot configuration updates *)

(** One slot the sender claims: did our master lose it, and is it a slot we
    lost while it still holds keys? *)
Definition claim_slot (sender : ptr) (senderConfigEpoch : Z) (curmaster : option ptr)
    (acc : bool * list nat) (j : nat) : C (bool * list nat) :=
  let! s := gets id in
  let owner := slots s !! j in
  if bool_decide (owner = Some sender) then cret acc
  else if bool_decide (importing_slots_from s !! j <> None) then cret acc
  else
    let! newer := match owner with
                  | None => cret true
                  | Some o => let! n := deref o in cret (n_configEpoch n <? senderConfigEpoch)%Z
                  end in
    if (newer : bool) then
      let dirty := if bool_decide (owner = Some (myself s)) && negb (countKeysInSlot j =? 0)%Z &&
                      negb (bool_decide (sender = myself s))
                   then acc.2 ++ [j] else acc.2 in
      let newmaster := acc.1 || bool_decide (owner = curmaster) in
      let! _ := clusterDelSlot j in
      let! _ := clusterAddSlot sender j in
      clusterDoBeforeSleep [TODO_SAVE_CONFIG; TODO_UPDATE_STATE; TODO_FSYNC_CONFIG] ;;
      cret (newmaster, dirty)
    else cret acc.

Definition clusterUpdateSlotsConfigWith (sender : ptr) (senderConfigEpoch : Z) (claimed : list Z)
    : C unit :=
  let! me := gets myself in
  let! my := deref me in
  let curmaster := if nodeIsMaster my then Some me else n_slaveof my in
  if decide (sender = me) then skip
  else
    let! (newmaster, dirty_slots) :=
      cfold all_slots (false, []) (fun acc j =>
        if bitmapTestBit claimed j then claim_slot sender senderConfigEpoch curmaster acc j
        else cret acc) in
    let! demoted :=
      if (newmaster : bool) then
        match curmaster with
        | Some m => let! n := deref m in cret (n_numslots n =? 0)%Z
        | None => crash
        end
      else cret false in
    if (demoted : bool) then
      clusterSetMaster sender ;;
      clusterDoBeforeSleep [TODO_SAVE_CONFIG; TODO_UPDATE_STATE; TODO_FSYNC_CONFIG]
    else cfor dirty_slots (fun j => emit (DelKeysInSlot j)).
End gossip.
