(* ===== verification/ClusterFailover.v ===== *)
(** * Elections, failovers and replica migration
    ([src/examples/cluster.c], "SLAVE node specific functions" to "CLUSTER
    manual failover") *)

From Stdlib Require Import Ascii.
From stdpp Require Import base numbers gmap strings list.
From S2P Require Import Prelude Text ClusterTypes ClusterSlots ClusterNodes ClusterBus ClusterGossip.

Section failover.
Context `{E : ClusterEnv}.

(** ** Voting *)

(** Some claimed slot is served by a master with a greater config epoch. *)
Fixpoint stale_claim (claimed : list Z) (requestConfigEpoch : Z) (l : list nat) : C bool :=
  match l with
  | [] => cret false
  | j :: l =>
      if negb (bitmapTestBit claimed j) then stale_claim claimed requestConfigEpoch l
      else
        let! owner := gets (fun s => slots s !! j) in
        match owner with
        | None => stale_claim claimed requestConfigEpoch l
        | Some o =>
            let! n := deref o in
            if (n_configEpoch n <=? requestConfigEpoch)%Z
            then stale_claim claimed requestConfigEpoch l else cret true
        end
  end.

Definition clusterSendFailoverAuthIfNeeded (p : ptr) (request : clusterMsg) : C unit :=
  let! node := deref p in
  let! me := gets myself in
  let! my := deref me in
  let! s := gets id in
  if nodeIsSlave my || (n_numslots my =? 0)%Z then skip
  else if (h_currentEpoch request <? currentEpoch s)%Z then skip
  else if (lastVoteEpoch s =? currentEpoch s)%Z then skip
  else
    match n_slaveof node with
    | None => skip
    | Some m =>
        let! master := deref m in
        if nodeIsMaster node || (negb (nodeFailed master) && negb (h_forceack request)) then skip
        else if (mstime s - n_voted_time master <? cluster_node_timeout * 2)%Z then skip
        else
          let! stale := stale_claim (h_myslots request) (h_configEpoch request) all_slots in
          if (stale : bool) then skip
          else
            clusterSendFailoverAuth p ;;
            modify (fun s => s <| lastVoteEpoch := currentEpoch s |>) ;;
            update m (fun n => n <| n_voted_time := mstime s |>)
    end.

(** ** Ranking and logging *)

Definition clusterGetSlaveRank : C Z :=
  let! s := gets id in
  let! my := deref (myself s) in
  serverAssert (nodeIsSlave my) ;;
  match n_slaveof my with
  | None => cret 0%Z
  | Some m =>
      let! master := deref m in
      cfold (n_slaves master) 0%Z (fun rank q =>
        if decide (q = myself s) then cret rank
        else
          let! n := deref q in
          cret (if (n_repl_offset n >? slave_offset s)%Z then (rank + 1)%Z else rank))
  end.

Definition clusterLogCantFailover (reason : CantFailover) : C unit :=
  let! s := gets id in
  if bool_decide (reason = cant_failover_reason s) &&
     (unixtime s - lastlog_time s <? CLUSTER_CANT_FAILOVER_RELOG_PERIOD)%Z then skip
  else
    modify (fun s => s <| cant_failover_reason := reason |>) ;;
    let! my := deref (myself s) in
    let! recent := match n_slaveof my with
                   | None => cret false
                   | Some m =>
                       let! master := deref m in
                       cret (nodeFailed master &&
                             (mstime s - n_fail_time master <? cluster_node_timeout + 5000)%Z)
                   end in
    if (recent : bool) then skip
    else modify (fun s => s <| lastlog_time := unixtime s |>).

(** ** Taking over *)

Definition clusterFailoverReplaceYourMaster : C unit :=
  let! me := gets myself in
  let! my := deref me in
  match n_slaveof my with
  | None => skip
  | Some oldmaster =>
      if nodeIsMaster my then skip
      else
        clusterSetNodeAsMaster me ;;
        emit ReplicationUnsetMaster ;;
        cfor all_slots (fun j =>
          let! old := deref oldmaster in
          if clusterNodeGetSlotBit old j then
            let! _ := clusterDelSlot j in
            let! _ := clusterAddSlot me j in skip
          else skip) ;;
        clusterUpdateState ;;
        clusterSaveConfigOrDie true ;;
        clusterBroadcastPong false ;;
        resetManualFailover
  end.

(** [clusterHandleSlaveFailover], in the order of its steps. *)

Definition auth_timeout : Z :=
  let t := (cluster_node_timeout * 2)%Z in if (t <? 2000)%Z then 2000 else t.
Definition auth_retry_time : Z := auth_timeout * 2.

Definition failover_data_age (s : cluster) : Z :=
  let data_age := (if repl_connected s then (unixtime s - master_lastinteraction s) * 1000
                   else (unixtime s - repl_down_since s) * 1000)%Z in
  if (data_age >? cluster_node_timeout)%Z then (data_age - cluster_node_timeout)%Z else data_age.

Definition data_too_old (s : cluster) : bool :=
  negb (cluster_slave_validity_factor =? 0)%Z &&
  (failover_data_age s >?
   repl_ping_slave_period * 1000 + cluster_node_timeout * cluster_slave_validity_factor)%Z.

(** Schedule an election. *)
Definition schedule_election : C unit :=
  modify (fun s => s <| failover_auth_time := (mstime s + 500 + random_delay s mod 500)%Z |>
                     <| failover_auth_count := 0%Z |> <| failover_auth_sent := false |>) ;;
  let! rank := clusterGetSlaveRank in
  modify (fun s => s <| failover_auth_rank := rank |>
                     <| failover_auth_time ::= fun t => (t + rank * 1000)%Z |>) ;;
  let! mf := gets mf_end in
  cwhen (negb (mf =? 0)%Z)
    (modify (fun s => s <| failover_auth_time := mstime s |> <| failover_auth_rank := 0%Z |>)) ;;
  clusterBroadcastPong true.

(** Postpone it when slaves with more data showed up. *)
Definition update_rank : C unit :=
  let! s := gets id in
  if negb (failover_auth_sent s) && (mf_end s =? 0)%Z then
    let! newrank := clusterGetSlaveRank in
    cwhen (newrank >? failover_auth_rank s)%Z
      (modify (fun s => s <| failover_auth_time ::= fun t =>
                 (t + (newrank - failover_auth_rank s) * 1000)%Z |>
               <| failover_auth_rank := newrank |>))
  else skip.

Definition start_election : C unit :=
  next_epoch ;;
  modify (fun s => s <| failover_auth_epoch := currentEpoch s |>) ;;
  clusterRequestFailoverAuth ;;
  modify (fun s => s <| failover_auth_sent := true |>) ;;
  clusterDoBeforeSleep [TODO_SAVE_CONFIG; TODO_UPDATE_STATE; TODO_FSYNC_CONFIG].

(** Count the votes. *)
Definition conclude_election (needed_quorum : Z) : C unit :=
  let! s := gets id in
  if (failover_auth_count s >=? needed_quorum)%Z then
    let! my := deref (myself s) in
    cwhen (n_configEpoch my <? failover_auth_epoch s)%Z
      (update (myself s) (fun n => n <| n_configEpoch := failover_auth_epoch s |>)) ;;
    clusterFailoverReplaceYourMaster
  else clusterLogCantFailover CANT_FAILOVER_WAITING_VOTES.

Definition run_election (auth_age needed_quorum : Z) : C unit :=
  update_rank ;;
  let! s := gets id in
  if (mstime s <? failover_auth_time s)%Z then clusterLogCantFailover CANT_FAILOVER_WAITING_DELAY
  else if (auth_age >? auth_timeout)%Z then clusterLogCantFailover CANT_FAILOVER_EXPIRED
  else if negb (failover_auth_sent s) then start_election
  else conclude_election needed_quorum.

Definition clusterHandleSlaveFailover : C unit :=
  let! s := gets id in
  let auth_age := (mstime s - failover_auth_time s)%Z in
  let needed_quorum := (size s / 2 + 1)%Z in
  let manual_failover := negb (mf_end s =? 0)%Z && mf_can_start s in
  clear_todo TODO_HANDLE_FAILOVER ;;
  let! my := deref (myself s) in
  let no_reason := modify (fun s => s <| cant_failover_reason := CANT_FAILOVER_NONE |>) in
  if nodeIsMaster my then no_reason
  else
    match n_slaveof my with
    | None => no_reason
    | Some m =>
        let! master := deref m in
        if (negb (nodeFailed master) && negb manual_failover) || (n_numslots master =? 0)%Z then no_reason
        else if data_too_old s && negb manual_failover
        then clusterLogCantFailover CANT_FAILOVER_DATA_AGE
        else if (auth_age >? auth_retry_time)%Z then schedule_election
        else run_election auth_age needed_quorum
    end.

(** ** Replica migration *)

Definition count_ok_slaves (l : list ptr) : C Z :=
  cfold l 0%Z (fun ok p =>
    let! n := deref p in
    cret (if negb (nodeFailed n) && negb (nodeTimedOut n) then (ok + 1)%Z else ok)).

(** The slave with the smallest name, starting from [candidate]. *)
Definition smallest_name (candidate : ptr) (l : list ptr) : C ptr :=
  cfold l candidate (fun c q =>
    let! n := deref q in
    let! cn := deref c in
    cret (if (memcmp (n_name n) (n_name cn) <? 0)%Z then q else c)).

Definition migration_node (max_slaves : Z) (acc : option ptr * ptr) (p : ptr) : C (option ptr * ptr) :=
  let! node := deref p in
  let! okslaves := if nodeIsMaster node then clusterCountNonFailingSlaves node else cret 0%Z in
  let is_orphaned := negb (nodeIsSlave node || nodeFailed node) &&
                     has_flag MIGRATE_TO (n_flags node) && negb (okslaves >? 0)%Z in
  let! now := gets mstime in
  (if is_orphaned then
     cwhen (n_orphaned_time node =? 0)%Z (update p (fun n => n <| n_orphaned_time := now |>))
   else update p (fun n => n <| n_orphaned_time := 0%Z |>)) ;;
  let target := if is_orphaned && bool_decide (acc.1 = None) && (n_numslots node >? 0)%Z
                then Some p else acc.1 in
  let! candidate := if (okslaves =? max_slaves)%Z then smallest_name acc.2 (n_slaves node)
                    else cret acc.2 in
  cret (target, candidate).

Definition clusterHandleSlaveMigration (max_slaves : Z) : C unit :=
  let! s := gets id in
  let! my := deref (myself s) in
  if negb (bool_decide (state s = CLUSTER_OK)) then skip
  else
    match n_slaveof my with
    | None => skip
    | Some m =>
        let! mymaster := deref m in
        let! okslaves := count_ok_slaves (n_slaves mymaster) in
        if (okslaves <=? cluster_migration_barrier)%Z then skip
        else
          let! l := all_nodes in
          let! (target, candidate) := cfold l (None, myself s) (migration_node max_slaves) in
          match target with
          | None => skip
          | Some t =>
              let! tn := deref t in
              if bool_decide (candidate = myself s) &&
                 (mstime s - n_orphaned_time tn >? CLUSTER_SLAVE_MIGRATION_DELAY)%Z
              then clusterSetMaster t else skip
          end
    end.

(** ** Manual failover *)

Definition manualFailoverCheckTimeout : C unit :=
  let! s := gets id in
  if negb (mf_end s =? 0)%Z && (mf_end s <? mstime s)%Z then resetManualFailover else skip.

Definition clusterHandleManualFailover : C unit :=
  let! s := gets id in
  if (mf_end s =? 0)%Z then skip
  else if mf_can_start s then skip
  else if (mf_master_offset s =? 0)%Z then skip
  else cwhen (mf_master_offset s =? slave_offset s)%Z
         (modify (fun s => s <| mf_can_start := true |>)).
End failover.
