(* ===== verification/ClusterPacket.v ===== *)
(** * Processing bus packets ([src/examples/cluster.c],
    [clusterProcessPacket]) *)

From Stdlib Require Import Ascii.
From stdpp Require Import base numbers gmap strings list.
From S2P Require Import Prelude Text ClusterTypes ClusterSlots ClusterNodes ClusterBus ClusterGossip ClusterFailover.

Section packet.
Context `{E : ClusterEnv}.

(** ** Sanity checks *)

(** The length the type and the counts announce, a [uint32_t]. *)
Definition expected_len (hdr : clusterMsg) : option Z :=
  match h_type hdr with
  | Some PING | Some PONG | Some MEET_MSG => Some (as_u32 (sizeof_header + sizeof_gossip * h_count hdr))
  | Some FAIL_MSG => Some (as_u32 (sizeof_header + sizeof_fail))
  | Some PUBLISH =>
      Some (as_u32 (sizeof_header + (sizeof_publish - 8 + channel_len (h_publish hdr)
                                     + message_len (h_publish hdr))))
  | Some FAILOVER_AUTH_REQUEST | Some FAILOVER_AUTH_ACK | Some MFSTART => Some (as_u32 sizeof_header)
  | Some UPDATE => Some (as_u32 (sizeof_header + sizeof_update))
  | None => None
  end.

Definition sane_packet (hdr : clusterMsg) (rcvbuf_len : Z) : bool :=
  negb (h_totlen hdr <? 16)%Z && negb (h_totlen hdr >? rcvbuf_len)%Z &&
  (h_ver hdr =? CLUSTER_PROTO_VER)%Z &&
  match expected_len hdr with Some n => (h_totlen hdr =? n)%Z | None => true end.

(** ** The sender's epochs and replication offset *)

(** Returns [senderCurrentEpoch] and [senderConfigEpoch]: zero unless the
    sender is a known node past its handshake. *)
Definition packet_sender (sender : option ptr) (hdr : clusterMsg) : C (Z * Z) :=
  match sender with
  | None => cret (0, 0)%Z
  | Some p =>
      let! n := deref p in
      if nodeInHandshake n then cret (0, 0)%Z
      else
        modify (fun s => if (h_currentEpoch hdr >? currentEpoch s)%Z
                         then s <| currentEpoch := h_currentEpoch hdr |> else s) ;;
        cwhen (h_configEpoch hdr >? n_configEpoch n)%Z
          (update p (fun n => n <| n_configEpoch := h_configEpoch hdr |>) ;;
           clusterDoBeforeSleep [TODO_SAVE_CONFIG; TODO_FSYNC_CONFIG]) ;;
        let! now := gets mstime in
        update p (fun n => n <| n_repl_offset := h_offset hdr |> <| n_repl_offset_time := now |>) ;;
        let! s := gets id in
        let! my := deref (myself s) in
        cwhen (negb (mf_end s =? 0)%Z && nodeIsSlave my && bool_decide (n_slaveof my = Some p) &&
               h_paused hdr && (mf_master_offset s =? 0)%Z)
          (modify (fun s => s <| mf_master_offset := h_offset hdr |>)) ;;
        cret (h_currentEpoch hdr, h_configEpoch hdr)
  end.

(** ** PING and MEET: our own address, new nodes, the reply *)

Definition is_type (hdr : clusterMsg) (t : MsgType) : bool := bool_decide (h_type hdr = Some t).

Definition packet_own_address (hdr : clusterMsg) (link : nat) : C unit :=
  let! me := gets myself in
  let! my := deref me in
  let! announced := gets cluster_announce_ip in
  if (is_type hdr MEET_MSG || bool_decide (n_ip my = "")) && bool_decide (announced = None)
  then
    let! l := deref_link link in
    match l_sock_ip l with
    | Some ip =>
        cwhen (negb (bool_decide (ip = n_ip my)))
          (update me (fun n => n <| n_ip := ip |>) ;; clusterDoBeforeSleep [TODO_SAVE_CONFIG])
    | None => skip
    end
  else skip.

Definition packet_meet (hdr : clusterMsg) (link : nat) : C unit :=
  let! node := createClusterNode None (flag HANDSHAKE) in
  let! ip := nodeIp2String link (h_myip hdr) in
  update node (fun n => n <| n_ip := ip |> <| n_port := h_port hdr |> <| n_cport := h_cport hdr |>) ;;
  let! _ := clusterAddNode node in
  clusterDoBeforeSleep [TODO_SAVE_CONFIG] ;;
  clusterProcessGossipSection hdr link.

Definition packet_reply (sender : option ptr) (hdr : clusterMsg) (link : nat) : C unit :=
  if is_type hdr PING || is_type hdr MEET_MSG then
    packet_own_address hdr link ;;
    cwhen (bool_decide (sender = None) && is_type hdr MEET_MSG) (packet_meet hdr link) ;;
    clusterSendPing link PONG
  else skip.

(** ** PING, PONG, MEET: the configuration the sender announces *)

(** The node the link belongs to; [false]: the link was freed. *)
Definition packet_link_node (sender : option ptr) (hdr : clusterMsg) (link : nat) : C bool :=
  let! l := deref_link link in
  match l_node l with
  | None => cret true
  | Some p =>
      let! n := deref p in
      if nodeInHandshake n then
        match sender with
        | Some sp =>
            let! changed := nodeUpdateAddressIfNeeded sp link hdr in
            cwhen changed (clusterDoBeforeSleep [TODO_SAVE_CONFIG; TODO_UPDATE_STATE]) ;;
            clusterDelNode p ;;
            cret false
        | None =>
            clusterRenameNode p (h_sender hdr) ;;
            update p (fun n => n <| n_flags ::= fun w =>
              let w := clear_flag HANDSHAKE w in
              let w := if has_flag MASTER (h_flags hdr) then set_flag MASTER w else w in
              if has_flag SLAVE (h_flags hdr) then set_flag SLAVE w else w |>) ;;
            clusterDoBeforeSleep [TODO_SAVE_CONFIG] ;;
            cret true
        end
      else if negb (bool_decide (n_name n = h_sender hdr)) then
        update p (fun n => n <| n_flags ::= set_flag NOADDR |> <| n_ip := "" |>
                             <| n_port := 0%Z |> <| n_cport := 0%Z |>) ;;
        freeClusterLink link ;;
        clusterDoBeforeSleep [TODO_SAVE_CONFIG] ;;
        cret false
      else cret true
  end.

Definition packet_address (sender : option ptr) (hdr : clusterMsg) (link : nat) : C unit :=
  match sender with
  | Some p =>
      let! n := deref p in
      if is_type hdr PING && negb (nodeInHandshake n) then
        let! changed := nodeUpdateAddressIfNeeded p link hdr in
        cwhen changed (clusterDoBeforeSleep [TODO_SAVE_CONFIG; TODO_UPDATE_STATE])
      else skip
  | None => skip
  end.

Definition packet_pong (hdr : clusterMsg) (link : nat) : C unit :=
  let! l := deref_link link in
  match l_node l with
  | Some p =>
      if is_type hdr PONG then
        let! now := gets mstime in
        update p (fun n => n <| n_pong_received := now |> <| n_ping_sent := 0%Z |>) ;;
        let! n := deref p in
        if nodeTimedOut n then
          update p (fun n => n <| n_flags ::= clear_flag PFAIL |>) ;;
          clusterDoBeforeSleep [TODO_SAVE_CONFIG; TODO_UPDATE_STATE]
        else if nodeFailed n then clearNodeFailureIfNeeded p
        else skip
      else skip
  | None => skip
  end.

(** Role switches, from [hdr->slaveof]. *)
Definition packet_role (p : ptr) (hdr : clusterMsg) : C unit :=
  match h_slaveof hdr with
  | None => clusterSetNodeAsMaster p
  | Some master_name =>
      let! master := clusterLookupNode master_name in
      let! n := deref p in
      cwhen (nodeIsMaster n)
        (let! _ := clusterDelNodeSlots p in
         update p (fun n => n <| n_flags ::= fun w =>
           set_flag SLAVE (clear_flag MIGRATE_TO (clear_flag MASTER w)) |>) ;;
         clusterDoBeforeSleep [TODO_SAVE_CONFIG; TODO_UPDATE_STATE]) ;;
      match master with
      | None => skip
      | Some m =>
          let! n := deref p in
          if bool_decide (n_slaveof n = Some m) then skip
          else
            match n_slaveof n with
            | Some old => let! _ := clusterNodeRemoveSlave old p in skip
            | None => skip
            end ;;
            let! _ := clusterNodeAddSlave m p in
            update p (fun n => n <| n_slaveof := Some m |>) ;;
            clusterDoBeforeSleep [TODO_SAVE_CONFIG]
      end
  end.

(** The first claimed slot that a newer master serves: tell the sender. *)
Fixpoint inform_stale (p : ptr) (claimed : list Z) (senderConfigEpoch : Z) (l : list nat) : C unit :=
  match l with
  | [] => skip
  | j :: l =>
      if negb (bitmapTestBit claimed j) then inform_stale p claimed senderConfigEpoch l
      else
        let! owner := gets (fun s => slots s !! j) in
        match owner with
        | None => inform_stale p claimed senderConfigEpoch l
        | Some o =>
            if decide (o = p) then inform_stale p claimed senderConfigEpoch l
            else
              let! n := deref o in
              if (n_configEpoch n >? senderConfigEpoch)%Z then
                let! sn := deref p in clusterSendUpdate (n_link sn) o
              else inform_stale p claimed senderConfigEpoch l
        end
  end.

Definition packet_slots (p : ptr) (hdr : clusterMsg) (senderConfigEpoch : Z) : C unit :=
  let! n := deref p in
  let! dirty_slots :=
    match (if nodeIsMaster n then Some p else n_slaveof n) with
    | Some m => let! mn := deref m in cret (negb (bool_decide (n_slots mn = h_myslots hdr)))
    | None => cret false
    end in
  (if nodeIsMaster n && dirty_slots
   then clusterUpdateSlotsConfigWith p senderConfigEpoch (h_myslots hdr) else skip) ;;
  cwhen dirty_slots (inform_stale p (h_myslots hdr) senderConfigEpoch all_slots) ;;
  let! me := gets myself in
  let! my := deref me in
  let! n := deref p in
  cwhen (nodeIsMaster my && nodeIsMaster n && (senderConfigEpoch =? n_configEpoch my)%Z)
    (clusterHandleConfigEpochCollision p).

Definition packet_config (sender : option ptr) (senderConfigEpoch : Z) (hdr : clusterMsg) (link : nat)
    : C bool :=
  let! valid := packet_link_node sender hdr link in
  if (valid : bool) then
    packet_address sender hdr link ;;
    packet_pong hdr link ;;
    match sender with
    | Some p =>
        packet_role p hdr ;;
        packet_slots p hdr senderConfigEpoch ;;
        clusterProcessGossipSection hdr link
    | None => skip
    end ;;
    cret true
  else cret false.

(** ** The other messages *)

Definition packet_fail (sender : option ptr) (hdr : clusterMsg) : C unit :=
  match sender with
  | None => skip
  | Some _ =>
      let! failing := clusterLookupNode (h_fail_about hdr) in
      match failing with
      | None => skip
      | Some f =>
          let! n := deref f in
          if has_flag FAIL (n_flags n) || has_flag MYSELF (n_flags n) then skip
          else
            let! now := gets mstime in
            update f (fun n => n <| n_flags ::= fun w => clear_flag PFAIL (set_flag FAIL w) |>
                                 <| n_fail_time := now |>) ;;
            clusterDoBeforeSleep [TODO_SAVE_CONFIG; TODO_UPDATE_STATE]
      end
  end.

(** Reading beyond the packet's data is a crash. *)
Definition packet_publish (hdr : clusterMsg) : C unit :=
  let! active := gets pubsub_active in
  if (active : bool) then
    let m := h_publish hdr in
    if (channel_len m + message_len m <=? Z.of_nat (String.length (bulk_data m)))%Z then
      emit (PublishMessage
        (String.substring 0 (Z.to_nat (channel_len m)) (bulk_data m))
        (String.substring (Z.to_nat (channel_len m)) (Z.to_nat (message_len m)) (bulk_data m)))
    else crash
  else skip.

Definition packet_auth_ack (p : ptr) (senderCurrentEpoch : Z) : C unit :=
  let! n := deref p in
  let! s := gets id in
  cwhen (nodeIsMaster n && (n_numslots n >? 0)%Z && (senderCurrentEpoch >=? failover_auth_epoch s)%Z)
    (modify (fun s => s <| failover_auth_count ::= fun c => (c + 1)%Z |>) ;;
     clusterDoBeforeSleep [TODO_HANDLE_FAILOVER]).

Definition packet_mfstart (p : ptr) : C unit :=
  let! n := deref p in
  let! s := gets id in
  if negb (bool_decide (n_slaveof n = Some (myself s))) then skip
  else
    resetManualFailover ;;
    modify (fun s => s <| mf_end := (mstime s + CLUSTER_MF_TIMEOUT)%Z |> <| mf_slave := Some p |>) ;;
    emit (PauseClients (mstime s + CLUSTER_MF_TIMEOUT * 2)%Z).

Definition packet_update (hdr : clusterMsg) : C unit :=
  let! known := clusterLookupNode (h_update_name hdr) in
  match known with
  | None => skip
  | Some p =>
      let! n := deref p in
      if (n_configEpoch n >=? h_update_epoch hdr)%Z then skip
      else
        cwhen (nodeIsSlave n) (clusterSetNodeAsMaster p) ;;
        update p (fun n => n <| n_configEpoch := h_update_epoch hdr |>) ;;
        clusterDoBeforeSleep [TODO_SAVE_CONFIG; TODO_FSYNC_CONFIG] ;;
        clusterUpdateSlotsConfigWith p (h_update_epoch hdr) (h_update_slots hdr)
  end.

(** ** The handler: is the link still valid? *)

Definition with_sender (sender : option ptr) (m : ptr -> C unit) : C unit :=
  match sender with Some p => m p | None => skip end.

Definition clusterProcessPacket (hdr : clusterMsg) (rcvbuf_len : Z) (link : nat) : C bool :=
  match h_type hdr with Some t => modify (fun s => s <| stats_received ::= cons t |>) | None => skip end ;;
  if negb (sane_packet hdr rcvbuf_len) then cret true
  else
    let! sender := clusterLookupNode (h_sender hdr) in
    let! (senderCurrentEpoch, senderConfigEpoch) := packet_sender sender hdr in
    packet_reply sender hdr link ;;
    match h_type hdr with
    | Some PING | Some PONG | Some MEET_MSG => packet_config sender senderConfigEpoch hdr link
    | Some FAIL_MSG => packet_fail sender hdr ;; cret true
    | Some PUBLISH => packet_publish hdr ;; cret true
    | Some FAILOVER_AUTH_REQUEST =>
        with_sender sender (fun p => clusterSendFailoverAuthIfNeeded p hdr) ;; cret true
    | Some FAILOVER_AUTH_ACK =>
        with_sender sender (fun p => packet_auth_ack p senderCurrentEpoch) ;; cret true
    | Some MFSTART => with_sender sender packet_mfstart ;; cret true
    | Some UPDATE => with_sender sender (fun _ => packet_update hdr) ;; cret true
    | None => cret true
    end.
End packet.
