(* ===== verification/ClusterCron.v ===== *)
(** * The periodic job and the event loop hook
    ([src/examples/cluster.c], [clusterCron], [clusterBeforeSleep],
    [clusterReset]) *)

From Stdlib Require Import Ascii.
From stdpp Require Import base numbers gmap strings list.
From S2P Require Import Prelude Text ClusterTypes ClusterSlots ClusterNodes ClusterBus ClusterGossip ClusterFailover.

Section cron.
Context `{E : ClusterEnv}.

(** Keep [myself->ip] in sync with the configuration. *)
Definition cron_announce_ip : C unit :=
  let! s := gets id in
  if bool_decide (prev_announce_ip s = cluster_announce_ip s) then skip
  else
    modify (fun s => s <| prev_announce_ip := cluster_announce_ip s |>) ;;
    update (myself s) (fun n => n <| n_ip := match cluster_announce_ip s with
                                             | Some ip => ip_copy ip | None => "" end |>).

Definition handshake_timeout : Z :=
  if (cluster_node_timeout <? 1000)%Z then 1000 else cluster_node_timeout.

(** Connect to a node without a link and queue a first PING. *)
Definition cron_connect (p : ptr) : C unit :=
  let! node := deref p in
  let! now := gets mstime in
  match anetConnect (n_ip node) (n_cport node) with
  | None => cwhen (n_ping_sent node =? 0)%Z (update p (fun n => n <| n_ping_sent := now |>))
  | Some (peer, sock) =>
      let! link := gets next_link in
      modify (fun s => s <| next_link ::= S |>) ;;
      createClusterLink (Some p) peer sock link ;;
      update p (fun n => n <| n_link := Some link |>) ;;
      clusterSendPing link (if has_flag MEET (n_flags node) then MEET_MSG else PING) ;;
      cwhen (negb (n_ping_sent node =? 0)%Z) (update p (fun n => n <| n_ping_sent := n_ping_sent node |>)) ;;
      update p (fun n => n <| n_flags ::= clear_flag MEET |>)
  end.

Definition cron_reconnect (p : ptr) : C unit :=
  let! node := deref p in
  let! now := gets mstime in
  if has_flag MYSELF (n_flags node) || has_flag NOADDR (n_flags node) then skip
  else
    cwhen (has_flag PFAIL (n_flags node)) (modify (fun s => s <| stats_pfail_nodes ::= fun k => (k + 1)%Z |>)) ;;
    if nodeInHandshake node && (now - n_ctime node >? handshake_timeout)%Z then clusterDelNode p
    else if bool_decide (n_link node = None) then cron_connect p
    else skip.

(** Five random nodes: the connected one that was silent for longest. *)
Fixpoint oldest_pong (attempts : nat) (best : option (ptr * Z)) : C (option (ptr * Z)) :=
  match attempts with
  | 0 => cret best
  | S attempts =>
      let! picked := random_node in
      match picked with
      | None => crash
      | Some p =>
          let! n := deref p in
          if bool_decide (n_link n = None) || negb (n_ping_sent n =? 0)%Z ||
             has_flag MYSELF (n_flags n) || has_flag HANDSHAKE (n_flags n)
          then oldest_pong attempts best
          else
            oldest_pong attempts
              (match best with
               | None => Some (p, n_pong_received n)
               | Some (_, min_pong) => if (min_pong >? n_pong_received n)%Z
                                       then Some (p, n_pong_received n) else best
               end)
      end
  end.

Definition cron_ping_random : C unit :=
  let! it := gets cron_iteration in
  if (it mod 10 =? 0)%Z then
    let! best := oldest_pong 5 None in
    match best with
    | None => skip
    | Some (p, _) =>
        let! n := deref p in
        match n_link n with Some l => clusterSendPing l PING | None => crash end
    end
  else skip.

(** What the failure scan accumulates. *)
Record Scan := mkScan {
  sc_orphaned_masters : Z;
  sc_max_slaves : Z;
  sc_this_slaves : Z;
  sc_update_state : bool;
}.

Definition scan_orphans (p : ptr) (acc : Scan) : C Scan :=
  let! node := deref p in
  let! me := gets myself in
  let! my := deref me in
  if nodeIsSlave my && nodeIsMaster node && negb (nodeFailed node) then
    let! okslaves := clusterCountNonFailingSlaves node in
    cret (mkScan
      (if (okslaves =? 0)%Z && (n_numslots node >? 0)%Z && has_flag MIGRATE_TO (n_flags node)
       then sc_orphaned_masters acc + 1 else sc_orphaned_masters acc)
      (if (okslaves >? sc_max_slaves acc)%Z then okslaves else sc_max_slaves acc)
      (if bool_decide (n_slaveof my = Some p) then okslaves else sc_this_slaves acc)
      (sc_update_state acc))
  else cret acc.

Definition stale_link (node : clusterNode) (l : clusterLink) (now : Z) : bool :=
  (now - l_ctime l >? cluster_node_timeout)%Z && negb (n_ping_sent node =? 0)%Z &&
  (n_pong_received node <? n_ping_sent node)%Z &&
  (now - n_ping_sent node >? cluster_node_timeout / 2)%Z.

(** An active ping without answer for longer than the timeout. *)
Definition scan_timeout (p : ptr) (node : clusterNode) (now : Z) (acc : Scan) : C Scan :=
  if (n_ping_sent node =? 0)%Z then cret acc
  else if (now - n_ping_sent node >? cluster_node_timeout)%Z && negb (any_fail (n_flags node)) then
    update p (fun n => n <| n_flags ::= set_flag PFAIL |>) ;;
    cret (mkScan (sc_orphaned_masters acc) (sc_max_slaves acc) (sc_this_slaves acc) true)
  else cret acc.

Definition scan_node (acc : Scan) (p : ptr) : C Scan :=
  let! node := deref p in
  let! now := gets mstime in
  if has_flag MYSELF (n_flags node) || has_flag NOADDR (n_flags node) || has_flag HANDSHAKE (n_flags node)
  then cret acc
  else
    let! acc := scan_orphans p acc in
    match n_link node with
    | Some l => let! link := deref_link l in cwhen (stale_link node link now) (freeClusterLink l)
    | None => skip
    end ;;
    let! node := deref p in
    let! s := gets id in
    let! my := deref (myself s) in
    match n_link node with
    | Some l =>
        if (n_ping_sent node =? 0)%Z && (now - n_pong_received node >? cluster_node_timeout / 2)%Z
        then clusterSendPing l PING ;; cret acc
        else if negb (mf_end s =? 0)%Z && nodeIsMaster my && bool_decide (mf_slave s = Some p)
        then clusterSendPing l PING ;; cret acc
        else scan_timeout p node now acc
    | None => scan_timeout p node now acc
    end.

(** Turn the replication on once our master's address is known. *)
Definition cron_replication : C unit :=
  let! s := gets id in
  let! my := deref (myself s) in
  if nodeIsSlave my && negb (masterhost s) then
    match n_slaveof my with
    | Some m =>
        let! master := deref m in
        cwhen (nodeHasAddr master) (emit (ReplicationSetMaster (n_ip master) (n_port master)))
    | None => skip
    end
  else skip.

Definition clusterCron : C unit :=
  modify (fun s => s <| cron_iteration ::= fun i => u64 (i + 1) |>) ;;
  cron_announce_ip ;;
  let! l := all_nodes in
  modify (fun s => s <| stats_pfail_nodes := 0%Z |>) ;;
  cfor l cron_reconnect ;;
  cron_ping_random ;;
  let! l := all_nodes in
  let! scan := cfold l (mkScan 0 0 0 false) scan_node in
  cron_replication ;;
  manualFailoverCheckTimeout ;;
  let! me := gets myself in
  let! my := deref me in
  cwhen (nodeIsSlave my)
    (clusterHandleManualFailover ;;
     clusterHandleSlaveFailover ;;
     cwhen (negb (sc_orphaned_masters scan =? 0)%Z && (sc_max_slaves scan >=? 2)%Z &&
            (sc_this_slaves scan =? sc_max_slaves scan)%Z)
       (clusterHandleSlaveMigration (sc_max_slaves scan))) ;;
  let! st := gets state in
  cwhen (sc_update_state scan || bool_decide (st = CLUSTER_FAIL)) clusterUpdateState.

(** ** Before the event loop sleeps *)

Definition clusterBeforeSleep : C unit :=
  let! s := gets id in
  cwhen (todo_set TODO_HANDLE_FAILOVER s) clusterHandleSlaveFailover ;;
  let! s := gets id in
  cwhen (todo_set TODO_UPDATE_STATE s) clusterUpdateState ;;
  let! s := gets id in
  cwhen (todo_set TODO_SAVE_CONFIG s) (clusterSaveConfigOrDie (todo_set TODO_FSYNC_CONFIG s)) ;;
  modify (fun s => s <| todo_before_sleep := [] |>).

(** ** [CLUSTER RESET] *)

Definition clusterReset (hard : bool) : C unit :=
  let! me := gets myself in
  let! my := deref me in
  cwhen (nodeIsSlave my)
    (clusterSetNodeAsMaster me ;; emit ReplicationUnsetMaster ;; emit EmptyDb) ;;
  clusterCloseAllSlots ;;
  resetManualFailover ;;
  cfor all_slots (fun j => let! _ := clusterDelSlot j in skip) ;;
  let! l := all_nodes in
  cfor l (fun p => if decide (p = me) then skip else clusterDelNode p) ;;
  cwhen hard
    (modify (fun s => s <| currentEpoch := 0%Z |> <| lastVoteEpoch := 0%Z |>) ;;
     update me (fun n => n <| n_configEpoch := 0%Z |>) ;;
     let! my := deref me in
     let! _ := dictDelete_node (n_name my) in
     let! i := gets next_ptr in
     modify (fun s => s <| next_ptr ::= S |>) ;;
     update me (fun n => n <| n_name := getRandomHexChars i |>) ;;
     let! _ := clusterAddNode me in skip) ;;
  clusterDoBeforeSleep [TODO_SAVE_CONFIG; TODO_UPDATE_STATE; TODO_FSYNC_CONFIG].
End cron.
