(* ===== verification/ClusterCommand.v ===== *)
(** * The CLUSTER command ([src/examples/cluster.c], node descriptions and
    [clusterCommand]) *)

From Stdlib Require Import Ascii.
From stdpp Require Import base numbers pretty gmap strings list.
From S2P Require Import Prelude Text ClusterTypes ClusterSlots ClusterNodes ClusterBus ClusterGossip ClusterFailover ClusterCron.

(** Replies to a client. *)
Inductive Reply :=
| ROk
| RError (msg : string)
| RSyntaxErr
| RNotInteger                (* the error of [getLongLongFromObjectOrReply] *)
| RStatus (msg : string)
| RInteger (n : Z)
| RBulk (s : string)
| RArray (l : list Reply).

(** [%d], [%lld] and [%llu]. *)
Definition show_Z (z : Z) : string := pretty z.
Definition crlf : string := String (ascii_of_nat 13) (String (ascii_of_nat 10) "").

Section command.
Context `{E : ClusterEnv}.

(** ** Node descriptions *)

(** The maximal runs of slots a node serves, first to last. *)
Fixpoint slot_ranges (bit : nat -> bool) (l : list nat) (start : option nat) : list (nat * nat) :=
  match l with
  | [] => []
  | j :: l =>
      let start := match start with Some s => Some s | None => if bit j then Some j else None end in
      match start with
      | Some s =>
          if negb (bit j) || (j =? CLUSTER_SLOTS - 1) then
            let j' := if bit j && (j =? CLUSTER_SLOTS - 1) then S j else j in
            (s, j' - 1) :: slot_ranges bit l None
          else slot_ranges bit l (Some s)
      | None => slot_ranges bit l None
      end
  end.

Definition node_ranges (n : clusterNode) : list (nat * nat) :=
  slot_ranges (clusterNodeGetSlotBit n) all_slots None.

Definition show_range (r : nat * nat) : string :=
  if r.1 =? r.2 then " " +:+ show_nat r.1 else " " +:+ show_nat r.1 +:+ "-" +:+ show_nat r.2.

(** Open slots, described for [myself] only. *)
Definition describe_open_slot (j : nat) : C string :=
  let! s := gets id in
  match migrating_slots_to s !! j, importing_slots_from s !! j with
  | Some p, _ => let! n := deref p in cret (" [" +:+ show_nat j +:+ "->-" +:+ n_name n +:+ "]")
  | None, Some p => let! n := deref p in cret (" [" +:+ show_nat j +:+ "-<-" +:+ n_name n +:+ "]")
  | None, None => cret ""
  end.

Definition clusterGenNodeDescription (p : ptr) : C string :=
  let! node := deref p in
  let ci := n_name node +:+ " " +:+ n_ip node +:+ ":" +:+ show_Z (n_port node) +:+ "@" +:+
            show_Z (n_cport node) +:+ " " in
  let! ci := representClusterNodeFlags ci (n_flags node) in
  let! ci := match n_slaveof node with
             | Some m => let! master := deref m in cret (ci +:+ " " +:+ n_name master +:+ " ")
             | None => cret (ci +:+ " - ")
             end in
  let ci := ci +:+ show_Z (n_ping_sent node) +:+ " " +:+ show_Z (n_pong_received node) +:+ " " +:+
            show_Z (n_configEpoch node) +:+ " " +:+
            (if bool_decide (n_link node <> None) || has_flag MYSELF (n_flags node)
             then "connected" else "disconnected") in
  let ci := foldl (fun ci r => ci +:+ show_range r) ci (node_ranges node) in
  if has_flag MYSELF (n_flags node) then
    cfold all_slots ci (fun ci j => let! d := describe_open_slot j in cret (ci +:+ d))
  else cret ci.

(** Nodes with a flag of the filter are left out. *)
Definition clusterGenNodesDescription (filter : Z) : C string :=
  let! l := all_nodes in
  cfold l "" (fun ci p =>
    let! node := deref p in
    if negb (Z.land (n_flags node) filter =? 0)%Z then cret ci
    else let! ni := clusterGenNodeDescription p in cret (ci +:+ ni +:+ nl_str)).

Definition clusterGetMessageTypeString (type : option MsgType) : string :=
  match type with
  | Some PING => "ping" | Some PONG => "pong" | Some MEET_MSG => "meet" | Some FAIL_MSG => "fail"
  | Some PUBLISH => "publish" | Some FAILOVER_AUTH_REQUEST => "auth-req"
  | Some FAILOVER_AUTH_ACK => "auth-ack" | Some UPDATE => "update" | Some MFSTART => "mfstart"
  | None => "unknown"
  end.

(** ** Replies *)

Definition slot_error : Reply := RError "Invalid or out of range slot".

(** [getSlotOrReply] *)
Definition getSlot (o : string) : option nat :=
  match getLongLong o with
  | Some slot => if ((slot <? 0) || (slot >=? Z.of_nat CLUSTER_SLOTS))%Z then None else Some (Z.to_nat slot)
  | None => None
  end.

Definition node_address (n : clusterNode) : Reply :=
  RArray [RBulk (n_ip n); RInteger (n_port n); RBulk (n_name n)].

(** The entry of a range: its bounds, the master, the slaves not failing. *)
Definition range_reply (node : clusterNode) (r : nat * nat) : C Reply :=
  let! slaves := cfold (n_slaves node) [] (fun acc q =>
    let! s := deref q in cret (if nodeFailed s then acc else acc ++ [node_address s])) in
  cret (RArray ([RInteger (Z.of_nat r.1); RInteger (Z.of_nat r.2); node_address node] ++ slaves)).

Definition clusterReplyMultiBulkSlots : C Reply :=
  let! l := all_nodes in
  let! entries := cfold l [] (fun acc p =>
    let! node := deref p in
    if negb (nodeIsMaster node) || (n_numslots node =? 0)%Z then cret acc
    else cfold (node_ranges node) acc (fun acc r => let! e := range_reply node r in cret (acc ++ [e]))) in
  cret (RArray entries).

(** ** Sub-commands that change the configuration *)

Definition cmd_meet (ip port : string) (cport : option string) : C Reply :=
  match getLongLong port with
  | None => cret (RError ("Invalid TCP base port specified: " +:+ port))
  | Some p =>
      match (match cport with
             | Some c => match getLongLong c with Some n => inr n | None => inl c end
             | None => inr (p + CLUSTER_PORT_INCR)%Z end) with
      | inl c => cret (RError ("Invalid TCP bus port specified: " +:+ c))
      | inr cp =>
          let! h := clusterStartHandshake ip p cp in
          match h with
          | EINVAL => cret (RError ("Invalid node address specified: " +:+ ip +:+ ":" +:+ port))
          | _ => cret ROk
          end
      end
  end.

Definition cmd_flushslots (db_size : Z) : C Reply :=
  if negb (db_size =? 0)%Z then cret (RError "DB must be empty to perform CLUSTER FLUSHSLOTS.")
  else
    let! me := gets myself in
    let! _ := clusterDelNodeSlots me in
    clusterDoBeforeSleep [TODO_UPDATE_STATE; TODO_SAVE_CONFIG] ;;
    cret ROk.

(** The checks on the arguments of ADDSLOTS and DELSLOTS: the slots, in
    order of their arguments, or the first error. *)
Fixpoint check_slots (del : bool) (owned : gmap nat ptr) (args : list string) (seen : list nat)
    : Reply + list nat :=
  match args with
  | [] => inr seen
  | a :: args =>
      match getSlot a with
      | None => inl slot_error
      | Some slot =>
          if del && bool_decide (owned !! slot = None)
          then inl (RError ("Slot " +:+ show_nat slot +:+ " is already unassigned"))
          else if negb del && bool_decide (owned !! slot <> None)
          then inl (RError ("Slot " +:+ show_nat slot +:+ " is already busy"))
          else if bool_decide (slot ∈ seen)
          then inl (RError ("Slot " +:+ show_nat slot +:+ " specified multiple times"))
          else check_slots del owned args (seen ++ [slot])
      end
  end.

Definition cmd_addslots (del : bool) (args : list string) : C Reply :=
  let! owned := gets slots in
  match check_slots del owned args [] with
  | inl e => cret e
  | inr chosen =>
      let! me := gets myself in
      cfor all_slots (fun j =>
        if bool_decide (j ∈ chosen) then
          modify (fun s => s <| importing_slots_from ::= delete j |>) ;;
          let! ok := if del then clusterDelSlot j else clusterAddSlot me j in
          serverAssert ok
        else skip) ;;
      clusterDoBeforeSleep [TODO_UPDATE_STATE; TODO_SAVE_CONFIG] ;;
      cret ROk
  end.

(** [clusterLookupNode] on an argument looks for its first [CLUSTER_NAMELEN]
    bytes.  (Of a shorter one it also reads the bytes behind it, which no
    name of that length matches.) *)
Definition arg_name (arg : string) : string := String.substring 0 CLUSTER_NAMELEN arg.

(** CLUSTER SETSLOT slot NODE id *)
Definition setslot_node (slot : nat) (node_id : string) : C (option Reply) :=
  let! known := clusterLookupNode (arg_name node_id) in
  match known with
  | None => cret (Some (RError ("Unknown node " +:+ node_id)))
  | Some n =>
      let! s := gets id in
      if bool_decide (slots s !! slot = Some (myself s)) && negb (bool_decide (n = myself s)) &&
         negb (countKeysInSlot slot =? 0)%Z
      then cret (Some (RError ("Can't assign hashslot " +:+ show_nat slot +:+
             " to a different node while I still hold keys for this hash slot.")))
      else
        cwhen (countKeysInSlot slot =? 0)%Z (modify (fun s => s <| migrating_slots_to ::= delete slot |>)) ;;
        (if bool_decide (n = myself s) && bool_decide (importing_slots_from s !! slot <> None) then
           let! _ := clusterBumpConfigEpochWithoutConsensus in
           modify (fun s => s <| importing_slots_from ::= delete slot |>)
         else skip) ;;
        let! _ := clusterDelSlot slot in
        let! _ := clusterAddSlot n slot in
        cret None
  end.

Definition cmd_setslot (slot_arg : string) (action : string) (rest : list string) : C Reply :=
  let! me := gets myself in
  let! my := deref me in
  if nodeIsSlave my then cret (RError "Please use SETSLOT only with masters.")
  else
    match getSlot slot_arg with
    | None => cret slot_error
    | Some slot =>
        let! s := gets id in
        let! failure :=
          match rest with
          | [name] =>
              if strcaseeq action "migrating" then
                if negb (bool_decide (slots s !! slot = Some me))
                then cret (Some (RError ("I'm not the owner of hash slot " +:+ show_nat slot)))
                else
                  match nodes s !! arg_name name with
                  | None => cret (Some (RError ("I don't know about node " +:+ name)))
                  | Some n => modify (fun s => s <| migrating_slots_to ::= <[slot := n]> |>) ;; cret None
                  end
              else if strcaseeq action "importing" then
                if bool_decide (slots s !! slot = Some me)
                then cret (Some (RError ("I'm already the owner of hash slot " +:+ show_nat slot)))
                else
                  match nodes s !! arg_name name with
                  | None => cret (Some (RError ("I don't know about node " +:+ action)))
                  | Some n => modify (fun s => s <| importing_slots_from ::= <[slot := n]> |>) ;; cret None
                  end
              else if strcaseeq action "node" then setslot_node slot name
              else cret (Some (RError "Invalid CLUSTER SETSLOT action or number of arguments"))
          | [] =>
              if strcaseeq action "stable" then
                modify (fun s => s <| importing_slots_from ::= delete slot |>
                                   <| migrating_slots_to ::= delete slot |>) ;; cret None
              else cret (Some (RError "Invalid CLUSTER SETSLOT action or number of arguments"))
          | _ => cret (Some (RError "Invalid CLUSTER SETSLOT action or number of arguments"))
          end in
        match failure with
        | Some e => cret e
        | None => clusterDoBeforeSleep [TODO_SAVE_CONFIG; TODO_UPDATE_STATE] ;; cret ROk
        end
    end.

Definition cmd_bumpepoch : C Reply :=
  let! bumped := clusterBumpConfigEpochWithoutConsensus in
  let! me := gets myself in
  let! my := deref me in
  cret (RStatus ((if (bumped : bool) then "BUMPED" else "STILL") +:+ " " +:+ show_Z (n_configEpoch my))).

Definition cmd_forget (name : string) : C Reply :=
  let! known := clusterLookupNode (arg_name name) in
  match known with
  | None => cret (RError ("Unknown node " +:+ name))
  | Some n =>
      let! me := gets myself in
      let! my := deref me in
      if decide (n = me) then cret (RError "I tried hard but I can't forget myself...")
      else if nodeIsSlave my && bool_decide (n_slaveof my = Some n)
      then cret (RError "Can't forget my master!")
      else
        clusterBlacklistAddNode n ;;
        clusterDelNode n ;;
        clusterDoBeforeSleep [TODO_UPDATE_STATE; TODO_SAVE_CONFIG] ;;
        cret ROk
  end.

Definition cmd_replicate (db_size : Z) (name : string) : C Reply :=
  let! known := clusterLookupNode (arg_name name) in
  match known with
  | None => cret (RError ("Unknown node " +:+ name))
  | Some p =>
      let! me := gets myself in
      let! n := deref p in
      let! my := deref me in
      if decide (p = me) then cret (RError "Can't replicate myself")
      else if nodeIsSlave n then cret (RError "I can only replicate a master, not a slave.")
      else if nodeIsMaster my && (negb (n_numslots my =? 0)%Z || negb (db_size =? 0)%Z)
      then cret (RError "To set a master the node must be empty and without assigned slots.")
      else
        clusterSetMaster p ;;
        clusterDoBeforeSleep [TODO_UPDATE_STATE; TODO_SAVE_CONFIG] ;;
        cret ROk
  end.

Definition cmd_failover (force takeover : bool) : C Reply :=
  let! me := gets myself in
  let! my := deref me in
  if nodeIsMaster my then cret (RError "You should send CLUSTER FAILOVER to a slave")
  else
    match n_slaveof my with
    | None => cret (RError "I'm a slave but my master is unknown to me")
    | Some m =>
        let! master := deref m in
        if negb force && (nodeFailed master || bool_decide (n_link master = None))
        then cret (RError "Master is down or failed, please use CLUSTER FAILOVER FORCE")
        else
          resetManualFailover ;;
          modify (fun s => s <| mf_end := (mstime s + CLUSTER_MF_TIMEOUT)%Z |>) ;;
          (if takeover then
             let! _ := clusterBumpConfigEpochWithoutConsensus in
             clusterFailoverReplaceYourMaster
           else if force then modify (fun s => s <| mf_can_start := true |>)
           else clusterSendMFStart m) ;;
          cret ROk
    end.

Definition cmd_set_config_epoch (arg : string) : C Reply :=
  match getLongLong arg with
  | None => cret RNotInteger
  | Some epoch =>
      let! s := gets id in
      let! my := deref (myself s) in
      if (epoch <? 0)%Z then cret (RError ("Invalid config epoch specified: " +:+ show_Z epoch))
      else if 1 <? base.size (nodes s) then
        cret (RError "The user can assign a config epoch only when the node does not know any other node.")
      else if negb (n_configEpoch my =? 0)%Z then cret (RError "Node config epoch is already non-zero")
      else
        update (myself s) (fun n => n <| n_configEpoch := epoch |>) ;;
        modify (fun s => if (currentEpoch s <? epoch)%Z then s <| currentEpoch := epoch |> else s) ;;
        clusterDoBeforeSleep [TODO_UPDATE_STATE; TODO_SAVE_CONFIG] ;;
        cret ROk
  end.

Definition cmd_reset (db_size : Z) (hard : bool) : C Reply :=
  let! me := gets myself in
  let! my := deref me in
  if nodeIsMaster my && negb (db_size =? 0)%Z
  then cret (RError "CLUSTER RESET can't be called with master nodes containing keys")
  else clusterReset hard ;; cret ROk.

(** ** Sub-commands that report *)

(** Assigned slots, and among them those fine, PFAIL and FAIL. *)
Definition count_slots : C (Z * Z * Z * Z) :=
  cfold all_slots (0, 0, 0, 0)%Z (fun acc j =>
    let '(assigned, ok, pfail, fail) := acc in
    let! owner := gets (fun s => slots s !! j) in
    match owner with
    | None => cret acc
    | Some p =>
        let! n := deref p in
        cret (if nodeFailed n then (assigned + 1, ok, pfail, fail + 1)%Z
              else if nodeTimedOut n then (assigned + 1, ok, pfail + 1, fail)%Z
              else (assigned + 1, ok + 1, pfail, fail)%Z)
    end).

Definition message_types : list MsgType :=
  [PING; PONG; MEET_MSG; FAIL_MSG; PUBLISH; FAILOVER_AUTH_REQUEST; FAILOVER_AUTH_ACK; UPDATE; MFSTART].

Definition stats_lines (counted : list MsgType) (suffix : string) : string :=
  foldr (fun t acc =>
    let n := count_occ MsgType_eq_dec counted t in
    (if n =? 0 then "" else "cluster_stats_messages_" +:+ clusterGetMessageTypeString (Some t) +:+
       "_" +:+ suffix +:+ ":" +:+ show_nat n +:+ crlf) +:+ acc) "" message_types
  +:+ "cluster_stats_messages_" +:+ suffix +:+ ":" +:+ show_nat (length counted) +:+ crlf.

Definition info_line (key value : string) : string := key +:+ ":" +:+ value +:+ crlf.

Definition cmd_info : C Reply :=
  let! (assigned, ok, pfail, fail) := count_slots in
  let! s := gets id in
  let! my := deref (myself s) in
  let! myepoch := match n_slaveof my with
                  | Some m => if nodeIsSlave my then let! n := deref m in cret (n_configEpoch n)
                              else cret (n_configEpoch my)
                  | None => cret (n_configEpoch my)
                  end in
  cret (RBulk (
    info_line "cluster_state" (match state s with CLUSTER_OK => "ok" | CLUSTER_FAIL => "fail" end) +:+
    info_line "cluster_slots_assigned" (show_Z assigned) +:+
    info_line "cluster_slots_ok" (show_Z ok) +:+
    info_line "cluster_slots_pfail" (show_Z pfail) +:+
    info_line "cluster_slots_fail" (show_Z fail) +:+
    info_line "cluster_known_nodes" (show_nat (base.size (nodes s))) +:+
    info_line "cluster_size" (show_Z (size s)) +:+
    info_line "cluster_current_epoch" (show_Z (currentEpoch s)) +:+
    info_line "cluster_my_epoch" (show_Z myepoch) +:+
    stats_lines (stats_sent s) "sent" +:+ stats_lines (stats_received s) "received")).

Definition cmd_countkeysinslot (arg : string) : C Reply :=
  match getLongLong arg with
  | None => cret RNotInteger
  | Some slot =>
      if ((slot <? 0) || (slot >=? Z.of_nat CLUSTER_SLOTS))%Z then cret (RError "Invalid slot")
      else cret (RInteger (countKeysInSlot (Z.to_nat slot)))
  end.

Definition cmd_getkeysinslot (slot_arg max_arg : string) : C Reply :=
  match getLongLong slot_arg, getLongLong max_arg with
  | Some slot, Some maxkeys =>
      if ((slot <? 0) || (slot >=? Z.of_nat CLUSTER_SLOTS) || (maxkeys <? 0))%Z
      then cret (RError "Invalid slot or number of keys")
      else cret (RArray (RBulk <$> getKeysInSlot (Z.to_nat slot) maxkeys))
  | _, _ => cret RNotInteger
  end.

Definition cmd_slaves (name : string) : C Reply :=
  let! known := clusterLookupNode (arg_name name) in
  match known with
  | None => cret (RError ("Unknown node " +:+ name))
  | Some p =>
      let! n := deref p in
      if nodeIsSlave n then cret (RError "The specified node is not a master")
      else
        let! l := cfold (n_slaves n) [] (fun acc q =>
          let! ni := clusterGenNodeDescription q in cret (acc ++ [RBulk ni])) in
        cret (RArray l)
  end.

Definition cmd_count_failure_reports (name : string) : C Reply :=
  let! known := clusterLookupNode (arg_name name) in
  match known with
  | None => cret (RError ("Unknown node " +:+ name))
  | Some p => let! n := clusterNodeFailureReportsCount p in cret (RInteger n)
  end.

Definition cmd_myid : C Reply :=
  let! me := gets myself in let! my := deref me in cret (RBulk (n_name my)).

(** ** Dispatch: the arguments after [CLUSTER] *)

Definition wrong_command : Reply := RError "Wrong CLUSTER subcommand or number of arguments".

(** [save_error]: the error [clusterSaveConfig] reports, if it fails. *)
Definition clusterCommand (enabled : bool) (db_size : Z) (save_error : option string) (argv : list string) : C Reply :=
  if negb enabled then cret (RError "This instance has cluster support disabled")
  else
    match argv with
    | sub :: args =>
        let is_ name := strcaseeq sub name in
        match args with
        | [] =>
            if is_ "nodes" then let! ci := clusterGenNodesDescription 0 in cret (RBulk ci)
            else if is_ "myid" then cmd_myid
            else if is_ "slots" then clusterReplyMultiBulkSlots
            else if is_ "flushslots" then cmd_flushslots db_size
            else if is_ "bumpepoch" then cmd_bumpepoch
            else if is_ "info" then cmd_info
            else if is_ "saveconfig" then
              match save_error with
              | None => clusterSaveConfigOrDie true ;; cret ROk
              | Some e => clear_todo TODO_SAVE_CONFIG ;; cret (RError ("error saving the cluster node config: " +:+ e))
              end
            else if is_ "failover" then cmd_failover false false
            else if is_ "reset" then cmd_reset db_size false
            else cret wrong_command
        | a :: rest =>
            if is_ "addslots" then cmd_addslots false args
            else if is_ "delslots" then cmd_addslots true args
            else
              match rest with
              | [] =>
                  if is_ "keyslot" then cret (RInteger (keyHashSlot a))
                  else if is_ "countkeysinslot" then cmd_countkeysinslot a
                  else if is_ "forget" then cmd_forget a
                  else if is_ "replicate" then cmd_replicate db_size a
                  else if is_ "slaves" then cmd_slaves a
                  else if is_ "count-failure-reports" then cmd_count_failure_reports a
                  else if is_ "failover" then
                    if strcaseeq a "force" then cmd_failover true false
                    else if strcaseeq a "takeover" then cmd_failover true true
                    else cret RSyntaxErr
                  else if is_ "set-config-epoch" then cmd_set_config_epoch a
                  else if is_ "reset" then
                    if strcaseeq a "hard" then cmd_reset db_size true
                    else if strcaseeq a "soft" then cmd_reset db_size false
                    else cret RSyntaxErr
                  else cret wrong_command
              | b :: more =>
                  if is_ "meet" && (length more <=? 1) then cmd_meet a b (head more)
                  else if is_ "setslot" then cmd_setslot a b more
                  else if is_ "getkeysinslot" && (length more =? 0) then cmd_getkeysinslot a b
                  else cret wrong_command
              end
        end
    | [] => crash
    end.
End command.
