(* ===== verification/ClusterRoute.v ===== *)
(** * Routing queries to nodes ([src/examples/cluster.c], [getNodeByQuery]
    and the redirections) *)

From Stdlib Require Import Ascii.
From stdpp Require Import base numbers pretty gmap strings list.
From S2P Require Import Prelude Text ClusterTypes ClusterSlots ClusterNodes ClusterCommand.

(** The kinds of command the routing distinguishes. *)
Inductive CommandProc := ExecCommand | MigrateCommand | OtherCommand.

#[export] Instance CommandProc_eq_dec : EqDecision CommandProc.
Proof. solve_decision. Defined.

Record RedisCommand := mkCommand {
  cmd_proc : CommandProc;
  cmd_asking : bool;       (* CMD_ASKING *)
  cmd_readonly : bool;     (* CMD_READONLY *)
}.

Record Client := mkClient {
  client_multi : bool;
  client_asking : bool;
  client_readonly : bool;
}.

(** [CLUSTER_REDIR_*] *)
Inductive Redir :=
| REDIR_NONE | REDIR_CROSS_SLOT | REDIR_UNSTABLE | REDIR_ASK | REDIR_MOVED
| REDIR_DOWN_STATE | REDIR_DOWN_UNBOUND.
#[export] Instance Redir_eq_dec : EqDecision Redir.
Proof. solve_decision. Defined.

Section route.
Context `{E : ClusterEnv}.

(** [lookupKeyRead(&server.db[0],key) != NULL] *)
Context (key_exists : string -> bool).

Definition key_slot (key : string) : nat := Z.to_nat (keyHashSlot key).

(** What the loop over the keys keeps: the first key, its slot and node,
    whether the slot is being migrated or imported, whether there are
    several keys, and how many are not here. *)
Record KeyScan := mkScanK {
  ks_firstkey : string;
  ks_slot : nat;
  ks_node : ptr;
  ks_migrating : bool;
  ks_importing : bool;
  ks_multiple : bool;
  ks_missing : Z;
}.

Definition count_missing (k : KeyScan) (key : string) : KeyScan :=
  if (ks_migrating k || ks_importing k) && negb (key_exists key) then
    mkScanK (ks_firstkey k) (ks_slot k) (ks_node k) (ks_migrating k) (ks_importing k)
      (ks_multiple k) (ks_missing k + 1)
  else k.

Definition first_key (s : cluster) (key : string) : Redir + KeyScan :=
  let slot := key_slot key in
  match slots s !! slot with
  | None => inl REDIR_DOWN_UNBOUND
  | Some n =>
      let migrating := bool_decide (n = myself s) && bool_decide (migrating_slots_to s !! slot <> None) in
      let importing := negb migrating && bool_decide (importing_slots_from s !! slot <> None) in
      inr (mkScanK key slot n migrating importing false 0)
  end.

Definition next_key (k : KeyScan) (key : string) : Redir + KeyScan :=
  if bool_decide (ks_firstkey k = key) then inr k
  else if negb (ks_slot k =? key_slot key) then inl REDIR_CROSS_SLOT
  else inr (mkScanK (ks_firstkey k) (ks_slot k) (ks_node k) (ks_migrating k) (ks_importing k)
              true (ks_missing k)).

Fixpoint scan_keys (s : cluster) (k : option KeyScan) (keys : list string) : Redir + option KeyScan :=
  match keys with
  | [] => inr k
  | key :: keys =>
      match (match k with None => first_key s key | Some k => next_key k key end) with
      | inl e => inl e
      | inr k => scan_keys s (Some (count_missing k key)) keys
      end
  end.

(** The node that can serve the request, if any, the redirection code, and
    the hash slot when it is determined.  [key_lists] are the keys of each
    queued command, or of the command itself. *)
Definition getNodeByQuery (c : Client) (cmd : RedisCommand) (key_lists : list (list string))
    : C (option ptr * Redir * option nat) :=
  let! s := gets id in
  let me := myself s in
  if bool_decide (cmd_proc cmd = ExecCommand) && negb (client_multi c)
  then cret (Some me, REDIR_NONE, None)
  else
    match scan_keys s None (concat key_lists) with
    | inl e => cret (None, e, None)
    | inr None => cret (Some me, REDIR_NONE, None)
    | inr (Some k) =>
        let slot := ks_slot k in
        let open := ks_migrating k || ks_importing k in
        if negb (bool_decide (state s = CLUSTER_OK)) then cret (None, REDIR_DOWN_STATE, None)
        else if open && bool_decide (cmd_proc cmd = MigrateCommand)
        then cret (Some me, REDIR_NONE, Some slot)
        else if ks_migrating k && negb (ks_missing k =? 0)%Z
        then cret (migrating_slots_to s !! slot, REDIR_ASK, Some slot)
        else if ks_importing k && (client_asking c || cmd_asking cmd) then
          if ks_multiple k && negb (ks_missing k =? 0)%Z
          then cret (None, REDIR_UNSTABLE, Some slot)
          else cret (Some me, REDIR_NONE, Some slot)
        else
          let! my := deref me in
          if client_readonly c && cmd_readonly cmd && nodeIsSlave my &&
             bool_decide (n_slaveof my = Some (ks_node k))
          then cret (Some me, REDIR_NONE, Some slot)
          else cret (Some (ks_node k),
                     if decide (ks_node k = me) then REDIR_NONE else REDIR_MOVED, Some slot)
    end.

(** [clusterRedirectClient]: the reply; [serverPanic] on other codes. *)
Definition clusterRedirectClient (n : option ptr) (hashslot : nat) (error_code : Redir) : C string :=
  match error_code with
  | REDIR_CROSS_SLOT => cret ("-CROSSSLOT Keys in request don't hash to the same slot" +:+ crlf)
  | REDIR_UNSTABLE => cret ("-TRYAGAIN Multiple keys request during rehashing of slot" +:+ crlf)
  | REDIR_DOWN_STATE => cret ("-CLUSTERDOWN The cluster is down" +:+ crlf)
  | REDIR_DOWN_UNBOUND => cret ("-CLUSTERDOWN Hash slot not served" +:+ crlf)
  | REDIR_MOVED | REDIR_ASK =>
      match n with
      | None => crash
      | Some p =>
          let! node := deref p in
          cret ("-" +:+ (if decide (error_code = REDIR_ASK) then "ASK" else "MOVED") +:+ " " +:+
                show_nat hashslot +:+ " " +:+ n_ip node +:+ ":" +:+ show_Z (n_port node) +:+ crlf)
      end
  | REDIR_NONE => crash
  end.

(** The first key of a blocked client that this node no longer handles. *)
Fixpoint blocked_key (keys : list string) : C (option string) :=
  match keys with
  | [] => cret None
  | key :: keys =>
      let! s := gets id in
      let slot := key_slot key in
      let node := slots s !! slot in
      if negb (bool_decide (node = Some (myself s))) &&
         bool_decide (importing_slots_from s !! slot = None)
      then
        let! r := match node with
                  | None => clusterRedirectClient None 0 REDIR_DOWN_UNBOUND
                  | Some _ => clusterRedirectClient node slot REDIR_MOVED
                  end in
        cret (Some r)
      else blocked_key keys
  end.

(** The reply that unblocks the client, if it has to be redirected. *)
Definition clusterRedirectBlockedClientIfNeeded (blocked_on_list : bool) (keys : list string)
    : C (option string) :=
  if blocked_on_list then
    let! st := gets state in
    if bool_decide (st = CLUSTER_FAIL) then
      let! r := clusterRedirectClient None 0 REDIR_DOWN_STATE in cret (Some r)
    else blocked_key keys
  else cret None.
End route.
