(* ===== verification/ClusterBitmap.v ===== *)
(** * Bitmaps as sets of positions *)

From Stdlib Require Import Ascii.
From stdpp Require Import base numbers gmap strings list.
From S2P Require Import Prelude Text ClusterTypes ClusterSlots.

Lemma land_bit (b k : Z) : (0 <= k)%Z -> negb (Z.land b (Z.shiftl 1 k) =? 0)%Z = Z.testbit b k.
Proof.
  intros Hk. rewrite Z.shiftl_1_l. destruct (Z.testbit b k) eqn:Hb.
  - destruct (Z.eqb_spec (Z.land b (2 ^ k)) 0) as [H|]; [|done].
    assert (Z.testbit (Z.land b (2 ^ k)) k = true) as Ht
      by (by rewrite Z.land_spec, Hb, Z.pow2_bits_true).
    by rewrite H, Z.bits_0 in Ht.
  - replace (Z.land b (2 ^ k)) with 0%Z; [done|]. symmetry. apply Z.bits_inj'. intros m Hm.
    rewrite Z.land_spec, Z.bits_0, Z.pow2_bits_eqb by done.
    destruct (Z.eqb_spec k m) as [->|]; [by rewrite Hb|by rewrite andb_false_r].
Qed.

Lemma bit_mask_mod pos : bit_mask pos = Z.shiftl 1 (Z.of_nat (pos mod 8)).
Proof. unfold bit_mask. f_equal. change 7%Z with (Z.ones 3). rewrite Z.land_ones by done. by rewrite Nat2Z.inj_mod. Qed.

Lemma bitmapTestBit_testbit bm pos :
  bitmapTestBit bm pos = Z.testbit (bitmap_byte bm pos) (Z.of_nat (pos mod 8)).
Proof. unfold bitmapTestBit. rewrite bit_mask_mod. apply land_bit. lia. Qed.

Lemma length_set bm pos : length (bitmapSetBit bm pos) = length bm.
Proof. apply length_alter. Qed.
Lemma length_clear bm pos : length (bitmapClearBit bm pos) = length bm.
Proof. apply length_alter. Qed.

(** Positions agree when their bytes and their bits do. *)
Lemma pos_eq pos q : pos / 8 = q / 8 -> pos mod 8 = q mod 8 -> pos = q.
Proof. intros H1 H2. rewrite (Nat.div_mod_eq pos 8), (Nat.div_mod_eq q 8). by rewrite H1, H2. Qed.

Lemma testbit_shiftl_1 k m : Z.testbit (Z.shiftl 1 (Z.of_nat k)) (Z.of_nat m) = (k =? m).
Proof.
  rewrite Z.shiftl_1_l, Z.pow2_bits_eqb by lia.
  destruct (Nat.eqb_spec k m) as [->|]; [apply Z.eqb_refl|apply Z.eqb_neq; lia].
Qed.

Lemma test_set bm pos q :
  pos < 8 * length bm -> bitmapTestBit (bitmapSetBit bm pos) q = (pos =? q) || bitmapTestBit bm q.
Proof.
  intros Hpos. rewrite !bitmapTestBit_testbit. unfold bitmap_byte, bitmapSetBit.
  destruct (decide (pos / 8 = q / 8)) as [Hb|Hb].
  - rewrite Hb, list_lookup_alter_eq.
    destruct (lookup_lt_is_Some_2 bm (q / 8)) as [b Hq]; [rewrite <-Hb; apply Nat.Div0.div_lt_upper_bound; lia|].
    rewrite Hq. cbn. rewrite Z.lor_spec, bit_mask_mod, testbit_shiftl_1, orb_comm. f_equal.
    destruct (Nat.eqb_spec pos q) as [->|Hne]; [apply Nat.eqb_refl|].
    apply Nat.eqb_neq. intros Hm. by apply Hne, pos_eq.
  - rewrite list_lookup_alter_ne by done.
    destruct (Nat.eqb_spec pos q) as [->|]; [done|]. done.
Qed.

Lemma test_clear bm pos q :
  bitmapTestBit (bitmapClearBit bm pos) q = negb (pos =? q) && bitmapTestBit bm q.
Proof.
  rewrite !bitmapTestBit_testbit. unfold bitmap_byte, bitmapClearBit.
  destruct (decide (pos / 8 = q / 8)) as [Hb|Hb].
  - rewrite Hb, list_lookup_alter_eq.
    destruct (bm !! (q / 8)) as [b|]; cbn; [|by rewrite Z.bits_0, andb_false_r].
    rewrite Z.land_spec, Z.lnot_spec by lia. rewrite bit_mask_mod, testbit_shiftl_1, andb_comm. f_equal. f_equal.
    destruct (Nat.eqb_spec pos q) as [->|Hne]; [apply Nat.eqb_refl|].
    apply Nat.eqb_neq. intros Hm. by apply Hne, pos_eq.
  - rewrite list_lookup_alter_ne by done.
    destruct (Nat.eqb_spec pos q) as [->|]; [done|]. done.
Qed.

Lemma test_zero n pos : bitmapTestBit (replicate n 0%Z) pos = false.
Proof.
  rewrite bitmapTestBit_testbit. unfold bitmap_byte.
  destruct (replicate n 0%Z !! (pos / 8)) eqn:H; cbn; [|apply Z.bits_0].
  apply lookup_replicate in H as [-> _]. apply Z.bits_0.
Qed.

(** ** The number of set positions below a bound *)

Definition bit_count (bm : list Z) (n : nat) : nat :=
  length (List.filter (bitmapTestBit bm) (seq 0 n)).

Lemma filter_ext_seq (f g : nat -> bool) a n :
  (forall i, a <= i < a + n -> f i = g i) -> List.filter f (seq a n) = List.filter g (seq a n).
Proof.
  revert a. induction n as [|n IH]; intros a H; cbn; [done|].
  rewrite (H a), IH; [done| |lia]. intros i Hi. apply H. lia.
Qed.

(** Two predicates that differ at one position. *)
Lemma count_flip (f g : nat -> bool) a n p :
  a <= p < a + n -> f p = false -> g p = true -> (forall i, i <> p -> f i = g i) ->
  length (List.filter g (seq a n)) = S (length (List.filter f (seq a n))).
Proof.
  revert a. induction n as [|n IH]; intros a Hp Hf Hg He; [lia|]. cbn.
  destruct (decide (a = p)) as [->|Ha].
  - rewrite Hf, Hg. cbn. do 2 f_equal. symmetry. apply filter_ext_seq. intros i Hi. apply He. lia.
  - rewrite (He a) by done. assert (a <> p) by done.
    destruct (g a); cbn; rewrite (IH (S a)); try done; lia.
Qed.

Lemma bit_count_set bm pos n :
  pos < n -> pos < 8 * length bm -> bitmapTestBit bm pos = false ->
  bit_count (bitmapSetBit bm pos) n = S (bit_count bm n).
Proof.
  intros Hn Hl Hb. unfold bit_count. apply (count_flip _ _ 0 n pos); [lia|done| |].
  - by rewrite test_set, Nat.eqb_refl.
  - intros i Hi. rewrite test_set by done. destruct (Nat.eqb_spec pos i); [congruence|done].
Qed.

Lemma bit_count_clear bm pos n :
  pos < n -> bitmapTestBit bm pos = true ->
  bit_count bm n = S (bit_count (bitmapClearBit bm pos) n).
Proof.
  intros Hn Hb. unfold bit_count. apply (count_flip _ _ 0 n pos); [lia| |done|].
  - by rewrite test_clear, Nat.eqb_refl.
  - intros i Hi. rewrite test_clear. destruct (Nat.eqb_spec pos i); [congruence|done].
Qed.

Lemma bit_count_zero k n : bit_count (replicate k 0%Z) n = 0.
Proof.
  unfold bit_count. induction (seq 0 n) as [|i l IH]; cbn; [done|]. by rewrite test_zero.
Qed.
