(* ===== verification/ClusterInv.v ===== *)
(** * Invariants of the cluster state, and how the handlers' building blocks
    preserve them

    Ownership: the slot table, the nodes' slot bitmaps and the nodes' slot
    counters tell the same story.  Epochs: the current epoch only grows
    and the last vote is not ahead of it. *)

From Stdlib Require Import Ascii Sorted.
From stdpp Require Import base numbers gmap strings list.
From S2P Require Import Prelude Text ClusterTypes ClusterSlots ClusterNodes ClusterBitmap.

(** ** Predicates a computation preserves *)

Definition pres {A : Type} (P : cluster -> Prop) (m : C A) : Prop :=
  forall s a s', P s -> m s = Ok (a, s') -> P s'.

Lemma pres_conj {A : Type} P Q (m : C A) :
  pres P m -> pres Q m -> pres (fun s => P s /\ Q s) m.
Proof. intros HP HQ s a s' [H1 H2] Hm. split; [by eapply HP|by eapply HQ]. Qed.

Section pres.
Context (P : cluster -> Prop).

Lemma pres_ret {A : Type} (a : A) : pres P (cret a).
Proof. by intros s ? s' H [= <- <-]. Qed.

Lemma pres_skip : pres P skip.
Proof. apply pres_ret. Qed.

Lemma pres_bind {A B : Type} (m : C A) (k : A -> C B) :
  pres P m -> (forall a, pres P (k a)) -> pres P (cbind m k).
Proof.
  intros Hm Hk s b s' Hs H. unfold cbind in H.
  apply res_bind_ok in H as ([a s1] & H1 & H2). eapply Hk; [|exact H2]. by eapply Hm.
Qed.

Lemma pres_gets {A : Type} (f : cluster -> A) : pres P (gets f).
Proof. by intros s ? s' H [= <- <-]. Qed.

Lemma pres_crash {A : Type} : pres P (crash (A:=A)).
Proof. by intros s ? s' H. Qed.

Lemma pres_assert b : pres P (serverAssert b).
Proof. destruct b; [apply pres_ret|apply pres_crash]. Qed.

Lemma pres_deref p : pres P (deref p).
Proof. intros s ? s' H. unfold deref. destruct (heap s !! p); [|done]. by intros [= <- <-]. Qed.

Lemma pres_deref_link l : pres P (deref_link l).
Proof. intros s ? s' H. unfold deref_link. destruct (links s !! l); [|done]. by intros [= <- <-]. Qed.

Lemma pres_when b m : pres P m -> pres P (cwhen b m).
Proof. intros H. destruct b; [exact H|apply pres_ret]. Qed.

Lemma pres_for {A : Type} (l : list A) f :
  (forall a, a ∈ l -> pres P (f a)) -> pres P (cfor l f).
Proof.
  induction l as [|a l IH]; intros Hf; cbn; [apply pres_ret|].
  apply pres_bind; [apply Hf; by left|]. intros []. apply IH. intros b Hb. apply Hf. by right.
Qed.

Lemma pres_fold {A T : Type} (l : list A) (acc : T) f :
  (forall acc a, a ∈ l -> pres P (f acc a)) -> pres P (cfold l acc f).
Proof.
  revert acc. induction l as [|a l IH]; intros acc Hf; cbn; [apply pres_ret|].
  apply pres_bind; [apply Hf; by left|]. intros acc'. apply IH. intros b c Hb. apply Hf. by right.
Qed.

Lemma pres_modify f : (forall s, P s -> P (f s)) -> pres P (modify f).
Proof. intros Hf s ? s' H [= <- <-]. by apply Hf. Qed.

Lemma pres_update p f :
  (forall s n, P s -> heap s !! p = Some n -> P (s <| heap ::= <[p := f n]> |>)) -> pres P (update p f).
Proof.
  intros Hf s ? s' H. unfold update. destruct (heap s !! p) as [n|] eqn:Hp; [|done].
  intros [= <- <-]. by apply Hf.
Qed.
End pres.

Section invariant.
Context `{E : ClusterEnv}.

Record slot_inv (s : cluster) : Prop := {
  iv_fresh : forall p, next_ptr s <= p -> heap s !! p = None;
  iv_bytes : forall p n, heap s !! p = Some n -> 8 * length (n_slots n) = CLUSTER_SLOTS;
  iv_owner : forall j p, slots s !! j = Some p ->
    j < CLUSTER_SLOTS /\ exists n, heap s !! p = Some n /\ bitmapTestBit (n_slots n) j = true;
  iv_bit : forall p n j, heap s !! p = Some n -> j < CLUSTER_SLOTS ->
    bitmapTestBit (n_slots n) j = true -> slots s !! j = Some p;
  iv_count : forall p n, heap s !! p = Some n ->
    n_numslots n = Z.of_nat (bit_count (n_slots n) CLUSTER_SLOTS);
}.

(** The votes a node has cast: the epochs of the acknowledgements it sent. *)
Definition vote_of (e : effect) : option Z :=
  match e with
  | SendMessage _ m => if bool_decide (h_type m = Some FAILOVER_AUTH_ACK)
                       then Some (h_currentEpoch m) else None
  | _ => None
  end.
Definition votes (s : cluster) : list Z := omap vote_of (effects s).

(** The epochs of a list are distinct and in increasing order. *)
Definition increasing : list Z -> Prop := StronglySorted Z.lt.

Lemma increasing_NoDup l : increasing l -> NoDup l.
Proof.
  intros Hl. apply NoDup_ListNoDup. induction Hl as [|v l Hl IH Hv]; constructor; [|done].
  intros Hin. rewrite List.Forall_forall in Hv. specialize (Hv _ Hin). lia.
Qed.

(** Epochs since the current epoch was [e0]; a wrapped counter voids it. *)
Record epochs_ok (e0 : Z) (s : cluster) : Prop := {
  ei_current : (0 <= e0 <= currentEpoch s /\ currentEpoch s < 2 ^ 64)%Z;
  ei_vote : (lastVoteEpoch s <= currentEpoch s)%Z;
  ei_votes : increasing (votes s);
  ei_last : Forall (fun v => v <= lastVoteEpoch s)%Z (votes s);
}.
Definition epoch_inv (e0 : Z) (s : cluster) : Prop := EpochWrapped ∈ effects s \/ epochs_ok e0 s.

(** Both; without a starting epoch, only the ownership part. *)
Definition epochs_inv (oe : option Z) (s : cluster) : Prop :=
  match oe with Some e0 => epoch_inv e0 s | None => True end.

Definition Inv (oe : option Z) (s : cluster) : Prop := slot_inv s /\ epochs_inv oe s.

(** ** Preservation *)

Lemma all_slots_lt j : j ∈ all_slots -> j < CLUSTER_SLOTS.
Proof. intros H%elem_of_seq. lia. Qed.

(** A step that leaves nodes, slot table and epochs alone. *)
Definition quiet (f : cluster -> cluster) : Prop := forall s,
  heap (f s) = heap s /\ next_ptr (f s) = next_ptr s /\ slots (f s) = slots s /\
  currentEpoch (f s) = currentEpoch s /\ lastVoteEpoch (f s) = lastVoteEpoch s /\
  effects (f s) = effects s.

Lemma epochs_inv_same oe s s' :
  currentEpoch s' = currentEpoch s -> lastVoteEpoch s' = lastVoteEpoch s ->
  effects s' = effects s -> epochs_inv oe s -> epochs_inv oe s'.
Proof.
  intros H4 H5 H6 He. destruct oe as [e0|]; [|done]. cbn in *. unfold epoch_inv in *. rewrite H6.
  destruct He as [He|[]]; [by left|right].
  constructor; unfold votes in *; rewrite ?H4, ?H5, ?H6; done.
Qed.

Lemma Inv_same oe s s' :
  heap s' = heap s -> next_ptr s' = next_ptr s -> slots s' = slots s ->
  currentEpoch s' = currentEpoch s -> lastVoteEpoch s' = lastVoteEpoch s ->
  effects s' = effects s -> Inv oe s -> Inv oe s'.
Proof.
  intros H1 H2 H3 H4 H5 H6 [[] He]. split; [|by eapply epochs_inv_same].
  constructor; intros *; rewrite ?H1, ?H2, ?H3; eauto.
Qed.

Lemma pres_quiet oe f : quiet f -> pres (Inv oe) (modify f).
Proof. intros Hf. apply pres_modify. intros s. destruct (Hf s) as (?&?&?&?&?&?). by apply Inv_same. Qed.

(** Updating a node without touching its slots. *)
Definition keeps_slots (f : clusterNode -> clusterNode) : Prop :=
  forall n, n_slots (f n) = n_slots n /\ n_numslots (f n) = n_numslots n.

Lemma pres_keep oe p f : keeps_slots f -> pres (Inv oe) (update p f).
Proof.
  intros Hf. apply pres_update. intros s n [[H1 H2 H3 H4 H5] He] Hp.
  destruct (Hf n) as [Hs Hc]. split; [|by eapply epochs_inv_same; [..|exact He]]. constructor; cbn.
  - intros q Hq. rewrite lookup_insert_ne; [by apply H1|].
    intros ->. rewrite (H1 q) in Hp by done. done.
  - intros q m [[-> <-]|[? Hm]]%lookup_insert_Some; [rewrite Hs|]; eauto.
  - intros j q Hj. destruct (H3 j q Hj) as (? & m & Hm & Hb). split; [done|].
    destruct (decide (p = q)) as [->|Hq].
    + exists (f n). rewrite lookup_insert_eq. split; [done|]. rewrite Hs. congruence.
    + exists m. by rewrite lookup_insert_ne.
  - intros q m j [[-> <-]|[? Hm]]%lookup_insert_Some Hj Hb; [|by eapply H4].
    rewrite Hs in Hb. by eapply H4.
  - intros q m [[-> <-]|[? Hm]]%lookup_insert_Some; [|by eapply H5]. rewrite Hc, Hs. by eapply H5.
Qed.

Lemma votes_emit s e : vote_of e = None -> votes (s <| effects ::= fun es => es ++ [e] |>) = votes s.
Proof. intros He. unfold votes. cbn. rewrite omap_app. cbn. by rewrite He, app_nil_r. Qed.

Lemma epoch_inv_emit e0 s e :
  vote_of e = None -> epoch_inv e0 s -> epoch_inv e0 (s <| effects ::= fun es => es ++ [e] |>).
Proof.
  intros Hv [He|[]]; [left; apply elem_of_app; by left|right].
  constructor; rewrite ?votes_emit by done; done.
Qed.

Lemma pres_emit oe e : vote_of e = None -> pres (Inv oe) (emit e).
Proof.
  intros Hv. apply pres_modify. intros s [[] He]. split; [by constructor|].
  destruct oe; [|done]. by apply epoch_inv_emit.
Qed.

Lemma pres_next_epoch oe : pres (Inv oe) next_epoch.
Proof.
  intros s ? s' [Hs He] H. unfold next_epoch, cbind, gets, modify in H. cbn in H.
  unfold cwhen in H. destruct (Z.eqb_spec (u64 (currentEpoch s + 1)) 0) as [Hz|Hz].
  - injection H as <- <-. split; [destruct Hs; by constructor|]. destruct oe; [|done]. left. cbn.
    apply elem_of_app. right. by left.
  - injection H as <- <-. split; [destruct Hs; by constructor|]. destruct oe as [e0|]; [|done].
    destruct He as [He|[H1 H2 H3 H4]]; [by left|right]. unfold u64 in *.
    assert ((currentEpoch s + 1) mod 2 ^ 64 = currentEpoch s + 1 /\ currentEpoch s + 1 < 2 ^ 64)%Z
      as [Heq ?].
    { assert (0 <= currentEpoch s + 1 < 2 ^ 64)%Z; [|split; [by apply Z.mod_small|lia]].
      split; [lia|]. destruct (Z.eq_dec (currentEpoch s + 1)%Z (2 ^ 64)%Z) as [Heq|]; [|lia].
      rewrite Heq, Z_mod_same_full in Hz. done. }
    constructor; cbn; rewrite ?Heq; [lia|lia|done|done].
Qed.
End invariant.

#[export] Hint Unfold quiet keeps_slots : core.

(** Proves [pres P m] for a function from the lemmas of its callees. *)
Create HintDb pres discriminated.
#[export] Hint Resolve pres_ret pres_skip pres_gets pres_crash pres_assert pres_deref pres_deref_link pres_emit
  pres_next_epoch : pres.
#[export] Hint Resolve all_slots_lt : pres.
#[export] Hint Extern 1 (vote_of _ = None) => reflexivity : pres.

Ltac quiet_step :=
  first
  [ apply pres_quiet; intros ?s; cbn; repeat case_match; cbn; split_and!; done
  | apply pres_keep; intros ?n; repeat case_match; split; done
  | apply pres_modify; let s := fresh in let H := fresh in
    intros s H; cbn; repeat case_match; exact H
  | apply pres_update; let s := fresh in let n := fresh in let H := fresh in
    intros s n H _; exact H ].

Ltac pres_step :=
  match goal with
  | |- pres _ _ => solve [auto 3 with pres nocore]
  | |- pres _ (cbind _ _) => apply pres_bind; [|intros]
  | |- pres _ (let '(_, _) := ?x in _) => destruct x
  | |- pres _ (if ?b then _ else _) => destruct b
  | |- pres _ (match ?x with _ => _ end) => destruct x
  | |- pres _ (cwhen _ _) => apply pres_when
  | |- pres _ (cfor _ _) => apply pres_for; intros
  | |- pres _ (cfold _ _ _) => apply pres_fold; intros
  | |- pres _ (modify _) => quiet_step
  | |- pres _ (update _ _) => quiet_step
  | |- forall _, _ => intros
  end.
Ltac pres := repeat (cbv beta iota zeta; pres_step).
