(* ===== verification/ClusterPreserve.v ===== *)
(** * The functions of the cluster preserve its invariants

    One lemma per function of the source, in the order of the files that
    model them; [pres] composes them from their callees'. *)

From Stdlib Require Import Ascii.
From stdpp Require Import base numbers gmap strings list.
From S2P Require Import Prelude Text ClusterTypes ClusterSlots ClusterNodes ClusterBus ClusterGossip ClusterFailover ClusterPacket ClusterCron ClusterCommand ClusterBitmap ClusterInv.

Section preserve.
Context `{E : ClusterEnv}.

(** ** Assigning and releasing one slot *)

(** Computations that only read. *)
Definition reads {A : Type} (m : C A) : Prop := forall s a s', m s = Ok (a, s') -> s' = s.

Lemma reads_pres {A : Type} (m : C A) : (forall s, pres (eq s) m) -> reads m.
Proof. intros H s a s' Hm. symmetry. by eapply H. Qed.

Lemma pres_reads {A : Type} P (m : C A) : reads m -> pres P m.
Proof. intros H s a s' Hs Hm. apply H in Hm as ->. done. Qed.

Lemma clusterMastersHaveSlaves_reads : reads clusterMastersHaveSlaves.
Proof. apply reads_pres. intros s. unfold clusterMastersHaveSlaves, all_nodes. pres. Qed.

(** Only node [n] of the heap changes, from [node] to [node']. *)
Definition node_step (n : ptr) (node node' : clusterNode) (s s' : cluster) : Prop :=
  heap s !! n = Some node /\ s' = s <| heap := <[n := node']> (heap s) |>.

Lemma node_step_trans n a b c s s1 s2 :
  node_step n a b s s1 -> node_step n b c s1 s2 -> node_step n a c s s2.
Proof.
  intros [H1 ->] [H2 ->]. split; [done|]. cbn. by rewrite insert_insert_eq.
Qed.

Lemma update_step n f s u s' :
  update n f s = Ok (u, s') -> exists node, node_step n node (f node) s s'.
Proof.
  unfold update. destruct (heap s !! n) as [node|] eqn:Hn; [|done]. intros [= <- <-].
  by exists node.
Qed.

(** The next update of the same node. *)
Lemma update_step_next n a b f s s1 u s2 :
  node_step n a b s s1 -> update n f s1 = Ok (u, s2) -> node_step n a (f b) s s2.
Proof.
  intros [Ha ->] (node & Hn & ->)%update_step. cbn in *. rewrite lookup_insert_eq in Hn.
  injection Hn as <-. split; [done|]. cbn. by rewrite insert_insert_eq.
Qed.

Lemma deref_ok p s n s' : deref p s = Ok (n, s') -> heap s !! p = Some n /\ s' = s.
Proof. unfold deref. destruct (heap s !! p); [|done]. by intros [= <- <-]. Qed.

Lemma cbind_ok {A B : Type} (m : C A) (k : A -> C B) s b s' :
  cbind m k s = Ok (b, s') -> exists a s1, m s = Ok (a, s1) /\ k a s1 = Ok (b, s').
Proof. unfold cbind. intros ([a s1] & H1 & H2)%res_bind_ok. eauto. Qed.

Lemma clusterNodeSetSlotBit_step n slot s old s' :
  clusterNodeSetSlotBit n slot s = Ok (old, s') ->
  exists node node', node_step n node node' s s' /\ old = bitmapTestBit (n_slots node) slot /\
    n_slots node' = bitmapSetBit (n_slots node) slot /\
    n_numslots node' = (if old then n_numslots node else n_numslots node + 1)%Z.
Proof.
  unfold clusterNodeSetSlotBit. intros H.
  apply cbind_ok in H as (node & s0 & [Hn ->]%deref_ok & H).
  apply cbind_ok in H as (u & s1 & H1 & H).
  apply update_step in H1 as (node0 & H1).
  assert (node0 = node) as -> by (destruct H1; congruence).
  apply cbind_ok in H as (u2 & s2 & H2 & H). injection H as <- <-.
  destruct (bitmapTestBit (n_slots node) slot) eqn:Hb; cbn [negb] in H2.
  { injection H2 as _ <-. eexists _, _. split; [exact H1|]. done. }
  apply cbind_ok in H2 as (u3 & s3 & H3 & H2). apply (update_step_next _ _ _ _ _ _ _ _ H1) in H3.
  apply cbind_ok in H2 as (node2 & s4 & [Hn2 ->]%deref_ok & H2).
  destruct (_ =? 1)%Z; [|injection H2 as _ <-; eexists _, _; split; [exact H3|done]].
  apply cbind_ok in H2 as (have & s5 & Hr & H2). apply clusterMastersHaveSlaves_reads in Hr as ->.
  destruct have; cbn [cwhen] in H2.
  - apply (update_step_next _ _ _ _ _ _ _ _ H3) in H2. eexists _, _. split; [exact H2|done].
  - injection H2 as _ <-. eexists _, _. split; [exact H3|done].
Qed.

Lemma clusterNodeClearSlotBit_step n slot s old s' :
  clusterNodeClearSlotBit n slot s = Ok (old, s') ->
  exists node node', node_step n node node' s s' /\ old = bitmapTestBit (n_slots node) slot /\
    n_slots node' = bitmapClearBit (n_slots node) slot /\
    n_numslots node' = (if old then n_numslots node - 1 else n_numslots node)%Z.
Proof.
  unfold clusterNodeClearSlotBit. intros H.
  apply cbind_ok in H as (node & s0 & [Hn ->]%deref_ok & H).
  apply cbind_ok in H as (u & s1 & H1 & H).
  apply update_step in H1 as (node0 & H1).
  assert (node0 = node) as -> by (destruct H1; congruence).
  apply cbind_ok in H as (u2 & s2 & H2 & H). injection H as <- <-.
  destruct (bitmapTestBit (n_slots node) slot) eqn:Hb; cbn [cwhen] in H2.
  - apply (update_step_next _ _ _ _ _ _ _ _ H1) in H2. eexists _, _. split; [exact H2|done].
  - injection H2 as _ <-. eexists _, _. split; [exact H1|done].
Qed.

Lemma pres_clusterAddSlot oe `{!ClusterLaws E} n slot :
  slot < CLUSTER_SLOTS -> pres (Inv oe) (clusterAddSlot n slot).
Proof.
  intros Hslot s ok s' [HI He] H. unfold clusterAddSlot in H.
  apply cbind_ok in H as (owner & s0 & [= <- <-] & H).
  destruct (slots s !! slot) as [o|] eqn:Ho; [by injection H as _ <-|].
  apply cbind_ok in H as (old & s1 & (node & node' & [Hn ->] & -> & Hsl & Hnum)%clusterNodeSetSlotBit_step & H).
  apply cbind_ok in H as (u & s2 & [= <- <-] & [= _ <-]).
  destruct HI as [H1 H2 H3 H4 H5].
  assert (Hb : bitmapTestBit (n_slots node) slot = false).
  { destruct (bitmapTestBit _ slot) eqn:Hb; [|done]. pose proof (H4 _ _ _ Hn Hslot Hb). congruence. }
  rewrite Hb in Hnum. pose proof (H2 _ _ Hn) as Hlen. split; [|by eapply epochs_inv_same; [..|exact He]]. constructor; cbn.
  - intros p Hp. rewrite lookup_insert_ne; [by apply H1|]. intros ->. rewrite H1 in Hn; done.
  - intros p m [[-> <-]|[? Hm]]%lookup_insert_Some; [|eauto]. by rewrite Hsl, length_set.
  - intros j p [[-> <-]|[Hj Hjp]]%lookup_insert_Some.
    + split; [done|]. exists node'. rewrite lookup_insert_eq. split; [done|].
      by rewrite Hsl, test_set, Nat.eqb_refl by lia.
    + destruct (H3 _ _ Hjp) as (? & m & Hm & Hmb). split; [done|].
      destruct (decide (n = p)) as [->|Hnp].
      * exists node'. rewrite lookup_insert_eq. split; [done|]. rewrite Hsl, test_set by lia.
        assert (m = node) as -> by congruence. by rewrite Hmb, orb_true_r.
      * exists m. by rewrite lookup_insert_ne.
  - intros p m j [[-> <-]|[Hnp Hm]]%lookup_insert_Some Hj Hjb.
    + rewrite Hsl, test_set in Hjb by lia. destruct (Nat.eqb_spec slot j) as [->|Hne].
      * by rewrite lookup_insert_eq.
      * rewrite lookup_insert_ne by done. by eapply H4.
    + destruct (decide (slot = j)) as [->|Hne].
      * apply (H4 _ _ _ Hm Hj) in Hjb. congruence.
      * rewrite lookup_insert_ne by done. by eapply H4.
  - intros p m [[-> <-]|[Hnp Hm]]%lookup_insert_Some; [|eauto].
    rewrite Hnum, Hsl, bit_count_set by (done || lia). rewrite (H5 _ _ Hn). lia.
Qed.

Lemma pres_clusterDelSlot oe slot : pres (Inv oe) (clusterDelSlot slot).
Proof.
  intros s ok s' [HI He] H. unfold clusterDelSlot in H.
  apply cbind_ok in H as (owner & s0 & [= <- <-] & H).
  destruct (slots s !! slot) as [n|] eqn:Ho; [|by injection H as _ <-].
  apply cbind_ok in H as (old & s1 & (node & node' & [Hn ->] & -> & Hsl & Hnum)%clusterNodeClearSlotBit_step & H).
  destruct HI as [H1 H2 H3 H4 H5]. destruct (H3 _ _ Ho) as (Hslot & m & Hm & Hb).
  assert (m = node) as -> by congruence. rewrite Hb in *.
  apply cbind_ok in H as (u & s2 & [= <- <-] & H).
  apply cbind_ok in H as (u' & s3 & [= <- <-] & [= _ <-]).
  split; [|by eapply epochs_inv_same; [..|exact He]]. constructor; cbn.
  - intros p Hp. rewrite lookup_insert_ne; [by apply H1|]. intros ->. rewrite H1 in Hn; done.
  - intros p m [[-> <-]|[? Hm']]%lookup_insert_Some; [|eauto]. rewrite Hsl, length_clear. eauto.
  - intros j p [Hj Hjp]%lookup_delete_Some.
    destruct (H3 _ _ Hjp) as (? & m & Hm' & Hmb). split; [done|].
    destruct (decide (n = p)) as [->|Hnp].
    + exists node'. rewrite lookup_insert_eq. split; [done|]. rewrite Hsl, test_clear.
      assert (m = node) as -> by congruence. rewrite Hmb, andb_true_r.
      apply negb_true_iff. by apply Nat.eqb_neq.
    + exists m. by rewrite lookup_insert_ne.
  - intros p m j [[-> <-]|[Hnp Hm']]%lookup_insert_Some Hj Hjb.
    + rewrite Hsl, test_clear in Hjb. apply andb_true_iff in Hjb as [Hne Hjb].
      apply negb_true_iff, Nat.eqb_neq in Hne. rewrite lookup_delete_ne by done. by eapply H4.
    + pose proof (H4 _ _ _ Hm' Hj Hjb). rewrite lookup_delete_ne; [done|]. intros ->. congruence.
  - intros p m [[-> <-]|[Hnp Hm']]%lookup_insert_Some; [|eauto].
    rewrite Hnum, Hsl. pose proof (bit_count_clear _ _ _ Hslot Hb). rewrite (H5 _ _ Hn). lia.
Qed.

Context `{!ClusterLaws E} (oe : option Z).
#[local] Hint Resolve pres_clusterAddSlot pres_clusterDelSlot : pres.

Lemma pres_all_nodes P : pres P all_nodes.
Proof. unfold all_nodes. pres. Qed.
#[local] Hint Resolve pres_all_nodes : pres.

Lemma pres_clusterDoBeforeSleep l : pres (Inv oe) (clusterDoBeforeSleep l).
Proof. unfold clusterDoBeforeSleep. pres. Qed.
#[local] Hint Resolve pres_clusterDoBeforeSleep : pres.

Lemma pres_clear_todo f : pres (Inv oe) (clear_todo f).
Proof. unfold clear_todo. pres. Qed.
#[local] Hint Resolve pres_clear_todo : pres.

Lemma pres_clusterSaveConfigOrDie b : pres (Inv oe) (clusterSaveConfigOrDie b).
Proof. unfold clusterSaveConfigOrDie. pres. Qed.
#[local] Hint Resolve pres_clusterSaveConfigOrDie : pres.

Lemma pres_clusterDelNodeSlots n : pres (Inv oe) (clusterDelNodeSlots n).
Proof. unfold clusterDelNodeSlots. pres. Qed.
#[local] Hint Resolve pres_clusterDelNodeSlots : pres.

Lemma pres_clusterCloseAllSlots  : pres (Inv oe) (clusterCloseAllSlots ).
Proof. unfold clusterCloseAllSlots. pres. Qed.
#[local] Hint Resolve pres_clusterCloseAllSlots : pres.

Lemma pres_uncovered l : pres (Inv oe) (uncovered l).
Proof. induction l as [|j l IH]; cbn [uncovered]; pres. Qed.
#[local] Hint Resolve pres_uncovered : pres.

Lemma pres_count_masters  : pres (Inv oe) (count_masters ).
Proof. unfold count_masters. pres. Qed.
#[local] Hint Resolve pres_count_masters : pres.

Lemma pres_clusterUpdateState  : pres (Inv oe) (clusterUpdateState ).
Proof. unfold clusterUpdateState. pres. Qed.
#[local] Hint Resolve pres_clusterUpdateState : pres.

Lemma pres_verifyClusterConfigWithData l : pres (Inv oe) (verifyClusterConfigWithData l).
Proof. unfold verifyClusterConfigWithData. pres. Qed.
#[local] Hint Resolve pres_verifyClusterConfigWithData : pres.

Lemma pres_clusterNodeRemoveSlave m n : pres (Inv oe) (clusterNodeRemoveSlave m n).
Proof. unfold clusterNodeRemoveSlave. pres. Qed.
#[local] Hint Resolve pres_clusterNodeRemoveSlave : pres.

Lemma pres_clusterNodeAddSlave m n : pres (Inv oe) (clusterNodeAddSlave m n).
Proof. unfold clusterNodeAddSlave. pres. Qed.
#[local] Hint Resolve pres_clusterNodeAddSlave : pres.

Lemma pres_resetManualFailover  : pres (Inv oe) (resetManualFailover ).
Proof. unfold resetManualFailover. pres. Qed.
#[local] Hint Resolve pres_resetManualFailover : pres.

Lemma pres_clusterSetMaster n : pres (Inv oe) (clusterSetMaster n).
Proof. unfold clusterSetMaster. pres. Qed.
#[local] Hint Resolve pres_clusterSetMaster : pres.

Lemma pres_createClusterNode nodename flags : pres (Inv oe) (createClusterNode nodename flags).
Proof.
  intros s p s' [HI He] [= <- <-]. split; [|by eapply epochs_inv_same; [..|exact He]].
  assert (Hnew : heap s !! next_ptr s = None) by (by apply (iv_fresh _ HI)).
  destruct HI as [H1 H2 H3 H4 H5]. constructor; cbn.
  - intros q Hq. rewrite lookup_insert_ne by lia. apply H1. lia.
  - intros q m [[_ <-]|[? Hm]]%lookup_insert_Some; [|eauto].
    cbn. rewrite length_replicate. apply cluster_slots_bytes.
  - intros j q Hj. destruct (H3 _ _ Hj) as (? & m & Hm & Hb). split; [done|].
    exists m. rewrite lookup_insert_ne by congruence. done.
  - intros q m j [[_ <-]|[? Hm]]%lookup_insert_Some Hj; cbn; [by rewrite test_zero|eauto].
  - intros q m [[_ <-]|[? Hm]]%lookup_insert_Some; cbn; [by rewrite bit_count_zero|eauto].
Qed.
#[local] Hint Resolve pres_createClusterNode : pres.

Lemma pres_clusterAddNode p : pres (Inv oe) (clusterAddNode p).
Proof. unfold clusterAddNode. pres. Qed.
#[local] Hint Resolve pres_clusterAddNode : pres.

Lemma pres_clusterLookupNode name : pres (Inv oe) (clusterLookupNode name).
Proof. unfold clusterLookupNode. pres. Qed.
#[local] Hint Resolve pres_clusterLookupNode : pres.

Lemma pres_dictDelete_node name : pres (Inv oe) (dictDelete_node name).
Proof. unfold dictDelete_node. pres. Qed.
#[local] Hint Resolve pres_dictDelete_node : pres.

Lemma pres_clusterRenameNode p name : pres (Inv oe) (clusterRenameNode p name).
Proof. unfold clusterRenameNode. pres. Qed.
#[local] Hint Resolve pres_clusterRenameNode : pres.

Lemma pres_clusterNodeAddFailureReport p q : pres (Inv oe) (clusterNodeAddFailureReport p q).
Proof. unfold clusterNodeAddFailureReport. pres. Qed.
#[local] Hint Resolve pres_clusterNodeAddFailureReport : pres.

Lemma pres_clusterNodeCleanupFailureReports p : pres (Inv oe) (clusterNodeCleanupFailureReports p).
Proof. unfold clusterNodeCleanupFailureReports. pres. Qed.
#[local] Hint Resolve pres_clusterNodeCleanupFailureReports : pres.

Lemma pres_clusterNodeDelFailureReport p q : pres (Inv oe) (clusterNodeDelFailureReport p q).
Proof. unfold clusterNodeDelFailureReport. pres. Qed.
#[local] Hint Resolve pres_clusterNodeDelFailureReport : pres.

Lemma pres_clusterNodeFailureReportsCount p : pres (Inv oe) (clusterNodeFailureReportsCount p).
Proof. unfold clusterNodeFailureReportsCount. pres. Qed.
#[local] Hint Resolve pres_clusterNodeFailureReportsCount : pres.

Lemma pres_clusterCountNonFailingSlaves n : pres (Inv oe) (clusterCountNonFailingSlaves n).
Proof. unfold clusterCountNonFailingSlaves. pres. Qed.
#[local] Hint Resolve pres_clusterCountNonFailingSlaves : pres.

Lemma pres_createClusterLink n a b l : pres (Inv oe) (createClusterLink n a b l).
Proof. unfold createClusterLink. pres. Qed.
#[local] Hint Resolve pres_createClusterLink : pres.

Lemma pres_freeClusterLink l : pres (Inv oe) (freeClusterLink l).
Proof. unfold freeClusterLink. pres. Qed.
#[local] Hint Resolve pres_freeClusterLink : pres.

(** No slot is assigned to [p]; slot [j] is not. *)
Definition unowned (p : ptr) (s : cluster) : Prop := forall j, slots s !! j <> Some p.
Definition not_at (p : ptr) (j : nat) (s : cluster) : Prop := slots s !! j <> Some p.

Lemma pres_unowned_RemoveSlave p m n : pres (unowned p) (clusterNodeRemoveSlave m n).
Proof. unfold clusterNodeRemoveSlave. pres. Qed.
Lemma pres_unowned_dictDelete p name : pres (unowned p) (dictDelete_node name).
Proof. unfold dictDelete_node. pres. Qed.
Lemma pres_unowned_freeLink p l : pres (unowned p) (freeClusterLink l).
Proof. unfold freeClusterLink, emit. pres. Qed.
#[local] Hint Resolve pres_unowned_RemoveSlave pres_unowned_dictDelete pres_unowned_freeLink : pres.

Lemma pres_unowned_DelFailureReport p q r : pres (unowned p) (clusterNodeDelFailureReport q r).
Proof. unfold clusterNodeDelFailureReport, clusterNodeCleanupFailureReports. pres. Qed.
#[local] Hint Resolve pres_unowned_DelFailureReport : pres.

(** Releasing a node that owns nothing. *)
Lemma freeClusterNode_inv p s u s' :
  Inv oe s -> unowned p s -> freeClusterNode p s = Ok (u, s') -> Inv oe s'.
Proof.
  intros HI Hu. cut (pres (fun s => Inv oe s /\ unowned p s) (freeClusterNode p)).
  { intros Hp H. by apply (Hp s u s' (conj HI Hu) H). }
  unfold freeClusterNode. repeat (apply pres_bind; [apply pres_conj; pres|intros]).
  apply pres_modify. clear. intros s [[[H1 H2 H3 H4 H5] He] Hu]. split; [|exact Hu].
  split; [|by eapply epochs_inv_same; [..|exact He]]. constructor; cbn.
  - intros q Hq. apply lookup_delete_None. right. by apply H1.
  - intros q n [_ Hn]%lookup_delete_Some. eauto.
  - intros j q Hj. destruct (H3 _ _ Hj) as (? & n & Hn & Hb). split; [done|].
    exists n. rewrite lookup_delete_ne; [done|]. intros ->. by apply (Hu j).
  - intros q n j [_ Hn]%lookup_delete_Some. eauto.
  - intros q n [_ Hn]%lookup_delete_Some. eauto.
Qed.

Lemma clusterDelSlot_slots slot s ok s' :
  clusterDelSlot slot s = Ok (ok, s') -> slots s' = delete slot (slots s).
Proof.
  unfold clusterDelSlot. intros H. apply cbind_ok in H as (owner & s0 & [= <- <-] & H).
  destruct (slots s !! slot) as [n|] eqn:Ho.
  - apply cbind_ok in H as (old & s1 & (node & node' & [Hn ->] & _)%clusterNodeClearSlotBit_step & H).
    apply cbind_ok in H as (u & s2 & H & H'). destruct old; [|done]. injection H as _ <-.
    by apply cbind_ok in H' as (u' & s3 & [= <- <-] & [= _ <-]).
  - injection H as _ <-. by rewrite delete_id.
Qed.

Lemma pres_not_at_DelSlot p j k : pres (not_at p j) (clusterDelSlot k).
Proof.
  intros s ok s' H Hm. unfold not_at in *. rewrite (clusterDelSlot_slots _ _ _ _ Hm).
  rewrite lookup_delete_Some. naive_solver.
Qed.
#[local] Hint Resolve pres_not_at_DelSlot : pres.

(** The first loop of [clusterDelNode]. *)
Definition release_slot (p : ptr) (j : nat) : C unit :=
  let! s := gets id in
  cwhen (bool_decide (importing_slots_from s !! j = Some p))
    (modify (fun s => s <| importing_slots_from ::= delete j |>)) ;;
  cwhen (bool_decide (migrating_slots_to s !! j = Some p))
    (modify (fun s => s <| migrating_slots_to ::= delete j |>)) ;;
  if bool_decide (slots s !! j = Some p) then let! _ := clusterDelSlot j in skip else skip.

Lemma pres_release_slot p j : pres (Inv oe) (release_slot p j).
Proof. unfold release_slot. pres. Qed.
Lemma pres_not_at_release_slot p i j : pres (not_at p i) (release_slot p j).
Proof. unfold release_slot. pres. Qed.
#[local] Hint Resolve pres_release_slot pres_not_at_release_slot : pres.

Lemma release_slot_not_at p j s u s' : release_slot p j s = Ok (u, s') -> not_at p j s'.
Proof.
  unfold release_slot. intros H. apply cbind_ok in H as (s0 & s1 & [= <- <-] & H).
  apply cbind_ok in H as (u1 & s1 & H1 & H). apply cbind_ok in H as (u2 & s2 & H2 & H).
  assert (Hsl : slots s2 = slots s).
  { unfold cwhen, modify in H1, H2. repeat case_bool_decide; injection H1 as _ <-;
      injection H2 as _ <-; done. }
  case_bool_decide as Hj.
  - apply cbind_ok in H as (ok & s3 & H & [= _ <-]). unfold not_at.
    by rewrite (clusterDelSlot_slots _ _ _ _ H), lookup_delete_eq.
  - injection H as _ <-. unfold not_at. by rewrite Hsl.
Qed.

Lemma release_all p l s u s' :
  cfor l (release_slot p) s = Ok (u, s') ->
  (forall j, j ∈ l \/ not_at p j s -> not_at p j s').
Proof.
  revert s. induction l as [|i l IH]; intros s H j Hj; cbn in H.
  - injection H as _ <-. destruct Hj as [?%not_elem_of_nil|]; done.
  - apply cbind_ok in H as (u1 & s1 & H1 & H). apply (IH _ H).
    destruct Hj as [[->|Hj]%elem_of_cons|Hj]; [right; by eapply release_slot_not_at|by left|].
    right. by eapply pres_not_at_release_slot.
Qed.

Lemma pres_clusterDelNode p : pres (Inv oe) (clusterDelNode p).
Proof.
  intros s u s' HI H. unfold clusterDelNode in H.
  apply cbind_ok in H as (u1 & s1 & H1 & H). change (cfor all_slots (release_slot p) s = Ok (u1, s1)) in H1.
  assert (HI1 : Inv oe s1) by (revert HI H1; apply (pres_for (Inv oe)); intros; apply pres_release_slot).
  assert (Hu1 : unowned p s1).
  { intros j Hj. pose proof (iv_owner _ (proj1 HI1) _ _ Hj) as [Hlt _].
    revert Hj. apply (release_all _ _ _ _ _ H1). left. apply elem_of_seq. lia. }
  apply cbind_ok in H as (l & s2 & [= <- <-] & H).
  apply cbind_ok in H as (u2 & s3 & H2 & H).
  eapply freeClusterNode_inv; [| |exact H].
  - revert HI1 H2. clear. cut (pres (Inv oe) (cfor (snd <$> dict_iter (nodes s1)) (fun q =>
      if decide (q = p) then skip else let! _ := clusterNodeDelFailureReport q p in skip)));
      [intros Hp ? ?; by eapply Hp|pres].
  - revert Hu1 H2. clear. cut (pres (unowned p) (cfor (snd <$> dict_iter (nodes s1)) (fun q =>
      if decide (q = p) then skip else let! _ := clusterNodeDelFailureReport q p in skip)));
      [intros Hp ? ?; by eapply Hp|pres].
Qed.
#[local] Hint Resolve pres_clusterDelNode : pres.

Lemma pres_clusterGetMaxEpoch  : pres (Inv oe) (clusterGetMaxEpoch ).
Proof. unfold clusterGetMaxEpoch. pres. Qed.
#[local] Hint Resolve pres_clusterGetMaxEpoch : pres.

Lemma pres_clusterBumpConfigEpochWithoutConsensus  : pres (Inv oe) (clusterBumpConfigEpochWithoutConsensus ).
Proof. unfold clusterBumpConfigEpochWithoutConsensus. pres. Qed.
#[local] Hint Resolve pres_clusterBumpConfigEpochWithoutConsensus : pres.

Lemma pres_clusterHandleConfigEpochCollision p : pres (Inv oe) (clusterHandleConfigEpochCollision p).
Proof. unfold clusterHandleConfigEpochCollision. pres. Qed.
#[local] Hint Resolve pres_clusterHandleConfigEpochCollision : pres.

Lemma pres_clusterBlacklistCleanup  : pres (Inv oe) (clusterBlacklistCleanup ).
Proof. unfold clusterBlacklistCleanup. pres. Qed.
#[local] Hint Resolve pres_clusterBlacklistCleanup : pres.

Lemma pres_clusterBlacklistAddNode p : pres (Inv oe) (clusterBlacklistAddNode p).
Proof. unfold clusterBlacklistAddNode. pres. Qed.
#[local] Hint Resolve pres_clusterBlacklistAddNode : pres.

Lemma pres_clusterBlacklistExists name : pres (Inv oe) (clusterBlacklistExists name).
Proof. unfold clusterBlacklistExists. pres. Qed.
#[local] Hint Resolve pres_clusterBlacklistExists : pres.

(** ** Messages *)

(** Sending anything but a vote. *)
Definition no_vote (m : clusterMsg) : Prop := h_type m <> Some FAILOVER_AUTH_ACK.

Lemma pres_clusterSendMessage l m : no_vote m -> pres (Inv oe) (clusterSendMessage l m).
Proof.
  intros Hm. unfold clusterSendMessage.
  assert (vote_of (SendMessage l m) = None) by (cbn; by rewrite bool_decide_false). pres.
Qed.
#[local] Hint Resolve pres_clusterSendMessage : pres.

Lemma pres_clusterBroadcastMessage m : no_vote m -> pres (Inv oe) (clusterBroadcastMessage m).
Proof. intros Hm. unfold clusterBroadcastMessage. pres. Qed.
#[local] Hint Resolve pres_clusterBroadcastMessage : pres.

Lemma pres_clusterBuildMessageHdr t : pres (Inv oe) (clusterBuildMessageHdr t).
Proof. unfold clusterBuildMessageHdr. pres. Qed.
#[local] Hint Resolve pres_clusterBuildMessageHdr : pres.

Lemma pres_random_node  : pres (Inv oe) (random_node ).
Proof. unfold random_node. pres. Qed.
#[local] Hint Resolve pres_random_node : pres.

(** What the header says. *)
Lemma clusterBuildMessageHdr_ok t s m s' :
  clusterBuildMessageHdr t s = Ok (m, s') ->
  s' = s /\ h_type m = Some t /\ h_currentEpoch m = u64 (currentEpoch s).
Proof.
  intros H. assert (s' = s) as ->.
  { revert H. apply (reads_pres (clusterBuildMessageHdr t)). intros s0. unfold clusterBuildMessageHdr. pres. }
  split; [done|]. unfold clusterBuildMessageHdr in H.
  apply cbind_ok in H as (s0 & s1 & [= <- <-] & H).
  apply cbind_ok in H as (me & s1 & [_ ->]%deref_ok & H).
  apply cbind_ok in H as (master & s1 & _ & H). apply cbind_ok in H as (sl & s2 & _ & [= <- <-]). done.
Qed.

(** Continuing after a header of a type that is not a vote. *)
Lemma pres_with_hdr {B} t (k : clusterMsg -> C B) :
  t <> FAILOVER_AUTH_ACK -> (forall m, h_type m = Some t -> pres (Inv oe) (k m)) ->
  pres (Inv oe) (cbind (clusterBuildMessageHdr t) k).
Proof.
  intros Ht Hk s b s' HI H. apply cbind_ok in H as (m & s1 & H1 & H2).
  apply clusterBuildMessageHdr_ok in H1 as (-> & Hty & _). by eapply Hk.
Qed.

Ltac not_vote := unfold no_vote; cbn; congruence.
#[local] Hint Extern 1 (no_vote _) => not_vote : pres.
#[local] Hint Extern 1 (_ <> FAILOVER_AUTH_ACK) => repeat case_match; discriminate : pres.

Lemma pres_random_gossip k f w g : pres (Inv oe) (random_gossip k f w g).
Proof. revert f g. induction k as [|k IH]; intros f g; cbn [random_gossip]; pres. Qed.
#[local] Hint Resolve pres_random_gossip : pres.

Lemma pres_pfail_gossip l w g : pres (Inv oe) (pfail_gossip l w g).
Proof. revert w g. induction l as [|p l IH]; intros w g; cbn [pfail_gossip]; pres. Qed.
#[local] Hint Resolve pres_pfail_gossip : pres.

Lemma pres_clusterSendPing l t : t <> FAILOVER_AUTH_ACK -> pres (Inv oe) (clusterSendPing l t).
Proof.
  intros Ht. unfold clusterSendPing. do 3 (apply pres_bind; [pres|intros]).
  cbv beta zeta. apply pres_with_hdr; [done|intros m Hm]. pres.
Qed.
#[local] Hint Resolve pres_clusterSendPing : pres.
#[local] Hint Extern 1 (_ <> FAILOVER_AUTH_ACK) => congruence : pres.

Lemma pres_clusterBroadcastPong b : pres (Inv oe) (clusterBroadcastPong b).
Proof. unfold clusterBroadcastPong. pres. Qed.
#[local] Hint Resolve pres_clusterBroadcastPong : pres.

Lemma pres_clusterSendPublish l c m : pres (Inv oe) (clusterSendPublish l c m).
Proof. unfold clusterSendPublish. apply pres_with_hdr; [done|intros h Hh]. pres. Qed.
Lemma pres_clusterPropagatePublish c m : pres (Inv oe) (clusterPropagatePublish c m).
Proof. apply pres_clusterSendPublish. Qed.

Lemma pres_clusterSendFail name : pres (Inv oe) (clusterSendFail name).
Proof. unfold clusterSendFail. apply pres_with_hdr; [done|intros h Hh]. pres. Qed.
#[local] Hint Resolve pres_clusterSendFail pres_clusterPropagatePublish : pres.

Lemma pres_clusterSendUpdate l p : pres (Inv oe) (clusterSendUpdate l p).
Proof. unfold clusterSendUpdate. destruct l; [|pres]. apply pres_with_hdr; [done|intros h Hh]. pres. Qed.
#[local] Hint Resolve pres_clusterSendUpdate : pres.

Lemma pres_clusterRequestFailoverAuth : pres (Inv oe) clusterRequestFailoverAuth.
Proof. unfold clusterRequestFailoverAuth. apply pres_with_hdr; [done|intros h Hh]. pres. Qed.
#[local] Hint Resolve pres_clusterRequestFailoverAuth : pres.

Lemma pres_clusterSendMFStart p : pres (Inv oe) (clusterSendMFStart p).
Proof.
  unfold clusterSendMFStart, send_to_node. apply pres_bind; [pres|intros n]. destruct (n_link n); [|pres].
  apply pres_with_hdr; [done|intros h Hh]. pres.
Qed.
#[local] Hint Resolve pres_clusterSendMFStart : pres.

(** ** Gossip *)

Lemma pres_markNodeAsFailingIfNeeded p : pres (Inv oe) (markNodeAsFailingIfNeeded p).
Proof. unfold markNodeAsFailingIfNeeded. pres. Qed.
#[local] Hint Resolve pres_markNodeAsFailingIfNeeded : pres.

Lemma pres_clearNodeFailureIfNeeded p : pres (Inv oe) (clearNodeFailureIfNeeded p).
Proof. unfold clearNodeFailureIfNeeded. pres. Qed.
#[local] Hint Resolve pres_clearNodeFailureIfNeeded : pres.

Lemma pres_handshake_among l ip a b : pres (Inv oe) (handshake_among l ip a b).
Proof. induction l as [|p l IH]; cbn [handshake_among]; pres. Qed.
#[local] Hint Resolve pres_handshake_among : pres.

Lemma pres_clusterHandshakeInProgress ip a b : pres (Inv oe) (clusterHandshakeInProgress ip a b).
Proof. unfold clusterHandshakeInProgress. pres. Qed.
#[local] Hint Resolve pres_clusterHandshakeInProgress : pres.

Lemma pres_clusterStartHandshake ip a b : pres (Inv oe) (clusterStartHandshake ip a b).
Proof. unfold clusterStartHandshake. pres. Qed.
#[local] Hint Resolve pres_clusterStartHandshake : pres.

Lemma pres_representClusterNodeFlags c f : pres (Inv oe) (representClusterNodeFlags c f).
Proof. unfold representClusterNodeFlags. pres. Qed.
#[local] Hint Resolve pres_representClusterNodeFlags : pres.

Lemma pres_gossip_report p q f : pres (Inv oe) (gossip_report p q f).
Proof. unfold gossip_report. pres. Qed.
#[local] Hint Resolve pres_gossip_report : pres.

Lemma pres_gossip_pong g p : pres (Inv oe) (gossip_pong g p).
Proof. unfold gossip_pong. pres. Qed.
#[local] Hint Resolve pres_gossip_pong : pres.

Lemma pres_gossip_address g p : pres (Inv oe) (gossip_address g p).
Proof. unfold gossip_address. pres. Qed.
#[local] Hint Resolve pres_gossip_address : pres.

Lemma pres_gossip_unknown o g : pres (Inv oe) (gossip_unknown o g).
Proof. unfold gossip_unknown. pres. Qed.
#[local] Hint Resolve pres_gossip_unknown : pres.

Lemma pres_gossip_entry o g : pres (Inv oe) (gossip_entry o g).
Proof. unfold gossip_entry. pres. Qed.
#[local] Hint Resolve pres_gossip_entry : pres.

Lemma pres_clusterProcessGossipSection h l : pres (Inv oe) (clusterProcessGossipSection h l).
Proof. unfold clusterProcessGossipSection. pres. Qed.
#[local] Hint Resolve pres_clusterProcessGossipSection : pres.

Lemma pres_nodeIp2String l ip : pres (Inv oe) (nodeIp2String l ip).
Proof. unfold nodeIp2String. pres. Qed.
#[local] Hint Resolve pres_nodeIp2String : pres.

Lemma pres_nodeUpdateAddressIfNeeded p l h : pres (Inv oe) (nodeUpdateAddressIfNeeded p l h).
Proof. unfold nodeUpdateAddressIfNeeded. pres. Qed.
#[local] Hint Resolve pres_nodeUpdateAddressIfNeeded : pres.

Lemma pres_clusterSetNodeAsMaster p : pres (Inv oe) (clusterSetNodeAsMaster p).
Proof. unfold clusterSetNodeAsMaster. pres. Qed.
#[local] Hint Resolve pres_clusterSetNodeAsMaster : pres.

Lemma pres_claim_slot p e o acc j : j < CLUSTER_SLOTS -> pres (Inv oe) (claim_slot p e o acc j).
Proof. intros Hj. unfold claim_slot. pres. Qed.
#[local] Hint Resolve pres_claim_slot : pres.

Lemma pres_clusterUpdateSlotsConfigWith p e bm : pres (Inv oe) (clusterUpdateSlotsConfigWith p e bm).
Proof. unfold clusterUpdateSlotsConfigWith. pres. Qed.
#[local] Hint Resolve pres_clusterUpdateSlotsConfigWith : pres.

(** ** Failover *)

Lemma pres_stale_claim bm e l : pres (Inv oe) (stale_claim bm e l).
Proof. induction l as [|j l IH]; cbn [stale_claim]; pres. Qed.
#[local] Hint Resolve pres_stale_claim : pres.

(** ** Casting a vote *)

(** The vote itself, given that none was cast for the current epoch. *)
Definition cast_vote (p m : ptr) (now : Z) : C unit :=
  clusterSendFailoverAuth p ;;
  modify (fun s => s <| lastVoteEpoch := currentEpoch s |>) ;;
  update m (fun n => n <| n_voted_time := now |>).

Lemma clusterSendFailoverAuth_effects p s u s' :
  clusterSendFailoverAuth p s = Ok (u, s') ->
  exists new st, s' = s <| effects := effects s ++ new |> <| stats_sent := st |> /\
    EpochWrapped ∉ new /\ (omap vote_of new = [] \/ omap vote_of new = [u64 (currentEpoch s)]).
Proof.
  unfold clusterSendFailoverAuth, send_to_node. intros H.
  apply cbind_ok in H as (n & s1 & [_ ->]%deref_ok & H).
  destruct (n_link n) as [l|].
  - apply cbind_ok in H as (m & s1 & (-> & Hty & Hep)%clusterBuildMessageHdr_ok & H).
    unfold clusterSendMessage in H.
    apply cbind_ok in H as (l' & s1 & Hl & H).
    unfold deref_link in Hl. destruct (links s !! l); [|done]. injection Hl as _ <-.
    apply cbind_ok in H as (u1 & s2 & [= _ <-] & H). cbn in H. rewrite Hty in H. injection H as _ <-.
    eexists [_], _. split; [reflexivity|]. split; [by intros ?%list_elem_of_singleton|].
    right. cbn. rewrite Hty, Hep. by rewrite bool_decide_true.
  - injection H as _ <-. exists [], (stats_sent s). split.
    + rewrite app_nil_r. by destruct s.
    + split; [apply not_elem_of_nil|by left].
Qed.

Lemma increasing_snoc l x : increasing l -> Forall (fun v => v < x)%Z l -> increasing (l ++ [x]).
Proof.
  intros Hl Hx. induction Hl as [|a l Hl IH Ha]; cbn; [repeat constructor|].
  apply Forall_cons in Hx as [Hax Hx]. constructor; [by apply IH|].
  apply Forall_app. split; [done|]. by apply Forall_singleton.
Qed.

Lemma cast_vote_inv p m now s u s' :
  Inv oe s -> lastVoteEpoch s <> currentEpoch s -> cast_vote p m now s = Ok (u, s') -> Inv oe s'.
Proof.
  intros [HI He] Hne H. unfold cast_vote in H.
  apply cbind_ok in H as (u1 & s1 & (new & st & -> & Hw & Hnew)%clusterSendFailoverAuth_effects & H).
  apply cbind_ok in H as (u2 & s2 & [= <- <-] & H).
  eapply (pres_keep oe m (fun n => n <| n_voted_time := now |>)); [by intros ?| |exact H].
  split; [destruct HI; by constructor|]. destruct oe as [e0|]; [|done].
  destruct He as [He|[H1 H2 H3 H4]]; [left; cbn; apply elem_of_app; by left|right].
  assert (Hu : u64 (currentEpoch s) = currentEpoch s) by (apply Z.mod_small; lia).
  rewrite Hu in Hnew. unfold votes in *. constructor; unfold votes; cbn.
  - done.
  - lia.
  - rewrite omap_app. destruct Hnew as [-> | ->]; [by rewrite app_nil_r|].
    apply increasing_snoc; [done|]. eapply Forall_impl; [exact H4|]. cbn. lia.
  - rewrite omap_app. apply Forall_app. split.
    + eapply Forall_impl; [exact H4|]. cbn. lia.
    + destruct Hnew as [-> | ->]; [constructor|]. apply Forall_singleton. lia.
Qed.

Lemma pres_clusterSendFailoverAuthIfNeeded p h :
  pres (Inv oe) (clusterSendFailoverAuthIfNeeded p h).
Proof.
  intros s u s' HI H. unfold clusterSendFailoverAuthIfNeeded in H.
  apply cbind_ok in H as (n & s1 & [Hn ->]%deref_ok & H).
  apply cbind_ok in H as (me & s1 & [= <- <-] & H).
  apply cbind_ok in H as (my & s1 & [Hmy ->]%deref_ok & H).
  apply cbind_ok in H as (s0 & s1 & [= <- <-] & H).
  destruct (_ || _); [by injection H as _ <-|].
  destruct (_ <? _)%Z; [by injection H as _ <-|].
  destruct (Z.eqb_spec (lastVoteEpoch s) (currentEpoch s)) as [|Hne]; [by injection H as _ <-|].
  destruct (n_slaveof n) as [m|]; [|by injection H as _ <-].
  apply cbind_ok in H as (master & s1 & [Hm ->]%deref_ok & H).
  destruct (_ || _); [by injection H as _ <-|].
  destruct (_ <? _)%Z; [by injection H as _ <-|].
  apply cbind_ok in H as (stale & s1 & Hst & H).
  assert (s1 = s) as ->.
  { revert Hst. apply (reads_pres (stale_claim _ _ _)). intros st. induction all_slots as [|j l IH];
      cbn [stale_claim]; pres. }
  destruct stale; [by injection H as _ <-|].
  change (cast_vote p m (mstime s) s = Ok (u, s')) in H. by eapply cast_vote_inv.
Qed.
#[local] Hint Resolve pres_clusterSendFailoverAuthIfNeeded : pres.

Lemma pres_clusterGetSlaveRank  : pres (Inv oe) (clusterGetSlaveRank ).
Proof. unfold clusterGetSlaveRank. pres. Qed.
#[local] Hint Resolve pres_clusterGetSlaveRank : pres.

Lemma pres_clusterLogCantFailover r : pres (Inv oe) (clusterLogCantFailover r).
Proof. unfold clusterLogCantFailover. pres. Qed.
#[local] Hint Resolve pres_clusterLogCantFailover : pres.

Lemma pres_clusterFailoverReplaceYourMaster  : pres (Inv oe) (clusterFailoverReplaceYourMaster ).
Proof. unfold clusterFailoverReplaceYourMaster. pres. Qed.
#[local] Hint Resolve pres_clusterFailoverReplaceYourMaster : pres.

Lemma pres_schedule_election  : pres (Inv oe) (schedule_election ).
Proof. unfold schedule_election. pres. Qed.
#[local] Hint Resolve pres_schedule_election : pres.

Lemma pres_update_rank  : pres (Inv oe) (update_rank ).
Proof. unfold update_rank. pres. Qed.
#[local] Hint Resolve pres_update_rank : pres.

Lemma pres_start_election  : pres (Inv oe) (start_election ).
Proof. unfold start_election. pres. Qed.
#[local] Hint Resolve pres_start_election : pres.

Lemma pres_conclude_election q : pres (Inv oe) (conclude_election q).
Proof. unfold conclude_election. pres. Qed.
#[local] Hint Resolve pres_conclude_election : pres.

Lemma pres_run_election a q : pres (Inv oe) (run_election a q).
Proof. unfold run_election. pres. Qed.
#[local] Hint Resolve pres_run_election : pres.

Lemma pres_clusterHandleSlaveFailover  : pres (Inv oe) (clusterHandleSlaveFailover ).
Proof. unfold clusterHandleSlaveFailover. pres. Qed.
#[local] Hint Resolve pres_clusterHandleSlaveFailover : pres.

Lemma pres_count_ok_slaves l : pres (Inv oe) (count_ok_slaves l).
Proof. unfold count_ok_slaves. pres. Qed.
#[local] Hint Resolve pres_count_ok_slaves : pres.

Lemma pres_smallest_name c l : pres (Inv oe) (smallest_name c l).
Proof. unfold smallest_name. pres. Qed.
#[local] Hint Resolve pres_smallest_name : pres.

Lemma pres_migration_node m acc p : pres (Inv oe) (migration_node m acc p).
Proof. unfold migration_node. pres. Qed.
#[local] Hint Resolve pres_migration_node : pres.

Lemma pres_clusterHandleSlaveMigration m : pres (Inv oe) (clusterHandleSlaveMigration m).
Proof. unfold clusterHandleSlaveMigration. pres. Qed.
#[local] Hint Resolve pres_clusterHandleSlaveMigration : pres.

Lemma pres_manualFailoverCheckTimeout  : pres (Inv oe) (manualFailoverCheckTimeout ).
Proof. unfold manualFailoverCheckTimeout. pres. Qed.
#[local] Hint Resolve pres_manualFailoverCheckTimeout : pres.

Lemma pres_clusterHandleManualFailover  : pres (Inv oe) (clusterHandleManualFailover ).
Proof. unfold clusterHandleManualFailover. pres. Qed.
#[local] Hint Resolve pres_clusterHandleManualFailover : pres.

(** ** Packets *)

(** A header field is what fits its 64 bits. *)
Definition msg_ok (h : clusterMsg) : Prop := (h_currentEpoch h < 2 ^ 64)%Z.

Lemma pres_raise_epoch h :
  msg_ok h -> pres (Inv oe) (modify (fun s => if (h_currentEpoch h >? currentEpoch s)%Z
                                             then s <| currentEpoch := h_currentEpoch h |> else s)).
Proof.
  intros Hh. apply pres_modify. intros s [HI He]. destruct (_ >? _)%Z eqn:Hgt; [|done].
  split; [destruct HI; by constructor|]. destruct oe as [e0|]; [|done].
  destruct He as [He|[]]; [by left|right]. unfold msg_ok in Hh. constructor; cbn; try done; lia.
Qed.
#[local] Hint Resolve pres_raise_epoch : pres.

Lemma pres_packet_sender o h : msg_ok h -> pres (Inv oe) (packet_sender o h).
Proof. intros Hh. unfold packet_sender. pres. Qed.
#[local] Hint Resolve pres_packet_sender : pres.

Lemma pres_packet_own_address h l : pres (Inv oe) (packet_own_address h l).
Proof. unfold packet_own_address. pres. Qed.
#[local] Hint Resolve pres_packet_own_address : pres.

Lemma pres_packet_meet h l : pres (Inv oe) (packet_meet h l).
Proof. unfold packet_meet. pres. Qed.
#[local] Hint Resolve pres_packet_meet : pres.

Lemma pres_packet_reply o h l : pres (Inv oe) (packet_reply o h l).
Proof. unfold packet_reply. pres. Qed.
#[local] Hint Resolve pres_packet_reply : pres.

Lemma pres_packet_link_node o h l : pres (Inv oe) (packet_link_node o h l).
Proof. unfold packet_link_node. pres. Qed.
#[local] Hint Resolve pres_packet_link_node : pres.

Lemma pres_packet_address o h l : pres (Inv oe) (packet_address o h l).
Proof. unfold packet_address. pres. Qed.
#[local] Hint Resolve pres_packet_address : pres.

Lemma pres_packet_pong h l : pres (Inv oe) (packet_pong h l).
Proof. unfold packet_pong. pres. Qed.
#[local] Hint Resolve pres_packet_pong : pres.

Lemma pres_packet_role p h : pres (Inv oe) (packet_role p h).
Proof. unfold packet_role. pres. Qed.
#[local] Hint Resolve pres_packet_role : pres.

Lemma pres_inform_stale p bm e l : pres (Inv oe) (inform_stale p bm e l).
Proof. induction l as [|j l IH]; cbn [inform_stale]; pres. Qed.
#[local] Hint Resolve pres_inform_stale : pres.

Lemma pres_packet_slots p h e : pres (Inv oe) (packet_slots p h e).
Proof. unfold packet_slots. pres. Qed.
#[local] Hint Resolve pres_packet_slots : pres.

Lemma pres_packet_config o e h l : pres (Inv oe) (packet_config o e h l).
Proof. unfold packet_config. pres. Qed.
#[local] Hint Resolve pres_packet_config : pres.

Lemma pres_packet_fail o h : pres (Inv oe) (packet_fail o h).
Proof. unfold packet_fail. pres. Qed.
#[local] Hint Resolve pres_packet_fail : pres.

Lemma pres_packet_publish h : pres (Inv oe) (packet_publish h).
Proof. unfold packet_publish. pres. Qed.
#[local] Hint Resolve pres_packet_publish : pres.

Lemma pres_packet_auth_ack p e : pres (Inv oe) (packet_auth_ack p e).
Proof. unfold packet_auth_ack. pres. Qed.
#[local] Hint Resolve pres_packet_auth_ack : pres.

Lemma pres_packet_mfstart p : pres (Inv oe) (packet_mfstart p).
Proof. unfold packet_mfstart. pres. Qed.
#[local] Hint Resolve pres_packet_mfstart : pres.

Lemma pres_packet_update h : pres (Inv oe) (packet_update h).
Proof. unfold packet_update. pres. Qed.
#[local] Hint Resolve pres_packet_update : pres.

Lemma pres_with_sender o f : (forall p, pres (Inv oe) (f p)) -> pres (Inv oe) (with_sender o f).
Proof. intros H. destruct o; cbn; [apply H|apply pres_skip]. Qed.
#[local] Hint Resolve pres_with_sender : pres.

Lemma pres_clusterProcessPacket h n l : msg_ok h -> pres (Inv oe) (clusterProcessPacket h n l).
Proof. intros Hh. unfold clusterProcessPacket. pres. Qed.
#[local] Hint Resolve pres_clusterProcessPacket : pres.

(** ** The periodic job *)

Lemma pres_cron_announce_ip  : pres (Inv oe) (cron_announce_ip ).
Proof. unfold cron_announce_ip. pres. Qed.
#[local] Hint Resolve pres_cron_announce_ip : pres.

Lemma pres_cron_connect p : pres (Inv oe) (cron_connect p).
Proof. unfold cron_connect. pres. Qed.
#[local] Hint Resolve pres_cron_connect : pres.

Lemma pres_cron_reconnect p : pres (Inv oe) (cron_reconnect p).
Proof. unfold cron_reconnect. pres. Qed.
#[local] Hint Resolve pres_cron_reconnect : pres.

Lemma pres_oldest_pong k b : pres (Inv oe) (oldest_pong k b).
Proof. revert b. induction k as [|k IH]; intros b; cbn [oldest_pong]; pres. Qed.
#[local] Hint Resolve pres_oldest_pong : pres.

Lemma pres_cron_ping_random  : pres (Inv oe) (cron_ping_random ).
Proof. unfold cron_ping_random. pres. Qed.
#[local] Hint Resolve pres_cron_ping_random : pres.

Lemma pres_scan_orphans p acc : pres (Inv oe) (scan_orphans p acc).
Proof. unfold scan_orphans. pres. Qed.
#[local] Hint Resolve pres_scan_orphans : pres.

Lemma pres_scan_timeout p n t acc : pres (Inv oe) (scan_timeout p n t acc).
Proof. unfold scan_timeout. pres. Qed.
#[local] Hint Resolve pres_scan_timeout : pres.

Lemma pres_scan_node acc p : pres (Inv oe) (scan_node acc p).
Proof. unfold scan_node. pres. Qed.
#[local] Hint Resolve pres_scan_node : pres.

Lemma pres_cron_replication  : pres (Inv oe) (cron_replication ).
Proof. unfold cron_replication. pres. Qed.
#[local] Hint Resolve pres_cron_replication : pres.

Lemma pres_clusterCron  : pres (Inv oe) (clusterCron ).
Proof. unfold clusterCron. pres. Qed.
#[local] Hint Resolve pres_clusterCron : pres.

Lemma pres_clusterBeforeSleep  : pres (Inv oe) (clusterBeforeSleep ).
Proof. unfold clusterBeforeSleep. pres. Qed.
#[local] Hint Resolve pres_clusterBeforeSleep : pres.

(** ** Commands *)

Lemma getSlot_lt o slot : getSlot o = Some slot -> slot < CLUSTER_SLOTS.
Proof.
  unfold getSlot. destruct (getLongLong o) as [z|]; [|done]. destruct (_ || _) eqn:H; [done|].
  intros [= <-]. lia.
Qed.
#[local] Hint Resolve getSlot_lt : pres.

Lemma pres_describe_open_slot j : pres (Inv oe) (describe_open_slot j).
Proof. unfold describe_open_slot. pres. Qed.
#[local] Hint Resolve pres_describe_open_slot : pres.

Lemma pres_clusterGenNodeDescription p : pres (Inv oe) (clusterGenNodeDescription p).
Proof. unfold clusterGenNodeDescription. pres. Qed.
#[local] Hint Resolve pres_clusterGenNodeDescription : pres.

Lemma pres_clusterGenNodesDescription f : pres (Inv oe) (clusterGenNodesDescription f).
Proof. unfold clusterGenNodesDescription. pres. Qed.
#[local] Hint Resolve pres_clusterGenNodesDescription : pres.

Lemma pres_range_reply n r : pres (Inv oe) (range_reply n r).
Proof. unfold range_reply. pres. Qed.
#[local] Hint Resolve pres_range_reply : pres.

Lemma pres_clusterReplyMultiBulkSlots  : pres (Inv oe) (clusterReplyMultiBulkSlots ).
Proof. unfold clusterReplyMultiBulkSlots. pres. Qed.
#[local] Hint Resolve pres_clusterReplyMultiBulkSlots : pres.

Lemma pres_cmd_meet a b c : pres (Inv oe) (cmd_meet a b c).
Proof. unfold cmd_meet. pres. Qed.
#[local] Hint Resolve pres_cmd_meet : pres.

Lemma pres_cmd_flushslots n : pres (Inv oe) (cmd_flushslots n).
Proof. unfold cmd_flushslots. pres. Qed.
#[local] Hint Resolve pres_cmd_flushslots : pres.

Lemma pres_cmd_addslots d l : pres (Inv oe) (cmd_addslots d l).
Proof. unfold cmd_addslots. pres. Qed.
#[local] Hint Resolve pres_cmd_addslots : pres.

Lemma pres_setslot_node slot name : slot < CLUSTER_SLOTS -> pres (Inv oe) (setslot_node slot name).
Proof. intros Hslot. unfold setslot_node. pres. Qed.
#[local] Hint Resolve pres_setslot_node : pres.

Lemma pres_cmd_setslot a b l : pres (Inv oe) (cmd_setslot a b l).
Proof.
  unfold cmd_setslot. apply pres_bind; [pres|intros me]. apply pres_bind; [pres|intros my].
  destruct (nodeIsSlave my); [pres|]. destruct (getSlot a) as [slot|] eqn:Hslot; [|pres].
  apply getSlot_lt in Hslot. pres.
Qed.
#[local] Hint Resolve pres_cmd_setslot : pres.

Lemma pres_cmd_bumpepoch  : pres (Inv oe) (cmd_bumpepoch ).
Proof. unfold cmd_bumpepoch. pres. Qed.
#[local] Hint Resolve pres_cmd_bumpepoch : pres.

Lemma pres_cmd_forget n : pres (Inv oe) (cmd_forget n).
Proof. unfold cmd_forget. pres. Qed.
#[local] Hint Resolve pres_cmd_forget : pres.

Lemma pres_cmd_replicate d n : pres (Inv oe) (cmd_replicate d n).
Proof. unfold cmd_replicate. pres. Qed.
#[local] Hint Resolve pres_cmd_replicate : pres.

Lemma pres_cmd_failover f t : pres (Inv oe) (cmd_failover f t).
Proof. unfold cmd_failover. pres. Qed.
#[local] Hint Resolve pres_cmd_failover : pres.

Lemma pres_cmd_set_config_epoch a : pres (Inv oe) (cmd_set_config_epoch a).
Proof.
  unfold cmd_set_config_epoch. destruct (getLongLong a) as [epoch|] eqn:Ha; [|pres].
  apply getLongLong_range in Ha.
  apply pres_bind; [pres|intros s]. apply pres_bind; [pres|intros my].
  destruct (epoch <? 0)%Z; [pres|]. destruct (1 <? _); [pres|]. destruct (negb _); [pres|].
  apply pres_bind; [pres|intros []]. apply pres_bind; [|pres].
  apply pres_modify. clear s. intros s [HI He]. destruct (_ <? epoch)%Z eqn:Hlt; [|done].
  split; [destruct HI; by constructor|]. destruct oe as [e0|]; [|done].
  destruct He as [He|[]]; [by left|right]. constructor; cbn; try done; lia.
Qed.
#[local] Hint Resolve pres_cmd_set_config_epoch : pres.

(** A hard reset starts the epochs anew. *)
Definition no_hard_reset (hard : bool) : Prop := oe = None \/ hard = false.

Lemma pres_clusterReset hard : no_hard_reset hard -> pres (Inv oe) (clusterReset hard).
Proof.
  intros Hh. unfold clusterReset. destruct Hh as [Hoe| ->]; [|pres].
  assert (Hz : pres (Inv oe) (modify (fun s => s <| currentEpoch := 0%Z |> <| lastVoteEpoch := 0%Z |>))).
  { apply pres_modify. intros s [HI _]. rewrite Hoe. split; [destruct HI; by constructor|done]. }
  assert (Hp : pres (Inv oe) (modify (fun s => s <| next_ptr ::= S |>))).
  { apply pres_modify. intros s [HI He]. split; [|by eapply epochs_inv_same; [..|exact He]]. destruct HI as [H1 H2 H3 H4 H5].
    constructor; cbn; try done. intros p Hlt. apply H1. lia. }
  pres.
Qed.
#[local] Hint Resolve pres_clusterReset : pres.

Lemma pres_cmd_reset n hard : no_hard_reset hard -> pres (Inv oe) (cmd_reset n hard).
Proof. intros Hh. unfold cmd_reset. pres. Qed.
#[local] Hint Resolve pres_cmd_reset : pres.

Lemma pres_count_slots  : pres (Inv oe) (count_slots ).
Proof. unfold count_slots. pres. Qed.
#[local] Hint Resolve pres_count_slots : pres.

Lemma pres_cmd_info  : pres (Inv oe) (cmd_info ).
Proof. unfold cmd_info. pres. Qed.
#[local] Hint Resolve pres_cmd_info : pres.

Lemma pres_cmd_countkeysinslot a : pres (Inv oe) (cmd_countkeysinslot a).
Proof. unfold cmd_countkeysinslot. pres. Qed.
#[local] Hint Resolve pres_cmd_countkeysinslot : pres.

Lemma pres_cmd_getkeysinslot a b : pres (Inv oe) (cmd_getkeysinslot a b).
Proof. unfold cmd_getkeysinslot. pres. Qed.
#[local] Hint Resolve pres_cmd_getkeysinslot : pres.

Lemma pres_cmd_slaves a : pres (Inv oe) (cmd_slaves a).
Proof. unfold cmd_slaves. pres. Qed.
#[local] Hint Resolve pres_cmd_slaves : pres.

Lemma pres_cmd_count_failure_reports a : pres (Inv oe) (cmd_count_failure_reports a).
Proof. unfold cmd_count_failure_reports. pres. Qed.
#[local] Hint Resolve pres_cmd_count_failure_reports : pres.

Lemma pres_cmd_myid  : pres (Inv oe) (cmd_myid ).
Proof. unfold cmd_myid. pres. Qed.
#[local] Hint Resolve pres_cmd_myid : pres.

(** The arguments of CLUSTER RESET HARD. *)
Definition hard_reset_args (argv : list string) : bool :=
  match argv with [_; a] => strcaseeq a "hard" | _ => false end.

Lemma pres_clusterCommand b n e argv :
  no_hard_reset (hard_reset_args argv) -> pres (Inv oe) (clusterCommand b n e argv).
Proof.
  intros Hh. unfold clusterCommand. destruct b; cbn [negb]; [|pres].
  assert (Hf : no_hard_reset false) by (by right).
  destruct argv as [|sub [|a [|x more]]]; cbn in Hh; cbv beta iota zeta; [pres|pres| |pres].
  destruct (strcaseeq a "hard"); pres.
Qed.
End preserve.
