(* ===== verification/ClusterSystem.v ===== *)
(** * The cluster node as a whole: start-up, events, runs
    ([src/examples/cluster.c])

    The event loop calls the handlers of the other files one at a time; a
    run is the sequence of these calls.  The theorems state what holds
    after every run: the slot table and the nodes' bitmaps agree, the epoch
    never goes back, and no epoch gets two votes. *)

From Stdlib Require Import Ascii Sorted.
From stdpp Require Import base numbers gmap strings list.
From S2P Require Import Prelude Text ClusterTypes ClusterSlots ClusterNodes ClusterBus ClusterGossip ClusterFailover ClusterPacket ClusterCron ClusterCommand ClusterBitmap ClusterInv ClusterPreserve.

Section system.
Context `{E : ClusterEnv}.

(** ** Start-up *)

(** [clusterInit]: [locked] is the result of [clusterLockConfig], [load]
    the loader of the configuration file; sockets are opened elsewhere, and
    [exit] is a crash.  The fields the function leaves alone keep the values
    the memory had. *)
Definition clusterInit (locked : bool) (load : C bool) : C unit :=
  modify (fun s => s <| currentEpoch := 0%Z |> <| state := CLUSTER_FAIL |> <| size := 1%Z |>
    <| todo_before_sleep := [] |> <| nodes := ∅ |> <| nodes_black_list := ∅ |>
    <| failover_auth_time := 0%Z |> <| failover_auth_count := 0%Z |>
    <| failover_auth_rank := 0%Z |> <| failover_auth_epoch := 0%Z |>
    <| cant_failover_reason := CANT_FAILOVER_NONE |> <| lastVoteEpoch := 0%Z |>
    <| stats_sent := [] |> <| stats_received := [] |> <| stats_pfail_nodes := 0%Z |>
    <| slots := ∅ |>) ;;
  clusterCloseAllSlots ;;
  serverAssert locked ;;
  let! loaded := load in
  cwhen (negb loaded)
    (let! p := createClusterNode None (Z.lor (flag MYSELF) (flag MASTER)) in
     modify (fun s => s <| myself := p |>) ;;
     let! _ := clusterAddNode p in skip) ;;
  cwhen (negb loaded) (clusterSaveConfigOrDie true) ;;
  serverAssert (negb (server_port >? 65535 - CLUSTER_PORT_INCR)%Z) ;;
  let! me := gets myself in
  update me (fun n => n
    <| n_port := if (cluster_announce_port =? 0)%Z then server_port else cluster_announce_port |>
    <| n_cport := if (cluster_announce_bus_port =? 0)%Z then (server_port + CLUSTER_PORT_INCR)%Z
                  else cluster_announce_bus_port |>) ;;
  modify (fun s => s <| mf_end := 0%Z |>) ;;
  resetManualFailover.

(** ** Events *)

(** What the rest of the server changes between two calls. *)
Record Inputs := mkInputs {
  i_mstime : Z;
  i_unixtime : Z;
  i_clients_paused : bool;
  i_repl_connected : bool;
  i_master_lastinteraction : Z;
  i_repl_down_since : Z;
  i_slave_offset : Z;
  i_master_repl_offset : Z;
  i_pubsub_active : bool;
  i_random_delay : Z;
  i_masterhost : bool;
  i_announce_ip : option string;
}.

Definition set_inputs (i : Inputs) (s : cluster) : cluster :=
  s <| mstime := i_mstime i |> <| unixtime := i_unixtime i |>
    <| clients_paused := i_clients_paused i |> <| repl_connected := i_repl_connected i |>
    <| master_lastinteraction := i_master_lastinteraction i |>
    <| repl_down_since := i_repl_down_since i |> <| slave_offset := i_slave_offset i |>
    <| master_repl_offset := i_master_repl_offset i |> <| pubsub_active := i_pubsub_active i |>
    <| random_delay := i_random_delay i |> <| masterhost := i_masterhost i |>
    <| cluster_announce_ip := i_announce_ip i |>.

Inductive event :=
| Input (i : Inputs)
| Accept (peer : string) (sock : option string)                 (* clusterAcceptHandler *)
| LinkIOError (link : nat)                                      (* handleLinkIOError *)
| Packet (hdr : clusterMsg) (rcvbuf_len : Z) (link : nat)       (* clusterReadHandler *)
| Cron
| BeforeSleep
| Command (db_size : Z) (save_error : option string) (argv : list string)
| LoadedData (db_sizes : list Z).                               (* verifyClusterConfigWithData *)

Definition handle (e : event) : C unit :=
  match e with
  | Input i => modify (set_inputs i)
  | Accept peer sock =>
      let! link := gets next_link in
      modify (fun s => s <| next_link ::= S |>) ;; createClusterLink None peer sock link
  | LinkIOError link => freeClusterLink link
  | Packet hdr len link => let! _ := clusterProcessPacket hdr len link in skip
  | Cron => clusterCron
  | BeforeSleep => clusterBeforeSleep
  | Command db err argv => let! _ := clusterCommand true db err argv in skip
  | LoadedData sizes => let! _ := verifyClusterConfigWithData sizes in skip
  end.

Definition run (evs : list event) : C unit := cfor evs handle.

(** Epochs in packets are 64-bit numbers. *)
Definition event_ok (e : event) : Prop :=
  match e with Packet hdr _ _ => msg_ok hdr | _ => True end.

(** CLUSTER RESET HARD puts the epochs back to zero. *)
Definition hard_reset (e : event) : bool :=
  match e with Command _ _ argv => hard_reset_args argv | _ => false end.

(** ** Runs preserve the invariants *)

Context `{!ClusterLaws E}.

Lemma pres_handle oe e :
  event_ok e -> oe = None \/ hard_reset e = false -> pres (Inv oe) (handle e).
Proof.
  intros He Hr. destruct e; cbn [handle].
  - apply pres_quiet. intros s. done.
  - unfold createClusterLink. pres.
  - apply pres_freeClusterLink.
  - apply pres_bind; [by apply pres_clusterProcessPacket|pres].
  - apply pres_clusterCron.
  - apply pres_clusterBeforeSleep.
  - apply pres_bind; [|pres]. by apply pres_clusterCommand.
  - apply pres_bind; [|pres]. apply pres_verifyClusterConfigWithData.
Qed.

Lemma pres_run oe evs :
  Forall event_ok evs -> oe = None \/ Forall (fun e => hard_reset e = false) evs ->
  pres (Inv oe) (run evs).
Proof.
  intros Hok Hr. apply pres_for. intros e He. rewrite Forall_forall in Hok.
  apply pres_handle; [by apply Hok|]. destruct Hr as [Hr|Hr]; [by left|right].
  rewrite Forall_forall in Hr. by apply Hr.
Qed.

(** A new process: nothing allocated, nothing sent. *)
Definition blank (s : cluster) : Prop := heap s = ∅ /\ effects s = [].

Lemma epochs_inv_zero s : currentEpoch s = 0%Z -> lastVoteEpoch s = 0%Z -> effects s = [] -> epoch_inv 0 s.
Proof.
  intros H1 H2 H3. right. constructor; unfold votes; rewrite ?H1, ?H2, ?H3; cbn; try lia; constructor.
Qed.

Lemma clusterInit_inv locked load s0 u s :
  pres (Inv (Some 0%Z)) load -> blank s0 -> clusterInit locked load s0 = Ok (u, s) -> Inv (Some 0%Z) s.
Proof.
  intros Hl [Hh He] H. unfold clusterInit in H. apply cbind_ok in H as (? & s1 & [= _ <-] & H).
  revert H. match goal with |- ?m ?s = _ -> _ => assert (Hs : Inv (Some 0%Z) s); [|assert (Hp : pres (Inv (Some 0%Z)) m)] end.
  - split; [|by apply epochs_inv_zero]. constructor; cbn; rewrite ?Hh; by intros *.
  - #[local] Hint Resolve pres_clusterCloseAllSlots pres_createClusterNode pres_clusterAddNode
      pres_resetManualFailover pres_clusterSaveConfigOrDie : pres.
    pres.
  - by apply Hp.
Qed.

(** The state after start-up without a configuration file, then [evs]. *)
Definition boot_and_run (locked : bool) (evs : list event) : C unit :=
  clusterInit locked (cret false) ;; run evs.

Lemma boot_and_run_inv oe locked evs s0 u s :
  blank s0 -> Forall event_ok evs ->
  oe = None \/ oe = Some 0%Z /\ Forall (fun e => hard_reset e = false) evs ->
  boot_and_run locked evs s0 = Ok (u, s) -> Inv oe s.
Proof.
  intros Hb Hok Hr H. apply cbind_ok in H as (? & s1 & H1 & H2).
  apply clusterInit_inv in H1; [|by apply pres_ret|done].
  eapply pres_run; [exact Hok|naive_solver| |exact H2].
  destruct Hr as [->|[-> _]]; [by split; [apply H1|]|done].
Qed.
End system.
