(* ===== verification/ClusterSample.v ===== *)
(** * A sample environment and a sample run

    Constants of the order of Redis's, sixteen slots, and the documented
    functions of the other files on small inputs.  The run starts a node,
    gives it slots, and lets it meet a master and that master's slave. *)

From Stdlib Require Import Ascii Sorted.
From stdpp Require Import base numbers gmap strings list.
From S2P Require Import Prelude Text ClusterTypes ClusterSlots ClusterNodes ClusterBus ClusterGossip ClusterFailover ClusterPacket ClusterCron ClusterCommand ClusterBitmap ClusterInv ClusterPreserve ClusterSystem.

(** ** Functions of the environment *)

Definition sample_flag_bit (f : NodeFlag) : Z :=
  match f with
  | MYSELF => 0 | MASTER => 1 | SLAVE => 2 | PFAIL => 3 | FAIL => 4 | HANDSHAKE => 5
  | NOADDR => 6 | MEET => 7 | MIGRATE_TO => 8 | NOFAILOVER => 9
  end.

(** A decimal number, at most nine digits. *)
Fixpoint sample_digits (s : string) (acc : Z) : option Z :=
  match s with
  | EmptyString => Some acc
  | String a s =>
      let d := (Z.of_nat (nat_of_ascii a) - 48)%Z in
      if (0 <=? d)%Z && (d <=? 9)%Z then sample_digits s (acc * 10 + d) else None
  end.
Definition sample_getLongLong (s : string) : option Z :=
  if (String.length s =? 0) || (9 <? String.length s) then None
  else match sample_digits s 0 with
       | Some z => if (- 2 ^ 63 <=? z)%Z && (z <? 2 ^ 63)%Z then Some z else None
       | None => None
       end.

Fixpoint sample_hash (s : string) : Z :=
  match s with
  | EmptyString => 0
  | String a s => Z.of_nat (nat_of_ascii a) + 31 * sample_hash s
  end.

Definition sample_random (m : gmap string ptr) (i : nat) : option (string * ptr) :=
  let l := map_to_list m in l !! (i mod length l).

#[export] Instance sample_env : ClusterEnv := {|
  flag_bit := sample_flag_bit;
  flags_master w := Z.testbit w 1;
  flags_slave w := Z.testbit w 2;
  flags_handshake w := Z.testbit w 5;
  flags_has_addr w := negb (Z.testbit w 6);
  flags_timed_out w := Z.testbit w 3;
  flags_failed w := Z.testbit w 4;
  CLUSTER_NAMELEN := 8;
  CLUSTER_SLOTS := 16;
  CLUSTER_FAIL_REPORT_VALIDITY_MULT := 2;
  CLUSTER_FAIL_UNDO_TIME_MULT := 2;
  CLUSTER_MF_TIMEOUT := 5000;
  CLUSTER_SLAVE_MIGRATION_DELAY := 5000;
  CLUSTER_CANT_FAILOVER_RELOG_PERIOD := 300;
  CLUSTER_PORT_INCR := 10000;
  CLUSTER_PROTO_VER := 1;
  sizeof_header := 2256;
  sizeof_gossip := 104;
  sizeof_fail := 40;
  sizeof_publish := 16;
  sizeof_update := 2096;
  cluster_node_timeout := 15000;
  cluster_require_full_coverage := true;
  cluster_slave_validity_factor := 10;
  cluster_migration_barrier := 1;
  NET_IP_STR_LEN := 46;
  repl_ping_slave_period := 10;
  server_port := 6379;
  cluster_announce_port := 0;
  cluster_announce_bus_port := 0;
  crc16 := sample_hash;
  inet_normalize s := Some s;
  strcaseeq := String.eqb;
  getRandomHexChars n := String (ascii_of_nat (97 + n)) "-random";
  dict_iter := map_to_list;
  dictGetRandomKey := sample_random;
  countKeysInSlot _ := 0%Z;
  getKeysInSlot _ _ := [];
  getLongLong := sample_getLongLong;
  anetConnect ip _ := Some (ip, Some "10.0.0.1");
|}.

#[export] Instance sample_laws : ClusterLaws sample_env.
Proof.
  split; cbn; try done.
  - intros [] []; cbn; done.
  - intros []; cbn; lia.
  - intros s z. unfold sample_getLongLong. destruct (_ || _); [done|].
    destruct (sample_digits s 0) as [y|]; [|done].
    destruct ((- 2 ^ 63 <=? y)%Z && (y <? 2 ^ 63)%Z) eqn:H; [|done]. intros [= <-]. lia.
  - intros m i [k v] H. unfold sample_random in H. apply list_elem_of_lookup_2 in H.
    by apply elem_of_map_to_list in H.
Qed.

(** ** States and messages *)

(** A process that has just started: no nodes, all counters zero. *)
Definition sample_blank : cluster :=
  mkCluster ∅ 0 0 ∅ ∅ 0 0 0 CLUSTER_FAIL 0 ∅ ∅ ∅ ∅ 0 0 false 0 0 CANT_FAILOVER_NONE 0 None 0 false
    [] 0 [] [] 0 0 0 0 0 0 false false 0 0 0 0 false 0 false None None 0 [].

Definition sample_inputs (now : Z) : Inputs :=
  mkInputs now (now / 1000) false false 0 0 0 0 true 0 false None.

Definition no_bits : list Z := [0; 0]%Z.

(** A message without gossip, from [sender]; [flags] and [slots] as given. *)
Definition sample_msg (t : MsgType) (sender : string) (flags : list NodeFlag) (slots : list Z)
    (slaveof : option string) (epoch configEpoch : Z) : clusterMsg :=
  mkMsg 2256 1 (Some t) 0 sender slots slaveof "10.0.0.7" 7000 17000
    (fold_right set_flag 0%Z flags) CLUSTER_OK false true epoch configEpoch 0
    [] "" (mkPublish 0 0 "") 0 "" [].

(** A master named [b] with slots 8 to 15, and its slave [c]. *)
Definition msg_b (t : MsgType) (epoch : Z) : clusterMsg :=
  sample_msg t "b" [MASTER] [0; 255]%Z None epoch 1.
Definition msg_c (t : MsgType) (epoch : Z) : clusterMsg :=
  sample_msg t "c" [SLAVE] [0; 255]%Z (Some "b") epoch 1.

(** Take slots 0 and 1, meet [b] and [c], and be asked for votes. *)
Definition sample_meet : list event :=
  [Input (sample_inputs 100000);
   Command 0 None ["addslots"; "0"; "1"];
   Command 0 None ["meet"; "10.0.0.7"; "7000"];
   Cron;                                  (* connects: link 0 *)
   Packet (msg_b PONG 1) 2256 0;
   Packet (msg_b PING 1) 2256 0;
   Command 0 None ["meet"; "10.0.0.8"; "7001"];
   Cron;                                  (* link 1 *)
   Packet (msg_c PONG 1) 2256 1;
   Packet (msg_c PING 1) 2256 1].
Definition sample_votes : list event :=
  [Packet (msg_c FAILOVER_AUTH_REQUEST 5) 2256 1;
   Packet (msg_c FAILOVER_AUTH_REQUEST 5) 2256 1;
   Input (sample_inputs 200000);
   Packet (msg_c FAILOVER_AUTH_REQUEST 6) 2256 1;
   BeforeSleep].

Definition final {A} (m : C A) (s : cluster) : cluster :=
  match m s with Ok (_, s) => s | _ => s end.
Definition sample_met : cluster := Eval vm_compute in final (boot_and_run true sample_meet) sample_blank.

Lemma sample_blank_ok : blank sample_blank.
Proof. done. Qed.

Lemma sample_msgs_ok : Forall event_ok (sample_meet ++ sample_votes).
Proof. repeat apply Forall_cons_2; cbn; try done. Qed.

Lemma sample_soft : Forall (fun e => hard_reset e = false) (sample_meet ++ sample_votes).
Proof. repeat apply Forall_cons_2; cbn; try done. Qed.

Lemma not_wrapped l :
  forallb (fun e => match e with EpochWrapped => false | _ => true end) l = true -> EpochWrapped ∉ l.
Proof. rewrite forallb_forall. intros H Hin%list_elem_of_In. by specialize (H _ Hin). Qed.

Lemma sample_met_inv : slot_inv sample_met.
Proof.
  eapply (boot_and_run_inv None true sample_meet); [exact sample_blank_ok| |by left|vm_compute; reflexivity].
  pose proof sample_msgs_ok as H. by apply Forall_app in H as [H _].
Qed.
