(* ===== verification/ClusterSafety.v ===== *)
(** * What holds after every run of a cluster node

    Ownership of slots, epochs and votes, for every sequence of packets,
    timer calls, commands and connection events after start-up. *)

From Stdlib Require Import Ascii Sorted.
From stdpp Require Import base numbers gmap strings list.
From S2P Require Import Prelude Text ClusterTypes ClusterSlots ClusterNodes ClusterBus ClusterGossip ClusterFailover ClusterPacket ClusterCron ClusterCommand ClusterBitmap ClusterInv ClusterPreserve ClusterSystem ClusterSample.

Section safety.
Context `{E : ClusterEnv} `{!ClusterLaws E}.

(** Slot ownership.  Start a node and let any sequence of events happen
    to it.  If it has not crashed, then slot [j] has owner [p] in the slot
    table exactly when [p] is an allocated node whose bitmap has bit [j]
    set, two nodes never both have the bit of a slot, and every node's
    [numslots] is the number of bits of its bitmap. *)
Theorem run_slot_ownership locked evs s0 u s :
  blank s0 -> Forall event_ok evs -> boot_and_run locked evs s0 = Ok (u, s) ->
  (forall j p, slots s !! j = Some p <->
     j < CLUSTER_SLOTS /\ exists n, heap s !! p = Some n /\ clusterNodeGetSlotBit n j = true) /\
  (forall j p q n m, j < CLUSTER_SLOTS -> heap s !! p = Some n -> heap s !! q = Some m ->
     clusterNodeGetSlotBit n j = true -> clusterNodeGetSlotBit m j = true -> p = q) /\
  (forall p n, heap s !! p = Some n ->
     n_numslots n = Z.of_nat (length (List.filter (clusterNodeGetSlotBit n) all_slots))).
Proof.
  intros Hb Hok H. apply (boot_and_run_inv None) in H as [[H1 H2 H3 H4 H5] _]; [|done..|by left].
  unfold clusterNodeGetSlotBit. split_and!.
  - intros j p. split; [apply H3|]. intros (Hj & n & Hn & Hbit). by eapply H4.
  - intros j p q n m Hj Hn Hm Hpn Hqm. pose proof (H4 _ _ _ Hn Hj Hpn). pose proof (H4 _ _ _ Hm Hj Hqm).
    congruence.
  - apply H5.
Qed.

(** Epochs and votes.  Between two moments of a run in which nobody
    resets the node with HARD and the 64-bit counter does not wrap around,
    the current epoch does not decrease; and the epochs of the failover
    votes the node has sent, in the order it sent them, strictly increase,
    so it never votes twice in one epoch. *)
Theorem run_one_vote_per_epoch locked evs1 evs2 s0 u1 s1 u2 s2 :
  blank s0 -> Forall event_ok (evs1 ++ evs2) ->
  Forall (fun e => hard_reset e = false) (evs1 ++ evs2) ->
  boot_and_run locked evs1 s0 = Ok (u1, s1) -> run evs2 s1 = Ok (u2, s2) ->
  EpochWrapped ∉ effects s2 ->
  (currentEpoch s1 <= currentEpoch s2 /\ lastVoteEpoch s2 <= currentEpoch s2)%Z /\
  StronglySorted Z.lt (votes s2) /\ NoDup (votes s2).
Proof.
  intros Hb [Ho1 Ho2]%Forall_app [Hr1 Hr2]%Forall_app H1 H2 Hw.
  apply (boot_and_run_inv (Some 0%Z)) in H1 as [HI He]; [|done..|by right].
  assert (Hs1 : Inv (Some (currentEpoch s1)) s1).
  { split; [done|]. destruct He as [He|[]]; [by left|right; constructor; try done; lia]. }
  pose proof (pres_run (Some (currentEpoch s1)) _ Ho2 (or_intror Hr2) _ _ _ Hs1 H2) as [_ Hi].
  destruct Hi as [Hx|[]]; [done|].
  split_and!; [lia|done|done|by apply increasing_NoDup].
Qed.

(** Releasing a slot.  In a state of a run, [clusterDelSlot] never fails
    its assertion: it reports whether the slot had an owner, leaves the slot
    without one, clears the owner's bit and decrements its counter, and
    changes no other slot and no other node. *)
Theorem clusterDelSlot_spec s slot :
  slot_inv s ->
  match slots s !! slot with
  | None => clusterDelSlot slot s = Ok (false, s)
  | Some p => exists n s', heap s !! p = Some n /\ clusterDelSlot slot s = Ok (true, s') /\
      slots s' = delete slot (slots s) /\
      (forall q, q <> p -> heap s' !! q = heap s !! q) /\
      exists n', heap s' !! p = Some n' /\ n_numslots n' = (n_numslots n - 1)%Z /\
        forall j, clusterNodeGetSlotBit n' j = clusterNodeGetSlotBit n j && negb (slot =? j)
  end.
Proof.
  intros HI. unfold clusterDelSlot, clusterNodeClearSlotBit, cbind, gets, deref, update, cwhen, serverAssert.
  cbn. destruct (slots s !! slot) as [p|] eqn:Ho; [|done].
  destruct (iv_owner _ HI _ _ Ho) as (Hj & n & Hn & Hb). exists n.
  cbn. rewrite Hn. cbn. rewrite Hn. cbn. rewrite Hb. cbn. rewrite lookup_insert_eq. cbn. eexists. split_and!; [done..| |].
  - intros q Hq. cbn. by rewrite !lookup_insert_ne.
  - eexists. cbn. rewrite lookup_insert_eq. split_and!; [done|done|].
    intros j. rewrite andb_comm. apply (test_clear (n_slots n)).
Qed.
End safety.

(** ** Witnesses *)

Definition sample_end : cluster :=
  Eval vm_compute in final (boot_and_run true (sample_meet ++ sample_votes)) sample_blank.

Lemma run_slot_ownership_witness :
  slots sample_end !! 9 = Some 1 /\
  exists n, heap sample_end !! 1 = Some n /\ clusterNodeGetSlotBit n 9 = true.
Proof.
  assert (H : boot_and_run true (sample_meet ++ sample_votes) sample_blank = Ok (tt, sample_end))
    by (vm_compute; reflexivity).
  split; [reflexivity|].
  apply (run_slot_ownership _ _ _ _ _ sample_blank_ok sample_msgs_ok H). reflexivity.
Defined.

Lemma run_one_vote_per_epoch_witness : votes sample_end = [5; 6]%Z /\ NoDup (votes sample_end).
Proof.
  split; [vm_compute; reflexivity|].
  assert (H1 : boot_and_run true sample_meet sample_blank = Ok (tt, sample_met))
    by (vm_compute; reflexivity).
  assert (H2 : run sample_votes sample_met = Ok (tt, sample_end)) by (vm_compute; reflexivity).
  refine (proj2 (proj2 (run_one_vote_per_epoch _ _ _ _ _ _ _ _ sample_blank_ok sample_msgs_ok
    sample_soft H1 H2 _))).
  apply not_wrapped. vm_compute. reflexivity.
Defined.

Lemma clusterDelSlot_spec_witness :
  exists n s', heap sample_met !! 1 = Some n /\ clusterDelSlot 9 sample_met = Ok (true, s') /\
    slots s' = delete 9 (slots sample_met).
Proof.
  destruct (clusterDelSlot_spec sample_met 9 sample_met_inv) as (n & s' & H1 & H2 & H3 & _).
  exists n, s'. done.
Defined.
