(* ===== verification/ClusterReports.v ===== *)
(** * Failure reports and configuration epochs: what the operations promise *)

From Stdlib Require Import Ascii.
From stdpp Require Import base numbers gmap strings list fin_maps.
From S2P Require Import Prelude Text ClusterTypes ClusterSlots ClusterNodes ClusterInv ClusterPreserve ClusterSystem ClusterSample.

(** ** Failure reports as a map from reporters to times *)

Definition reports (l : list FailReport) : gmap ptr Z :=
  list_to_map ((fun fr => (fr_node fr, fr_time fr)) <$> l).

(** At most one report by node. *)
Definition one_each (l : list FailReport) : Prop := NoDup (fr_node <$> l).

Lemma reports_keys l : ((fun fr => (fr_node fr, fr_time fr)) <$> l).*1 = fr_node <$> l.
Proof. by rewrite <- list_fmap_compose. Qed.

Lemma reports_lookup l p t :
  one_each l -> reports l !! p = Some t <-> mkFailReport p t ∈ l.
Proof.
  intros Hl. unfold reports. rewrite <- elem_of_list_to_map by (by rewrite reports_keys).
  rewrite list_elem_of_fmap. split.
  - intros ([q u] & [= -> ->] & Hin). done.
  - intros Hin. by exists (mkFailReport p t).
Qed.

Lemma reports_None l p : reports l !! p = None <-> p ∉ fr_node <$> l.
Proof. unfold reports. rewrite <- reports_keys. symmetry. apply not_elem_of_list_to_map. Qed.

Lemma refresh_report_spec sender now l :
  match refresh_report sender now l with
  | Some l' => reports l' = <[sender := now]> (reports l) /\ fr_node <$> l' = fr_node <$> l /\
               is_Some (reports l !! sender)
  | None => reports l !! sender = None
  end.
Proof.
  induction l as [|fr l IH]; cbn; [done|]. destruct (decide (fr_node fr = sender)) as [<-|Hne].
  - unfold reports. cbn. rewrite insert_insert_eq, lookup_insert_eq. done.
  - destruct (refresh_report sender now l) as [l'|]; cbn.
    + destruct IH as (H1 & H2 & H3). unfold reports in *. cbn. rewrite H1, insert_insert_ne by done.
      split_and!; [done|by rewrite H2|by rewrite lookup_insert_ne].
    + unfold reports in *. cbn. by rewrite lookup_insert_ne.
Qed.

Lemma remove_report_spec sender l :
  one_each l ->
  match remove_report sender l with
  | Some l' => reports l' = delete sender (reports l) /\ one_each l' /\ is_Some (reports l !! sender) /\
               fr_node <$> l' ⊆ fr_node <$> l
  | None => reports l !! sender = None
  end.
Proof.
  induction l as [|fr l IH]; cbn; [done|]. intros Hl. apply NoDup_cons in Hl as [Hn Hl].
  destruct (decide (fr_node fr = sender)) as [<-|Hne].
  - unfold reports. cbn. rewrite lookup_insert_eq. split_and!; [|done|done|set_solver].
    rewrite delete_insert_id; [done|]. by apply reports_None.
  - specialize (IH Hl). destruct (remove_report sender l) as [l'|]; cbn.
    + destruct IH as (H1 & H2 & H3 & H4). unfold reports in *. cbn.
      rewrite H1, delete_insert_ne, lookup_insert_ne by done. split_and!; [done| |done|set_solver].
      apply NoDup_cons. split; [|done]. set_solver.
    + unfold reports in *. cbn. by rewrite lookup_insert_ne.
Qed.

Lemma one_each_filter P l : one_each l -> one_each (List.filter P l).
Proof.
  unfold one_each. induction l as [|fr l IH]; cbn; [done|]. intros [Hn Hl]%NoDup_cons.
  destruct (P fr); [|by apply IH]. cbn. apply NoDup_cons. split; [|by apply IH].
  intros Hin. apply Hn. clear -Hin. apply list_elem_of_fmap in Hin as (x & -> & Hx).
  apply list_elem_of_fmap. exists x. split; [done|].
  apply list_elem_of_In in Hx. apply filter_In in Hx as [Hx _]. by apply list_elem_of_In.
Qed.

Lemma reports_filter (P : FailReport -> bool) (Q : Z -> bool) l :
  (forall fr, P fr = Q (fr_time fr)) -> one_each l ->
  reports (List.filter P l) = filter (fun kv => Q kv.2 = true) (reports l).
Proof.
  intros HPQ Hl. apply map_eq. intros p. apply option_eq. intros t.
  rewrite reports_lookup by (by apply one_each_filter).
  rewrite map_lookup_filter_Some, (reports_lookup _ _ _ Hl). cbn.
  rewrite !list_elem_of_In, filter_In, HPQ. cbn. tauto.
Qed.

Lemma reports_size l : one_each l -> stdpp.base.size (reports l) = length l.
Proof.
  intros Hl. unfold reports. rewrite map_size_list_to_map by (by rewrite reports_keys).
  apply length_fmap.
Qed.

Section reports.
Context `{E : ClusterEnv}.

Definition in_time (now t : Z) : bool := (now - t <=? report_maxtime)%Z.

(** Node [p] of [s] has [l] as its reports in [s'], and all else is as it was. *)
Definition reports_become (p : ptr) (l : list FailReport) (s s' : cluster) : Prop :=
  exists n, heap s !! p = Some n /\ one_each l /\
    s' = s <| heap := <[p := n <| n_fail_reports := l |>]> (heap s) |>.

Lemma node_reports_eta n : n <| n_fail_reports := n_fail_reports n |> = n.
Proof. by destruct n. Qed.

Lemma AddFailureReport_map s p sender n :
  heap s !! p = Some n -> one_each (n_fail_reports n) ->
  exists l s', clusterNodeAddFailureReport p sender s =
      Ok (bool_decide (reports (n_fail_reports n) !! sender = None), s') /\
    reports_become p l s s' /\ reports l = <[sender := mstime s]> (reports (n_fail_reports n)).
Proof.
  intros Hn Hl. unfold clusterNodeAddFailureReport, cbind, deref, gets, update. rewrite Hn. cbn.
  pose proof (refresh_report_spec sender (mstime s) (n_fail_reports n)) as Hr.
  destruct (refresh_report _ _ _) as [l'|]; rewrite Hn; cbn.
  - destruct Hr as (H1 & H2 & [t Ht]). exists l'. eexists. rewrite Ht. split_and!; [done| |done].
    exists n. split_and!; [done| |done]. unfold one_each. by rewrite H2.
  - eexists (_ ++ [_]), _. rewrite Hr. split_and!; [done| |].
    + exists n. split_and!; [done| |done]. apply reports_None in Hr. unfold one_each.
      rewrite fmap_app. apply NoDup_app. split_and!; [done| |apply NoDup_singleton].
      cbn. set_solver.
    + unfold reports. rewrite fmap_app, list_to_map_app. cbn.
      symmetry. rewrite <- (right_id_L ∅ (∪) (list_to_map _)) at 1. rewrite insert_union_r; done.
Qed.

Lemma CleanupFailureReports_map s p n :
  heap s !! p = Some n -> one_each (n_fail_reports n) ->
  exists l s', clusterNodeCleanupFailureReports p s = Ok (tt, s') /\ reports_become p l s s' /\
    reports l = filter (fun kv => in_time (mstime s) kv.2 = true) (reports (n_fail_reports n)) /\
    l = List.filter (report_valid (mstime s)) (n_fail_reports n).
Proof.
  intros Hn Hl. unfold clusterNodeCleanupFailureReports, cbind, gets, update. cbn. rewrite Hn.
  eexists _, _. split_and!; [done| | |reflexivity].
  - exists n. split_and!; [done|by apply one_each_filter|done].
  - by apply reports_filter.
Qed.

Lemma DelFailureReport_map s p sender n :
  heap s !! p = Some n -> one_each (n_fail_reports n) ->
  exists l s', clusterNodeDelFailureReport p sender s =
      Ok (bool_decide (is_Some (reports (n_fail_reports n) !! sender)), s') /\
    reports_become p l s s' /\
    reports l = if bool_decide (is_Some (reports (n_fail_reports n) !! sender))
                then filter (fun kv => in_time (mstime s) kv.2 = true)
                       (delete sender (reports (n_fail_reports n)))
                else reports (n_fail_reports n).
Proof.
  intros Hn Hl. unfold clusterNodeDelFailureReport, cbind at 1, deref. rewrite Hn. cbn beta iota.
  pose proof (remove_report_spec sender _ Hl) as Hr. cbn.
  destruct (remove_report _ _) as [l'|]; cbn.
  - destruct Hr as (H1 & H2 & [t Ht] & _). unfold cbind, update. rewrite Hn.
    destruct (CleanupFailureReports_map (s <| heap := <[p := n <| n_fail_reports := l' |>]> (heap s) |>)
      p (n <| n_fail_reports := l' |>)) as (l & s' & H3 & (m & H4 & H5 & H6) & H7 & _); cbn;
      [by rewrite lookup_insert_eq|done|].
    setoid_rewrite H3. rewrite Ht. eexists l, _. split_and!; [done| |].
    + exists n. split_and!; [done..|]. rewrite H6. cbn in H4 |- *. rewrite lookup_insert_eq in H4.
      injection H4 as <-. cbn. by rewrite insert_insert_eq.
    + rewrite H7. exact (f_equal (filter _) H1).
  - rewrite Hr. cbn. exists (n_fail_reports n), s. split_and!; [done| |done].
    exists n. split_and!; [done..|]. rewrite node_reports_eta, insert_id by done. by destruct s.
Qed.

Lemma FailureReportsCount_map s p n :
  heap s !! p = Some n -> one_each (n_fail_reports n) ->
  exists l s', clusterNodeFailureReportsCount p s = Ok (Z.of_nat (stdpp.base.size (reports l)), s') /\
    reports_become p l s s' /\
    reports l = filter (fun kv => in_time (mstime s) kv.2 = true) (reports (n_fail_reports n)).
Proof.
  intros Hn Hl. destruct (CleanupFailureReports_map s p n Hn Hl) as (l & s' & H1 & H2 & H3 & _).
  exists l, s'. split_and!; [|done..]. unfold clusterNodeFailureReportsCount, cbind, deref.
  rewrite H1. cbn. destruct H2 as (m & Hm & Hl' & ->). cbn. rewrite lookup_insert_eq. cbn.
  by rewrite reports_size.
Qed.

(** Failure reports.  The list of a node's failure reports implements a
    map from reporting nodes to times, one report for each: adding a report
    inserts the reporter with the current time and tells whether it was new;
    removing one deletes the reporter and every report that is too old, and
    tells whether it was there (if not, nothing changes); counting drops the
    reports that are too old and returns how many reporters are left.  No
    operation fails or touches anything else. *)
Theorem failure_reports_refine_map s p sender n :
  heap s !! p = Some n -> one_each (n_fail_reports n) ->
  let old := reports (n_fail_reports n) in
  let fresh := filter (fun kv : ptr * Z => in_time (mstime s) kv.2 = true) in
  (exists l s', clusterNodeAddFailureReport p sender s = Ok (bool_decide (old !! sender = None), s') /\
     reports_become p l s s' /\ reports l = <[sender := mstime s]> old) /\
  (exists l s', clusterNodeDelFailureReport p sender s = Ok (bool_decide (is_Some (old !! sender)), s') /\
     reports_become p l s s' /\
     reports l = if bool_decide (is_Some (old !! sender)) then fresh (delete sender old) else old) /\
  (exists l s', clusterNodeFailureReportsCount p s =
       Ok (Z.of_nat (stdpp.base.size (fresh old)), s') /\
     reports_become p l s s' /\ reports l = fresh old).
Proof.
  intros Hn Hl old fresh. split_and!.
  - by apply AddFailureReport_map.
  - by apply DelFailureReport_map.
  - destruct (FailureReportsCount_map s p n Hn Hl) as (l & s' & H1 & H2 & H3).
    exists l, s'. split_and!; [|done..]. rewrite H1. subst fresh old. by rewrite H3.
Qed.
End reports.

(** Witness: node 1 of the sample state, reported by node 0. *)
Lemma failure_reports_refine_map_witness :
  exists l s', clusterNodeAddFailureReport 1 0 sample_met = Ok (true, s') /\
    reports_become 1 l sample_met s' /\ reports l = {[ 0 := 100000%Z ]}.
Proof.
  destruct (heap sample_met !! 1) as [n|] eqn:Hn; [|discriminate Hn].
  assert (Hr : n_fail_reports n = []) by (vm_compute in Hn; injection Hn as <-; reflexivity).
  destruct (failure_reports_refine_map sample_met 1 0 n Hn) as [(l & s' & H1 & H2 & H3) _].
  - rewrite Hr. apply NoDup_nil_2.
  - rewrite Hr in *. exists l, s'. split; [exact H1|]. split; [exact H2|exact H3].
Defined.
