(* ===== verification/ClusterRouteProps.v ===== *)
(** * What the routing of a query promises

    Where a query is sent, and which part of a key decides its slot. *)

From Stdlib Require Import Ascii.
From stdpp Require Import base numbers pretty gmap strings list.
From S2P Require Import Prelude Text ClusterTypes ClusterSlots ClusterNodes ClusterCommand ClusterRoute ClusterInv ClusterSystem ClusterSample.

Section route.
Context `{E : ClusterEnv} (key_exists : string -> bool).

(** ** The loop over the keys *)

Definition absent (key : string) : Prop := key_exists key = false.

(** What the loop has found out when it has seen [seen], first key [k0]. *)
Record scan_ok (s : cluster) (k0 : string) (seen : list string) (k : KeyScan) : Prop := {
  so_first : ks_firstkey k = k0;
  so_slot : ks_slot k = key_slot k0;
  so_node : slots s !! key_slot k0 = Some (ks_node k);
  so_migrating : ks_migrating k = true <->
    ks_node k = myself s /\ migrating_slots_to s !! key_slot k0 <> None;
  so_importing : ks_importing k = true <->
    ks_migrating k = false /\ importing_slots_from s !! key_slot k0 <> None;
  so_same : Forall (fun key => key_slot key = key_slot k0) seen;
  so_multiple : ks_multiple k = true <-> exists key, key ∈ seen /\ key <> k0;
  so_count : (0 <= ks_missing k)%Z;
  so_missing : ks_migrating k || ks_importing k = true ->
    (ks_missing k <> 0%Z <-> Exists absent seen);
}.

Lemma count_missing_fields k key :
  let k' := count_missing key_exists k key in
  ks_firstkey k' = ks_firstkey k /\ ks_slot k' = ks_slot k /\ ks_node k' = ks_node k /\
  ks_migrating k' = ks_migrating k /\ ks_importing k' = ks_importing k /\
  ks_multiple k' = ks_multiple k /\
  ks_missing k' = (if (ks_migrating k || ks_importing k) && negb (key_exists key)
                   then ks_missing k + 1 else ks_missing k)%Z.
Proof. unfold count_missing. by destruct (_ && _). Qed.

Lemma first_key_ok s k0 k :
  first_key s k0 = inr k -> scan_ok s k0 [k0] (count_missing key_exists k k0).
Proof.
  unfold first_key. destruct (slots s !! key_slot k0) as [n|] eqn:Hn; [|done]. intros [= <-].
  set (k := mkScanK _ _ _ _ _ _ _).
  destruct (count_missing_fields k k0) as (H1 & H2 & H3 & H4 & H5 & H6 & H7).
  split; rewrite ?H1, ?H2, ?H3, ?H4, ?H5, ?H6, ?H7; cbn; try done.
  - rewrite andb_true_iff, !bool_decide_eq_true. done.
  - rewrite andb_true_iff, negb_true_iff, bool_decide_eq_true. done.
  - by apply Forall_singleton.
  - split; [done|]. intros (q & Hq%list_elem_of_singleton & Hne). done.
  - destruct (_ && negb _); lia.
  - intros ->. cbn. rewrite Exists_cons, Exists_nil. unfold absent.
    destruct (key_exists k0); cbn; naive_solver lia.
Qed.

Lemma next_key_ok s k0 seen k key k' :
  scan_ok s k0 seen k -> next_key k key = inr k' ->
  scan_ok s k0 (seen ++ [key]) (count_missing key_exists k' key).
Proof.
  intros [] H. unfold next_key in H.
  assert (Hk : key_slot key = key_slot k0 /\ (ks_multiple k' = true <-> ks_multiple k = true \/ key <> k0) /\
    k' = mkScanK (ks_firstkey k) (ks_slot k) (ks_node k) (ks_migrating k) (ks_importing k)
           (ks_multiple k') (ks_missing k)).
  { case_bool_decide as Hf; [injection H as <-; split_and!; [congruence|naive_solver|by destruct k]|].
    destruct (Nat.eqb_spec (ks_slot k) (key_slot key)); cbn in H; [|done]. injection H as <-. cbn.
    split_and!; [congruence| |done]. split; [right; congruence|done]. }
  destruct Hk as (Hslot & Hmul & Hk'). clear H. set (m := ks_multiple k') in *. clearbody m.
  subst k'.
  destruct (count_missing_fields (mkScanK (ks_firstkey k) (ks_slot k) (ks_node k) (ks_migrating k)
    (ks_importing k) m (ks_missing k)) key) as (H1 & H2 & H3 & H4 & H5 & H6 & H7).
  split; rewrite ?H1, ?H2, ?H3, ?H4, ?H5, ?H6, ?H7; cbn; try done.
  - apply Forall_app. split; [done|]. by apply Forall_singleton.
  - rewrite Hmul, so_multiple0. setoid_rewrite elem_of_app. setoid_rewrite list_elem_of_singleton.
    naive_solver.
  - clear -so_count0. destruct (_ && negb _); lia.
  - intros Ho. specialize (so_missing0 Ho). rewrite Ho. cbn. rewrite Exists_app, Exists_cons, Exists_nil.
    unfold absent at 2. destruct (key_exists key); cbn.
    + rewrite so_missing0. naive_solver.
    + split; [naive_solver|clear -so_count0; lia].
Qed.

Lemma next_key_error k key e :
  next_key k key = inl e -> e = REDIR_CROSS_SLOT /\ key_slot key <> ks_slot k.
Proof.
  unfold next_key. case_bool_decide; [done|].
  destruct (Nat.eqb_spec (ks_slot k) (key_slot key)); cbn; [done|]. intros [= <-]. done.
Qed.

Lemma scan_keys_some s k0 seen k keys :
  k0 ∈ seen -> scan_ok s k0 seen k ->
  match scan_keys key_exists s (Some k) keys with
  | inl e => e = REDIR_CROSS_SLOT /\ exists key, key ∈ keys /\ key_slot key <> key_slot k0
  | inr None => False
  | inr (Some k) => scan_ok s k0 (seen ++ keys) k
  end.
Proof.
  revert seen k. induction keys as [|key keys IH]; intros seen k H0 Hk; cbn [scan_keys].
  { by rewrite app_nil_r. }
  destruct (next_key k key) as [e|k'] eqn:Hn.
  - apply next_key_error in Hn as [-> Hne]. split; [done|]. exists key. split; [by left|].
    by rewrite <- (so_slot _ _ _ _ Hk).
  - pose proof (next_key_ok _ _ _ _ _ _ Hk Hn) as Hk'.
    specialize (IH (seen ++ [key]) _ ltac:(apply elem_of_app; by left) Hk').
    destruct (scan_keys _ _ _ _) as [e|[k2|]]; [|by rewrite <- app_assoc in IH|done].
    destruct IH as (He & q & Hq & Hne). split; [done|]. exists q. split; [by right|done].
Qed.

(** ** The answer *)

(** Why this node may serve slot [j] with owner [owner] itself. *)
Definition may_serve (s : cluster) (my : clusterNode) (c : Client) (cmd : RedisCommand)
    (keys : list string) (j : nat) (owner : ptr) : Prop :=
  (owner = myself s /\
     (migrating_slots_to s !! j = None \/ ~ Exists absent keys \/ cmd_proc cmd = MigrateCommand)) \/
  (importing_slots_from s !! j <> None /\
     (cmd_proc cmd = MigrateCommand \/
      (client_asking c = true \/ cmd_asking cmd = true) /\
      ((forall k1 k2, k1 ∈ keys -> k2 ∈ keys -> k1 = k2) \/ ~ Exists absent keys))) \/
  (client_readonly c = true /\ cmd_readonly cmd = true /\ nodeIsSlave my = true /\
     n_slaveof my = Some owner).

(** All keys hash to [j], which [owner] serves. *)
Definition keys_at (s : cluster) (keys : list string) (j : nat) (owner : ptr) : Prop :=
  Forall (fun key => key_slot key = j) keys /\ slots s !! j = Some owner.

(** What each code means. *)
Definition answer_ok (s : cluster) (my : clusterNode) (c : Client) (cmd : RedisCommand)
    (keys : list string) (answer : option ptr * Redir * option nat) : Prop :=
  let '(node, code, slot) := answer in
  match code with
  | REDIR_NONE => node = Some (myself s) /\
      (keys = [] \/ state s = CLUSTER_OK /\
       exists j owner, slot = Some j /\ keys_at s keys j owner /\ may_serve s my c cmd keys j owner)
  | REDIR_MOVED => state s = CLUSTER_OK /\ exists j owner, slot = Some j /\
      keys_at s keys j owner /\ node = Some owner /\ owner <> myself s
  | REDIR_ASK => state s = CLUSTER_OK /\ exists j target, slot = Some j /\
      keys_at s keys j (myself s) /\ migrating_slots_to s !! j = Some target /\
      node = Some target /\ Exists absent keys
  | REDIR_UNSTABLE => node = None /\ exists j owner, slot = Some j /\ keys_at s keys j owner /\
      importing_slots_from s !! j <> None /\ Exists absent keys /\
      (client_asking c = true \/ cmd_asking cmd = true) /\
      exists k1 k2, k1 ∈ keys /\ k2 ∈ keys /\ k1 <> k2
  | REDIR_CROSS_SLOT => node = None /\
      exists k1 k2, k1 ∈ keys /\ k2 ∈ keys /\ key_slot k1 <> key_slot k2
  | REDIR_DOWN_UNBOUND => node = None /\ exists key, head keys = Some key /\ slots s !! key_slot key = None
  | REDIR_DOWN_STATE => node = None /\ state s <> CLUSTER_OK /\ keys <> []
  end.

Lemma keys_multiple s k0 keys k :
  k0 ∈ keys -> scan_ok s k0 keys k ->
  if ks_multiple k then exists k1 k2, k1 ∈ keys /\ k2 ∈ keys /\ k1 <> k2
  else forall k1 k2, k1 ∈ keys -> k2 ∈ keys -> k1 = k2.
Proof.
  intros H0 Hk. pose proof (so_multiple _ _ _ _ Hk) as Hm. destruct (ks_multiple k).
  - destruct (proj1 Hm eq_refl) as (q & Hq & Hne). eauto.
  - assert (H : forall q, q ∈ keys -> q = k0).
    { intros q Hq. destruct (decide (q = k0)) as [|Hne]; [done|]. by discriminate (proj2 Hm); eauto. }
    intros k1 k2 ->%H ->%H. done.
Qed.

Lemma missing_iff s k0 keys k :
  scan_ok s k0 keys k -> ks_migrating k || ks_importing k = true ->
  if (ks_missing k =? 0)%Z then ~ Exists absent keys else Exists absent keys.
Proof.
  intros Hk Ho. pose proof (so_missing _ _ _ _ Hk Ho).
  destruct (Z.eqb_spec (ks_missing k) 0); naive_solver.
Qed.

Lemma scan_keys_spec s k0 rest :
  match scan_keys key_exists s None (k0 :: rest) with
  | inl e => (e = REDIR_CROSS_SLOT /\ exists key, key ∈ rest /\ key_slot key <> key_slot k0) \/
             (e = REDIR_DOWN_UNBOUND /\ slots s !! key_slot k0 = None)
  | inr None => False
  | inr (Some k) => scan_ok s k0 (k0 :: rest) k
  end.
Proof.
  cbn [scan_keys]. destruct (first_key s k0) as [e|k] eqn:Hf.
  - unfold first_key in Hf. destruct (slots s !! key_slot k0) eqn:Hn; [done|]. injection Hf as <-.
    by right.
  - pose proof (first_key_ok _ _ _ Hf) as Hk.
    pose proof (scan_keys_some s k0 [k0] _ rest ltac:(by left) Hk) as H.
    destruct (scan_keys _ _ _ rest) as [e|[k'|]]; [by left|exact H|done].
Qed.

Lemma cif_ret {A} (b : bool) (x y : A) s :
  (if b then cret x else cret y) s = Ok (if b then x else y, s).
Proof. by destruct b. Qed.

(** The last two cases: a slave serving a reader, the owner otherwise. *)
Lemma owner_answer s my c cmd keys j owner :
  state s = CLUSTER_OK -> keys_at s keys j owner ->
  (owner = myself s -> migrating_slots_to s !! j = None \/ ~ Exists absent keys) ->
  answer_ok s my c cmd keys
    (if client_readonly c && cmd_readonly cmd && nodeIsSlave my && bool_decide (n_slaveof my = Some owner)
     then (Some (myself s), REDIR_NONE, Some j)
     else (Some owner, if decide (owner = myself s) then REDIR_NONE else REDIR_MOVED, Some j)).
Proof.
  intros Hst Hat Hown. destruct (_ && bool_decide _) eqn:Hro.
  - rewrite !andb_true_iff, bool_decide_eq_true in Hro. destruct Hro as [[[? ?] ?] ?].
    split; [done|]. right. split; [done|]. exists j, owner. split_and!; [done..|]. by right; right.
  - destruct (decide (owner = myself s)) as [Ho|Ho].
    + split; [by rewrite Ho|]. right. split; [done|]. exists j, owner. split_and!; [done..|].
      left. split; [done|]. destruct (Hown Ho); eauto.
    + split; [done|]. by exists j, owner.
Qed.

(** C11. Routing.  Unless the command is an EXEC outside of MULTI, for a
    client, a command and the keys of all its queued commands,
    [getNodeByQuery] always answers, without changing the state, and the
    answer means what its code says.  No error: this node serves the request
    and may (it owns the slot and no key has migrated away, or it imports
    the slot for a client that asked, or it is a slave of the owner and the
    client only reads).  MOVED names the owner, another node; ASK the node
    the slot migrates to, only if a key is missing here; and each of the
    four errors is given only in its documented situation. *)
Theorem getNodeByQuery_spec s my c cmd key_lists :
  heap s !! myself s = Some my -> cmd_proc cmd <> ExecCommand \/ client_multi c = true ->
  exists answer, getNodeByQuery key_exists c cmd key_lists s = Ok (answer, s) /\
    answer_ok s my c cmd (concat key_lists) answer.
Proof.
  intros Hmy Hexec. unfold getNodeByQuery, cbind, gets. cbn -[scan_keys].
  replace (bool_decide (cmd_proc cmd = ExecCommand) && negb (client_multi c)) with false
    by (case_bool_decide; destruct (client_multi c); naive_solver).
  destruct (concat key_lists) as [|k0 rest]; [eexists; split; [reflexivity|cbn; eauto]|].
  pose proof (scan_keys_spec s k0 rest) as Hs.
  destruct (scan_keys key_exists s None (k0 :: rest)) as [e|[k|]]; [|..|done].
  { eexists. split; [reflexivity|]. destruct Hs as [(-> & q & Hq & Hne)|[-> Hn]]; cbn.
    - split; [done|]. exists q, k0. split_and!; [by right|by left|done].
    - eauto. }
  set (keys := k0 :: rest) in *. assert (H0 : k0 ∈ keys) by (by left).
  pose proof (keys_multiple _ _ _ _ H0 Hs) as Hmul. pose proof (missing_iff _ _ _ _ Hs) as Hmiss.
  destruct Hs as [Hfirst Hslot Hnode Hmig Himp Hsame _ _ _]. rewrite <- Hslot in *.
  assert (Hat : keys_at s keys (ks_slot k) (ks_node k)) by done. clear Hsame Hnode.
  case_bool_decide as Hst; cbn [negb]; [|eexists; split; [reflexivity|done]].
  destruct ((ks_migrating k || ks_importing k) && _) eqn:Hmc.
  { apply andb_true_iff in Hmc as [[Ho|Ho]%orb_true_iff Hcmd%bool_decide_eq_true];
      eexists; (split; [reflexivity|]); cbn; split; try done; right; (split; [done|]);
      eexists _, _; (split_and!; [done..|]).
    - left. apply Hmig in Ho as [? _]. eauto.
    - right. left. apply Himp in Ho as [_ ?]. eauto. }
  clear Hmc. destruct (ks_migrating k && _) eqn:Hask.
  { apply andb_true_iff in Hask as [Hm Hne%negb_true_iff]. rewrite Hm in Hmiss.
    specialize (Hmiss eq_refl). rewrite Hne in Hmiss. apply Hmig in Hm as [Hme Hto].
    destruct (migrating_slots_to s !! ks_slot k) as [target|] eqn:Ht; [|done].
    rewrite Hme in Hat. eexists. split; [reflexivity|]. cbn. split; [done|]. by exists (ks_slot k), target. }
  destruct (ks_importing k && _) eqn:Himport.
  { apply andb_true_iff in Himport as [Hi Hasking%orb_true_iff]. rewrite Hi, orb_true_r in Hmiss.
    specialize (Hmiss eq_refl). apply Himp in Hi as [_ Hfrom].
    destruct (ks_multiple k), (ks_missing k =? 0)%Z; cbn [andb negb]; eexists; (split; [reflexivity|]);
      cbn; try (split; [done|]; right; split; [done|]; eexists _, _; split_and!; [done..|];
                right; left; eauto; fail).
    split; [done|]. by eexists _, _. }
  unfold deref. rewrite Hmy. cbn beta iota.
  assert (Hown : ks_node k = myself s -> migrating_slots_to s !! ks_slot k = None \/ ~ Exists absent keys).
  { intros Hme. destruct (ks_migrating k) eqn:Hm.
    - right. specialize (Hmiss eq_refl). cbn in Hask. by destruct (_ =? 0)%Z.
    - left. destruct (migrating_slots_to s !! ks_slot k) eqn:Ht; [|done]. by discriminate (proj2 Hmig). }
  pose proof (owner_answer s my c cmd keys _ _ Hst Hat Hown) as Hans.
  eexists. split; [apply cif_ret|exact Hans].
Qed.
End route.

(** ** Witness: a key of slot 9, which node 1 serves *)

Definition key9 : string := String (ascii_of_nat 9) "".
Definition sample_ok : cluster := sample_met <| state := CLUSTER_OK |>.

Lemma getNodeByQuery_spec_witness :
  exists my, heap sample_ok !! 0 = Some my /\
    getNodeByQuery (fun _ => true) (mkClient false false false) (mkCommand OtherCommand false true)
      [[key9]; [key9]] sample_ok = Ok ((Some 1, REDIR_MOVED, Some 9), sample_ok) /\
    exists answer, answer_ok (fun _ => true) sample_ok my (mkClient false false false)
      (mkCommand OtherCommand false true) [key9; key9] answer.
Proof.
  destruct (heap sample_ok !! 0) as [my|] eqn:Hmy; [|discriminate Hmy].
  exists my. split; [reflexivity|]. split; [vm_compute; reflexivity|].
  destruct (getNodeByQuery_spec (fun _ => true) sample_ok my (mkClient false false false)
    (mkCommand OtherCommand false true) [[key9]; [key9]] Hmy) as (answer & _ & H); [left; discriminate|].
  by exists answer.
Defined.

(** * Hash tags: which part of a key decides its slot *)

(** The character does not occur. *)
Definition free (c : ascii) (s : string) : Prop := string_all (fun a => negb (Ascii.eqb a c)) s = true.

Lemma index_char_free c s : free c s -> index_char c s = String.length s.
Proof.
  induction s as [|a s IH]; [done|]. unfold free. cbn. intros [Ha Hs]%andb_true_iff.
  apply negb_true_iff in Ha. rewrite Ha. f_equal. by apply IH.
Qed.

Lemma index_char_app c p r : free c p -> index_char c (p +:+ String c r) = String.length p.
Proof.
  induction p as [|a p IH]; cbn; [by rewrite Ascii.eqb_refl|]. unfold free. cbn.
  intros [Ha Hs]%andb_true_iff. apply negb_true_iff in Ha. rewrite Ha. f_equal. by apply IH.
Qed.

Lemma index_char_cases c s :
  free c s \/ exists p r, s = p +:+ String c r /\ free c p.
Proof.
  induction s as [|a s IH]; [by left|]. destruct (Ascii.eqb_spec a c) as [->|Ha].
  - right. exists "", s. done.
  - assert (Hna : negb (Ascii.eqb a c) = true) by (by apply negb_true_iff, Ascii.eqb_neq).
    destruct IH as [Hf|(p & r & -> & Hp)]; [left|right].
    + unfold free. cbn. rewrite Hna. exact Hf.
    + exists (String a p), r. split; [done|]. unfold free. cbn. rewrite Hna. exact Hp.
Qed.

Lemma substring_skip (p s : string) n m :
  n = String.length p -> String.substring n m (p +:+ s) = String.substring 0 m s.
Proof. intros ->. induction p as [|c p IH]; cbn; [done|exact IH]. Qed.

Lemma append_String (p s : string) c : p +:+ String c s = (p +:+ String c "") +:+ s.
Proof. by rewrite string_app_assoc. Qed.

(** The key starts with [pre], which has no opening brace, and then has a
    tag in braces that is not empty and has no closing brace. *)
Definition tagged (key pre tag post : string) : Prop :=
  key = pre +:+ String "{" (tag +:+ String "}" post) /\ free "{" pre /\ free "}" tag /\ tag <> "".

(** The rest of the key after the first opening brace. *)
Lemma hash_tag_after pre rest key :
  key = pre +:+ String "{" rest -> free "{" pre ->
  hash_tag key =
    let e := index_char "}" rest in
    if (e =? String.length rest) || (e =? 0) then key else String.substring 0 e rest.
Proof.
  intros Hk Hf. unfold hash_tag. rewrite Hk, index_char_app by done.
  rewrite length_string_app. cbn [String.length].
  replace (String.length pre =? String.length pre + S (String.length rest)) with false
    by (symmetry; apply Nat.eqb_neq; lia).
  assert (Hs : forall m, String.substring (S (String.length pre)) m (pre +:+ String "{" rest)
                         = String.substring 0 m rest).
  { intros m. rewrite append_String. apply substring_skip. rewrite length_string_app. cbn. lia. }
  rewrite !Hs.
  replace (String.length pre + S (String.length rest) - S (String.length pre)) with (String.length rest) by lia.
  rewrite substring_full. cbn zeta.
  replace (S (String.length pre) + index_char "}" rest =? String.length pre + S (String.length rest))
    with (index_char "}" rest =? String.length rest) by (apply eq_true_iff_eq; rewrite !Nat.eqb_eq; lia).
  replace (S (String.length pre) + index_char "}" rest =? S (String.length pre))
    with (index_char "}" rest =? 0) by (apply eq_true_iff_eq; rewrite !Nat.eqb_eq; lia).
  destruct (_ || _); [done|]. f_equal. lia.
Qed.

Lemma hash_tag_tagged key pre tag post : tagged key pre tag post -> hash_tag key = tag.
Proof.
  intros (Hk & Hpre & Htag & Hne). rewrite (hash_tag_after _ _ _ Hk Hpre). cbn zeta.
  rewrite index_char_app, length_string_app by done. cbn [String.length].
  replace (String.length tag =? String.length tag + S (String.length post)) with false
    by (symmetry; apply Nat.eqb_neq; lia).
  replace (String.length tag =? 0) with false by (symmetry; apply Nat.eqb_neq; by destruct tag).
  apply substring_app_l.
Qed.

Lemma hash_tag_untagged key : (forall pre tag post, ~ tagged key pre tag post) -> hash_tag key = key.
Proof.
  intros Hno. destruct (index_char_cases "{" key) as [Hf|(pre & rest & Hk & Hpre)].
  { unfold hash_tag. by rewrite index_char_free, Nat.eqb_refl. }
  rewrite (hash_tag_after _ _ _ Hk Hpre). cbn zeta.
  destruct (index_char_cases "}" rest) as [Hf|(tag & post & Hr & Htag)].
  { by rewrite index_char_free, Nat.eqb_refl. }
  destruct (decide (tag = "")) as [->|Hne].
  { rewrite Hr. cbn. rewrite orb_true_r. done. }
  exfalso. apply (Hno pre tag post). split_and!; [by subst|done..].
Qed.

Section hash.
Context `{E : ClusterEnv}.

(** Hash slots.  The slot of a key is a number below 16384.  If the key
    has a tag (a non-empty text between the first opening brace and the
    first closing brace after it) the slot is the hash of the tag alone, so
    all keys with the same tag are in one slot, whatever surrounds the tag;
    a key without a tag is hashed as a whole. *)
Theorem keyHashSlot_tag key :
  (0 <= keyHashSlot key < 16384)%Z /\
  (forall pre tag post, tagged key pre tag post -> keyHashSlot key = Z.land (crc16 tag) 16383) /\
  ((forall pre tag post, ~ tagged key pre tag post) -> keyHashSlot key = Z.land (crc16 key) 16383).
Proof.
  unfold keyHashSlot. split_and!.
  - apply Z.land_nonneg. by right.
  - change 16383%Z with (Z.ones 14). rewrite Z.land_ones by done. by apply Z.mod_pos_bound.
  - intros pre tag post H. by rewrite (hash_tag_tagged _ _ _ _ H).
  - intros H. by rewrite hash_tag_untagged.
Qed.
End hash.

Lemma keyHashSlot_tag_witness :
  keyHashSlot "{user}.following" = keyHashSlot "x{user}y" /\
  keyHashSlot "{}plain" = Z.land (crc16 "{}plain") 16383.
Proof.
  split.
  - etransitivity; [apply (proj1 (proj2 (keyHashSlot_tag "{user}.following")) "" "user" ".following")|
      symmetry; apply (proj1 (proj2 (keyHashSlot_tag "x{user}y")) "x" "user" "y")]; repeat split; discriminate.
  - vm_compute. reflexivity.
Defined.
