(* ===== verification/ClusterClaims.v ===== *)
(** * Which slots a configuration update moves

    The functions below cannot crash on a state whose pointers are valid,
    and [clusterUpdateSlotsConfigWith] moves exactly the slots its rule
    names. *)

From Stdlib Require Import Ascii.
From stdpp Require Import base numbers gmap strings list.
From S2P Require Import Prelude Text ClusterTypes ClusterSlots ClusterNodes ClusterBus ClusterGossip ClusterBitmap ClusterInv ClusterPreserve ClusterSystem ClusterSample.

Section claims.
Context `{E : ClusterEnv} `{!ClusterLaws E}.

(** ** What moving a slot leaves alone *)

Record node_frame (n n' : clusterNode) : Prop := {
  nf_epoch : n_configEpoch n' = n_configEpoch n;
  nf_slaveof : n_slaveof n' = n_slaveof n;
  nf_slaves : n_slaves n' = n_slaves n;
  nf_ip : n_ip n' = n_ip n;
  nf_port : n_port n' = n_port n;
  nf_cport : n_cport n' = n_cport n;
  nf_name : n_name n' = n_name n;
  nf_flags : forall f, f <> MIGRATE_TO -> has_flag f (n_flags n') = has_flag f (n_flags n);
}.

Record frame (s s' : cluster) : Prop := {
  fr_nodes : nodes s' = nodes s;
  fr_myself : myself s' = myself s;
  fr_importing : importing_slots_from s' = importing_slots_from s;
  fr_effects : effects s' = effects s;
  fr_heap : forall p, option_Forall2 node_frame (heap s !! p) (heap s' !! p);
}.

#[local] Instance node_frame_refl : Reflexive node_frame.
Proof. by intros n. Qed.
#[local] Instance node_frame_trans : Transitive node_frame.
Proof.
  intros a b c [] []. split; try congruence. intros f Hf. rewrite nf_flags1 by done. by apply nf_flags0.
Qed.
#[local] Instance frame_preorder : PreOrder frame.
Proof.
  split; [by intros s|]. intros a b c [] []. split; try congruence.
  intros p. by transitivity (heap b !! p).
Qed.

(** The pointers of the node table are valid. *)
Definition valid_nodes (s : cluster) : Prop :=
  forall name p, nodes s !! name = Some p -> is_Some (heap s !! p).

Lemma frame_lookup s s' p n :
  frame s s' -> heap s !! p = Some n -> exists n', heap s' !! p = Some n' /\ node_frame n n'.
Proof.
  intros Hf Hn. pose proof (fr_heap _ _ Hf p) as H. rewrite Hn in H. inversion H; subst. eauto.
Qed.

Lemma frame_valid s s' : frame s s' -> valid_nodes s -> valid_nodes s'.
Proof.
  intros Hf Hv name p Hp. rewrite (fr_nodes _ _ Hf) in Hp. destruct (Hv _ _ Hp) as [n Hn].
  destruct (frame_lookup _ _ _ _ Hf Hn) as (n' & -> & _). by exists n'.
Qed.

Lemma frame_update s p f n :
  heap s !! p = Some n -> node_frame n (f n) ->
  exists s', update p f s = Ok (tt, s') /\ frame s s' /\ slots s' = slots s /\ heap s' = <[p := f n]> (heap s).
Proof.
  intros Hn Hf. unfold update. rewrite Hn. eexists. split_and!; [done| |done|done].
  split; try done. intros q. cbn. destruct (decide (p = q)) as [<-|Hq].
  - rewrite Hn, lookup_insert_eq. by constructor.
  - by rewrite lookup_insert_ne.
Qed.

(** ** Total versions of the operations on one slot *)

Lemma masters_have_slaves_total s : valid_nodes s -> exists b, clusterMastersHaveSlaves s = Ok (b, s).
Proof.
  intros Hv. unfold clusterMastersHaveSlaves, all_nodes, cbind, gets, cret.
  assert (H : Forall (fun p => is_Some (heap s !! p)) (snd <$> dict_iter (nodes s))).
  { apply Forall_fmap, Forall_forall. intros [name p] Hin. rewrite dict_iter_perm in Hin.
    apply elem_of_map_to_list in Hin. by eapply Hv. }
  generalize 0%Z at 1. induction H as [|p l [n Hn] _ IH]; intros z; cbn; [eauto|].
  unfold cbind, deref. rewrite Hn. apply IH.
Qed.

Lemma node_frame_migrate n : node_frame n (n <| n_flags ::= set_flag MIGRATE_TO |>).
Proof. split; try done. intros f Hf. cbn. rewrite has_set_flag. by rewrite bool_decide_false. Qed.

(** Run the next update of the goal, naming its state and frame. *)
Ltac next_update H :=
  cbn beta iota delta [res_bind];
  match goal with
  | |- context [update ?p ?f ?s] =>
      let s1 := fresh "s" in let Hr := fresh "Hr" in let Hf := fresh "Hf" in
      let Hsl := fresh "Hsl" in let Hh := fresh "Hh" in
      destruct (frame_update s p f _ H) as (s1 & Hr & Hf & Hsl & Hh);
      [split; done || by intros; cbn|rewrite Hr; cbn beta iota delta [res_bind]]
  end.

Lemma SetSlotBit_total s p slot n :
  valid_nodes s -> heap s !! p = Some n ->
  exists s', clusterNodeSetSlotBit p slot s = Ok (bitmapTestBit (n_slots n) slot, s') /\
    frame s s' /\ slots s' = slots s.
Proof.
  intros Hv Hn. unfold clusterNodeSetSlotBit, cbind, deref. rewrite Hn.
  next_update Hn. destruct (bitmapTestBit (n_slots n) slot); cbn [negb].
  { exists s0. done. }
  assert (Hn0 : heap s0 !! p = Some (n <| n_slots ::= fun b => bitmapSetBit b slot |>))
    by (by rewrite Hh, lookup_insert_eq).
  next_update Hn0. rewrite Hh0, lookup_insert_eq. cbn beta iota delta [res_bind].
  assert (Hf2 : frame s s1) by (by trans s0).
  match goal with |- context [(?k =? 1)%Z] => destruct (k =? 1)%Z end; [|exists s1; split_and!; [done|done|congruence]].
  destruct (masters_have_slaves_total s1 (frame_valid _ _ Hf2 Hv)) as [[] ->]; cbn [cwhen res_bind];
    [|exists s1; split_and!; [done|done|congruence]].
  destruct (frame_update s1 p (fun node => node <| n_flags ::= set_flag MIGRATE_TO |>)
    _ (eq_trans (f_equal (lookup p) Hh0) (lookup_insert_eq _ _ _)) (node_frame_migrate _))
    as (s2 & -> & Hf3 & Hsl3 & _).
  exists s2. split_and!; [done|by trans s1|congruence].
Qed.

Lemma AddSlot_total s p slot n :
  slot_inv s -> valid_nodes s -> heap s !! p = Some n -> slot < CLUSTER_SLOTS -> slots s !! slot = None ->
  exists s', clusterAddSlot p slot s = Ok (true, s') /\
    frame s s' /\ slots s' = <[slot := p]> (slots s) /\ slot_inv s'.
Proof.
  intros HI Hv Hn Hj Hfree. destruct (SetSlotBit_total s p slot n Hv Hn) as (s1 & H1 & Hf & Hs).
  assert (Hr : clusterAddSlot p slot s = Ok (true, s1 <| slots ::= <[slot := p]> |>)).
  { unfold clusterAddSlot, cbind, gets. cbn beta iota delta [res_bind]. rewrite Hfree, H1. done. }
  eexists. split_and!; [exact Hr| |by cbn; rewrite Hs|].
  - by destruct Hf.
  - by eapply (pres_clusterAddSlot None p slot Hj s _ _ (conj HI I)) in Hr as [].
Qed.

Lemma DelSlot_total s slot :
  slot_inv s ->
  exists s', clusterDelSlot slot s = Ok (bool_decide (slots s !! slot <> None), s') /\
    frame s s' /\ slots s' = delete slot (slots s) /\ slot_inv s'.
Proof.
  intros HI. destruct (slots s !! slot) as [p|] eqn:Ho.
  - destruct (iv_owner _ HI _ _ Ho) as (Hj & n & Hn & Hb).
    assert (Hr : exists s', clusterDelSlot slot s = Ok (true, s') /\ frame s s' /\ slots s' = delete slot (slots s)).
    { unfold clusterDelSlot, clusterNodeClearSlotBit, cbind, gets, deref. cbn beta iota delta [res_bind].
      rewrite Ho, Hn.
      next_update Hn. rewrite Hb. cbn [cwhen res_bind].
      assert (Hn0 : heap s0 !! p = Some (n <| n_slots ::= fun b => bitmapClearBit b slot |>))
        by (by rewrite Hh, lookup_insert_eq).
      next_update Hn0. eexists. split_and!; [done| |cbn; congruence].
      assert (frame s s1) as [] by (by trans s0). done. }
    destruct Hr as (s' & Hr & Hf & Hs). exists s'. split_and!; [done..|].
    by eapply (pres_clusterDelSlot None slot s _ _ (conj HI I)) in Hr as [].
  - exists s. unfold clusterDelSlot, cbind, gets. cbn beta iota delta [res_bind].
    rewrite Ho. split_and!; [done..| |done].
    by rewrite delete_id.
Qed.

(** ** The rule: which claimed slots move *)

Definition epoch_of (s : cluster) (p : ptr) : Z :=
  match heap s !! p with Some n => n_configEpoch n | None => 0 end.

Context (sender : ptr) (epoch : Z) (claimed : list Z) (curmaster : option ptr).

(** The sender claims [j], nobody moves it by hand, and it is free or served
    by another node with an older configuration. *)
Definition takes (s : cluster) (j : nat) : bool :=
  bitmapTestBit claimed j && bool_decide (importing_slots_from s !! j = None) &&
  match slots s !! j with
  | None => true
  | Some o => negb (bool_decide (o = sender)) && (epoch_of s o <? epoch)%Z
  end.

(** Slots of ours that still hold keys. *)
Definition with_keys (s : cluster) (j : nat) : bool :=
  bool_decide (slots s !! j = Some (myself s)) && negb (countKeysInSlot j =? 0)%Z.

Definition claim_body (acc : bool * list nat) (j : nat) : C (bool * list nat) :=
  if bitmapTestBit claimed j then claim_slot sender epoch curmaster acc j else cret acc.

Lemma claim_newer s j :
  slot_inv s -> exists b,
    match slots s !! j with
    | None => cret true
    | Some o => let! n := deref o in cret (n_configEpoch n <? epoch)%Z
    end s = Ok (b, s) /\ b = match slots s !! j with None => true | Some o => (epoch_of s o <? epoch)%Z end.
Proof.
  intros HI. destruct (slots s !! j) as [o|] eqn:Ho; [|by exists true].
  destruct (iv_owner _ HI _ _ Ho) as (_ & n & Hn & _).
  unfold cbind, deref, epoch_of. rewrite Hn. by eexists.
Qed.

Lemma claim_body_spec s acc j ns :
  slot_inv s -> valid_nodes s -> heap s !! sender = Some ns -> sender <> myself s -> j < CLUSTER_SLOTS ->
  exists s', claim_body acc j s =
      Ok ((acc.1 || takes s j && bool_decide (slots s !! j = curmaster),
           acc.2 ++ if takes s j && with_keys s j then [j] else []), s') /\
    slot_inv s' /\ frame s s' /\ slots s' = if takes s j then <[j := sender]> (slots s) else slots s.
Proof.
  intros HI Hv Hs Hme Hj. unfold claim_body, takes.
  assert (Hno : forall b, b = false -> exists s', @Ok Empty_set _ (acc, s) = Ok ((acc.1 || b && bool_decide (slots s !! j = curmaster),
    acc.2 ++ if b && with_keys s j then [j] else []), s') /\
    slot_inv s' /\ frame s s' /\ slots s' = if b then <[j := sender]> (slots s) else slots s).
  { intros b ->. exists s. cbn. rewrite orb_false_r, app_nil_r. by destruct acc. }
  destruct (bitmapTestBit claimed j); [|by apply Hno]. cbn [andb].
  unfold claim_slot, cbind at 1, gets at 1. cbn [res_bind]. unfold id.
  destruct (claim_newer s j HI) as (b & Hnew & Hb).
  destruct (decide (slots s !! j = Some sender)) as [Hown|Hown].
  { rewrite Hown in Hno |- *. rewrite (bool_decide_true (Some sender = Some sender)) by done.
    apply Hno. rewrite (bool_decide_true (sender = sender)) by done. by rewrite andb_false_r. }
  rewrite (bool_decide_false (slots s !! j = Some sender)) by done.
  destruct (importing_slots_from s !! j) as [im|]; cbn [bool_decide];
    [rewrite (bool_decide_true (Some im <> None)), (bool_decide_false (Some im = None)) by done; by apply Hno|].
  rewrite (bool_decide_false (None <> None)), (bool_decide_true (None = None)) by naive_solver. cbn [andb].
  replace (match slots s !! j with None => true | Some o => negb (bool_decide (o = sender)) && (epoch_of s o <? epoch)%Z end)
    with b by (rewrite Hb; destruct (slots s !! j) as [o|]; [rewrite bool_decide_false by congruence|]; done).
  unfold cbind at 1. rewrite Hnew. cbn [res_bind]. destruct b; [|by apply Hno]. clear Hno Hnew Hb.
  destruct (DelSlot_total s j HI) as (s1 & H1 & Hf1 & Hs1 & HI1).
  destruct (frame_lookup _ _ _ _ Hf1 Hs) as (ns1 & Hns1 & _).
  destruct (AddSlot_total s1 sender j ns1 HI1 (frame_valid _ _ Hf1 Hv) Hns1 Hj) as (s2 & H2 & Hf2 & Hs2 & HI2).
  { by rewrite Hs1, lookup_delete_eq. }
  unfold cbind. rewrite H1. cbn [res_bind]. rewrite H2. cbn [res_bind].
  exists (s2 <| todo_before_sleep ::= fun t => [TODO_SAVE_CONFIG; TODO_UPDATE_STATE; TODO_FSYNC_CONFIG] ++ t |>).
  split_and!; [| | |cbn; by rewrite Hs2, Hs1, insert_delete_eq].
  - unfold clusterDoBeforeSleep, modify. cbn [res_bind]. unfold with_keys.
    assert (Hif : forall c : bool, (if c then acc.2 ++ [j] else acc.2) = acc.2 ++ if c then [j] else [])
      by (intros []; by rewrite ?app_nil_r).
    rewrite Hif, (bool_decide_false (sender = _)), andb_true_r by done. reflexivity.
  - by destruct HI2.
  - assert (frame s s2) as [] by (by trans s1). done.
Qed.

(** ** The loop over all slots *)

Lemma takes_later s s1 a j :
  frame s s1 -> slots s1 = (if takes s a then <[a := sender]> (slots s) else slots s) -> a <> j ->
  takes s1 j = takes s j /\ with_keys s1 j = with_keys s j /\ slots s1 !! j = slots s !! j.
Proof.
  intros Hf Hs Hne. assert (Hj : slots s1 !! j = slots s !! j)
    by (rewrite Hs; destruct (takes s a); [by rewrite lookup_insert_ne|done]).
  assert (He : forall o, epoch_of s1 o = epoch_of s o).
  { intros o. unfold epoch_of. pose proof (fr_heap _ _ Hf o) as H. inversion H as [n n' [] E1 E2|E1 E2]; done. }
  split_and!; [| |done].
  - unfold takes. rewrite Hj, (fr_importing _ _ Hf). destruct (slots s !! j); [|done]. by rewrite He.
  - unfold with_keys. by rewrite Hj, (fr_myself _ _ Hf).
Qed.

Definition lost_from_master (s : cluster) (j : nat) : bool :=
  takes s j && bool_decide (slots s !! j = curmaster).
Definition lost_with_keys (s : cluster) (j : nat) : bool := takes s j && with_keys s j.

Lemma existsb_ext_in {A} (f g : A -> bool) l :
  (forall a, a ∈ l -> f a = g a) -> existsb f l = existsb g l.
Proof.
  induction l as [|a l IH]; cbn; [done|]. intros H. rewrite (H a) by (by left). f_equal.
  apply IH. intros b Hb. apply H. by right.
Qed.

Lemma list_filter_ext_in {A} (f g : A -> bool) l :
  (forall a, a ∈ l -> f a = g a) -> List.filter f l = List.filter g l.
Proof. intros H. apply filter_ext_in. intros a Ha. apply H. by apply list_elem_of_In. Qed.

Lemma claim_loop l s acc ns :
  NoDup l -> (forall j, j ∈ l -> j < CLUSTER_SLOTS) ->
  slot_inv s -> valid_nodes s -> heap s !! sender = Some ns -> sender <> myself s ->
  exists s', cfold l acc claim_body s =
      Ok ((acc.1 || existsb (lost_from_master s) l, acc.2 ++ List.filter (lost_with_keys s) l), s') /\
    slot_inv s' /\ frame s s' /\
    forall j, slots s' !! j = if bool_decide (j ∈ l) && takes s j then Some sender else slots s !! j.
Proof.
  revert s acc ns. induction l as [|a l IH]; intros s acc ns Hnd Hlt HI Hv Hs Hme.
  { exists s. cbn. rewrite orb_false_r, app_nil_r. destruct acc. split_and!; [done..|]. intros j. done. }
  apply NoDup_cons in Hnd as [Ha Hnd]. cbn [cfold]. unfold cbind.
  destruct (claim_body_spec s acc a ns HI Hv Hs Hme) as (s1 & -> & HI1 & Hf1 & Hs1); [apply Hlt; by left|].
  cbn [res_bind]. destruct (frame_lookup _ _ _ _ Hf1 Hs) as (ns1 & Hns1 & _).
  match goal with |- context [cfold l ?acc1 _ s1] => destruct (IH s1 acc1 ns1) as (s2 & -> & HI2 & Hf2 & Hs2) end;
    [done|intros; apply Hlt; by right|done|by eapply frame_valid|done|by rewrite (fr_myself _ _ Hf1)|].
  assert (Hlater : forall j, j ∈ l -> takes s1 j = takes s j /\ with_keys s1 j = with_keys s j /\
                             slots s1 !! j = slots s !! j).
  { intros j Hj. apply (takes_later _ _ _ _ Hf1 Hs1). by intros ->. }
  exists s2. split_and!; [|done|by trans s1|].
  - cbn [fst snd existsb List.filter].
    rewrite (existsb_ext_in (lost_from_master s1) (lost_from_master s)),
      (list_filter_ext_in (lost_with_keys s1) (lost_with_keys s)).
    + unfold lost_from_master at 2, lost_with_keys at 2. rewrite orb_assoc, <- app_assoc.
      by destruct (takes s a && with_keys s a).
    + intros j (H1 & H2 & H3)%Hlater. unfold lost_with_keys. by rewrite H1, H2.
    + intros j (H1 & H2 & H3)%Hlater. unfold lost_from_master. by rewrite H1, H3.
  - intros j. rewrite Hs2. destruct (decide (j ∈ l)) as [Hj|Hj].
    + destruct (Hlater j Hj) as (-> & _ & ->). by rewrite !bool_decide_true by (done || by right).
    + rewrite bool_decide_false by done. cbn [andb]. rewrite Hs1.
      destruct (decide (j = a)) as [->|Hne].
      * rewrite bool_decide_true by (by left). destruct (takes s a); [by rewrite lookup_insert_eq|done].
      * rewrite bool_decide_false by (rewrite elem_of_cons; naive_solver).
        destruct (takes s a); [by rewrite lookup_insert_ne|done].
Qed.

(** ** Becoming the sender's slave *)

(** The node table grows, the slots and this node's identity stay. *)
Record mild (s s' : cluster) : Prop := {
  ml_slots : slots s' = slots s;
  ml_myself : myself s' = myself s;
  ml_heap : forall p, is_Some (heap s !! p) -> is_Some (heap s' !! p);
}.
#[local] Instance mild_preorder : PreOrder mild.
Proof. split; [by intros s|]. intros a b c [] []. split; try congruence. eauto. Qed.

Lemma update_mild s p f :
  is_Some (heap s !! p) ->
  exists s', update p f s = Ok (tt, s') /\ mild s s' /\ heap s' = alter f p (heap s).
Proof.
  intros [n Hn]. unfold update. rewrite Hn. eexists. split_and!; [done| |].
  - split; try done. intros q Hq. cbn. destruct (decide (p = q)) as [->|]; [by rewrite lookup_insert_eq|].
    by rewrite lookup_insert_ne.
  - cbn. apply map_eq. intros q. destruct (decide (p = q)) as [->|].
    + by rewrite lookup_insert_eq, lookup_alter_eq, Hn.
    + by rewrite lookup_insert_ne, lookup_alter_ne.
Qed.

Lemma RemoveSlave_total s master slave :
  is_Some (heap s !! master) -> exists b s', clusterNodeRemoveSlave master slave s = Ok (b, s') /\ mild s s'.
Proof.
  intros [m Hm]. unfold clusterNodeRemoveSlave, cbind, deref. rewrite Hm. cbn beta iota delta [res_bind].
  destruct (remove_first slave (n_slaves m)) as [rest|]; [|by exists false, s].
  match goal with |- context [update ?p ?f ?s] => destruct (update_mild s p f) as (s1 & -> & H1 & _) end; [by exists m|].
  by exists true, s1.
Qed.

Lemma AddSlave_total s master slave :
  is_Some (heap s !! master) ->
  exists b s', clusterNodeAddSlave master slave s = Ok (b, s') /\ mild s s' /\
    forall q, q <> master -> heap s' !! q = heap s !! q.
Proof.
  intros [m Hm]. unfold clusterNodeAddSlave, cbind, deref. rewrite Hm. cbn beta iota delta [res_bind].
  case_bool_decide; [by exists false, s|].
  match goal with |- context [update ?p ?f ?s] => destruct (update_mild s p f) as (s1 & -> & H1 & Hh) end; [by exists m|].
  exists true, s1. split_and!; [done..|]. intros q Hq. rewrite Hh. by rewrite lookup_alter_ne.
Qed.

Lemma reset_failover_total s :
  exists s', resetManualFailover s = Ok (tt, s') /\ slots s' = slots s /\ myself s' = myself s /\ heap s' = heap s.
Proof.
  unfold resetManualFailover, cbind, gets, cwhen. cbn beta iota delta [res_bind].
  destruct (_ && clients_paused _); eexists; split; done.
Qed.

Lemma SetMaster_total s my n :
  heap s !! myself s = Some my -> n_numslots my = 0%Z -> is_Some (heap s !! n) -> n <> myself s ->
  (forall old, nodeIsMaster my = false -> n_slaveof my = Some old -> is_Some (heap s !! old)) ->
  exists s' my', clusterSetMaster n s = Ok (tt, s') /\ slots s' = slots s /\
    heap s' !! myself s = Some my' /\ n_slaveof my' = Some n.
Proof.
  intros Hmy Hnum Hn Hne Hold. unfold clusterSetMaster, cbind, gets, deref, serverAssert.
  cbn beta iota delta [res_bind]. rewrite bool_decide_false by done. cbn [negb skip cret res_bind].
  rewrite Hmy. cbn beta iota delta [res_bind]. rewrite Hnum. cbn [Z.eqb skip cret res_bind].
  match goal with |- context [res_bind ?m _] => match m with context [nodeIsMaster my] =>
    assert (H1 : exists s1, m = Ok (tt, s1) /\ mild s s1) end end.
  { destruct (nodeIsMaster my) eqn:Hmaster.
    - match goal with |- context [update ?p ?f s] => destruct (update_mild s p f) as (s1 & -> & H1 & _) end;
        [by exists my|]. cbn. eexists. split; [done|]. by destruct H1.
    - destruct (n_slaveof my) as [old|] eqn:Ho; [|by exists s].
      destruct (RemoveSlave_total s old (myself s) (Hold _ eq_refl eq_refl)) as (b & s1 & -> & H1).
      by exists s1. }
  destruct H1 as (s1 & -> & [H1s H1m H1h]). cbn [res_bind].
  destruct (update_mild s1 (myself s) (fun m => m <| n_slaveof := Some n |>)) as (s2 & -> & [H2s H2m H2h] & H2);
    [apply H1h; by exists my|]. cbn [res_bind].
  destruct (AddSlave_total s2 n (myself s)) as (b & s3 & -> & [H3s H3m H3h] & H3); [by apply H2h, H1h|]. cbn [res_bind].
  destruct (H3h n) as [nn ->]; [by apply H2h, H1h|]. cbn [res_bind emit modify].
  match goal with |- context [resetManualFailover ?s] => destruct (reset_failover_total s) as (s4 & -> & H4s & _ & H4h) end.
  destruct (H1h (myself s)) as [m1 Hm1]; [by exists my|].
  exists s4, (m1 <| n_slaveof := Some n |>). split_and!; [done|cbn in H4s; congruence| |done].
  rewrite H4h. cbn. rewrite H3 by done. by rewrite H2, lookup_alter_eq, Hm1.
Qed.
End claims.


Section update.
Context `{E : ClusterEnv} `{!ClusterLaws E}.

(** A node without slots is nowhere in the slot table. *)
Lemma no_slots_iff s p n :
  slot_inv s -> heap s !! p = Some n -> n_numslots n = 0%Z <-> forall j, slots s !! j <> Some p.
Proof.
  intros HI Hn. rewrite (iv_count _ HI _ _ Hn). unfold bit_count. split.
  - intros H0 j Hj. destruct (iv_owner _ HI _ _ Hj) as (Hlt & m & Hm & Hb).
    assert (m = n) as -> by congruence.
    assert (Hin : In j (List.filter (bitmapTestBit (n_slots n)) (seq 0 CLUSTER_SLOTS))).
    { apply filter_In. split; [|done]. apply in_seq. lia. }
    destruct (List.filter _ _); [done|]. cbn in H0. lia.
  - intros Hno. destruct (List.filter _ _) as [|j l] eqn:Hf; [done|exfalso].
    assert (Hin : In j (j :: l)) by (by left). rewrite <- Hf in Hin.
    apply filter_In in Hin as [Hj%in_seq Hb]. apply (Hno j). by eapply (iv_bit _ HI); [|lia|].
Qed.

Lemma cfor_emit {A} (l : list A) f s :
  exists s', cfor l (fun j => emit (f j)) s = Ok (tt, s') /\ slots s' = slots s /\
    effects s' = effects s ++ (f <$> l).
Proof.
  revert s. induction l as [|a l IH]; intros s; cbn; [exists s; by rewrite app_nil_r|].
  destruct (IH (s <| effects ::= fun es => es ++ [f a] |>)) as (s' & H & H1 & H2).
  exists s'. split_and!; [exact H|done|]. rewrite H2. cbn. by rewrite <- app_assoc.
Qed.

(** The master this node is, or replicates. *)
Definition current_master (s : cluster) (my : clusterNode) : option ptr :=
  if nodeIsMaster my then Some (myself s) else n_slaveof my.

Lemma frame_master n n' : node_frame n n' -> nodeIsMaster n' = nodeIsMaster n.
Proof. intros Hf. unfold nodeIsMaster. rewrite !flags_master_spec. by apply (nf_flags _ _ Hf). Qed.

(** After the slots have moved, [clusterSetMaster] asserts that this node
    has none left, and works if so. *)
Lemma demote_total s s1 sender my my1 m mn1 :
  frame s s1 -> heap s1 !! myself s = Some my1 -> node_frame my my1 ->
  is_Some (heap s !! sender) -> sender <> myself s -> current_master s my = Some m ->
  heap s1 !! m = Some mn1 -> n_numslots my1 = 0%Z ->
  exists s' my', clusterSetMaster sender s1 = Ok (tt, s') /\ slots s' = slots s1 /\
    heap s' !! myself s = Some my' /\ n_slaveof my' = Some sender.
Proof.
  intros Hf Hmy1 Hmf [ns Hns] Hne Hm Hmn1 Hz.
  destruct (frame_lookup _ _ _ _ Hf Hns) as (ns1 & Hns1 & _).
  pose proof (fr_myself _ _ Hf) as Hme. rewrite <- Hme in Hne |- *.
  apply (SetMaster_total s1 my1); [by rewrite Hme|done|by exists ns1|done|].
  intros old Ho Hold. rewrite (frame_master _ _ Hmf) in Ho. rewrite (nf_slaveof _ _ Hmf) in Hold.
  unfold current_master in Hm. rewrite Ho in Hm. exists mn1. congruence.
Qed.

Lemma demote_asserts s sender my :
  heap s !! myself s = Some my -> sender <> myself s -> n_numslots my <> 0%Z ->
  clusterSetMaster sender s = Panic.
Proof.
  intros Hmy Hne Hz. unfold clusterSetMaster, cbind, gets, deref, serverAssert.
  cbn beta iota delta [res_bind]. rewrite bool_decide_false by done. cbn [negb skip cret res_bind].
  rewrite Hmy. cbn beta iota delta [res_bind]. apply Z.eqb_neq in Hz. by rewrite Hz.
Qed.

Section outcome.
Context (sender : ptr) (epoch : Z) (claimed : list Z) (s : cluster).

(** The owner of a slot after the claim. *)
Definition owner_after (j : nat) : option ptr :=
  if takes sender epoch claimed s j then Some sender else slots s !! j.

(** Does a node serve a slot after the claim? *)
Definition serves_after (p : ptr) : bool :=
  existsb (fun j => bool_decide (owner_after j = Some p)) all_slots.

Definition slots_moved (s' : cluster) : Prop :=
  forall j, j < CLUSTER_SLOTS -> slots s' !! j = owner_after j.

(** Our lost slots that hold keys are cleaned, one by one. *)
Definition lost_cleaned (s' : cluster) : Prop :=
  effects s' = effects s ++ (DelKeysInSlot <$> List.filter (lost_with_keys sender epoch claimed s) all_slots).

Lemma serves_numslots s1 p n :
  slot_inv s1 -> heap s1 !! p = Some n -> slots_moved s1 ->
  serves_after p = negb (n_numslots n =? 0)%Z.
Proof.
  intros HI Hn Hmv. apply eq_true_iff_eq.
  rewrite negb_true_iff, Z.eqb_neq, (no_slots_iff _ _ _ HI Hn). unfold serves_after.
  rewrite existsb_exists. split.
  - intros (j & Hj & Ho%bool_decide_eq_true) H. apply (H j). rewrite Hmv; [done|].
    apply in_seq in Hj. lia.
  - intros H. destruct (existsb (fun j => bool_decide (slots s1 !! j = Some p)) all_slots) eqn:Ex.
    + apply existsb_exists in Ex as (j & Hj & Ho%bool_decide_eq_true). exists j. split; [done|].
      apply bool_decide_eq_true. rewrite <-Hmv; [done|]. apply in_seq in Hj. lia.
    + exfalso. apply H. intros j Hj. apply not_true_iff_false in Ex. apply Ex, existsb_exists.
      destruct (iv_owner _ HI _ _ Hj) as [Hlt _]. exists j. split; [apply in_seq; lia|].
      by apply bool_decide_eq_true.
Qed.

Lemma clean_lost s1 : frame s s1 -> slots_moved s1 -> exists s',
  cfor (List.filter (lost_with_keys sender epoch claimed s) all_slots) (fun j => emit (DelKeysInSlot j)) s1
    = Ok (tt, s') /\ slots_moved s' /\ lost_cleaned s'.
Proof.
  intros Hf Hmv.
  destruct (cfor_emit (List.filter (lost_with_keys sender epoch claimed s) all_slots) DelKeysInSlot s1)
    as (s' & -> & H1 & H2).
  exists s'. split; [done|]. split.
  - intros j Hj. rewrite H1. by apply Hmv.
  - unfold lost_cleaned. by rewrite H2, (fr_effects _ _ Hf).
Qed.
End outcome.

(** C10. Configuration updates, on every branch.  In a state whose slot table
    is consistent and whose pointers are valid, when a node other than this
    one claims slots with some configuration epoch, the update moves to the
    claimer exactly the claimed slots that are not being imported and are
    free or served by another node with a smaller epoch; no other slot
    changes hands.  Unless our master (this node, if it is one) lost a slot
    and has none left, exactly the keys of our own lost slots that hold keys
    are deleted, slot by slot.  If it did, this node becomes the claimer's
    slave, provided it serves no slot itself; a replica that does serve one
    (CLUSTER ADDSLOTS or a configuration file can give it one) fails the
    assertion of [clusterSetMaster].  A replica without a known master has
    the null pointer for its master, so a free slot counts as lost by it,
    and the update then crashes. *)
Theorem clusterUpdateSlotsConfigWith_spec s sender epoch claimed my ns :
  slot_inv s -> valid_nodes s ->
  heap s !! myself s = Some my -> heap s !! sender = Some ns -> sender <> myself s ->
  (forall m, current_master s my = Some m -> is_Some (heap s !! m)) ->
  let run := clusterUpdateSlotsConfigWith sender epoch claimed s in
  let moved := slots_moved sender epoch claimed s in
  if existsb (fun j => takes sender epoch claimed s j && bool_decide (slots s !! j = current_master s my)) all_slots
  then
    match current_master s my with
    | None => run = Panic
    | Some m =>
        if serves_after sender epoch claimed s m
        then exists s', run = Ok (tt, s') /\ moved s' /\ lost_cleaned sender epoch claimed s s'
        else if serves_after sender epoch claimed s (myself s) then run = Panic
        else exists s' my', run = Ok (tt, s') /\ moved s' /\
               heap s' !! myself s = Some my' /\ n_slaveof my' = Some sender
    end
  else exists s', run = Ok (tt, s') /\ moved s' /\ lost_cleaned sender epoch claimed s s'.
Proof.
  intros HI Hv Hmy Hns Hne Hm run moved.
  destruct (claim_loop sender epoch claimed (current_master s my) all_slots s (false, []) ns)
    as (s1 & Hloop & HI1 & Hf & Hs1); [apply NoDup_seq|apply all_slots_lt|done..|].
  cbn [fst snd orb app] in Hloop. unfold lost_from_master in Hloop.
  assert (Hmv : moved s1).
  { intros j Hj. rewrite Hs1, bool_decide_true by (apply elem_of_seq; lia). done. }
  destruct (frame_lookup _ _ _ _ Hf Hmy) as (my1 & Hmy1 & Hmf).
  destruct (clean_lost sender epoch claimed s s1 Hf Hmv) as (sc & Hclean & Hc).
  subst run. remember (clusterUpdateSlotsConfigWith sender epoch claimed s) as run eqn:Hrun.
  unfold clusterUpdateSlotsConfigWith, cbind, gets, deref in Hrun. cbn beta iota delta [res_bind] in Hrun.
  rewrite Hmy in Hrun. cbn beta iota delta [res_bind] in Hrun. rewrite decide_False in Hrun by done.
  fold (current_master s my) in Hrun. unfold claim_body in Hloop. setoid_rewrite Hloop in Hrun.
  cbn beta iota delta [res_bind] in Hrun.
  destruct (existsb _ all_slots); cbn [cret res_bind] in Hrun; [|exists sc; by rewrite Hrun, Hclean].
  destruct (current_master s my) as [m|] eqn:Ecm; [|done].
  destruct (Hm m eq_refl) as [mn Hmn]. destruct (frame_lookup _ _ _ _ Hf Hmn) as (mn1 & Hmn1 & _).
  rewrite Hmn1 in Hrun. cbn beta iota delta [res_bind cret] in Hrun.
  rewrite (serves_numslots _ _ _ _ s1 m mn1), (serves_numslots _ _ _ _ s1 (myself s) my1) by done.
  destruct (n_numslots mn1 =? 0)%Z; cbn [negb]; [|exists sc; by rewrite Hrun, Hclean].
  destruct (Z.eqb_spec (n_numslots my1) 0) as [Hz|Hz]; cbn [negb].
  - destruct (demote_total s s1 sender my my1 m mn1) as (s' & my' & H & H1 & H2 & H3); try done; try (by exists ns).
    rewrite H in Hrun. cbn in Hrun. eexists _, my'. split; [exact Hrun|].
    split; [|done]. intros j Hj. cbn. rewrite H1. by apply Hmv.
  - rewrite Hrun, (demote_asserts s1 sender my1); [done|by rewrite (fr_myself _ _ Hf)..|done].
Qed.
End update.

(** Witness: node 1 of the sample claims our slot 0 and the free slot 2. *)
Lemma valid_nodes_check s :
  forallb (fun kv => match heap s !! kv.2 with Some _ => true | None => false end)
    (map_to_list (nodes s)) = true -> valid_nodes s.
Proof.
  rewrite forallb_forall. intros H name p Hp. apply elem_of_map_to_list, list_elem_of_In in Hp.
  specialize (H _ Hp). cbn in H. destruct (heap s !! p); [by eexists|done].
Qed.

Lemma sample_valid : valid_nodes sample_met.
Proof. apply valid_nodes_check. vm_compute. reflexivity. Qed.

Lemma clusterUpdateSlotsConfigWith_spec_witness :
  exists s', clusterUpdateSlotsConfigWith 1 1 [5; 255]%Z sample_met = Ok (tt, s') /\
    slots s' !! 0 = Some 1 /\ slots s' !! 1 = Some 0 /\ slots s' !! 2 = Some 1.
Proof.
  destruct (heap sample_met !! 0) as [my|] eqn:Hmy; [|discriminate Hmy].
  destruct (heap sample_met !! 1) as [ns|] eqn:Hns; [|discriminate Hns].
  assert (Hm : current_master sample_met my = Some 0) by (vm_compute in Hmy; injection Hmy as <-; reflexivity).
  pose proof (clusterUpdateSlotsConfigWith_spec sample_met 1 1 [5; 255]%Z my ns sample_met_inv sample_valid
    Hmy Hns ltac:(discriminate)) as H. cbv zeta in H. rewrite Hm in H.
  destruct H as (s' & H & Hs & _); [intros ? [= <-]; by exists my|].
  exists s'. split; [exact H|]. repeat split; (rewrite Hs; [vm_compute; reflexivity|cbn; lia]).
Defined.
