(* ===== verification/ClusterFlaws.v ===== *)
(** * Packets that break a promise of the packet handler

    Three inputs from the network for which [clusterProcessPacket] does not
    do what its comments say or reads what it must not. *)

From Stdlib Require Import Ascii.
From stdpp Require Import base numbers gmap strings list.
From S2P Require Import Prelude Text ClusterTypes ClusterSlots ClusterNodes ClusterBus ClusterGossip ClusterPacket ClusterCron ClusterCommand ClusterSystem ClusterSample.

(** ** A link that is freed while its packet is processed *)

(** Node [b] stays silent until we suspect it, we reconnect to it (link 3),
    and it then sends a PING with a gossip entry about itself at a new
    address. *)
Definition silent_b : list event :=
  sample_meet ++ [Input (sample_inputs 150000); Cron; Input (sample_inputs 166000); Cron; Cron].
Definition about_b : Gossip := mkGossip "b" 0 0 "10.0.0.99" 7000 17000 2.
Definition self_gossip : clusterMsg :=
  msg_b PING 1 <| h_count := 1%Z |> <| h_totlen := 2360%Z |> <| h_gossip := [about_b] |>.

(** The result of [clusterProcessPacket] does not tell whether the link
    is still valid: in a state that a node reaches, a PING whose gossip
    section is about its own sender makes the handler free the link the
    packet came from and still return 1, on which the read handler goes on
    using the link. *)
Theorem processed_link_freed :
  exists s s', boot_and_run true silent_b sample_blank = Ok (tt, s) /\
    is_Some (links s !! 3) /\
    clusterProcessPacket self_gossip 2360 3 s = Ok (true, s') /\ links s' !! 3 = None.
Proof.
  destruct (boot_and_run true silent_b sample_blank) as [[[] s]| | |] eqn:E; [|vm_compute in E; discriminate E..].
  exists s. vm_compute in E. injection E as <-.
  eexists. split; [done|]. split; [vm_compute; by eexists|].
  split; [vm_compute; reflexivity|vm_compute; reflexivity].
Qed.

Section flaws.
Context `{E : ClusterEnv}.

(** ** Flags without a name *)

Definition unnamed (flags : Z) : Prop :=
  flags <> 0%Z /\ Forall (fun e => has_flag e.1 flags = false) redisNodeFlagsTable.

Lemma represent_unnamed flags s : unnamed flags -> representClusterNodeFlags "" flags s = Panic.
Proof.
  intros [Hne Hall]. unfold representClusterNodeFlags.
  destruct (Z.eqb_spec flags 0) as [|_]; [done|].
  replace (foldl _ _ _) with ""; [done|]. symmetry.
  induction Hall as [|[f name] l Hf _ IH]; cbn in *; [done|]. by rewrite Hf.
Qed.

(** Crash by gossip: whatever the state, processing a gossip entry whose
    flags are not zero but have no name in the flag table does not return:
    the string of names is empty, and its trailing comma, which is not
    there, is removed.  The flags come from the packet unchecked. *)
Theorem gossip_unnamed_flags_crash s sender g :
  unnamed (g_flags g) -> gossip_entry sender g s = Panic.
Proof. intros H. unfold gossip_entry, cbind. by rewrite represent_unnamed. Qed.

(** ** Published data beyond the packet *)

(** The length check of PUBLISH packets is done on 32 bits and wraps
    around: a packet of any length from the fixed part of a PUBLISH up passes
    all sanity checks with channel and message lengths that add up to 4 GB
    more than the packet holds, and if there is a subscriber, handling it
    reads beyond the packet. *)
Theorem publish_length_wraps s hdr data :
  let fixed := (sizeof_header + sizeof_publish - 8)%Z in
  let len := Z.of_nat (String.length data) in
  (16 <= fixed)%Z -> (fixed + len < 2 ^ 32)%Z -> pubsub_active s = true ->
  exists clen mlen,
    (0 <= clen < 2 ^ 32)%Z /\ (0 <= mlen < 2 ^ 32)%Z /\ (clen + mlen = len + 2 ^ 32)%Z /\
    let packet := hdr <| h_type := Some PUBLISH |> <| h_ver := CLUSTER_PROTO_VER |>
                      <| h_totlen := (fixed + len)%Z |> <| h_publish := mkPublish clen mlen data |> in
    sane_packet packet (fixed + len) = true /\ packet_publish packet s = Panic.
Proof.
  intros fixed len Hfixed Hlen Hactive. assert (0 <= len)%Z by lia.
  exists (2 ^ 32 - 1)%Z, (len + 1)%Z. split_and!; [lia..|]. cbv zeta. split.
  - unfold sane_packet, expected_len. cbn [h_type h_ver h_totlen h_publish channel_len message_len]. cbn -[Z.pow Z.add Z.sub].
    replace (as_u32 _) with (fixed + len)%Z.
    + rewrite !Z.eqb_refl, !andb_true_iff, !negb_true_iff. split_and!; (reflexivity || lia).
    + unfold as_u32. symmetry. rewrite <- (Z.mod_small (fixed + len) (2 ^ 32)) by lia.
      rewrite <- (Z_mod_plus_full (fixed + len) 1 (2 ^ 32)). f_equal. subst fixed. lia.
  - unfold packet_publish, cbind, gets. cbn -[Z.pow Z.add Z.leb]. rewrite Hactive.
    replace (_ <=? _)%Z with false; [done|]. symmetry. apply Z.leb_gt. fold len. lia.
Qed.
End flaws.

(** ** Witnesses *)

Lemma gossip_unnamed_flags_crash_witness :
  gossip_entry None (mkGossip "x" 0 0 "10.0.0.9" 1 1 256) sample_met = Panic.
Proof.
  apply gossip_unnamed_flags_crash. split; [discriminate|].
  repeat apply Forall_cons_2; try reflexivity. apply Forall_nil_2.
Defined.

Lemma publish_length_wraps_witness :
  exists clen mlen, (clen + mlen = 4 + 2 ^ 32)%Z /\
    packet_publish (self_gossip <| h_type := Some PUBLISH |> <| h_ver := 1%Z |> <| h_totlen := 2268%Z |>
      <| h_publish := mkPublish clen mlen "news" |>) sample_met = Panic.
Proof.
  destruct (publish_length_wraps sample_met self_gossip "news") as (clen & mlen & _ & _ & H1 & _ & H2);
    [cbn; lia|cbn; lia|reflexivity|].
  exists clen, mlen. split; [exact H1|exact H2].
Defined.
