(* ===== verification/ClusterDetect.v ===== *)
(** * Failure detection and the state of the cluster: what they promise *)

From Stdlib Require Import Ascii.
From stdpp Require Import base numbers gmap strings list.
From S2P Require Import Prelude Text ClusterTypes ClusterSlots ClusterNodes ClusterBus ClusterGossip ClusterPacket ClusterInv ClusterPreserve ClusterSystem ClusterSample ClusterReports ClusterClaims.

Section detect.
Context `{E : ClusterEnv} `{!ClusterLaws E}.

(** ** Broadcasts cannot fail *)

(** The links of the nodes in the table are open. *)
Definition valid_links (s : cluster) : Prop :=
  forall name p n l, nodes s !! name = Some p -> heap s !! p = Some n -> n_link n = Some l ->
  is_Some (links s !! l).

Definition valid_masters (s : cluster) : Prop :=
  forall p n m, heap s !! p = Some n -> n_slaveof n = Some m -> is_Some (heap s !! m).

(** Only the log of effects and the statistics change. *)
Record only_sends (s s' : cluster) : Prop := {
  os_heap : heap s' = heap s;
  os_nodes : nodes s' = nodes s;
  os_links : links s' = links s;
  os_slots : slots s' = slots s;
  os_state : state s' = state s;
}.
#[local] Instance only_sends_preorder : PreOrder only_sends.
Proof. split; [by intros s|]. intros a b c [] []. split; congruence. Qed.

Lemma send_total s l m :
  is_Some (links s !! l) -> exists s', clusterSendMessage l m s = Ok (tt, s') /\ only_sends s s'.
Proof.
  intros [link Hl]. unfold clusterSendMessage, cbind, deref_link. rewrite Hl. cbn.
  destruct (h_type m); eexists; split; done.
Qed.

Lemma node_pointers s :
  valid_nodes s -> Forall (fun p => exists name n, nodes s !! name = Some p /\ heap s !! p = Some n)
                     (snd <$> dict_iter (nodes s)).
Proof.
  intros Hv. apply Forall_fmap, Forall_forall. intros [name p] Hin. rewrite dict_iter_perm in Hin.
  apply elem_of_map_to_list in Hin. destruct (Hv _ _ Hin) as [n Hn]. cbn. eauto.
Qed.

Lemma broadcast_total s m :
  valid_nodes s -> valid_links s ->
  exists s', clusterBroadcastMessage m s = Ok (tt, s') /\ only_sends s s'.
Proof.
  intros Hv Hl. unfold clusterBroadcastMessage, all_nodes, cbind, gets. cbn [res_bind].
  assert (H : forall l s1, only_sends s s1 ->
    Forall (fun p => exists name n, nodes s !! name = Some p /\ heap s !! p = Some n) l ->
    exists s', cfor l (fun p => let! node := deref p in
      match n_link node with
      | None => skip
      | Some link => if has_flag MYSELF (n_flags node) || has_flag HANDSHAKE (n_flags node) then skip
                     else clusterSendMessage link m
      end) s1 = Ok (tt, s') /\ only_sends s s').
  2: { apply H; [done|by apply node_pointers]. }
  induction l as [|p l IH]; intros s1 Hs1 Hall; [by exists s1|].
  apply Forall_cons in Hall as [(name & n & Hp & Hn) Hall]. cbn [cfor]. unfold cbind at 1 2, deref.
  rewrite (os_heap _ _ Hs1), Hn. cbn [res_bind].
  destruct (n_link n) as [link|] eqn:Hlink; [|by apply IH].
  destruct (_ || _); [by apply IH|].
  destruct (send_total s1 link m) as (s2 & -> & Hs2); [rewrite (os_links _ _ Hs1); by eapply Hl|].
  cbn [res_bind]. apply IH; [by trans s1|done].
Qed.

Lemma header_total s my t :
  heap s !! myself s = Some my -> valid_masters s -> exists h, clusterBuildMessageHdr t s = Ok (h, s).
Proof.
  intros Hmy Hm. unfold clusterBuildMessageHdr, cbind, gets, deref. cbn. rewrite Hmy. cbn.
  destruct (n_slaveof my) as [m|] eqn:Hs; [|eexists; done].
  destruct (Hm _ _ _ Hmy Hs) as [n Hn]. destruct (nodeIsSlave my); cbn; repeat (rewrite Hn; cbn); eexists; reflexivity.
Qed.

Lemma send_fail_total s my name :
  heap s !! myself s = Some my -> valid_masters s -> valid_nodes s -> valid_links s ->
  exists s', clusterSendFail name s = Ok (tt, s') /\ only_sends s s'.
Proof.
  intros Hmy Hm Hv Hl. unfold clusterSendFail, cbind.
  destruct (header_total s my FAIL_MSG Hmy Hm) as [h ->]. by apply broadcast_total.
Qed.

(** ** The quorum of failure reports *)

(** The nodes that consider the node unreachable: those whose reports are
    recent, and this node if it is a master. *)
Definition accusers (s : cluster) (my n : clusterNode) : Z :=
  (Z.of_nat (base.size (filter (fun kv : ptr * Z => in_time (mstime s) kv.2 = true) (reports (n_fail_reports n))))
   + if nodeIsMaster my then 1 else 0)%Z.

Definition failed_flags (w : Z) : Z := set_flag FAIL (clear_flag PFAIL w).

Lemma failed_flags_spec f w :
  has_flag f (failed_flags w) = bool_decide (f = FAIL) || (negb (bool_decide (f = PFAIL)) && has_flag f w).
Proof. unfold failed_flags. by rewrite has_set_flag, has_clear_flag. Qed.

Lemma failed_flags_master w : flags_master (failed_flags w) = flags_master w.
Proof. rewrite !flags_master_spec. apply failed_flags_spec. Qed.

(** Telling the others about a node just flagged changes no node. *)
Lemma announce_total s p n my :
  heap s !! p = Some n -> heap s !! myself s = Some my ->
  valid_masters s -> valid_nodes s -> valid_links s ->
  exists s', (let! my := deref (myself s) in
              let! node := deref p in
              cwhen (nodeIsMaster my) (clusterSendFail (n_name node)) ;;
              clusterDoBeforeSleep [TODO_UPDATE_STATE; TODO_SAVE_CONFIG]) s = Ok (tt, s') /\
    heap s' = heap s.
Proof.
  intros Hn Hmy Hm Hv Hl. unfold cbind, deref. rewrite Hmy. cbn [res_bind]. rewrite Hn. cbn [res_bind].
  destruct (nodeIsMaster my); cbn [cwhen].
  - destruct (send_fail_total s my (n_name n) Hmy Hm Hv Hl) as (s1 & -> & Hs). cbn [res_bind].
    eexists. split; [done|]. apply Hs.
  - eexists. split; done.
Qed.

(** Changing flags and times of a node keeps all pointers valid. *)
Lemma valid_after s p n n' :
  heap s !! p = Some n -> n_link n' = n_link n -> n_slaveof n' = n_slaveof n ->
  valid_masters s -> valid_nodes s -> valid_links s ->
  let s' := s <| heap := <[p := n']> (heap s) |> in
  valid_masters s' /\ valid_nodes s' /\ valid_links s'.
Proof.
  intros Hn Hlink Hslave Hm Hv Hl s'.
  assert (Hd : forall q, is_Some (heap s !! q) -> is_Some (heap s' !! q)).
  { intros q [m Hq]. cbn. destruct (decide (p = q)) as [->|]; [rewrite lookup_insert_eq|rewrite lookup_insert_ne by done]; eauto. }
  split_and!.
  - intros q m t Hq Ht. cbn in Hq. apply lookup_insert_Some in Hq as [[-> <-]|[? Hq]]; apply Hd; [rewrite Hslave in Ht|]; by eapply Hm.
  - intros name q Hq. by eapply Hd, Hv.
  - intros name q m l Hq Hm' Hlk. cbn in Hm'. apply lookup_insert_Some in Hm' as [[-> <-]|[? Hm']]; [rewrite Hlink in Hlk|]; by eapply Hl.
Qed.

(** C31. The failure quorum.  [markNodeAsFailingIfNeeded] does not fail (in a
    state whose pointers are valid); it flags the node FAIL, no longer
    PFAIL, at the current time, exactly when the node is in PFAIL and not
    yet in FAIL state and more than half of the cluster's masters accuse it:
    the nodes with a recent failure report, and this node if it is a
    master.  Otherwise the node's flags stay, and no other node changes. *)
Theorem markNodeAsFailingIfNeeded_quorum s p n my :
  heap s !! p = Some n -> one_each (n_fail_reports n) -> heap s !! myself s = Some my ->
  valid_masters s -> valid_nodes s -> valid_links s ->
  exists s' n', markNodeAsFailingIfNeeded p s = Ok (tt, s') /\ heap s' !! p = Some n' /\
    (forall q, q <> p -> heap s' !! q = heap s !! q) /\
    if nodeTimedOut n && negb (nodeFailed n) && (size s / 2 <? accusers s my n)%Z
    then n_flags n' = failed_flags (n_flags n) /\ n_fail_time n' = mstime s
    else n_flags n' = n_flags n.
Proof.
  intros Hn Hone Hmy Hm Hv Hl. unfold markNodeAsFailingIfNeeded, cbind at 1 2, gets at 1, deref at 1.
  cbn [res_bind]. rewrite Hn. cbn [res_bind].
  destruct (nodeTimedOut n); cbn [negb andb]; [|by exists s, n].
  destruct (nodeFailed n); cbn [negb andb]; [by exists s, n|].
  destruct (FailureReportsCount_map s p n Hn Hone) as (l & s1 & Hc & (n0 & Hn0 & Hl' & ->) & Hr).
  assert (n0 = n) as -> by congruence. clear Hn0.
  unfold cbind at 1. rewrite Hc. cbn [res_bind]. unfold cbind at 1 2, gets at 1, deref at 1.
  set (n1 := n <| n_fail_reports := l |>). set (s1 := s <| heap := <[p := n1]> (heap s) |>).
  assert (Hn1 : heap s1 !! p = Some n1) by (cbn; by rewrite lookup_insert_eq).
  assert (Hmy1 : exists my1, heap s1 !! myself s1 = Some my1 /\ n_flags my1 = n_flags my).
  { destruct (decide (p = myself s)) as [->|Hne].
    - exists n1. split; [done|]. cbn. congruence.
    - exists my. cbn. by rewrite lookup_insert_ne. }
  destruct Hmy1 as (my1 & Hmy1 & Hfl). cbn [res_bind]. rewrite Hmy1. cbn [res_bind].
  assert (Hacc : (if nodeIsMaster my1 then Z.of_nat (base.size (reports l)) + 1 else Z.of_nat (base.size (reports l)))%Z
                 = accusers s my n).
  { unfold accusers, nodeIsMaster. rewrite Hfl, <- Hr. destruct (flags_master _); lia. }
  rewrite Hacc. clear Hacc Hfl my1 Hmy1.
  assert (Hother : forall q, q <> p -> heap s1 !! q = heap s !! q)
    by (intros q Hq; cbn; by rewrite lookup_insert_ne).
  destruct (Z.ltb_spec (accusers s my n) (size s / 2 + 1)), (Z.ltb_spec (size s / 2) (accusers s my n)); try lia.
  { exists s1, n1. split_and!; done. }
  set (n2 := n1 <| n_flags ::= failed_flags |> <| n_fail_time := mstime s |>).
  destruct (valid_after s p n n2 Hn eq_refl eq_refl Hm Hv Hl) as (Hm2 & Hv2 & Hl2).
  set (s2 := s <| heap := <[p := n2]> (heap s) |>) in *.
  assert (Hn2 : heap s2 !! p = Some n2) by (cbn; by rewrite lookup_insert_eq).
  assert (Hmy2 : exists my2, heap s2 !! myself s2 = Some my2).
  { destruct (decide (p = myself s)) as [->|Hne]; [by exists n2|].
    exists my. cbn. by rewrite lookup_insert_ne. }
  destruct Hmy2 as [my2 Hmy2].
  destruct (announce_total s2 p n2 my2 Hn2 Hmy2 Hm2 Hv2 Hl2) as (s3 & H3 & Hheap).
  exists s3, n2. split_and!; [|by rewrite Hheap|by intros q Hq; rewrite Hheap; cbn; rewrite lookup_insert_ne|done|done].
  unfold cbind at 1 2, gets at 1, update at 1. cbn [res_bind]. rewrite Hn1. cbn [res_bind].
  assert (Hs2 : s1 <| heap := <[p := n2]> (heap s1) |> = s2) by (subst s1 s2; cbn; by rewrite insert_insert_eq).
  rewrite <- H3, <- Hs2. reflexivity.
Qed.
End detect.

(** ** Witness: a suspect in a cluster whose quorum is this node alone *)

Definition suspect : cluster :=
  sample_met <| heap ::= alter (fun n => n <| n_flags ::= set_flag PFAIL |>) 1 |> <| size := 1%Z |>.

Lemma valid_masters_check s :
  forallb (fun kv => match n_slaveof kv.2 with
                     | Some m => bool_decide (is_Some (heap s !! m))
                     | None => true
                     end) (map_to_list (heap s)) = true -> valid_masters s.
Proof.
  rewrite forallb_forall. intros H p n m Hp Hm. apply elem_of_map_to_list, list_elem_of_In in Hp.
  specialize (H _ Hp). cbn in H. rewrite Hm in H. by apply bool_decide_eq_true in H.
Qed.

Lemma valid_links_check s :
  forallb (fun kv => match n_link kv.2 with
                     | Some l => bool_decide (is_Some (links s !! l))
                     | None => true
                     end) (map_to_list (heap s)) = true -> valid_links s.
Proof.
  rewrite forallb_forall. intros H name p n l _ Hp Hl. apply elem_of_map_to_list, list_elem_of_In in Hp.
  specialize (H _ Hp). cbn in H. rewrite Hl in H. by apply bool_decide_eq_true in H.
Qed.

Lemma markNodeAsFailingIfNeeded_quorum_witness :
  exists s' n', markNodeAsFailingIfNeeded 1 suspect = Ok (tt, s') /\ heap s' !! 1 = Some n' /\
    has_flag FAIL (n_flags n') = true.
Proof.
  destruct (heap suspect !! 1) as [n|] eqn:Hn; [|discriminate Hn].
  destruct (heap suspect !! 0) as [my|] eqn:Hmy; [|discriminate Hmy].
  destruct (markNodeAsFailingIfNeeded_quorum suspect 1 n my Hn) as (s' & n' & H1 & H2 & _ & H3).
  - vm_compute in Hn. injection Hn as <-. apply NoDup_nil_2.
  - exact Hmy.
  - apply valid_masters_check. vm_compute. reflexivity.
  - apply valid_nodes_check. vm_compute. reflexivity.
  - apply valid_links_check. vm_compute. reflexivity.
  - exists s', n'. split; [exact H1|]. split; [exact H2|].
    vm_compute in Hn, Hmy. injection Hn as <-. injection Hmy as <-.
    destruct H3 as [-> _]. vm_compute. reflexivity.
Defined.

(** * The state of the cluster: what [clusterUpdateState] decides *)

Section state.
Context `{E : ClusterEnv} `{!ClusterLaws E}.

(** ** What the decision depends on *)

(** Slot [j] is served by a node that has not failed. *)
Definition served (s : cluster) (j : nat) : bool :=
  match slots s !! j with
  | Some p => match heap s !! p with Some n => negb (has_flag FAIL (n_flags n)) | None => false end
  | None => false
  end.

(** A master with slots; one that we can reach. *)
Definition voter (s : cluster) (p : ptr) : bool :=
  match heap s !! p with
  | Some n => nodeIsMaster n && negb (n_numslots n =? 0)%Z
  | None => false
  end.
Definition reachable (s : cluster) (p : ptr) : bool :=
  match heap s !! p with
  | Some n => negb (has_flag FAIL (n_flags n) || has_flag PFAIL (n_flags n))
  | None => false
  end.

Definition number (P : ptr -> bool) (s : cluster) : Z :=
  Z.of_nat (length (List.filter P (map_to_list (nodes s)).*2)).
Definition voters (s : cluster) : Z := number (voter s) s.
Definition reachable_voters (s : cluster) : Z := number (fun p => voter s p && reachable s p) s.

Definition healthy (s : cluster) : bool :=
  (negb cluster_require_full_coverage || forallb (served s) all_slots) &&
  (voters s / 2 <? reachable_voters s)%Z.

(** ** The loops *)

Lemma uncovered_spec s l :
  slot_inv s -> uncovered l s = Ok (negb (forallb (served s) l), s).
Proof.
  intros HI. induction l as [|j l IH]; [done|]. cbn [uncovered forallb]. unfold cbind at 1, gets.
  unfold served at 1. cbn [res_bind]. destruct (slots s !! j) as [p|] eqn:Ho; [|done].
  destruct (iv_owner _ HI _ _ Ho) as (_ & n & Hn & _). unfold cbind, deref. rewrite Hn. cbn [res_bind].
  destruct (has_flag FAIL (n_flags n)); cbn; [done|exact IH].
Qed.

Lemma filter_perm {A} (P : A -> bool) l l' : l ≡ₚ l' -> length (List.filter P l) = length (List.filter P l').
Proof. intros H. induction H; cbn; repeat destruct (P _); cbn; congruence. Qed.

(** A loop that counts the nodes of two kinds. *)
Lemma count_loop (P Q : ptr -> bool) (step : Z * Z -> ptr -> C (Z * Z)) s l a b :
  Forall (fun p => forall acc, step acc p s =
    Ok (if P p then ((acc.1 + 1)%Z, if Q p then (acc.2 + 1)%Z else acc.2) else acc, s)) l ->
  cfold l (a, b) step s =
    Ok ((a + Z.of_nat (length (List.filter P l)),
         b + Z.of_nat (length (List.filter (fun p => P p && Q p) l)))%Z, s).
Proof.
  intros H. revert a b. induction H as [|p l Hp _ IH]; intros a b; cbn; [by rewrite !Z.add_0_r|].
  unfold cbind. rewrite Hp. cbn. destruct (P p); cbn; [|by rewrite IH].
  destruct (Q p); cbn; rewrite IH; do 3 f_equal; lia.
Qed.

Lemma count_masters_spec s : valid_nodes s -> count_masters s = Ok ((voters s, reachable_voters s), s).
Proof.
  intros Hv. unfold count_masters, all_nodes, cbind at 1, gets. cbn [res_bind].
  assert (Hperm : (snd <$> dict_iter (nodes s)) ≡ₚ (map_to_list (nodes s)).*2)
    by (apply fmap_Permutation, dict_iter_perm).
  unfold voters, reachable_voters, number. rewrite <- !(filter_perm _ _ _ Hperm).
  apply (count_loop (voter s) (reachable s)).
  apply Forall_fmap, Forall_forall. intros [name p] Hin acc. cbn. rewrite dict_iter_perm in Hin.
  apply elem_of_map_to_list in Hin. destruct (Hv _ _ Hin) as [n Hn].
  unfold cbind, deref, voter, reachable. rewrite Hn. reflexivity.
Qed.

(** ** The decision *)

(** A master that has just started, or has just left a minority partition,
    does not accept writes yet. *)
Definition starting (s : cluster) (my : clusterNode) : bool :=
  nodeIsMaster my && bool_decide (state s = CLUSTER_FAIL) &&
  (mstime s - (if first_call_time s =? 0 then mstime s else first_call_time s) <? CLUSTER_WRITABLE_DELAY)%Z.
Definition rejoining (s : cluster) (my : clusterNode) : bool :=
  nodeIsMaster my && bool_decide (state s = CLUSTER_FAIL) && (mstime s - among_minority_time s <? rejoin_delay)%Z.

Lemma quorum_lt a b : (a <? b / 2 + 1)%Z = negb (b / 2 <? a)%Z.
Proof. destruct (Z.ltb_spec a (b / 2 + 1)), (Z.ltb_spec (b / 2) a); lia || done. Qed.

(** C32. The state of the cluster.  [clusterUpdateState] does not fail (in a
    state whose pointers are valid).  A master that has just started and is
    in the FAIL state leaves everything as it is.  Otherwise the cluster's
    size becomes the number of masters with slots, and the state becomes OK
    exactly when every slot is served by a node that has not failed (unless
    full coverage is not required) and more than half of those masters are
    reachable, except that a master that was in a minority partition less
    than the rejoin delay ago stays in the FAIL state. *)
Theorem clusterUpdateState_spec s my :
  slot_inv s -> valid_nodes s -> heap s !! myself s = Some my ->
  exists s', clusterUpdateState s = Ok (tt, s') /\ slots s' = slots s /\ heap s' = heap s /\
    if starting s my then state s' = state s /\ size s' = size s
    else size s' = voters s /\
         state s' = if healthy s && negb (rejoining s my) then CLUSTER_OK else CLUSTER_FAIL.
Proof.
  intros HI Hv Hmy. unfold clusterUpdateState, clear_todo, cbind at 1, modify at 1. cbn [res_bind].
  set (s0 := s <| todo_before_sleep ::= _ |>).
  set (first := if (first_call_time s =? 0)%Z then mstime s else first_call_time s).
  unfold cbind at 1 2, gets at 1 2. cbn [res_bind].
  match goal with |- context [cwhen ?b ?m] =>
    assert (H1 : exists s1, cwhen b m s0 = Ok (tt, s1) /\ first_call_time s1 = first /\
      s1 = s0 <| first_call_time := first |>) end.
  { subst first. cbn. destruct (first_call_time s =? 0)%Z; eexists; split_and!; done. }
  destruct H1 as (s1 & H1 & Hfirst & Hs1). unfold cbind at 1. rewrite H1. cbn [res_bind].
  unfold cbind at 1 2 3 4, gets at 1 2 3, deref at 1. cbn [res_bind]. rewrite Hfirst.
  assert (Hmy1 : heap s1 !! myself s1 = Some my) by (by subst s1). rewrite Hmy1. cbn [res_bind].
  assert (HI1 : slot_inv s1) by (subst s1; destruct HI; by constructor).
  assert (Hv1 : valid_nodes s1) by (by subst s1).
  assert (Hsame : state s1 = state s /\ size s1 = size s /\ slots s1 = slots s /\ heap s1 = heap s /\
    voters s1 = voters s /\ reachable_voters s1 = reachable_voters s /\ served s1 = served s /\
    among_minority_time s1 = among_minority_time s) by (by subst s1).
  destruct Hsame as (Hst & Hsz & Hsl & Hh & Hvo & Hre & Hse & Ham). clear Hs1 H1 Hmy1.
  change (mstime s0) with (mstime s). rewrite Hst. unfold starting. fold first.
  destruct (_ && (mstime s - first <? _)%Z); [by exists s1|]. clear s0 Hfirst first.
  assert (Hhole : (if cluster_require_full_coverage then uncovered all_slots else cret false) s1 =
    Ok (negb (negb cluster_require_full_coverage || forallb (served s) all_slots), s1)).
  { destruct cluster_require_full_coverage; cbn [negb orb]; [|done]. by rewrite uncovered_spec, Hse. }
  unfold cbind at 1. rewrite Hhole. cbn [res_bind]. unfold cbind at 1. rewrite count_masters_spec by done.
  cbn beta iota delta [res_bind]. rewrite Hvo, Hre, !quorum_lt. unfold healthy, rejoining.
  destruct (voters s / 2 <? reachable_voters s)%Z; cbn [negb].
  all: destruct (negb cluster_require_full_coverage || _); cbn [negb andb].
  all: unfold cbind, cwhen, modify, gets; cbn; rewrite ?Ham; destruct (state s) eqn:Hs; cbn.
  all: change (bool_decide (CLUSTER_OK = CLUSTER_FAIL)) with false; cbn; rewrite ?Ham.
  all: destruct (nodeIsMaster my); cbn; try destruct (_ - _ <? rejoin_delay)%Z; cbn.
  all: eexists; split_and!; try reflexivity; done.
Qed.
End state.

(** Witness: the sample cluster, whose slots are not all served, fails. *)
Lemma clusterUpdateState_spec_witness :
  exists s', clusterUpdateState sample_met = Ok (tt, s') /\ voters sample_met = 2%Z /\
    healthy sample_met = false /\ state s' = CLUSTER_FAIL.
Proof.
  destruct (heap sample_met !! 0) as [my|] eqn:Hmy; [|discriminate Hmy].
  destruct (clusterUpdateState_spec sample_met my sample_met_inv sample_valid Hmy) as (s' & H1 & _ & _ & H2).
  exists s'. split; [exact H1|]. split; [vm_compute; reflexivity|]. split; [vm_compute; reflexivity|].
  destruct (starting sample_met my); [by destruct H2 as [-> _]|]. destruct H2 as [_ ->].
  replace (healthy sample_met) with false by (vm_compute; reflexivity). reflexivity.
Defined.
