(* ===== verification/ClusterCommandProps.v ===== *)
(** * CLUSTER sub-commands: what they promise *)

From Stdlib Require Import Ascii.
From stdpp Require Import base numbers gmap strings list.
From S2P Require Import Prelude Text ClusterTypes ClusterSlots ClusterNodes ClusterCommand ClusterInv ClusterPreserve ClusterSystem ClusterSample ClusterClaims.

Section ranges.
Context `{E : ClusterEnv}.

(** ** Ranges of slots *)

Definition expand (r : nat * nat) : list nat := seq r.1 (S r.2 - r.1).

(** Ranges from [lo] on, in order, with a hole between any two of them. *)
Fixpoint separate (lo : nat) (rs : list (nat * nat)) : Prop :=
  match rs with
  | [] => True
  | r :: rs => lo <= r.1 <= r.2 /\ separate (r.2 + 2) rs
  end.

Lemma separate_weaken lo lo' rs : lo' <= lo -> separate lo rs -> separate lo' rs.
Proof. destruct rs as [|r rs]; cbn; [done|]. intros ? [? ?]. split; [lia|done]. Qed.

Lemma seq_snoc a n : seq a n ++ [a + n] = seq a (S n).
Proof. by rewrite seq_S. Qed.

Lemma slot_ranges_spec bit m k :
  k + m = CLUSTER_SLOTS ->
  (concat (expand <$> slot_ranges bit (seq k m) None) = List.filter bit (seq k m) /\
   separate k (slot_ranges bit (seq k m) None)) /\
  (forall s, s < k -> m <> 0 ->
   concat (expand <$> slot_ranges bit (seq k m) (Some s)) = seq s (k - s) ++ List.filter bit (seq k m) /\
   separate s (slot_ranges bit (seq k m) (Some s))).
Proof.
  revert k. induction m as [|m IH]; intros k Hk; [done|].
  destruct (IH (S k)) as [[IH1 IH2] IHs]; [lia|]. clear IH. cbn [seq].
  assert (Hlast : (k =? CLUSTER_SLOTS - 1) = (m =? 0))
    by (apply eq_true_iff_eq; rewrite !Nat.eqb_eq; lia).
  assert (Hrun : forall s, s <= k -> bit k = true ->
    concat (expand <$> slot_ranges bit (k :: seq (S k) m) (Some s)) =
      seq s (k - s) ++ k :: List.filter bit (seq (S k) m) /\
    separate s (slot_ranges bit (k :: seq (S k) m) (Some s))).
  { intros s Hs Hb. cbn [slot_ranges]. rewrite Hb, Hlast. cbn [negb orb andb].
    destruct m as [|m]; cbn [Nat.eqb].
    - cbn. unfold expand. cbn. rewrite Nat.sub_0_r. replace (S k - s) with (S (k - s)) by lia.
      rewrite app_nil_r, <- seq_snoc. replace (s + (k - s)) with k by lia. split; [done|lia].
    - destruct (IHs s) as [H1 H2]; [lia|done|]. split; [|exact H2]. rewrite H1.
      replace (S k - s) with (S (k - s)) by lia. rewrite <- seq_snoc.
      replace (s + (k - s)) with k by lia. by rewrite <- app_assoc. }
  split.
  - cbn [slot_ranges List.filter]. destruct (bit k) eqn:Hb.
    + specialize (Hrun k (le_n k) eq_refl). cbn [slot_ranges] in Hrun. rewrite Hb, Nat.sub_diag in Hrun. exact Hrun.
    + split; [exact IH1|]. eapply separate_weaken; [|exact IH2]. lia.
  - intros s Hs _. cbn [List.filter]. destruct (bit k) eqn:Hb; [by apply Hrun; [lia|]|].
    cbn [slot_ranges]. rewrite Hb. cbn [negb orb andb fmap list_fmap concat]. unfold expand at 1. cbn [fst snd].
    rewrite IH1. replace (S (k - 1) - s) with (k - s) by lia. split; [done|].
    cbn. split; [lia|]. eapply separate_weaken; [|exact IH2]. lia.
Qed.

(** Slot ranges, as CLUSTER NODES, CLUSTER SLOTS and the configuration
    file show them: expanding the ranges of a node gives exactly the node's
    slots in increasing order, and the ranges are in order, not empty, and
    never adjacent, so that they are the shortest such list. *)
Theorem node_ranges_exact (n : clusterNode) :
  concat (expand <$> node_ranges n) = List.filter (clusterNodeGetSlotBit n) all_slots /\
  separate 0 (node_ranges n).
Proof. exact (proj1 (slot_ranges_spec (clusterNodeGetSlotBit n) CLUSTER_SLOTS 0 eq_refl)). Qed.
End ranges.

Section addslots.
Context `{E : ClusterEnv} `{!ClusterLaws E}.

(** ** ADDSLOTS and DELSLOTS *)

(** Slots that can be assigned are free, slots that can be released are not. *)
Definition assignable (del : bool) (s : cluster) (j : nat) : bool :=
  if del then bool_decide (slots s !! j <> None) else bool_decide (slots s !! j = None).

(** All arguments are slots, all different, all assignable. *)
Definition slots_request (del : bool) (s : cluster) (args : list string) : option (list nat) :=
  match mapM getSlot args with
  | Some chosen => if bool_decide (NoDup chosen) && forallb (assignable del s) chosen then Some chosen else None
  | None => None
  end.

Lemma check_slots_cons del s slot a args seen :
  getSlot a = Some slot ->
  exists m1 m2, check_slots del (slots s) (a :: args) seen =
    if negb (assignable del s slot) then inl (RError m1)
    else if bool_decide (slot ∈ seen) then inl (RError m2)
    else check_slots del (slots s) args (seen ++ [slot]).
Proof.
  intros Ha. cbn [check_slots]. rewrite Ha. unfold assignable.
  destruct del, (slots s !! slot); cbn; (do 2 eexists; reflexivity) || (exists ""; eexists; reflexivity) ||
    (eexists; exists ""; reflexivity).
Qed.

(** The checks find the slots of the request, or an error. *)
Lemma check_slots_spec del s args seen :
  NoDup seen ->
  match check_slots del (slots s) args seen with
  | inl e => (exists m, e = RError m) /\
      forall chosen, mapM getSlot args = Some chosen -> NoDup (seen ++ chosen) ->
        forallb (assignable del s) chosen = false
  | inr all => exists chosen, mapM getSlot args = Some chosen /\ all = seen ++ chosen /\ NoDup all /\
                 forallb (assignable del s) chosen = true
  end.
Proof.
  revert seen. induction args as [|a args IH]; intros seen Hseen.
  { exists []. cbn. by rewrite app_nil_r. }
  destruct (getSlot a) as [slot|] eqn:Ha; [|cbn; rewrite Ha; split; [by eexists|done]].
  destruct (check_slots_cons del s slot a args seen Ha) as (m1 & m2 & ->).
  assert (Hmap : forall chosen, mapM getSlot (a :: args) = Some chosen <->
    exists rest, mapM getSlot args = Some rest /\ chosen = slot :: rest).
  { intros chosen. cbn. rewrite Ha. cbn. destruct (mapM getSlot args) as [rest|]; cbn.
    - split; [intros [= <-]; by eexists|intros (? & [= ->] & ->); done].
    - split; [done|intros (? & ? & _); done]. }
  destruct (assignable del s slot) eqn:Hok; cbn [negb].
  2: { split; [by eexists|]. intros chosen (rest & _ & ->)%Hmap _. cbn. by rewrite Hok. }
  case_bool_decide as Hin.
  { split; [by eexists|]. intros chosen (rest & _ & ->)%Hmap Hnd.
    apply NoDup_app in Hnd as (_ & Hdis & _). exfalso. apply (Hdis slot); [done|by left]. }
  assert (Hnd : NoDup (seen ++ [slot])).
  { apply NoDup_app. split_and!; [done| |apply NoDup_singleton]. intros j Hj ->%list_elem_of_singleton. done. }
  specialize (IH _ Hnd). destruct (check_slots del (slots s) args (seen ++ [slot])) as [e|all].
  - destruct IH as [He IH]. split; [done|]. intros chosen (rest & Hr & ->)%Hmap Hndc. cbn. rewrite Hok.
    apply IH; [done|]. by rewrite <- app_assoc.
  - destruct IH as (rest & Hr & -> & Hall & Hf). exists (slot :: rest). split_and!.
    + apply Hmap. eauto.
    + by rewrite <- app_assoc.
    + done.
    + cbn. by rewrite Hok.
Qed.

(** ** The loop over the slots of the request *)

Definition apply_slot (del : bool) (me : ptr) (chosen : list nat) (j : nat) : C unit :=
  if bool_decide (j ∈ chosen) then
    modify (fun s => s <| importing_slots_from ::= delete j |>) ;;
    let! ok := if del then clusterDelSlot j else clusterAddSlot me j in
    serverAssert ok
  else skip.

Definition owner_after (del : bool) (me : ptr) : option ptr := if del then None else Some me.

Lemma apply_slot_spec del me chosen my s j :
  slot_inv s -> valid_nodes s -> heap s !! me = Some my -> j < CLUSTER_SLOTS ->
  (j ∈ chosen -> assignable del s j = true) ->
  exists s', apply_slot del me chosen j s = Ok (tt, s') /\ slot_inv s' /\ valid_nodes s' /\
    is_Some (heap s' !! me) /\
    forall k, slots s' !! k = if bool_decide (k = j /\ j ∈ chosen) then owner_after del me else slots s !! k.
Proof.
  intros HI Hv Hme Hj Ha. unfold apply_slot. case_bool_decide as Hin.
  2: { exists s. split_and!; try done. intros k. by rewrite bool_decide_false by tauto. }
  unfold cbind at 1, modify. cbn [res_bind]. set (s0 := s <| importing_slots_from ::= delete j |>).
  assert (HI0 : slot_inv s0) by (destruct HI; by constructor).
  specialize (Ha Hin). unfold assignable in Ha. destruct del; apply bool_decide_eq_true in Ha.
  - destruct (DelSlot_total s0 j HI0) as (s1 & H1 & Hf & Hs & HI1). unfold cbind. rewrite H1. cbn [res_bind].
    change (slots s0) with (slots s) in *. rewrite bool_decide_true by done.
    exists s1. destruct (frame_lookup _ _ _ _ Hf Hme) as (my' & Hme' & _).
    split_and!; [done|done|by eapply frame_valid|by eexists|].
    intros k. rewrite Hs. destruct (decide (k = j)) as [->|Hk].
    + by rewrite lookup_delete_eq, bool_decide_true.
    + by rewrite lookup_delete_ne, bool_decide_false by naive_solver.
  - destruct (AddSlot_total s0 me j my HI0 Hv Hme Hj Ha) as (s1 & H1 & Hf & Hs & HI1).
    unfold cbind. rewrite H1. cbn [res_bind].
    exists s1. destruct (frame_lookup _ _ _ _ Hf Hme) as (my' & Hme' & _).
    split_and!; [done|done|by eapply frame_valid|by eexists|].
    intros k. rewrite Hs. destruct (decide (k = j)) as [->|Hk].
    + by rewrite lookup_insert_eq, bool_decide_true.
    + by rewrite lookup_insert_ne, bool_decide_false by naive_solver.
Qed.

Lemma apply_slots_spec del me chosen l s :
  NoDup l -> (forall j, j ∈ l -> j < CLUSTER_SLOTS) -> slot_inv s -> valid_nodes s -> is_Some (heap s !! me) ->
  (forall j, j ∈ l -> j ∈ chosen -> assignable del s j = true) ->
  exists s', cfor l (apply_slot del me chosen) s = Ok (tt, s') /\
    forall k, slots s' !! k = if bool_decide (k ∈ l /\ k ∈ chosen) then owner_after del me else slots s !! k.
Proof.
  revert s. induction l as [|j l IH]; intros s Hnd Hlt HI Hv [my Hme] Ha.
  { exists s. split; [done|]. intros k. by rewrite bool_decide_false by (intros [[]%not_elem_of_nil _]). }
  apply NoDup_cons in Hnd as [Hj Hnd].
  destruct (apply_slot_spec del me chosen my s j HI Hv Hme) as (s1 & H1 & HI1 & Hv1 & Hme1 & Hs1);
    [apply Hlt; by left|apply Ha; by left|].
  destruct (IH s1 Hnd) as (s2 & H2 & Hs2); [intros k Hk; apply Hlt; by right|done|done|done| |].
  { intros k Hk Hc. specialize (Ha k ltac:(by right) Hc). unfold assignable in *. rewrite Hs1.
    rewrite (bool_decide_false (k = j /\ j ∈ chosen)) by (intros [-> _]; done). exact Ha. }
  exists s2. split; [cbn; unfold cbind; rewrite H1; exact H2|]. intros k. rewrite Hs2, Hs1.
  assert (Hiff : bool_decide (k ∈ j :: l /\ k ∈ chosen) =
    bool_decide (k ∈ l /\ k ∈ chosen) || bool_decide (k = j /\ j ∈ chosen)).
  { rewrite <- bool_decide_or. apply bool_decide_ext. rewrite elem_of_cons. naive_solver. }
  rewrite Hiff. by destruct (bool_decide (k ∈ l /\ _)).
Qed.

Lemma mapM_slots_lt args chosen j : mapM getSlot args = Some chosen -> j ∈ chosen -> j < CLUSTER_SLOTS.
Proof.
  rewrite mapM_Some. intros H Hj. apply list_elem_of_lookup_1 in Hj as [i Hi].
  eapply Forall2_lookup_r in H as (a & _ & Ha); [|exact Hi]. by eapply getSlot_lt.
Qed.

(** CLUSTER ADDSLOTS and DELSLOTS are all or nothing.  In a state of a
    run the command never fails an assertion.  If the arguments are slots,
    all different, and all free (or all assigned, to release them), it
    replies OK and exactly these slots change hands: to this node, or to
    nobody.  Otherwise it replies with an error and changes nothing. *)
Theorem cmd_addslots_all_or_nothing del args s :
  slot_inv s -> valid_nodes s -> is_Some (heap s !! myself s) ->
  exists reply s', cmd_addslots del args s = Ok (reply, s') /\
    match slots_request del s args with
    | Some chosen => reply = ROk /\ forall j,
        slots s' !! j = if bool_decide (j ∈ chosen) then (if del then None else Some (myself s)) else slots s !! j
    | None => (exists msg, reply = RError msg) /\ s' = s
    end.
Proof.
  intros HI Hv Hme. unfold cmd_addslots, cbind at 1, gets at 1. cbn [res_bind].
  pose proof (check_slots_spec del s args [] NoDup_nil_2) as Hc. unfold slots_request.
  destruct (check_slots del (slots s) args []) as [e|chosen].
  - destruct Hc as [He Hc]. exists e, s. split; [done|].
    destruct (mapM getSlot args) as [chosen|]; [|done]. specialize (Hc _ eq_refl). cbn in Hc.
    destruct (bool_decide_reflect (NoDup chosen)); [|done]. by rewrite Hc.
  - destruct Hc as (chosen' & Hm & Heq & Hnd & Hf). cbn in Heq. subst chosen'.
    rewrite Hm, bool_decide_true, Hf by done. cbn [andb].
    destruct (apply_slots_spec del (myself s) chosen all_slots s) as (s1 & H1 & Hs1);
      [apply NoDup_seq|apply all_slots_lt|done..| |].
    { intros j _ Hj. rewrite forallb_forall in Hf. apply Hf. by apply list_elem_of_In. }
    unfold cbind at 1, gets. cbn [res_bind]. unfold apply_slot in H1. unfold cbind at 1. setoid_rewrite H1.
    eexists ROk, _. split; [reflexivity|]. split; [done|]. intros j. cbn. rewrite Hs1.
    rewrite (bool_decide_ext (j ∈ all_slots /\ j ∈ chosen) (j ∈ chosen)); [done|].
    split; [tauto|]. intros Hj. split; [|done]. apply elem_of_seq. pose proof (mapM_slots_lt _ _ _ Hm Hj). lia.
Qed.
End addslots.

(** Witness: slots 2 and 5 of the sample state. *)
Lemma cmd_addslots_all_or_nothing_witness :
  exists s', cmd_addslots false ["2"; "5"] sample_met = Ok (ROk, s') /\
    slots s' !! 2 = Some 0 /\ slots s' !! 5 = Some 0 /\ slots s' !! 9 = Some 1.
Proof.
  destruct (cmd_addslots_all_or_nothing false ["2"; "5"] sample_met sample_met_inv sample_valid)
    as (reply & s' & H1 & H2); [vm_compute; by eexists|].
  replace (slots_request false sample_met ["2"; "5"]) with (Some [2; 5]) in H2 by (vm_compute; reflexivity).
  destruct H2 as [-> H2]. exists s'. split; [exact H1|]. rewrite !H2. repeat split; vm_compute; reflexivity.
Defined.
