(* ===== verification/Word.v ===== *)
(** * Words of 64 bits

    Facts about [u64] and the masks of C programs that several components
    share. *)

From Stdlib Require Import ZifyBool.
From stdpp Require Import base numbers.
From S2P Require Import Prelude.

Local Open Scope Z_scope.

Lemma u64_small n : 0 <= n < 2 ^ 64 -> u64 n = n.
Proof. apply Z.mod_small. Qed.

Lemma testbit_high t k : 0 <= t < 2 ^ 64 -> 64 <= k -> Z.testbit t k = false.
Proof. intros Ht Hk. rewrite <- (Z.mod_small t (2 ^ 64)) by lia. by apply Z.mod_pow2_bits_high. Qed.

(** Rounding down to a power of two. *)
Lemma land_mask x k : 0 <= k < 64 -> 0 <= x < 2 ^ 64 -> Z.land x (u64 (- 2 ^ k)) = x - x mod 2 ^ k.
Proof.
  intros Hk Hx.
  assert (H2k : 0 < 2 ^ k < 2 ^ 64) by (split; [lia|apply Z.pow_lt_mono_r; lia]).
  assert (Hm : u64 (- 2 ^ k) = 2 ^ 64 - 2 ^ k).
  { unfold u64. rewrite <- (Z.mod_unique (- 2 ^ k) (2 ^ 64) (-1) (2 ^ 64 - 2 ^ k)); lia. }
  assert (Hb : 2 ^ 64 - 2 ^ k = Z.ldiff (Z.ones 64) (Z.ones k)).
  { rewrite Z.ldiff_ones_r by lia.
    rewrite Z.shiftr_div_pow2, Z.shiftl_mul_pow2, Z.ones_equiv by lia.
    replace 64 with (k + (64 - k)) by lia. rewrite Z.pow_add_r by lia.
    replace (Z.pred (2 ^ k * 2 ^ (64 - k))) with ((2 ^ (64 - k) - 1) * 2 ^ k + (2 ^ k - 1)) by nia.
    rewrite Z.div_add_l, (Z.div_small (2 ^ k - 1)) by lia. nia. }
  rewrite Hm, Hb.
  replace (Z.land x (Z.ldiff (Z.ones 64) (Z.ones k))) with (Z.ldiff x (Z.ones k)).
  - rewrite Z.ldiff_ones_r, Z.shiftr_div_pow2, Z.shiftl_mul_pow2 by lia.
    pose proof (Z.div_mod x (2 ^ k)). lia.
  - apply Z.bits_inj'. intros i Hi. rewrite Z.land_spec, !Z.ldiff_spec.
    destruct (Z.ltb_spec i 64).
    + by rewrite (Z.ones_spec_low 64) by lia.
    + by rewrite (testbit_high x) by lia.
Qed.
