(* ===== verification/StateMonad.v ===== *)
(** * A state monad with errors, and total correctness

    The C programs whose functions share a store run in [SM S]: a
    computation takes the store and gives a result and the store after it,
    or fails ([Panic]: a crash; [OutOfFuel]: a loop's fuel ran out).  [wp m Q s]
    says that [m] returns from [s], with a result and a store in [Q]. *)

From stdpp Require Import base numbers.
From S2P Require Import Prelude.

Definition SM (S A : Type) : Type := S -> res Empty_set (A * S).

Section monad.
Context {S : Type}.

Definition mret {A} (a : A) : SM S A := fun s => Ok (a, s).
Definition mbind_ {A B} (m : SM S A) (k : A -> SM S B) : SM S B := fun s =>
  let* (a, s) := m s in k a s.
Definition mget {A} (f : S -> A) : SM S A := fun s => Ok (f s, s).
Definition mset (f : S -> S) : SM S unit := fun s => Ok (tt, f s).
Definition mskip : SM S unit := mret tt.
Definition mwhen (b : bool) (m : SM S unit) : SM S unit := if b then m else mskip.
Definition a_crash {A} : SM S A := fun _ => Panic.
Definition no_fuel {A} : SM S A := fun _ => OutOfFuel.
End monad.

Declare Scope store_scope.
Delimit Scope store_scope with store.
Notation "'do!' x ':=' m 'in' k" := (mbind_ m (fun x => k))
  (at level 10, x pattern, m at level 100, k at level 200) : store_scope.
Notation "m ;; k" := (mbind_ m (fun _ : unit => k))
  (at level 100, k at level 200, right associativity) : store_scope.

(** ** Total correctness *)

Definition wp {S A} (m : SM S A) (Q : A -> S -> Prop) (s : S) : Prop :=
  exists a s', m s = Ok (a, s') /\ Q a s'.

Section wp.
Context {S A B : Type}.
Implicit Types Q : A -> S -> Prop.

Lemma wp_ret (a : A) Q s : Q a s -> wp (mret a) Q s.
Proof. intros. by exists a, s. Qed.
Lemma wp_mono (m : SM S A) Q Q' s : wp m Q s -> (forall a s', Q a s' -> Q' a s') -> wp m Q' s.
Proof. intros (a & s' & H1 & H2) H. exists a, s'. auto. Qed.
Lemma wp_bind (m : SM S A) (k : A -> SM S B) (Q : B -> S -> Prop) s :
  wp m (fun a s' => wp (k a) Q s') s -> wp (mbind_ m k) Q s.
Proof.
  intros (a & s' & H1 & b & s'' & H2 & HQ). exists b, s''. unfold mbind_. rewrite H1. done.
Qed.
Lemma wp_bind_inv (m : SM S A) (k : A -> SM S B) (Q : B -> S -> Prop) s :
  wp (mbind_ m k) Q s -> wp m (fun a s' => wp (k a) Q s') s.
Proof.
  intros (b & s'' & H & HQ). unfold mbind_ in H. apply res_bind_ok in H as ([a s'] & H1 & H2).
  exists a, s'. split; [done|]. by exists b, s''.
Qed.
Lemma wp_get (f : S -> A) Q s : Q (f s) s -> wp (mget f) Q s.
Proof. intros. by exists (f s), s. Qed.
Lemma wp_set f (Q : unit -> S -> Prop) s : Q tt (f s) -> wp (mset f) Q s.
Proof. intros. by exists tt, (f s). Qed.
Lemma wp_skip (Q : unit -> S -> Prop) s : Q tt s -> wp mskip Q s.
Proof. intros. by exists tt, s. Qed.
End wp.
