(* ===== verification/ClusterConfig.v ===== *)
(** * The configuration file: [src/examples/cluster.c],
    [clusterLoadConfig] and [clusterSaveConfig]

    A node keeps what it knows of the cluster in a text file, one line per
    node in the form of CLUSTER NODES and one line of variables, and reads it
    when it starts.  Reading past the end of a string, writing past the end
    of an array, a failed assertion and a panic are crashes; an [exit] because
    of a file that makes no sense is the result [EXIT]. *)

From Stdlib Require Import Ascii.
From stdpp Require Import base numbers pretty gmap strings list.
From S2P Require Import Prelude Text ClusterTypes ClusterSlots ClusterNodes ClusterGossip ClusterCommand.

(** What the file takes from [cluster.h] and [sds.c]. *)
Class ConfigEnv := {
  (** the arguments of a line, or [None] for unbalanced quotes *)
  sdssplitargs : string -> option (list string);
}.

(** ** Functions of the C library *)

Definition is_space_char (c : ascii) : bool := Ascii.eqb c " " || ascii_between 9 13 c.
Fixpoint skip_space (s : string) : string :=
  match s with
  | String c s' => if is_space_char c then skip_space s' else s
  | EmptyString => s
  end.

(** The number at the start of the text. *)
Fixpoint digits_value (acc : Z) (s : string) : Z :=
  match s with
  | String c s' =>
      if is_digit_char c then digits_value (10 * acc + (Z.of_nat (nat_of_ascii c) - 48)) s' else acc
  | EmptyString => acc
  end.
(** A sign and a number. *)
Definition signed_value (s : string) : bool * Z :=
  match skip_space s with
  | String "-" s' => (true, digits_value 0 s')
  | String "+" s' => (false, digits_value 0 s')
  | s' => (false, digits_value 0 s')
  end.

Definition int32 (x : Z) : Z := ((x + 2 ^ 31) mod 2 ^ 32 - 2 ^ 31)%Z.

(** [atoi]: [strtol], which stops at the ends of [long], made an [int]. *)
Definition atoi (s : string) : Z :=
  let '(neg, v) := signed_value s in
  let v := (if neg then - v else v)%Z in
  int32 (Z.max (- 2 ^ 63) (Z.min (2 ^ 63 - 1) v)).
(** [strtoull(s,NULL,10)] *)
Definition strtoull (s : string) : Z :=
  let '(neg, v) := signed_value s in
  (if v >? 2 ^ 64 - 1 then 2 ^ 64 - 1 else if neg then u64 (- v) else v)%Z.

Fixpoint lowercase (s : string) : string :=
  match s with
  | EmptyString => EmptyString
  | String c s =>
      String (if ascii_between 65 90 c then ascii_of_nat (nat_of_ascii c + 32) else c) (lowercase s)
  end.
(** [strcasecmp(a,b) == 0] *)
Definition strcaseis (a b : string) : bool := String.eqb (lowercase a) (lowercase b).

(** [strchr] and [strrchr], and a NUL written there: the texts before and
    after. *)
Fixpoint strchr (c : ascii) (s : string) : option (string * string) :=
  match s with
  | EmptyString => None
  | String c' s =>
      if Ascii.eqb c c' then Some ("", s)
      else match strchr c s with Some (a, b) => Some (String c' a, b) | None => None end
  end.
Fixpoint strrchr (c : ascii) (s : string) : option (string * string) :=
  match s with
  | EmptyString => None
  | String c' s =>
      match strrchr c s with
      | Some (a, b) => Some (String c' a, b)
      | None => if Ascii.eqb c c' then Some ("", s) else None
      end
  end.

(** [fgets] with room for [k] more characters: the line and the rest of the
    file; a text ends at a NUL. *)
Fixpoint fgets (k : Z) (file : string) : string * string :=
  match file with
  | EmptyString => ("", "")
  | String c file' =>
      if (k <=? 0)%Z then ("", file)
      else if Ascii.eqb c nl then (nl_str, file')
      else let '(l, r) := fgets (k - 1) file' in (String c l, r)
  end.
Fixpoint c_str (s : string) : string :=
  match s with
  | String c s => if Ascii.eqb c zero then "" else String c (c_str s)
  | EmptyString => ""
  end.

(** ** Loading *)

Section config.
Context `{E : ClusterEnv} `{Cfg : ConfigEnv}.

Inductive LoadResult := C_OK | C_ERR | EXIT.

(** [CLUSTER_NAMELEN] bytes from [s] on, which has to hold them. *)
Definition name_at (s : string) : C string :=
  if String.length s <? CLUSTER_NAMELEN then crash else cret (String.substring 0 CLUSTER_NAMELEN s).

Definition lookup_or_create (s : string) : C ptr :=
  let! name := name_at s in
  let! known := clusterLookupNode name in
  match known with
  | Some p => cret p
  | None =>
      let! p := createClusterNode (Some name) 0 in
      let! _ := clusterAddNode p in
      cret p
  end.

(** The line of variables; the value after the last name has to be there. *)
Fixpoint load_vars (argv : list string) : C unit :=
  match argv with
  | [] => skip
  | x :: more =>
      if strcaseis x "currentEpoch" then
        match more with
        | v :: more => modify (fun s => s <| currentEpoch := strtoull v |>) ;; load_vars more
        | [] => crash
        end
      else if strcaseis x "lastVoteEpoch" then
        match more with
        | v :: more => modify (fun s => s <| lastVoteEpoch := strtoull v |>) ;; load_vars more
        | [] => crash
        end
      else match more with _ :: more => load_vars more | [] => skip end
  end.

(** The flags of node [n]; [me] is [server.cluster->myself] while the file is
    loaded, the node itself being unknown at first. *)
Fixpoint load_flags (n : ptr) (me : option ptr) (l : list string) : C (option ptr) :=
  match l with
  | [] => cret me
  | s :: l =>
      if strcaseis s "myself" then
        serverAssert (bool_decide (me = None)) ;;
        modify (fun s => s <| myself := n |>) ;;
        update n (fun n => n <| n_flags ::= set_flag MYSELF |>) ;;
        load_flags n (Some n) l
      else if strcaseis s "master" then
        update n (fun n => n <| n_flags ::= set_flag MASTER |>) ;; load_flags n me l
      else if strcaseis s "slave" then
        update n (fun n => n <| n_flags ::= set_flag SLAVE |>) ;; load_flags n me l
      else if strcaseis s "fail?" then
        update n (fun n => n <| n_flags ::= set_flag PFAIL |>) ;; load_flags n me l
      else if strcaseis s "fail" then
        let! now := gets mstime in
        update n (fun n => n <| n_flags ::= set_flag FAIL |> <| n_fail_time := now |>) ;; load_flags n me l
      else if strcaseis s "handshake" then
        update n (fun n => n <| n_flags ::= set_flag HANDSHAKE |>) ;; load_flags n me l
      else if strcaseis s "noaddr" then
        update n (fun n => n <| n_flags ::= set_flag NOADDR |>) ;; load_flags n me l
      else if strcaseis s "noflags" then load_flags n me l
      else crash
  end.

(** The address, if the argument has a port. *)
Definition load_address (n : ptr) (arg : string) : C bool :=
  match strrchr ":" arg with
  | None => cret false
  | Some (ip, port) =>
      (if NET_IP_STR_LEN <? String.length ip + 1 then crash else skip) ;;
      let '(port, busp) := match strchr "@" port with Some (a, b) => (a, Some b) | None => (port, None) end in
      update n (fun n => n <| n_ip := ip |> <| n_port := atoi port |>
        <| n_cport := match busp with Some b => atoi b | None => int32 (atoi port + CLUSTER_PORT_INCR)%Z end |>) ;;
      cret true
  end.

Definition load_master (n : ptr) (arg : string) : C unit :=
  match arg with
  | String "-" _ => skip
  | _ =>
      let! master := lookup_or_create arg in
      update n (fun n => n <| n_slaveof := Some master |>) ;;
      let! _ := clusterNodeAddSlave master n in skip
  end.

(** A slot that is migrating to, or imported from, another node. *)
Definition load_open_slot (arg : string) : C unit :=
  match strchr "-" arg with
  | None => crash
  | Some (pre, post) =>
      let slot := atoi (String.substring 1 (String.length pre) pre) in
      match post with
      | String direction (String _ name) =>
          let! cn := lookup_or_create name in
          if ((slot <? 0) || (Z.of_nat CLUSTER_SLOTS <=? slot))%Z then crash
          else if Ascii.eqb direction ">" then
            modify (fun s => s <| migrating_slots_to ::= <[Z.to_nat slot := cn]> |>)
          else modify (fun s => s <| importing_slots_from ::= <[Z.to_nat slot := cn]> |>)
      | _ => crash
      end
  end.

(** [while(start <= stop) clusterAddSlot(n, start++)]; the slot table has
    [CLUSTER_SLOTS] entries. *)
Definition load_range (n : ptr) (start stop : Z) : C unit :=
  if (start <=? stop)%Z then
    if ((start <? 0) || (Z.of_nat CLUSTER_SLOTS <=? stop))%Z then crash
    else cfor (seq (Z.to_nat start) (S (Z.to_nat stop) - Z.to_nat start))
           (fun j => let! _ := clusterAddSlot n j in skip)
  else skip.

Definition load_slots (n : ptr) (arg : string) : C unit :=
  match arg with
  | String "[" _ => load_open_slot arg
  | _ =>
      match strchr "-" arg with
      | Some (a, b) => load_range n (atoi a) (atoi b)
      | None => load_range n (atoi arg) (atoi arg)
      end
  end.

(** A line about a node; [None]: a format error. *)
Definition load_node (me : option ptr) (argv : list string) : C (option (option ptr)) :=
  let arg i := nth i argv "" in
  let! n := lookup_or_create (arg 0) in
  let! ok := load_address n (arg 1) in
  if negb ok then cret None
  else
    let! me := load_flags n me (split_char "," (arg 2)) in
    load_master n (arg 3) ;;
    let! now := gets mstime in
    cwhen (negb (Z.eqb (atoi (arg 4)) 0)) (update n (fun n => n <| n_ping_sent := now |>)) ;;
    cwhen (negb (Z.eqb (atoi (arg 5)) 0)) (update n (fun n => n <| n_pong_received := now |>)) ;;
    update n (fun n => n <| n_configEpoch := strtoull (arg 6) |>) ;;
    cfor (drop 8 argv) (load_slots n) ;;
    cret (Some me).

Definition load_line (me : option ptr) (line : string) : C (option (option ptr)) :=
  if bool_decide (line = "") || starts_with nl line then cret (Some me)
  else
    match sdssplitargs line with
    | None => cret None
    | Some [] => crash
    | Some ((a :: more) as argv) =>
        if strcaseis a "vars" then load_vars more ;; cret (Some me)
        else if length argv <? 8 then cret None
        else load_node me argv
    end.

(** Room for a line and the NUL behind it. *)
Definition maxline : Z := (1024 + Z.of_nat CLUSTER_SLOTS * 128)%Z.

(** The lines of the file; every [fgets] takes a character or more. *)
Fixpoint load_lines (fuel : nat) (me : option ptr) (file : string) : C (option (option ptr)) :=
  match file with
  | EmptyString => cret (Some me)
  | _ =>
      match fuel with
      | O => fun _ => OutOfFuel
      | S fuel =>
          let '(line, rest) := fgets (maxline - 1) file in
          let! r := load_line me (c_str line) in
          match r with
          | Some me => load_lines fuel me rest
          | None => cret None
          end
      end
  end.

(** [None]: there is no file; any other failure to open it is an [exit]. *)
Definition clusterLoadConfig (file : option string) : C LoadResult :=
  match file with
  | None | Some EmptyString => cret C_ERR
  | Some text =>
      let! r := load_lines (String.length text) None text in
      match r with
      | Some (Some _) =>
          let! max := clusterGetMaxEpoch in
          let! cur := gets currentEpoch in
          cwhen (max >? cur)%Z (modify (fun s => s <| currentEpoch := max |>)) ;;
          cret C_OK
      | _ => cret EXIT
      end
  end.

(** What [clusterInit] gets: whether a configuration was found. *)
Definition load_or_exit (file : option string) : C bool :=
  let! r := clusterLoadConfig file in
  match r with C_OK => cret true | C_ERR => cret false | EXIT => crash end.

(** ** Saving *)

Definition config_text : C string :=
  let! ci := clusterGenNodesDescription (flag HANDSHAKE) in
  let! s := gets id in
  cret (ci +:+ "vars currentEpoch " +:+ show_Z (currentEpoch s) +:+ " lastVoteEpoch " +:+
        show_Z (lastVoteEpoch s) +:+ nl_str).

Fixpoint newlines (k : nat) : string :=
  match k with O => "" | S k => String nl (newlines k) end.

(** [old] is the file before; the file after, or [None] if it cannot be
    opened or written.  When the file is not truncated its end is padding. *)
Definition clusterSaveConfig (do_fsync can_write can_truncate : bool) (old : string) : C (option string) :=
  clear_todo TODO_SAVE_CONFIG ;;
  let! ci := config_text in
  if negb can_write then cret None
  else
    cwhen do_fsync (clear_todo TODO_FSYNC_CONFIG) ;;
    cret (Some (if can_truncate then ci else ci +:+ newlines (String.length old - String.length ci))).
End config.
