(* ===== verification/ClusterConfigText.v ===== *)
(** * The text of the configuration file

    Reading back what the C library and [sds] printed: numbers, the pieces of
    an address, lines; and what the line of a node says, [node_desc]. *)

From Stdlib Require Import Ascii.
From stdpp Require Import base numbers pretty gmap strings list.
From S2P Require Import Prelude Text ClusterTypes ClusterSlots ClusterNodes ClusterGossip ClusterCommand ClusterConfig.

(** ** Characters of a text *)

Lemma string_all_app P s t : string_all P (s +:+ t) = string_all P s && string_all P t.
Proof. induction s as [|c s IH]; cbn; [done|]. by rewrite IH, andb_assoc. Qed.

Lemma string_app_nil_r s : s +:+ "" = s.
Proof. induction s as [|c s IH]; cbn; [done|]. by rewrite IH. Qed.

Lemma string_all_mono (P Q : ascii -> bool) s :
  (forall c, P c = true -> Q c = true) -> string_all P s = true -> string_all Q s = true.
Proof. intros H. induction s as [|c s IH]; cbn; [done|]. intros [H1 H2]%andb_prop. by rewrite H, IH. Qed.

Definition not_char (c c' : ascii) : bool := negb (Ascii.eqb c c').
Abbreviation no_char c := (string_all (not_char c)).

Lemma strchr_app c a b : no_char c a = true -> strchr c (a +:+ String c b) = Some (a, b).
Proof.
  induction a as [|x a IH]; cbn; [by rewrite Ascii.eqb_refl|]. intros [H1 H2]%andb_prop.
  unfold not_char in H1. destruct (Ascii.eqb c x); [done|]. by rewrite IH.
Qed.
Lemma strchr_none c a : no_char c a = true -> strchr c a = None.
Proof.
  induction a as [|x a IH]; cbn; [done|]. intros [H1 H2]%andb_prop.
  unfold not_char in H1. destruct (Ascii.eqb c x); [done|]. by rewrite IH.
Qed.
Lemma strrchr_none c a : no_char c a = true -> strrchr c a = None.
Proof.
  induction a as [|x a IH]; cbn; [done|]. intros [H1 H2]%andb_prop. rewrite IH by done.
  unfold not_char in H1. by destruct (Ascii.eqb c x).
Qed.
Lemma strrchr_app c a b : no_char c b = true -> strrchr c (a +:+ String c b) = Some (a, b).
Proof.
  intros Hb. induction a as [|x a IH]; cbn; [by rewrite strrchr_none, Ascii.eqb_refl|]. by rewrite IH.
Qed.

Lemma fgets_line k l rest :
  no_char nl l = true -> (Z.of_nat (String.length l) < k)%Z ->
  fgets k (l +:+ nl_str +:+ rest) = (l +:+ nl_str, rest).
Proof.
  revert k. induction l as [|c l IH]; intros k Hl Hk; cbn in *.
  - destruct (Z.leb_spec k 0); [lia|done].
  - apply andb_prop in Hl as [H1 H2]. destruct (Z.leb_spec k 0); [lia|]. unfold not_char in H1.
    rewrite Ascii.eqb_sym in H1. destruct (Ascii.eqb c nl); [done|]. change (l +:+ String nl rest) with (l +:+ nl_str +:+ rest).
    rewrite IH by (done || lia). done.
Qed.

Lemma c_str_id s : no_char zero s = true -> c_str s = s.
Proof.
  induction s as [|c s IH]; cbn; [done|]. intros [H1 H2]%andb_prop. unfold not_char in H1.
  rewrite Ascii.eqb_sym in H1. destruct (Ascii.eqb c zero); [done|]. by rewrite IH.
Qed.

(** ** Words *)

Definition plain_char (c : ascii) : bool :=
  ascii_between 33 126 c && negb (Ascii.eqb c "034") && negb (Ascii.eqb c "'").
Definition plain_word (w : string) : Prop := w <> "" /\ string_all plain_char w = true.

(** Words after a blank each, and with blanks between them. *)
Fixpoint spaced (l : list string) : string :=
  match l with
  | [] => ""
  | w :: l => " " +:+ w +:+ spaced l
  end.
Definition unwords (l : list string) : string :=
  match l with
  | [] => ""
  | w :: l => w +:+ spaced l
  end.

(** What [sds.c] documents, for lines without quotes, and the constants of
    [cluster.h]. *)
Class ConfigLaws (E : ClusterEnv) (Cfg : ConfigEnv) : Prop := {
  split_law : forall l, l <> [] -> Forall plain_word l -> sdssplitargs (unwords l +:+ nl_str) = Some l;
  namelen_law : 4 < CLUSTER_NAMELEN <= 40;
  slots_law : (Z.of_nat CLUSTER_SLOTS <= 2 ^ 14)%Z;
  ip_len_law : 0 < NET_IP_STR_LEN <= 46;
}.

Lemma spaced_app l1 l2 : spaced (l1 ++ l2) = spaced l1 +:+ spaced l2.
Proof. induction l1 as [|w l1 IH]; cbn; [done|]. by rewrite IH, !string_app_assoc. Qed.

Lemma unwords_app l1 l2 : l1 <> [] -> unwords (l1 ++ l2) = unwords l1 +:+ spaced l2.
Proof. destruct l1 as [|w l1]; [done|]. intros _. cbn. by rewrite spaced_app, string_app_assoc. Qed.

Lemma spaced_all P l :
  P " "%char = true -> Forall (fun w => string_all P w = true) l -> string_all P (spaced l) = true.
Proof. intros Hsp. induction 1 as [|w l Hw Hl IH]; [done|]. cbn. by rewrite Hsp, string_all_app, Hw, IH. Qed.
Lemma unwords_all P l :
  P " "%char = true -> Forall (fun w => string_all P w = true) l -> string_all P (unwords l) = true.
Proof. intros Hsp. destruct 1 as [|w l Hw Hl]; [done|]. cbn. by rewrite string_all_app, Hw, spaced_all. Qed.

(** ** Numbers *)

Lemma pretty_char_digit x : (x < 10)%N ->
  is_digit_char (pretty_N_char x) = true /\ Z.of_nat (nat_of_ascii (pretty_N_char x)) = (48 + Z.of_N x)%Z.
Proof.
  intros Hx. assert (x = 0 \/ x = 1 \/ x = 2 \/ x = 3 \/ x = 4 \/ x = 5 \/ x = 6 \/ x = 7 \/ x = 8 \/ x = 9)%N as Hc by lia.
  by repeat destruct Hc as [->|Hc]; [..|subst x].
Qed.

Lemma digits_go x s : (0 < x)%N -> digits_value 0 (pretty_N_go x s) = digits_value (Z.of_N x) s.
Proof.
  revert s. induction (N.lt_wf_0 x) as [x _ IH]; intros s Hx. rewrite pretty_N_go_step by done.
  assert (Hm : (x `mod` 10 < 10)%N) by (apply N.mod_lt; lia).
  destruct (pretty_char_digit _ Hm) as [Hd Hv].
  assert (Hdm : Z.of_N x = (10 * Z.of_N (x `div` 10) + Z.of_N (x `mod` 10))%Z)
    by (pose proof (N.div_mod x 10); lia).
  destruct (decide (0 < x `div` 10)%N) as [Hpos|Hz].
  - rewrite IH; [|by apply N.div_lt|done]. cbn [digits_value]. rewrite Hd, Hv. f_equal. lia.
  - assert (x `div` 10 = 0)%N as H0 by lia. rewrite H0, pretty_N_go_0. cbn [digits_value]. rewrite Hd, Hv. f_equal. lia.
Qed.

Lemma digits_pretty n : digits_value 0 (pretty n) = Z.of_N n.
Proof. unfold pretty, pretty_N. destruct (decide (n = 0)%N) as [->|]; [done|]. by rewrite digits_go by lia. Qed.

Definition all_digits : string -> bool := string_all is_digit_char.

Lemma pretty_go_digits x s : all_digits s = true -> all_digits (pretty_N_go x s) = true.
Proof.
  revert s. induction (N.lt_wf_0 x) as [x _ IH]; intros s Hs.
  destruct (decide (0 < x)%N) as [Hx|]; [|assert (x = 0)%N as -> by lia; by rewrite pretty_N_go_0].
  rewrite pretty_N_go_step by done. apply IH; [by apply N.div_lt|]. unfold all_digits in *. cbn. rewrite Hs.
  rewrite (proj1 (pretty_char_digit _ (N.mod_lt x 10 ltac:(done)))). done.
Qed.
Lemma pretty_digits (n : N) : all_digits (pretty n) = true.
Proof. unfold pretty, pretty_N. destruct (decide _); [done|]. by apply pretty_go_digits. Qed.

Lemma pretty_go_length x s k : (x < 10 ^ N.of_nat k)%N -> String.length (pretty_N_go x s) <= String.length s + k.
Proof.
  revert x s. induction k as [|k IH]; intros x s Hx.
  - assert (x = 0)%N as -> by (cbn in Hx; lia). rewrite pretty_N_go_0. lia.
  - destruct (decide (0 < x)%N) as [Hp|]; [|assert (x = 0)%N as -> by lia; rewrite pretty_N_go_0; lia].
    rewrite pretty_N_go_step by done. etransitivity; [apply IH|cbn; lia].
    apply N.Div0.div_lt_upper_bound. replace (10 * 10 ^ N.of_nat k)%N with (10 ^ N.of_nat (S k))%N; [done|].
    rewrite Nat2N.inj_succ, N.pow_succ_r'. lia.
Qed.
Lemma pretty_length (n : N) k : (n < 10 ^ N.of_nat k)%N -> 0 < k -> String.length (pretty n) <= k.
Proof.
  intros Hn Hk. unfold pretty, pretty_N. destruct (decide _); [cbn; lia|]. by apply (pretty_go_length n "").
Qed.

Lemma pretty_nonempty (n : N) : pretty n <> "".
Proof.
  intros H. pose proof (digits_pretty n) as Hd. rewrite H in Hd. cbn in Hd.
  assert (n = 0)%N as -> by lia. done.
Qed.

Lemma show_Z_N z : (0 <= z)%Z -> show_Z z = pretty (Z.to_N z).
Proof. intros Hz. unfold show_Z. destruct z; [done|done|lia]. Qed.

Lemma signed_digits s : all_digits s = true -> signed_value s = (false, digits_value 0 s).
Proof.
  destruct s as [|c s]; [done|]. unfold all_digits. cbn [string_all]. intros [Hc _]%andb_prop.
  destruct c as [[] [] [] [] [] [] [] []]; done.
Qed.

Lemma strtoull_show z : (0 <= z < 2 ^ 64)%Z -> strtoull (show_Z z) = z.
Proof.
  intros Hz. rewrite show_Z_N by lia. unfold strtoull. rewrite signed_digits, digits_pretty by apply pretty_digits.
  rewrite Z2N.id by lia. destruct (Z.gtb_spec z (2 ^ 64 - 1)); lia.
Qed.
Lemma atoi_pretty n : (Z.of_N n < 2 ^ 31)%Z -> atoi (pretty n) = Z.of_N n.
Proof.
  intros Hz. unfold atoi. rewrite signed_digits, digits_pretty by apply pretty_digits.
  rewrite Z.min_r, Z.max_r by lia. unfold int32. rewrite Z.mod_small by lia. lia.
Qed.
Lemma atoi_show z : (0 <= z < 2 ^ 31)%Z -> atoi (show_Z z) = z.
Proof. intros Hz. rewrite show_Z_N by lia. rewrite atoi_pretty; lia. Qed.
Lemma atoi_show_nat j : (Z.of_nat j < 2 ^ 31)%Z -> atoi (show_nat j) = Z.of_nat j.
Proof. intros Hj. unfold show_nat. rewrite atoi_pretty; lia. Qed.

(** ** The line of a node *)

Record node_desc := mkDesc {
  d_name : string;
  d_ip : string;
  d_port : Z;
  d_cport : Z;
  d_flags : list NodeFlag;               (* of those that have a name *)
  d_master : option string;
  d_ping : Z;
  d_pong : Z;
  d_epoch : Z;
  d_connected : bool;
  d_ranges : list (nat * nat);
  d_open : list (nat * bool * string);   (* slot, migrating?, the other node *)
}.

Definition named_flags : list NodeFlag := [MYSELF; MASTER; SLAVE; PFAIL; FAIL; HANDSHAKE; NOADDR].
Definition flag_word (f : NodeFlag) : string :=
  match f with
  | MYSELF => "myself" | MASTER => "master" | SLAVE => "slave" | PFAIL => "fail?" | FAIL => "fail"
  | HANDSHAKE => "handshake" | NOADDR => "noaddr" | _ => ""
  end.

Fixpoint commas (l : list string) : string :=
  match l with
  | [] => ""
  | [w] => w
  | w :: l => w +:+ "," +:+ commas l
  end.
Definition flags_text (l : list NodeFlag) : string :=
  match l with [] => "noflags" | _ => commas (flag_word <$> l) end.
Definition range_text (r : nat * nat) : string :=
  if r.1 =? r.2 then show_nat r.1 else show_nat r.1 +:+ "-" +:+ show_nat r.2.
Definition open_text (o : nat * bool * string) : string :=
  let '(j, migrating, name) := o in
  "[" +:+ show_nat j +:+ (if migrating : bool then "->-" else "-<-") +:+ name +:+ "]".

Definition tokens (d : node_desc) : list string :=
  [d_name d; d_ip d +:+ ":" +:+ show_Z (d_port d) +:+ "@" +:+ show_Z (d_cport d); flags_text (d_flags d);
   default "-" (d_master d); show_Z (d_ping d); show_Z (d_pong d); show_Z (d_epoch d);
   if d_connected d then "connected" else "disconnected"] ++
  (range_text <$> d_ranges d) ++ (open_text <$> d_open d).

Definition vars_tokens (cur vote : Z) : list string :=
  ["vars"; "currentEpoch"; show_Z cur; "lastVoteEpoch"; show_Z vote].

Fixpoint lines (l : list string) : string :=
  match l with
  | [] => ""
  | w :: l => w +:+ nl_str +:+ lines l
  end.

Section describe.
Context `{E : ClusterEnv} `{!ClusterLaws E}.

Definition name_of (s : cluster) (p : ptr) : option string := n_name <$> heap s !! p.

Definition open_entry (s : cluster) (j : nat) : option (nat * bool * string) :=
  match migrating_slots_to s !! j, importing_slots_from s !! j with
  | Some p, _ => (fun x => (j, true, x)) <$> name_of s p
  | None, Some p => (fun x => (j, false, x)) <$> name_of s p
  | None, None => None
  end.

Definition set_flags (w : Z) : list NodeFlag := List.filter (fun f => has_flag f w) named_flags.

Definition describe (s : cluster) (n : clusterNode) : node_desc := {|
  d_name := n_name n;
  d_ip := n_ip n;
  d_port := n_port n;
  d_cport := n_cport n;
  d_flags := set_flags (n_flags n);
  d_master := n_slaveof n ≫= name_of s;
  d_ping := n_ping_sent n;
  d_pong := n_pong_received n;
  d_epoch := n_configEpoch n;
  d_connected := bool_decide (n_link n <> None) || has_flag MYSELF (n_flags n);
  d_ranges := node_ranges n;
  d_open := if has_flag MYSELF (n_flags n) then omap (open_entry s) all_slots else [];
|}.

(** The pointers that the text follows are valid, and flags have a name. *)
Definition pointers_ok (s : cluster) : Prop :=
  (forall x p, nodes s !! x = Some p -> is_Some (heap s !! p)) /\
  (forall p n m, heap s !! p = Some n -> n_slaveof n = Some m -> is_Some (heap s !! m)) /\
  (forall j p, migrating_slots_to s !! j = Some p -> is_Some (heap s !! p)) /\
  (forall j p, importing_slots_from s !! j = Some p -> is_Some (heap s !! p)).
Definition flags_named (w : Z) : Prop := w = 0%Z \/ set_flags w <> [].

Lemma drop_last_snoc s c : drop_last (s +:+ String c "") = Some s.
Proof. induction s as [|x s IH]; cbn; [done|]. rewrite IH. by destruct s. Qed.

Lemma commas_snoc l : l <> [] -> foldr (fun w s => w +:+ "," +:+ s) "" l = commas l +:+ ",".
Proof.
  induction l as [|w l IH]; [done|]. intros _. destruct l as [|w2 l]; [done|].
  change (commas (w :: w2 :: l)) with (w +:+ "," +:+ commas (w2 :: l)).
  cbn [foldr] in *. rewrite IH by done. by rewrite !string_app_assoc.
Qed.

Lemma represent_text ci w s : flags_named w ->
  representClusterNodeFlags ci w s = Ok (ci +:+ flags_text (set_flags w), s).
Proof.
  intros Hw. unfold representClusterNodeFlags.
  assert (Hfold : forall l ci, foldl (fun ci e => if has_flag e.1 w then ci +:+ e.2 else ci) ci
      ((fun f => (f, flag_word f +:+ ",")) <$> l) =
    ci +:+ foldr (fun w s => w +:+ "," +:+ s) "" (flag_word <$> List.filter (fun f => has_flag f w) l)).
  { induction l as [|f l IH]; intros c; cbn; [by rewrite string_app_nil_r|].
    rewrite IH. destruct (has_flag f w); cbn; [by rewrite !string_app_assoc|done]. }
  destruct (decide (w = 0%Z)) as [->|Hne].
  - assert (Hs : set_flags 0 = []).
    { unfold set_flags, has_flag. generalize named_flags. induction l as [|f l IH]; cbn; [done|]. by rewrite Z.testbit_0_l. }
    rewrite Hs. cbn [Z.eqb flags_text]. change "noflags," with ("noflags" +:+ String "," "").
    by rewrite <- string_app_assoc, drop_last_snoc.
  - destruct Hw as [|Hw]; [done|]. rewrite (proj2 (Z.eqb_neq w 0) Hne).
    change redisNodeFlagsTable with ((fun f => (f, flag_word f +:+ ",")) <$> named_flags). rewrite Hfold.
    fold (set_flags w). rewrite commas_snoc by (by destruct (set_flags w)).
    rewrite <- string_app_assoc, drop_last_snoc. by destruct (set_flags w).
Qed.

Lemma describe_open_text s j : pointers_ok s ->
  describe_open_slot j s = Ok (match open_entry s j with Some o => " " +:+ open_text o | None => "" end, s).
Proof.
  intros (_ & _ & Hm & Hi). unfold describe_open_slot, open_entry, name_of, cbind, gets, deref.
  cbn. destruct (migrating_slots_to s !! j) as [p|] eqn:Hmj.
  - destruct (Hm _ _ Hmj) as [n Hn]. rewrite Hn. reflexivity.
  - destruct (importing_slots_from s !! j) as [p|] eqn:Hij; [|done].
    destruct (Hi _ _ Hij) as [n Hn]. rewrite Hn. reflexivity.
Qed.

Lemma open_fold s l ci : pointers_ok s ->
  cfold l ci (fun ci j => let! d := describe_open_slot j in cret (ci +:+ d)) s =
    Ok (ci +:+ spaced (open_text <$> omap (open_entry s) l), s).
Proof.
  intros Hp. revert ci. induction l as [|j l IH]; intros ci; cbn; [by rewrite string_app_nil_r|].
  unfold cbind at 1 2. rewrite describe_open_text by done. cbn. rewrite IH.
  destruct (open_entry s j); cbn; by rewrite ?string_app_nil_r, ?string_app_assoc.
Qed.

Lemma range_fold l ci : foldl (fun ci r => ci +:+ show_range r) ci l = ci +:+ spaced (range_text <$> l).
Proof.
  revert ci. induction l as [|r l IH]; intros ci; cbn; [by rewrite string_app_nil_r|].
  rewrite IH. unfold show_range, range_text. destruct (r.1 =? r.2); by rewrite !string_app_assoc.
Qed.

(** The line of a node in CLUSTER NODES and in the file. *)
Lemma describe_text s p n :
  pointers_ok s -> heap s !! p = Some n -> flags_named (n_flags n) ->
  clusterGenNodeDescription p s = Ok (unwords (tokens (describe s n)), s).
Proof.
  intros Hp Hn Hf. unfold clusterGenNodeDescription. unfold cbind at 1, deref. rewrite Hn. cbn [res_bind].
  unfold cbind at 1. rewrite represent_text by done. cbn [res_bind]. unfold cbind at 1.
  assert (Hm : forall ci, (match n_slaveof n with
      | Some m => let! master := deref m in cret (ci +:+ " " +:+ n_name master +:+ " ")
      | None => cret (ci +:+ " - ")
      end) s = Ok (ci +:+ " " +:+ default "-" (d_master (describe s n)) +:+ " ", s)).
  { intros ci. unfold describe. cbn [d_master]. destruct (n_slaveof n) as [m|] eqn:Hs; [|reflexivity].
    destruct Hp as (_ & Hp & _). destruct (Hp _ _ _ Hn Hs) as [mn Hmn]. unfold cbind, deref. cbn.
    unfold name_of. rewrite Hmn. reflexivity. }
  rewrite Hm. clear Hm. cbn [res_bind]. unfold unwords, tokens. cbn [app].
  rewrite range_fold. cbn [spaced]. rewrite spaced_app. cbn [describe d_name d_ip d_port d_cport d_flags d_ping d_pong d_epoch d_connected d_ranges d_open].
  set (m := default "-" _). destruct (has_flag MYSELF (n_flags n)).
  - rewrite open_fold by done. by rewrite !string_app_assoc.
  - cbn [fmap list_fmap spaced]. rewrite string_app_nil_r. unfold cret. by rewrite !string_app_assoc.
Qed.

(** ** The text of the file *)

(** The nodes that are written, in the order of the dictionary. *)
Definition saved (s : cluster) : list node_desc :=
  omap (fun kv => match heap s !! kv.2 with
                  | Some n => if has_flag HANDSHAKE (n_flags n) then None else Some (describe s n)
                  | None => None
                  end) (dict_iter (nodes s)).

Lemma land_flag w f : negb (Z.land w (flag f) =? 0)%Z = has_flag f w.
Proof.
  destruct (flag_bit_range f) as [Hf _]. unfold flag, has_flag.
  destruct (Z.eqb_spec (Z.land w (Z.setbit 0 (flag_bit f))) 0) as [H|H]; cbn [negb].
  - pose proof (f_equal (fun z => Z.testbit z (flag_bit f)) H) as Ht. cbn in Ht.
    rewrite Z.land_spec, Z.setbit_eq, Z.testbit_0_l, andb_true_r in Ht by done. done.
  - symmetry. apply not_false_iff_true. intros Ht. apply H. apply Z.bits_inj'. intros i Hi.
    rewrite Z.land_spec, Z.testbit_0_l. destruct (decide (i = flag_bit f)) as [->|Hne]; [by rewrite Ht|].
    rewrite Z.setbit_neq, Z.testbit_0_l, andb_false_r by done. done.
Qed.

Lemma lines_app l1 l2 : lines (l1 ++ l2) = lines l1 +:+ lines l2.
Proof. induction l1 as [|w l1 IH]; cbn; [done|]. by rewrite IH, !string_app_assoc. Qed.

Lemma nodes_text s :
  pointers_ok s -> (forall x p n, nodes s !! x = Some p -> heap s !! p = Some n -> flags_named (n_flags n)) ->
  clusterGenNodesDescription (flag HANDSHAKE) s = Ok (lines (unwords ∘ tokens <$> saved s), s).
Proof.
  intros Hp Hf. unfold clusterGenNodesDescription, all_nodes, saved. unfold cbind at 1, gets. cbn [res_bind].
  assert (Hin : forall x p, (x, p) ∈ dict_iter (nodes s) -> nodes s !! x = Some p).
  { intros x p. rewrite dict_iter_perm, elem_of_map_to_list. done. }
  revert Hin. generalize (dict_iter (nodes s)). intros l Hin.
  assert (Hgo : forall ci, cfold (snd <$> l) ci (fun ci p =>
    let! node := deref p in
    if negb (Z.land (n_flags node) (flag HANDSHAKE) =? 0)%Z then cret ci
    else let! ni := clusterGenNodeDescription p in cret (ci +:+ ni +:+ nl_str)) s =
    Ok (ci +:+ lines (unwords ∘ tokens <$> omap (fun kv => match heap s !! kv.2 with
                  | Some n => if has_flag HANDSHAKE (n_flags n) then None else Some (describe s n)
                  | None => None
                  end) l), s)); [|by rewrite Hgo].
  induction l as [|[x p] l IH]; intros ci; cbn; [by rewrite string_app_nil_r|].
  assert (Hx := Hin x p ltac:(by left)). destruct (proj1 Hp _ _ Hx) as [n Hn].
  unfold cbind at 1 2, deref. rewrite Hn. cbn [res_bind]. rewrite land_flag.
  destruct (has_flag HANDSHAKE (n_flags n)) eqn:Hh.
  - cbn. apply IH. intros y q Hy. apply Hin. by right.
  - unfold cbind at 1. rewrite (describe_text s p n) by eauto. cbn. rewrite IH.
    + by rewrite !string_app_assoc.
    + intros y q Hy. apply Hin. by right.
Qed.

Lemma config_lines s :
  pointers_ok s -> (forall x p n, nodes s !! x = Some p -> heap s !! p = Some n -> flags_named (n_flags n)) ->
  config_text s = Ok (lines (unwords <$> (tokens <$> saved s) ++ [vars_tokens (currentEpoch s) (lastVoteEpoch s)]), s).
Proof.
  intros Hp Hf. unfold config_text. unfold cbind at 1. rewrite nodes_text by done. cbn [res_bind].
  unfold cbind, gets, cret. cbn [res_bind id]. rewrite fmap_app, lines_app, list_fmap_compose.
  unfold vars_tokens. cbn. repeat (rewrite string_app_assoc; cbn). done.
Qed.
End describe.
