(* ===== verification/ClusterConfigRead.v ===== *)
(** * Reading back a line of the configuration file

    The words of a line that was written are read back one by one, and a
    line fits in the buffer of the reader. *)

From Stdlib Require Import Ascii.
From stdpp Require Import base numbers pretty gmap strings list.
From S2P Require Import Prelude Text ClusterTypes ClusterSlots ClusterNodes ClusterGossip ClusterCommand ClusterConfig ClusterConfigText.

Section read.
Context `{E : ClusterEnv} `{Cfg : ConfigEnv} `{!ConfigLaws E Cfg}.

(** Names of nodes, as the program makes them. *)
Definition name_ok (x : string) : Prop :=
  String.length x = CLUSTER_NAMELEN /\ string_all plain_char x = true /\ starts_with "-" x = false.

Record desc_ok (d : node_desc) : Prop := {
  do_name : name_ok (d_name d);
  do_ip : string_all plain_char (d_ip d) = true /\ String.length (d_ip d) < NET_IP_STR_LEN;
  do_port : (0 <= d_port d < 2 ^ 31 /\ 0 <= d_cport d < 2 ^ 31)%Z;
  do_flags : length (d_flags d) <= 7 /\ Forall (fun f => f ∈ named_flags) (d_flags d);
  do_master : forall m, d_master d = Some m -> name_ok m;
  do_times : (0 <= d_ping d < 2 ^ 64 /\ 0 <= d_pong d < 2 ^ 64 /\ 0 <= d_epoch d < 2 ^ 64)%Z;
  do_ranges : length (d_ranges d) <= CLUSTER_SLOTS /\
    Forall (fun r => r.1 <= r.2 < CLUSTER_SLOTS) (d_ranges d);
  do_open : length (d_open d) <= CLUSTER_SLOTS /\
    Forall (fun o => o.1.1 < CLUSTER_SLOTS /\ name_ok o.2) (d_open d);
}.

(** ** Plain words *)

Lemma digit_plain c : is_digit_char c = true -> plain_char c = true.
Proof. destruct c as [[] [] [] [] [] [] [] []]; (reflexivity || discriminate). Qed.
Lemma digits_plain s : all_digits s = true -> string_all plain_char s = true.
Proof. apply string_all_mono, digit_plain. Qed.
Lemma digits_no c s : is_digit_char c = false -> all_digits s = true -> no_char c s = true.
Proof.
  intros Hc. apply string_all_mono. intros x Hx. unfold not_char.
  destruct (Ascii.eqb_spec c x) as [->|]; [congruence|done].
Qed.
Lemma plain_no c s : plain_char c = false -> string_all plain_char s = true -> no_char c s = true.
Proof.
  intros Hc. apply string_all_mono. intros x Hx. unfold not_char.
  destruct (Ascii.eqb_spec c x) as [->|]; [congruence|done].
Qed.

Lemma show_Z_digits z : (0 <= z)%Z -> all_digits (show_Z z) = true.
Proof. intros Hz. rewrite show_Z_N by done. apply pretty_digits. Qed.
Lemma show_Z_word z : (0 <= z)%Z -> plain_word (show_Z z).
Proof.
  intros Hz. split; [|by apply digits_plain, show_Z_digits]. rewrite show_Z_N by done. apply pretty_nonempty.
Qed.
Lemma name_word x : name_ok x -> plain_word x.
Proof. intros (Hl & Hp & _). split; [|done]. intros ->. cbn in Hl. pose proof namelen_law. lia. Qed.

Lemma flag_plain f : string_all plain_char (flag_word f) = true.
Proof. by destruct f. Qed.
Lemma commas_plain l : Forall (fun w => string_all plain_char w = true) l -> string_all plain_char (commas l) = true.
Proof.
  induction 1 as [|w l Hw Hl IH]; [done|]. destruct l as [|w2 l]; [done|].
  change (commas (w :: w2 :: l)) with (w +:+ "," +:+ commas (w2 :: l)). by rewrite !string_all_app, Hw, IH.
Qed.

Lemma show_nat_digits j : all_digits (show_nat j) = true.
Proof. apply pretty_digits. Qed.

Lemma app_word a b : string_all plain_char a = true -> plain_word b -> plain_word (a +:+ b).
Proof. intros Ha [Hb Hp]. split; [by destruct a|]. by rewrite string_all_app, Ha, Hp. Qed.
Lemma word_app a b : plain_word a -> string_all plain_char b = true -> plain_word (a +:+ b).
Proof. intros [Ha Hp] Hb. split; [by destruct a|]. by rewrite string_all_app, Hp, Hb. Qed.

Lemma range_word r : plain_word (range_text r).
Proof.
  unfold range_text. assert (Hn : forall j, plain_word (show_nat j)).
  { intros j. split; [apply pretty_nonempty|apply digits_plain, show_nat_digits]. }
  destruct (r.1 =? r.2); [done|]. apply word_app; [done|]. apply (app_word "-"); done.
Qed.
Lemma open_word o : name_ok o.2 -> plain_word (open_text o).
Proof.
  destruct o as [[j b] x]. intros Hx. unfold open_text. split; [done|].
  rewrite !string_all_app, (digits_plain _ (show_nat_digits j)). cbn [snd] in Hx. destruct Hx as (_ & -> & _).
  by destruct b.
Qed.

Lemma flags_word l : Forall (fun f => f ∈ named_flags) l -> plain_word (flags_text l).
Proof.
  intros Hl. unfold flags_text. destruct l as [|f l]; [done|]. apply Forall_cons in Hl as [Hf _]. split.
  - assert (Hw : flag_word f <> "") by (intros He; destruct f; cbn in He; try done; by apply list_elem_of_In in Hf; cbn in Hf; intuition).
    cbn [fmap list_fmap commas]. destruct (flag_word f); [done|]. by destruct l.
  - apply commas_plain, Forall_fmap, Forall_forall. intros. apply flag_plain.
Qed.

Lemma tokens_plain d : desc_ok d -> Forall plain_word (tokens d).
Proof.
  intros [Hn [Hip _] [Hp Hcp] [_ Hfl] Hm (H1 & H2 & H3) [_ Hr] [_ Ho]]. unfold tokens. rewrite !Forall_app. split_and!.
  - repeat (apply Forall_cons; split); try (apply show_Z_word; lia).
    + by apply name_word.
    + apply app_word; [done|]. apply (app_word ":"); [done|]. apply app_word; [apply digits_plain, show_Z_digits; lia|].
      apply (app_word "@"); [done|]. apply show_Z_word; lia.
    + by apply flags_word.
    + destruct (d_master d) as [m|]; [by apply name_word, Hm|done].
    + by destruct (d_connected d).
    + constructor.
  - apply Forall_fmap, Forall_forall. intros r _. apply range_word.
  - apply Forall_fmap. eapply Forall_impl; [exact Ho|]. intros o [_ Hx]. by apply open_word.
Qed.

(** ** The buffer of the reader *)

Lemma show_Z_length z k : (0 <= z < 10 ^ Z.of_nat k)%Z -> 0 < k -> String.length (show_Z z) <= k.
Proof.
  intros Hz Hk. rewrite show_Z_N by lia. apply pretty_length; [|done].
  apply N2Z.inj_lt. rewrite N2Z.inj_pow, nat_N_Z, Z2N.id by lia. apply Hz.
Qed.
Lemma show_slot_length j : j < CLUSTER_SLOTS -> String.length (show_nat j) <= 5.
Proof.
  intros Hj. pose proof slots_law. apply pretty_length; [|lia]. change (10 ^ N.of_nat 5)%N with 100000%N. lia.
Qed.

Lemma spaced_length l k :
  Forall (fun w => String.length w <= k) l -> String.length (spaced l) <= length l * (1 + k).
Proof. induction 1 as [|w l Hw Hl IH]; cbn; [done|]. rewrite length_string_app. lia. Qed.

Lemma commas_length l k : Forall (fun w => String.length w <= k) l -> String.length (commas l) <= length l * (1 + k).
Proof.
  induction 1 as [|w l Hw Hl IH]; [cbn; lia|]. destruct l as [|w2 l]; [cbn; lia|].
  change (commas (w :: w2 :: l)) with (w +:+ "," +:+ commas (w2 :: l)).
  rewrite !length_string_app. cbn in *. lia.
Qed.

Lemma range_length r : r.1 <= r.2 < CLUSTER_SLOTS -> String.length (range_text r) <= 11.
Proof.
  intros Hr. unfold range_text. pose proof (show_slot_length r.1 ltac:(lia)).
  pose proof (show_slot_length r.2 ltac:(lia)). destruct (r.1 =? r.2); rewrite ?length_string_app; cbn; lia.
Qed.
Lemma open_length o : o.1.1 < CLUSTER_SLOTS -> name_ok o.2 -> String.length (open_text o) <= 50.
Proof.
  destruct o as [[j b] x]. intros Hj (Hx & _). cbn in Hj, Hx. pose proof (show_slot_length j Hj). pose proof namelen_law.
  unfold open_text. rewrite !length_string_app. destruct b; cbn; lia.
Qed.

(** The longest line: 1024 characters and 128 for each slot are enough. *)
Lemma tokens_fit d : desc_ok d -> (Z.of_nat (String.length (unwords (tokens d))) < maxline - 1)%Z.
Proof.
  intros [[Hn _] [_ Hip] [Hp Hcp] [Hfl _] Hm (H1 & H2 & H3) [Hrl Hr] [Hol Ho]].
  pose proof namelen_law as Hnl. pose proof ip_len_law as Hil. unfold tokens, maxline.
  rewrite unwords_app by done. rewrite spaced_app, !length_string_app.
  assert (Hranges : String.length (spaced (range_text <$> d_ranges d)) <= CLUSTER_SLOTS * 12).
  { etransitivity; [apply (spaced_length _ 11); rewrite Forall_fmap; eapply Forall_impl; [exact Hr|]; intros; by apply range_length|].
    rewrite length_fmap. lia. }
  assert (Hopen : String.length (spaced (open_text <$> d_open d)) <= CLUSTER_SLOTS * 51).
  { etransitivity; [apply (spaced_length _ 50); rewrite Forall_fmap; eapply Forall_impl; [exact Ho|]; intros o [? ?]; by apply open_length|].
    rewrite length_fmap. lia. }
  assert (Hflags : String.length (flags_text (d_flags d)) <= 80).
  { unfold flags_text. destruct (d_flags d) as [|f l] eqn:Hfe; [cbn; lia|]. rewrite <- Hfe in *.
    etransitivity; [apply (commas_length _ 9); rewrite Forall_fmap; apply Forall_forall; intros g _; destruct g; cbn; lia|].
    rewrite length_fmap. lia. }
  assert (Hmaster : String.length (default "-" (d_master d)) <= 40).
  { destruct (d_master d) as [m|]; [destruct (Hm m eq_refl) as [Hml _]; cbn; lia|cbn; lia]. }
  assert (Hz : forall z, (0 <= z < 2 ^ 64)%Z -> String.length (show_Z z) <= 20) by (intros; apply show_Z_length; lia).
  pose proof (Hz (d_port d) ltac:(lia)). pose proof (Hz (d_cport d) ltac:(lia)). pose proof (Hz _ H1). pose proof (Hz _ H2). pose proof (Hz _ H3).
  assert (Hhead : String.length (unwords [d_name d; d_ip d +:+ ":" +:+ show_Z (d_port d) +:+ "@" +:+ show_Z (d_cport d);
    flags_text (d_flags d); default "-" (d_master d); show_Z (d_ping d); show_Z (d_pong d); show_Z (d_epoch d);
    if d_connected d then "connected" else "disconnected"]) <= 400).
  { unfold unwords, spaced. rewrite !length_string_app. cbn [String.length]. destruct (d_connected d); cbn [String.length]; lia. }
  lia.
Qed.

(** ** One line *)

Lemma lowercase_length s : String.length (lowercase s) = String.length s.
Proof. induction s as [|c s IH]; cbn; [done|by rewrite IH]. Qed.

Lemma not_vars x : name_ok x -> strcaseis x "vars" = false.
Proof.
  intros (Hl & _ & _). unfold strcaseis. destruct (String.eqb_spec (lowercase x) (lowercase "vars")) as [He|]; [|done].
  pose proof (f_equal String.length He) as Hle. rewrite !lowercase_length, Hl in Hle. cbn in Hle.
  pose proof namelen_law. lia.
Qed.

Lemma word_line w l : plain_word w -> bool_decide ((w +:+ l) = "") || starts_with nl (w +:+ l) = false.
Proof.
  intros [Hne Hp]. destruct w as [|c w]; [done|]. cbn in Hp. apply andb_prop in Hp as [Hc _].
  rewrite bool_decide_eq_false_2 by done. cbn. destruct (Ascii.eqb_spec nl c) as [<-|]; done.
Qed.

Lemma load_node_line me d :
  desc_ok d -> load_line me (unwords (tokens d) +:+ nl_str) = load_node me (tokens d).
Proof.
  intros Hd. unfold load_line. pose proof (tokens_plain d Hd) as Hpl.
  assert (Hsplit := split_law (tokens d) ltac:(done) Hpl).
  change (unwords (tokens d)) with (d_name d +:+ spaced (tail (tokens d))) in *.
  rewrite string_app_assoc, word_line by apply name_word, (do_name _ Hd). rewrite string_app_assoc in Hsplit. rewrite Hsplit.
  unfold tokens at 1. cbn [app]. rewrite not_vars by apply (do_name _ Hd). done.
Qed.

Lemma load_vars_line me cur vote :
  (0 <= cur < 2 ^ 64)%Z -> (0 <= vote < 2 ^ 64)%Z ->
  load_line me (unwords (vars_tokens cur vote) +:+ nl_str) =
  ((modify (fun s => s <| currentEpoch := cur |>) ;; modify (fun s => s <| lastVoteEpoch := vote |>) ;; skip) ;; cret (Some me)).
Proof.
  intros Hc Hv. unfold load_line. assert (Hpl : Forall plain_word (vars_tokens cur vote)).
  { unfold vars_tokens. repeat (apply Forall_cons; split); try done; apply show_Z_word; lia. }
  assert (Hsplit := split_law (vars_tokens cur vote) ltac:(done) Hpl).
  change (unwords (vars_tokens cur vote)) with ("vars" +:+ spaced (tail (vars_tokens cur vote))) in *.
  rewrite string_app_assoc, word_line by done. rewrite string_app_assoc in Hsplit. rewrite Hsplit.
  unfold vars_tokens. cbn [tail].
  change (strcaseis "vars" "vars") with true. cbn [load_vars].
  change (strcaseis "currentEpoch" "currentEpoch") with true. change (strcaseis "lastVoteEpoch" "currentEpoch") with false.
  change (strcaseis "lastVoteEpoch" "lastVoteEpoch") with true. cbn iota. by rewrite !strtoull_show.
Qed.

(** ** The lines of the file *)

Definition line_char (c : ascii) : bool := plain_char c || Ascii.eqb c " ".
Definition plain_line (w : string) : Prop :=
  w <> "" /\ string_all line_char w = true /\ (Z.of_nat (String.length w) < maxline - 1)%Z.

Lemma line_no c w : line_char c = false -> string_all line_char w = true -> no_char c w = true.
Proof.
  intros Hc. apply string_all_mono. intros x Hx. unfold not_char.
  destruct (Ascii.eqb_spec c x) as [->|]; [congruence|done].
Qed.

Lemma words_line l : Forall plain_word l -> string_all line_char (unwords l) = true.
Proof.
  intros Hl. apply unwords_all; [done|]. eapply Forall_impl; [exact Hl|]. intros w [_ Hw]. revert Hw.
  apply string_all_mono. intros c Hc. unfold line_char. by rewrite Hc.
Qed.

Lemma load_lines_cons fuel me w rest :
  plain_line w -> load_lines (S fuel) me (w +:+ nl_str +:+ rest) =
  (let! r := load_line me (w +:+ nl_str) in
   match r with Some me => load_lines fuel me rest | None => cret None end).
Proof.
  intros (Hne & Hp & Hl). destruct w as [|c w]; [done|].
  change (load_lines (S fuel) me (String c w +:+ nl_str +:+ rest)) with
    (let '(line, rest) := fgets (maxline - 1) (String c w +:+ nl_str +:+ rest) in
     let! r := load_line me (c_str line) in
     match r with Some me => load_lines fuel me rest | None => cret None end).
  rewrite fgets_line by (done || by apply line_no). rewrite c_str_id; [done|].
  rewrite string_all_app, (line_no zero) by done. done.
Qed.

(** Blank lines, the padding of a file that got shorter, are skipped. *)
Lemma load_lines_blank fuel me k : k <= fuel -> (1 < maxline)%Z -> load_lines fuel me (newlines k) = cret (Some me).
Proof.
  intros Hk Hm. revert fuel Hk. induction k as [|k IH]; intros [|fuel] Hk; try done; [lia|].
  cbn [newlines load_lines]. change (fgets (maxline - 1) (String nl (newlines k)))
    with (if (maxline - 1 <=? 0)%Z then ("", String nl (newlines k)) else if Ascii.eqb nl nl then (nl_str, newlines k) else
      let '(l, r) := fgets (maxline - 1 - 1) (newlines k) in (String nl l, r)).
  destruct (Z.leb_spec (maxline - 1) 0); [lia|]. rewrite Ascii.eqb_refl. cbn [c_str].
  apply IH. lia.
Qed.
End read.
