(* ===== verification/ClusterConfigLoad.v ===== *)
(** * What loading a configuration does

    A state of the cluster is seen through names: the nodes of the table with
    what the file can say about them, the open slots, this node, and the
    epochs ([config]).  Every step of the loader is shown to be a step on
    this view; it neither crashes nor touches anything else. *)

From Stdlib Require Import Ascii.
From stdpp Require Import base numbers pretty gmap strings list.
From S2P Require Import Prelude Text StateMonad ClusterTypes ClusterSlots ClusterNodes ClusterGossip ClusterCommand ClusterBitmap ClusterInv ClusterPreserve ClusterClaims ClusterConfig ClusterConfigText ClusterConfigRead.

Record node_view := mkView {
  v_ip : string;
  v_port : Z;
  v_cport : Z;
  v_flags : list NodeFlag;
  v_master : option string;
  v_epoch : Z;
  v_slots : gset nat;
}.
#[export] Instance node_view_upd : Updatable node_view :=
  (rd_pure mkView <&> v_ip <&> v_port <&> v_cport <&> v_flags <&> v_master <&> v_epoch <&> v_slots)%upd.

Record config := mkConfig {
  cf_nodes : gmap string node_view;
  cf_migrating : gmap nat string;
  cf_importing : gmap nat string;
  cf_myself : option string;
  cf_current : Z;
  cf_vote : Z;
}.
#[export] Instance config_upd : Updatable config :=
  (rd_pure mkConfig <&> cf_nodes <&> cf_migrating <&> cf_importing <&> cf_myself <&> cf_current <&> cf_vote)%upd.

Section load.
Context `{E : ClusterEnv} `{Cfg : ConfigEnv} `{!ClusterLaws E} `{!ConfigLaws E Cfg}.

Definition slots_of (n : clusterNode) : gset nat := list_to_set (List.filter (clusterNodeGetSlotBit n) all_slots).

Definition view_of (s : cluster) (n : clusterNode) : node_view := {|
  v_ip := n_ip n;
  v_port := n_port n;
  v_cport := n_cport n;
  v_flags := set_flags (n_flags n);
  v_master := n_slaveof n ≫= name_of s;
  v_epoch := n_configEpoch n;
  v_slots := slots_of n;
|}.

(** A node that is only known by name. *)
Definition blank_view : node_view := mkView "" 0 0 [] None 0 ∅.

Lemma elem_slots_of n j : j ∈ slots_of n <-> j < CLUSTER_SLOTS /\ clusterNodeGetSlotBit n j = true.
Proof.
  unfold slots_of, all_slots. rewrite elem_of_list_to_set, list_elem_of_In, filter_In, <- list_elem_of_In, elem_of_seq. split; [intros [? ?]; split; [lia|done]|intros [? ?]; split; [lia|done]].
Qed.

(** State [s] looks like [A], [me] being this node while the file is read;
    [es] are the effects so far. *)
Record looks (es : list effect) (A : config) (me : option ptr) (s : cluster) : Prop := {
  lk_inv : slot_inv s;
  lk_name : forall x p, nodes s !! x = Some p -> exists n, heap s !! p = Some n /\ n_name n = x;
  lk_known : forall p n, heap s !! p = Some n -> nodes s !! n_name n = Some p;
  lk_master : forall p n m, heap s !! p = Some n -> n_slaveof n = Some m -> is_Some (heap s !! m);
  lk_view : forall p n, heap s !! p = Some n -> cf_nodes A !! n_name n = Some (view_of s n);
  lk_dom : forall x, is_Some (cf_nodes A !! x) -> is_Some (nodes s !! x);
  lk_migrating : forall j, migrating_slots_to s !! j ≫= name_of s = cf_migrating A !! j;
  lk_importing : forall j, importing_slots_from s !! j ≫= name_of s = cf_importing A !! j;
  lk_open : forall j p, migrating_slots_to s !! j = Some p \/ importing_slots_from s !! j = Some p -> is_Some (heap s !! p);
  lk_myself : match me with
              | Some p => myself s = p /\ is_Some (heap s !! p) /\ name_of s p = cf_myself A
              | None => cf_myself A = None
              end;
  lk_current : currentEpoch s = cf_current A;
  lk_vote : lastVoteEpoch s = cf_vote A;
  lk_effects : effects s = es;
}.

(** ** Steps of the monad *)

Lemma wp_cbind {X Y} (m : C X) (k : X -> C Y) (Q : Y -> cluster -> Prop) s :
  wp (S := cluster) m (fun a s' => wp (S := cluster) (k a) Q s') s -> wp (S := cluster) (cbind m k) Q s.
Proof. apply (wp_bind (S := cluster)). Qed.

Lemma name_of_keep s s' p n n' q :
  heap s !! p = Some n -> n_name n' = n_name n -> heap s' = <[p := n']> (heap s) -> name_of s' q = name_of s q.
Proof.
  intros Hp Hn Hh. unfold name_of. rewrite Hh. destruct (decide (p = q)) as [<-|Hne].
  - rewrite lookup_insert_eq, Hp. cbn. by rewrite Hn.
  - by rewrite lookup_insert_ne.
Qed.

(** A new state of one node. *)
Lemma looks_update es A me s s' p n n' :
  looks es A me s -> heap s !! p = Some n -> heap s' = <[p := n']> (heap s) -> slot_inv s' ->
  n_name n' = n_name n ->
  (forall m, n_slaveof n' = Some m -> is_Some (heap s !! m)) ->
  nodes s' = nodes s -> migrating_slots_to s' = migrating_slots_to s ->
  importing_slots_from s' = importing_slots_from s -> myself s' = myself s ->
  currentEpoch s' = currentEpoch s -> lastVoteEpoch s' = lastVoteEpoch s -> effects s' = effects s ->
  looks es (A <| cf_nodes ::= <[n_name n := view_of s n']> |>) me s'.
Proof.
  intros [] Hp Hh Hinv Hname Hslave Hn Hm Hi Hme Hc Hv He.
  assert (Hno : forall q, name_of s' q = name_of s q) by (intros q; by eapply name_of_keep).
  assert (Hsome : forall q, is_Some (heap s' !! q) <-> is_Some (heap s !! q)).
  { intros q. rewrite Hh. destruct (decide (p = q)) as [<-|Hne]; [rewrite lookup_insert_eq, Hp; split; eauto|by rewrite lookup_insert_ne]. }
  assert (Hview : forall x, view_of s' x = view_of s x).
  { intros x. unfold view_of. f_equal. destruct (n_slaveof x); [apply Hno|done]. }
  split; rewrite ?Hn, ?Hm, ?Hi, ?Hc, ?Hv, ?He; try done.
  - intros x q Hq. destruct (lk_name0 x q Hq) as (m & Hm1 & Hm2). rewrite Hh. destruct (decide (p = q)) as [<-|Hne].
    + rewrite lookup_insert_eq. exists n'. split; [done|]. rewrite Hp in Hm1. congruence.
    + rewrite lookup_insert_ne by done. eauto.
  - intros q m. rewrite Hh. intros [[<- <-]|[Hne Hq]]%lookup_insert_Some; [rewrite Hname|]; eauto.
  - intros q m k. rewrite Hh at 1. intros [[<- <-]|[Hne Hq]]%lookup_insert_Some Hk; apply Hsome; eauto.
  - intros q m. rewrite Hh, Hview. cbn. intros [[<- <-]|[Hne Hq]]%lookup_insert_Some.
    + by rewrite Hname, lookup_insert_eq.
    + rewrite lookup_insert_ne; [eauto|]. intros Heq. apply Hne.
      apply lk_known0 in Hp. apply lk_known0 in Hq. congruence.
  - intros x. cbn. intros [w Hw]. apply lookup_insert_Some in Hw as [[<- _]|[_ Hw]]; [|by eauto].
    rewrite (lk_known0 p n Hp). eauto.
  - intros j. cbn. rewrite <- lk_migrating0. destruct (migrating_slots_to s !! j); [apply Hno|done].
  - intros j. cbn. rewrite <- lk_importing0. destruct (importing_slots_from s !! j); [apply Hno|done].
  - intros j q Hq. apply Hsome. eauto.
  - destruct me as [q|]; [|done]. cbn. rewrite Hme, Hno, Hsome. done.
Qed.

(** [s'] looks like [A'], and no name has moved. *)
Definition becomes (es : list effect) (A' : config) (me' : option ptr) (s s' : cluster) : Prop :=
  looks es A' me' s' /\ (forall x p, nodes s !! x = Some p -> nodes s' !! x = Some p).

Lemma becomes_trans es A1 me1 A2 me2 s s1 s2 :
  becomes es A1 me1 s s1 -> becomes es A2 me2 s1 s2 -> becomes es A2 me2 s s2.
Proof. intros [_ H1] [H2 H3]. split; [done|auto]. Qed.

Definition set_node (x : string) (v : node_view) (A : config) : config := A <| cf_nodes ::= <[x := v]> |>.

(** A node that is mentioned exists. *)
Definition touch (x : string) (A : config) : config :=
  match cf_nodes A !! x with Some _ => A | None => set_node x blank_view A end.

Lemma looks_at es A me s x p :
  looks es A me s -> nodes s !! x = Some p ->
  exists n, heap s !! p = Some n /\ n_name n = x /\ cf_nodes A !! x = Some (view_of s n).
Proof.
  intros HL Hx. destruct (lk_name _ _ _ _ HL x p Hx) as (n & Hn & <-). exists n. split_and!; [done|done|].
  by apply (lk_view _ _ _ _ HL p).
Qed.

Lemma wp_update es A me s x p v f v' :
  looks es A me s -> nodes s !! x = Some p -> cf_nodes A !! x = Some v ->
  keeps_slots f -> (forall n, n_name (f n) = n_name n) ->
  (forall n, heap s !! p = Some n -> view_of s n = v ->
    view_of s (f n) = v' /\ forall m, n_slaveof (f n) = Some m -> is_Some (heap s !! m)) ->
  wp (S := cluster) (update p f) (fun _ s' => becomes es (set_node x v' A) me s s') s.
Proof.
  intros HL Hx Hv Hks Hname Hview. destruct (looks_at _ _ _ _ _ _ HL Hx) as (n & Hn & Hnx & Hv2).
  assert (view_of s n = v) as Hvn by congruence. destruct (Hview n Hn Hvn) as [<- Hslave].
  assert (Hr : update p f s = Ok (tt, s <| heap ::= <[p := f n]> |>)) by (unfold update; by rewrite Hn).
  exists tt, (s <| heap ::= <[p := f n]> |>). split; [done|]. split; [|done]. unfold set_node. rewrite <- Hnx.
  eapply looks_update; try done.
  by eapply (pres_keep None p f Hks s tt _ (conj (lk_inv _ _ _ _ HL) I)) in Hr as [].
Qed.

(** Updates of a field that the file does not say, or does say. *)
Lemma wp_field es A me s x p v f g :
  looks es A me s -> nodes s !! x = Some p -> cf_nodes A !! x = Some v ->
  keeps_slots f -> (forall n, n_name (f n) = n_name n /\ n_slaveof (f n) = n_slaveof n) ->
  (forall n, view_of s (f n) = g (view_of s n)) ->
  wp (S := cluster) (update p f) (fun _ s' => becomes es (set_node x (g v) A) me s s') s.
Proof.
  intros HL Hx Hv Hks Hname Hview. eapply wp_update; try done; [intros n; apply Hname|].
  intros n Hn <-. split; [apply Hview|]. intros m. rewrite (proj2 (Hname n)). by eapply lk_master.
Qed.

(** ** Nodes that are mentioned *)

Lemma slots_of_blank n k : n_slots n = replicate k 0%Z -> slots_of n = ∅.
Proof.
  intros Hn. apply set_eq. intros j. rewrite elem_slots_of. unfold clusterNodeGetSlotBit. rewrite Hn, test_zero. set_solver.
Qed.
Lemma set_flags_zero : set_flags 0 = [].
Proof. unfold set_flags, has_flag. generalize named_flags. induction l as [|f l IH]; cbn; [done|]. by rewrite Z.testbit_0_l. Qed.

Lemma wp_name_at x more (Q : string -> cluster -> Prop) s :
  String.length x = CLUSTER_NAMELEN -> Q x s -> wp (S := cluster) (name_at (x +:+ more)) Q s.
Proof.
  intros Hx HQ. unfold name_at. rewrite length_string_app. destruct (Nat.ltb_spec (String.length x + String.length more) CLUSTER_NAMELEN); [lia|].
  apply (wp_ret (S := cluster)). by rewrite <- Hx, substring_app_l.
Qed.

Lemma create_run s x :
  nodes s !! x = None ->
  exists s' nd, (let! p := createClusterNode (Some x) 0 in let! _ := clusterAddNode p in cret p) s = Ok (next_ptr s, s') /\
    s' = s <| next_ptr ::= S |> <| heap ::= <[next_ptr s := nd]> |> <| nodes ::= <[x := next_ptr s]> |> /\
    n_name nd = x /\ n_slaveof nd = None /\ view_of s' nd = blank_view.
Proof.
  intros Hx. unfold createClusterNode, clusterAddNode, cbind, gets, modify, cret, deref. cbn.
  rewrite lookup_insert_eq. cbn. rewrite Hx. cbn. eexists _, _. split_and!; [reflexivity|reflexivity|done|done|].
  unfold view_of, blank_view. f_equal; [apply set_flags_zero|by eapply slots_of_blank].
Qed.

Lemma becomes_create es A me s x nd :
  looks es A me s -> nodes s !! x = None -> cf_nodes A !! x = None -> heap s !! next_ptr s = None ->
  n_name nd = x -> n_slaveof nd = None -> view_of s nd = blank_view ->
  slot_inv (s <| next_ptr ::= S |> <| heap ::= <[next_ptr s := nd]> |> <| nodes ::= <[x := next_ptr s]> |>) ->
  becomes es (set_node x blank_view A) me s
    (s <| next_ptr ::= S |> <| heap ::= <[next_ptr s := nd]> |> <| nodes ::= <[x := next_ptr s]> |>).
Proof.
  intros [] Hx HA Hfresh Hname Hmaster Hblank Hinv. set (p := next_ptr s) in *.
  set (s' := s <| next_ptr ::= S |> <| heap ::= <[p := nd]> |> <| nodes ::= <[x := p]> |>) in *.
  assert (Hno : forall q, is_Some (heap s !! q) -> name_of s' q = name_of s q).
  { intros q [m Hq]. unfold name_of. cbn. rewrite lookup_insert_ne by congruence. done. }
  assert (Hsome : forall q, is_Some (heap s !! q) -> is_Some (heap s' !! q)).
  { intros q [m Hq]. cbn. rewrite lookup_insert_ne by congruence. by eexists. }
  assert (Hview : forall q m, heap s !! q = Some m -> view_of s' m = view_of s m).
  { intros q m Hq. unfold view_of. f_equal. destruct (n_slaveof m) eqn:Hm; [|done]. apply Hno. by eapply lk_master0. }
  split; [split|]; try done.
  - intros y q. cbn. intros [[<- <-]|[Hne Hy]]%lookup_insert_Some; [rewrite lookup_insert_eq; by exists nd|].
    destruct (lk_name0 y q Hy) as (m & Hm1 & Hm2). rewrite lookup_insert_ne by congruence. by exists m.
  - intros q m. cbn. intros [[<- <-]|[Hne Hq]]%lookup_insert_Some; [by rewrite Hname, lookup_insert_eq|].
    pose proof (lk_known0 q m Hq). rewrite lookup_insert_ne by congruence. done.
  - intros q m k Hq Hk. apply Hsome. cbn in Hq. apply lookup_insert_Some in Hq as [[<- <-]|[Hne Hq]]; [congruence|eauto].
  - intros q m Hq. cbn in Hq |- *. apply lookup_insert_Some in Hq as [[<- <-]|[Hne Hq]].
    + rewrite Hname, lookup_insert_eq. f_equal. rewrite <- Hblank. unfold view_of. by rewrite Hmaster.
    + rewrite (Hview q m Hq). pose proof (lk_known0 q m Hq). rewrite lookup_insert_ne by congruence. eauto.
  - intros y. cbn. intros [w Hw]. apply lookup_insert_Some in Hw as [[<- _]|[Hne Hw]]; [rewrite lookup_insert_eq; eauto|].
    rewrite lookup_insert_ne by done. eauto.
  - intros j. cbn. rewrite <- lk_migrating0. destruct (migrating_slots_to s !! j) eqn:Hj; [|done]. apply Hno. eauto.
  - intros j. cbn. rewrite <- lk_importing0. destruct (importing_slots_from s !! j) eqn:Hj; [|done]. apply Hno. eauto.
  - intros j q Hq. apply Hsome. eauto.
  - destruct me as [q|]; [|done]. destruct lk_myself0 as (H1 & H2 & H3). split_and!; [done|by apply Hsome|]. by rewrite Hno.
  - intros y q Hy. cbn. rewrite lookup_insert_ne by congruence. done.
Qed.

Lemma wp_lookup_or_create es A me s x more :
  looks es A me s -> String.length x = CLUSTER_NAMELEN ->
  wp (S := cluster) (lookup_or_create (x +:+ more)) (fun p s' => becomes es (touch x A) me s s' /\ nodes s' !! x = Some p) s.
Proof.
  intros HL Hx. unfold lookup_or_create. apply wp_cbind, wp_name_at; [done|].
  apply wp_cbind, (wp_get (S := cluster)). unfold touch. destruct (nodes s !! x) as [p|] eqn:Hp.
  - destruct (looks_at _ _ _ _ _ _ HL Hp) as (n & _ & _ & ->). apply (wp_ret (S := cluster)). by split.
  - assert (Hnone : cf_nodes A !! x = None).
    { destruct (cf_nodes A !! x) eqn:He; [|done]. destruct (lk_dom _ _ _ _ HL x) as [? ?]; [by eexists|congruence]. }
    rewrite Hnone. destruct (create_run s x Hp) as (s1 & nd & Hr & -> & Hname & Hmaster & Hblank).
    exists (next_ptr s), (s <| next_ptr ::= S |> <| heap ::= <[next_ptr s := nd]> |> <| nodes ::= <[x := next_ptr s]> |>).
    split; [exact Hr|]. split; [|cbn; by rewrite lookup_insert_eq].
    assert (Hfresh : heap s !! next_ptr s = None) by (by apply (iv_fresh _ (lk_inv _ _ _ _ HL))).
    apply becomes_create; try done.
    { rewrite <- Hblank. unfold view_of. by rewrite Hmaster. }
    assert (Hpres : pres (Inv None) (let! p := createClusterNode (Some x) 0 in let! _ := clusterAddNode p in cret p)).
    { apply pres_bind; [apply pres_createClusterNode|intros q]. apply pres_bind; [apply pres_clusterAddNode|intros b]. apply pres_ret. }
    by destruct (Hpres s _ _ (conj (lk_inv _ _ _ _ HL) I) Hr).
Qed.
End load.
