(* ===== verification/ClusterConfigNode.v ===== *)
(** * Loading the line of a node

    The effect of each part of a node's line, and of the whole line, on the
    view of the state. *)

From Stdlib Require Import Ascii.
From stdpp Require Import base numbers pretty gmap strings list.
From S2P Require Import Prelude Text StateMonad ClusterTypes ClusterSlots ClusterNodes ClusterGossip ClusterCommand ClusterBitmap ClusterInv ClusterPreserve ClusterClaims ClusterCommandProps ClusterConfig ClusterConfigText ClusterConfigRead ClusterConfigLoad.

Section node.
Context `{E : ClusterEnv} `{Cfg : ConfigEnv} `{!ClusterLaws E} `{!ConfigLaws E Cfg}.

(** ** Flags *)

Definition with_flag (f : NodeFlag) (l : list NodeFlag) : list NodeFlag :=
  List.filter (fun g => bool_decide (f = g) || bool_decide (g ∈ l)) named_flags.

Lemma filter_ext_named (P Q : NodeFlag -> bool) :
  (forall g, g ∈ named_flags -> P g = Q g) -> List.filter P named_flags = List.filter Q named_flags.
Proof.
  generalize named_flags. induction l as [|g l IH]; intros H; cbn; [done|].
  rewrite (H g) by (by left). rewrite IH; [done|]. intros h Hh. apply H. by right.
Qed.

Lemma elem_set_flags g w : g ∈ named_flags -> g ∈ set_flags w <-> has_flag g w = true.
Proof. intros Hg. unfold set_flags. rewrite list_elem_of_In, filter_In, <- list_elem_of_In. naive_solver. Qed.

Lemma decide_set_flags g w : g ∈ named_flags -> bool_decide (g ∈ set_flags w) = has_flag g w.
Proof. intros Hg. apply eq_true_iff_eq. rewrite bool_decide_eq_true. by apply elem_set_flags. Qed.

Lemma set_flags_set f w : set_flags (set_flag f w) = with_flag f (set_flags w).
Proof.
  apply filter_ext_named. intros g Hg. rewrite has_set_flag. f_equal; [by apply bool_decide_ext|].
  symmetry. by apply decide_set_flags.
Qed.

Lemma elem_with_flag g f l : g ∈ named_flags -> g ∈ with_flag f l <-> f = g \/ g ∈ l.
Proof.
  intros Hg. unfold with_flag. rewrite list_elem_of_In, filter_In, <- list_elem_of_In, orb_true_iff, !bool_decide_eq_true. naive_solver.
Qed.

Definition with_flags (l fl : list NodeFlag) : list NodeFlag := foldl (fun l f => with_flag f l) l fl.

Lemma with_flags_all fl : Forall (fun f => f ∈ named_flags) fl -> with_flags [] fl = List.filter (fun g => bool_decide (g ∈ fl)) named_flags.
Proof.
  assert (Hgo : forall fl l, l = List.filter (fun g => bool_decide (g ∈ l)) named_flags ->
    with_flags l fl = List.filter (fun g => bool_decide (g ∈ l) || bool_decide (g ∈ fl)) named_flags).
  { induction fl0 as [|f fl0 IH]; intros l Hl; unfold with_flags; cbn [foldl].
    - rewrite Hl at 1. apply filter_ext_named. intros g _. by rewrite orb_false_r.
    - fold (with_flags (with_flag f l) fl0). rewrite IH.
      + apply filter_ext_named. intros g Hg. apply eq_true_iff_eq.
        rewrite !orb_true_iff, !bool_decide_eq_true, elem_with_flag, elem_of_cons by done. naive_solver.
      + apply filter_ext_named. intros g Hg. apply eq_true_iff_eq.
        rewrite !orb_true_iff, !bool_decide_eq_true, elem_with_flag by done. naive_solver. }
  intros _. rewrite Hgo by done. apply filter_ext_named. done.
Qed.

Definition set_myself (x : string) (A : config) : config := A <| cf_myself := Some x |>.

Lemma becomes_myself es A s x p :
  looks es A None s -> nodes s !! x = Some p ->
  becomes es (set_myself x A) (Some p) s (s <| myself := p |>).
Proof.
  intros HL Hx. destruct (looks_at _ _ _ _ _ _ HL Hx) as (n & Hn & Hnx & _).
  assert (Hinv := lk_inv _ _ _ _ HL). destruct HL. split; [|done]. split; try done.
  - destruct Hinv. by split.
  - cbn. split_and!; [done|by eexists|]. unfold name_of. cbn. rewrite Hn. cbn. by rewrite Hnx.
Qed.

(** What a flag of the file does to the node. *)
Lemma load_flag_step f p me l : f ∈ named_flags ->
  load_flags p me (flag_word f :: l) =
  match f with
  | MYSELF => serverAssert (bool_decide (me = None)) ;;
      modify (fun s => s <| myself := p |>) ;;
      update p (fun n => n <| n_flags ::= set_flag MYSELF |>) ;;
      load_flags p (Some p) l
  | FAIL => let! now := gets mstime in
      update p (fun n => n <| n_flags ::= set_flag FAIL |> <| n_fail_time := now |>) ;; load_flags p me l
  | _ => update p (fun n => n <| n_flags ::= set_flag f |>) ;; load_flags p me l
  end.
Proof. intros Hf. destruct f; try reflexivity; by apply list_elem_of_In in Hf; cbn in Hf; intuition. Qed.

Definition flagged (fl : list NodeFlag) (v : node_view) : node_view := v <| v_flags ::= fun l => with_flags l fl |>.
Definition myself_if (b : bool) (x : string) (A : config) : config := if b then set_myself x A else A.

Lemma wp_load_flags es x p fl : forall A me s v,
  looks es A me s -> nodes s !! x = Some p -> cf_nodes A !! x = Some v ->
  Forall (fun f => f ∈ named_flags) fl -> NoDup fl -> (MYSELF ∈ fl -> me = None) ->
  wp (S := cluster) (load_flags p me (flag_word <$> fl)) (fun me' s' =>
    me' = (if bool_decide (MYSELF ∈ fl) then Some p else me) /\
    becomes es (myself_if (bool_decide (MYSELF ∈ fl)) x (set_node x (flagged fl v) A)) me' s s') s.
Proof.
  induction fl as [|f fl IH]; intros A me s v HL Hx Hv Hn Hd Hme.
  { apply (wp_ret (S := cluster)). split; [done|]. split; [|done]. cbn.
    unfold set_node, flagged. cbn. destruct A as [an am ai ame ac av]. unfold field_update. cbn in *.
    rewrite insert_id; [done|]. rewrite Hv. by destruct v. }
  apply Forall_cons in Hn as [Hf Hn]. apply NoDup_cons in Hd as [Hfl Hd].
  cbn [fmap list_fmap]. rewrite load_flag_step by done.
  assert (Hstep : forall A1 me1 s1 upd, looks es A1 me1 s1 -> nodes s1 !! x = Some p -> cf_nodes A1 !! x = Some v ->
    (MYSELF ∈ fl -> me1 = None) -> keeps_slots upd -> (forall n, n_name (upd n) = n_name n /\ n_slaveof (upd n) = n_slaveof n) ->
    (forall n, view_of s1 (upd n) = (view_of s1 n) <| v_flags ::= with_flag f |>) ->
    wp (S := cluster) (update p upd ;; load_flags p me1 (flag_word <$> fl)) (fun me' s' =>
      me' = (if bool_decide (MYSELF ∈ fl) then Some p else me1) /\
      becomes es (myself_if (bool_decide (MYSELF ∈ fl)) x (set_node x (flagged (f :: fl) v) A1)) me' s1 s') s1).
  { intros A1 me1 s1 upd HL1 Hx1 Hv1 Hme1 Hks Hkn Hview. apply wp_cbind. eapply wp_mono.
    { apply (wp_field es A1 me1 s1 x p v upd (fun v => v <| v_flags ::= with_flag f |>)); done. }
    intros [] s2 [HL2 Hm2]. eapply wp_mono.
    { apply (IH (set_node x (v <| v_flags ::= with_flag f |>) A1) me1 s2 (v <| v_flags ::= with_flag f |>)); [exact HL2|by apply Hm2| |done|done|done].
      cbn. by rewrite lookup_insert_eq. }
    intros me' s3 [-> [HL3 Hm3]]. split; [done|]. split; [|auto].
    replace (set_node x (flagged (f :: fl) v) A1) with (set_node x (flagged fl (v <| v_flags ::= with_flag f |>)) (set_node x (v <| v_flags ::= with_flag f |>) A1)); [done|].
    unfold set_node, field_update. cbn. by rewrite insert_insert_eq. }
  assert (Hplain : f <> MYSELF -> forall upd, keeps_slots upd -> (forall n, n_name (upd n) = n_name n /\ n_slaveof (upd n) = n_slaveof n) ->
    (forall n, view_of s (upd n) = (view_of s n) <| v_flags ::= with_flag f |>) ->
    wp (S := cluster) (update p upd ;; load_flags p me (flag_word <$> fl)) (fun me' s' =>
      me' = (if bool_decide (MYSELF ∈ f :: fl) then Some p else me) /\
      becomes es (myself_if (bool_decide (MYSELF ∈ f :: fl)) x (set_node x (flagged (f :: fl) v) A)) me' s s') s).
  { intros Hne upd H1 H2 H3. replace (bool_decide (MYSELF ∈ f :: fl)) with (bool_decide (MYSELF ∈ fl))
      by (apply bool_decide_ext; rewrite elem_of_cons; naive_solver).
    apply Hstep; try done. intros Hin. apply Hme. by right. }
  assert (Hset : forall n, view_of s (n <| n_flags ::= set_flag f |>) = (view_of s n) <| v_flags ::= with_flag f |>).
  { intros n. unfold view_of, field_update. cbn -[set_flags set_flag with_flag]. by rewrite set_flags_set. }
  destruct f; try (apply Hplain; [done| | |exact Hset]; [by intros ?|by intros ?]).
  - assert (me = None) as -> by (apply Hme; by left). rewrite (bool_decide_eq_true_2 (MYSELF ∈ _)) by (by left).
    rewrite bool_decide_eq_true_2 by done. cbn [serverAssert].
    apply wp_cbind, (wp_skip (S := cluster)), wp_cbind, (wp_set (S := cluster)).
    destruct (becomes_myself es A s x p HL Hx) as [HL1 Hm1].
    eapply wp_mono; [apply (Hstep _ _ _ _ HL1); [by apply Hm1|done| |by intros ?|by intros ?|]|].
    + intros Hin. by destruct Hfl.
    + intros n. unfold view_of, field_update. cbn -[set_flags set_flag with_flag]. by rewrite set_flags_set.
    + intros me' s' [-> [HL2 Hm2]]. rewrite (bool_decide_eq_false_2 (MYSELF ∈ fl)) in * by done.
      split; [done|]. split; [exact HL2|auto].
Qed.
Lemma split_commas ws : ws <> [] -> Forall (fun w => no_char "," w = true) ws -> split_char "," (commas ws) = ws.
Proof.
  assert (Hone : forall w, no_char "," w = true -> split_char "," w = [w]).
  { induction w as [|c w IH]; cbn; [done|]. intros [Hc Hw]%andb_prop. unfold not_char in Hc.
    destruct (Ascii.eqb "," c); [done|]. by rewrite IH. }
  assert (Hcons : forall w t, no_char "," w = true -> split_char "," (w +:+ String "," t) = w :: split_char "," t).
  { induction w as [|c w IH]; intros t; [done|]. cbn [string_all]. intros [Hc Hw]%andb_prop. unfold not_char in Hc.
    cbn [String.append split_char]. destruct (Ascii.eqb "," c); [done|]. by rewrite IH. }
  intros Hne. induction 1 as [|w ws Hw Hws IH]; [done|]. destruct ws as [|w2 ws]; [by apply Hone|].
  change (commas (w :: w2 :: ws)) with (w +:+ String "," (commas (w2 :: ws))). by rewrite Hcons, IH.
Qed.

Lemma load_flags_split p me fl s :
  load_flags p me (split_char "," (flags_text fl)) s = load_flags p me (flag_word <$> fl) s.
Proof.
  destruct fl as [|f fl]; [reflexivity|]. unfold flags_text. rewrite split_commas; [done|done|].
  apply Forall_fmap, Forall_forall. intros g _. by destruct g.
Qed.

(** ** Address and master *)

Definition addressed (ip : string) (port cport : Z) (v : node_view) : node_view :=
  v <| v_ip := ip |> <| v_port := port |> <| v_cport := cport |>.

Lemma wp_load_address es A me s x p v ip port cport :
  looks es A me s -> nodes s !! x = Some p -> cf_nodes A !! x = Some v ->
  String.length ip < NET_IP_STR_LEN -> (0 <= port < 2 ^ 31)%Z -> (0 <= cport < 2 ^ 31)%Z ->
  wp (S := cluster) (load_address p (ip +:+ ":" +:+ show_Z port +:+ "@" +:+ show_Z cport))
    (fun ok s' => ok = true /\ becomes es (set_node x (addressed ip port cport v) A) me s s') s.
Proof.
  intros HL Hx Hv Hip Hp Hc. unfold load_address.
  assert (Hd : all_digits (show_Z port) = true /\ all_digits (show_Z cport) = true) by (split; apply show_Z_digits; lia).
  destruct Hd as [Hd1 Hd2].
  change (":" +:+ show_Z port +:+ "@" +:+ show_Z cport) with (String ":" (show_Z port +:+ "@" +:+ show_Z cport)).
  rewrite strrchr_app by (rewrite !string_all_app, (digits_no ":" (show_Z port)), (digits_no ":" (show_Z cport)) by done; reflexivity).
  destruct (Nat.ltb_spec NET_IP_STR_LEN (String.length ip + 1)); [lia|].
  apply wp_cbind, (wp_skip (S := cluster)).
  change ("@" +:+ show_Z cport) with (String "@" (show_Z cport)). rewrite strchr_app by (by apply digits_no).
  apply wp_cbind. eapply wp_mono.
  { apply (wp_field es A me s x p v _ (addressed ip port cport)); try done.
    intros n. unfold view_of, addressed, field_update. cbn -[atoi]. by rewrite !atoi_show. }
  intros [] s1 H1. by apply (wp_ret (S := cluster)).
Qed.

Definition mastered (m : string) (v : node_view) : node_view := v <| v_master := Some m |>.

Lemma becomes_same es A me s s1 : looks es A me s1 -> nodes s1 = nodes s -> becomes es A me s s1.
Proof. intros H1 H2. split; [done|]. by rewrite H2. Qed.

(** Becoming someone's slave shows only in the slave. *)
Lemma wp_add_slave es A me s m q :
  looks es A me s -> is_Some (heap s !! m) ->
  wp (S := cluster) (clusterNodeAddSlave m q) (fun _ s' => becomes es A me s s') s.
Proof.
  intros HL [mn Hm]. unfold clusterNodeAddSlave. apply wp_cbind.
  exists mn, s. split; [unfold deref; by rewrite Hm|]. destruct (bool_decide _); [by apply (wp_ret (S := cluster))|].
  assert (Hv := lk_view _ _ _ _ HL _ _ Hm). assert (Hk := lk_known _ _ _ _ HL _ _ Hm).
  apply wp_cbind. eapply wp_mono.
  { apply (wp_field es A me s (n_name mn) m _ _ (fun v => v) HL Hk Hv); [by intros ?|by intros ?|].
    intros n. unfold view_of, field_update. cbn -[set_flags set_flag]. f_equal. rewrite set_flags_set. apply filter_ext_named.
    intros g Hg. rewrite decide_set_flags by done. rewrite (bool_decide_eq_false_2 (MIGRATE_TO = g)); [|by intros <-; apply list_elem_of_In in Hg; cbn in Hg; intuition].
    done. }
  intros [] s1 [HL1 Hm1]. apply (wp_ret (S := cluster)). split; [|done].
  unfold set_node, field_update in HL1. destruct A as [an am ai ame ac av]. cbn in *. by rewrite insert_id in HL1.
Qed.

Lemma touch_keeps x m v A : cf_nodes A !! x = Some v -> cf_nodes (touch m A) !! x = Some v.
Proof.
  intros Hv. unfold touch. destruct (cf_nodes A !! m) eqn:Hm; [done|]. cbn. rewrite lookup_insert_ne; [done|congruence].
Qed.

Lemma wp_load_master es A me s x p v m :
  looks es A me s -> nodes s !! x = Some p -> cf_nodes A !! x = Some v -> name_ok m ->
  wp (S := cluster) (load_master p m) (fun _ s' => becomes es (set_node x (mastered m v) (touch m A)) me s s') s.
Proof.
  intros HL Hx Hv (Hlen & Hpl & Hdash).
  assert (Heq : load_master p m = let! master := lookup_or_create (m +:+ "") in
      update p (fun n => n <| n_slaveof := Some master |>) ;;
      let! _ := clusterNodeAddSlave master p in skip).
  { rewrite string_app_nil_r. destruct m as [|c m]; [done|]. cbn in Hdash. destruct (Ascii.eqb_spec "-" c) as [|Hne]; [done|].
    by destruct c as [[] [] [] [] [] [] [] []]. }
  rewrite Heq. apply wp_cbind. eapply wp_mono; [by apply wp_lookup_or_create|].
  intros q s1 [[HL1 Hm1] Hq]. destruct (looks_at _ _ _ _ _ _ HL1 Hq) as (mn & Hmn & Hmx & _).
  assert (Hv1 : cf_nodes (touch m A) !! x = Some v) by (by apply touch_keeps).
  apply wp_cbind. eapply wp_mono.
  { apply (wp_update es (touch m A) me s1 x p v _ (mastered m v) HL1 (Hm1 _ _ Hx) Hv1); [by intros ?|by intros ?|].
    intros n Hn Hview. split.
    - rewrite <- Hview. unfold view_of, mastered, field_update. cbn -[set_flags]. unfold name_of. rewrite Hmn. cbn. by rewrite Hmx.
    - cbn. intros m' [= <-]. by eexists. }
  intros [] s2 [HL2 Hm2]. apply wp_cbind.
  destruct (looks_at _ _ _ _ _ _ HL2 (Hm2 _ _ Hq)) as (mn2 & Hmn2 & _).
  eapply wp_mono; [apply (wp_add_slave es _ me s2 q p HL2); by eexists|].
  intros b s3 [HL3 Hm3]. apply (wp_skip (S := cluster)). split; [done|auto].
Qed.

(** ** Slots *)

Definition served (j : nat) (v : node_view) : node_view := v <| v_slots ::= fun S => {[j]} ∪ S |>.
(** Nobody serves slot [j]. *)
Definition free (A : config) (j : nat) : Prop := forall y w, cf_nodes A !! y = Some w -> j ∉ v_slots w.

Lemma wp_add_slot es A me s x p v j :
  looks es A me s -> nodes s !! x = Some p -> cf_nodes A !! x = Some v -> j < CLUSTER_SLOTS -> free A j ->
  wp (S := cluster) (clusterAddSlot p j) (fun _ s' => becomes es (set_node x (served j v) A) me s s') s.
Proof.
  intros HL Hx Hv Hj Hfree. destruct (looks_at _ _ _ _ _ _ HL Hx) as (n & Hn & Hnx & Hv2).
  assert (Hnone : slots s !! j = None).
  { destruct (slots s !! j) as [q|] eqn:Hq; [|done]. destruct (iv_owner _ (lk_inv _ _ _ _ HL) _ _ Hq) as (_ & m & Hm & Hb).
    exfalso. apply (Hfree (n_name m) (view_of s m)); [by eapply lk_view|]. by apply elem_slots_of. }
  assert (Hvalid : valid_nodes s).
  { intros y q Hy. destruct (lk_name _ _ _ _ HL y q Hy) as (m & Hm & _). by eexists. }
  destruct (AddSlot_total s p j n (lk_inv _ _ _ _ HL) Hvalid Hn Hj Hnone) as (s' & Hr & Hf & Hs & Hinv).
  exists true, s'. split; [done|]. split; [|by rewrite (fr_nodes _ _ Hf)].
  unfold clusterAddSlot in Hr. apply cbind_ok in Hr as (o & s0 & [= <- <-] & Hr). rewrite Hnone in Hr.
  apply cbind_ok in Hr as (old & s1 & (n0 & n' & [Hn0 ->] & _ & Hbits & _)%clusterNodeSetSlotBit_step & Hr).
  apply cbind_ok in Hr as (u & s2 & [= <- <-] & [= <-]). assert (n0 = n) as -> by congruence.
  assert (Hnf : node_frame n n').
  { pose proof (fr_heap _ _ Hf p) as Hp. cbn in Hp. rewrite Hn, lookup_insert_eq in Hp. by inversion Hp. }
  destruct Hnf as [He Hso Hsl Hip Hport Hcport Hname Hfl].
  replace (served j v) with (view_of s n'); [rewrite <- Hnx; eapply looks_update; try done|].
  - intros m. rewrite Hso. by eapply lk_master.
  - rewrite Hv2 in Hv. injection Hv as <-. unfold view_of, served, field_update. cbn -[set_flags slots_of].
    f_equal; [done|done|done| |by rewrite Hso|done|].
    + apply filter_ext_named. intros g Hg. apply Hfl. intros ->. by apply list_elem_of_In in Hg; cbn in Hg; intuition.
    + apply set_eq. intros k. rewrite elem_slots_of, elem_of_union, elem_of_singleton, elem_slots_of.
      unfold clusterNodeGetSlotBit. rewrite Hbits, test_set, orb_true_iff, Nat.eqb_eq
        by (rewrite (iv_bytes _ (lk_inv _ _ _ _ HL) _ _ Hn); done).
      split; [intros [? [->|?]]; auto|intros [->|[? ?]]; auto].
Qed.

Definition serve_all (js : list nat) (v : node_view) : node_view := foldl (fun v j => served j v) v js.

Lemma serve_all_slots js v : serve_all js v = v <| v_slots ::= fun S => list_to_set js ∪ S |>.
Proof.
  revert v. induction js as [|j js IH]; intros v; cbn.
  - destruct v. unfold field_update. cbn. f_equal. set_solver.
  - fold (serve_all js (served j v)). rewrite IH. destruct v. unfold served, field_update. cbn. f_equal. set_solver.
Qed.

Lemma wp_add_slots es x p js : forall A me s v,
  looks es A me s -> nodes s !! x = Some p -> cf_nodes A !! x = Some v ->
  Forall (fun j => j < CLUSTER_SLOTS) js -> NoDup js -> Forall (free A) js ->
  wp (S := cluster) (cfor js (fun j => let! _ := clusterAddSlot p j in skip))
    (fun _ s' => becomes es (set_node x (serve_all js v) A) me s s') s.
Proof.
  induction js as [|j js IH]; intros A me s v HL Hx Hv Hj Hd Hfree; cbn [cfor].
  { apply (wp_skip (S := cluster)). split; [|done]. cbn. unfold set_node, field_update. destruct A. cbn in *. by rewrite insert_id. }
  apply Forall_cons in Hj as [Hj Hjs]. apply NoDup_cons in Hd as [Hjn Hd]. apply Forall_cons in Hfree as [Hf Hfree].
  apply wp_cbind, wp_cbind. eapply wp_mono; [by apply (wp_add_slot es A me s x p v j)|].
  intros b s1 [HL1 Hm1]. apply (wp_skip (S := cluster)). eapply wp_mono.
  { apply (IH (set_node x (served j v) A) me s1 (served j v)); [done|by apply Hm1| |done|done|].
    - cbn. by rewrite lookup_insert_eq.
    - apply Forall_forall. intros k Hk y w. cbn. intros [[<- <-]|[_ Hw]]%lookup_insert_Some.
      + cbn. rewrite elem_of_union, elem_of_singleton. rewrite Forall_forall in Hfree.
        intros [->|Hin]; [done|]. by apply (Hfree k Hk x v).
      + rewrite Forall_forall in Hfree. by apply (Hfree k Hk y). }
  intros [] s2 [HL2 Hm2]. split; [|auto]. unfold set_node, field_update in *. cbn in *. by rewrite insert_insert_eq in HL2.
Qed.
Lemma load_slots_word p c w : is_digit_char c = true ->
  load_slots p (String c w) = match strchr "-" (String c w) with
                              | Some (a, b) => load_range p (atoi a) (atoi b)
                              | None => load_range p (atoi (String c w)) (atoi (String c w))
                              end.
Proof. destruct c as [[] [] [] [] [] [] [] []]; try discriminate; reflexivity. Qed.

Lemma load_range_nat p a b : a <= b < CLUSTER_SLOTS ->
  load_range p (Z.of_nat a) (Z.of_nat b) = cfor (expand (a, b)) (fun j => let! _ := clusterAddSlot p j in skip).
Proof.
  intros Hab. unfold load_range. destruct (Z.leb_spec (Z.of_nat a) (Z.of_nat b)); [|lia].
  destruct (Z.ltb_spec (Z.of_nat a) 0); [lia|]. destruct (Z.leb_spec (Z.of_nat CLUSTER_SLOTS) (Z.of_nat b)); [lia|].
  cbn [orb]. by rewrite !Nat2Z.id.
Qed.

Lemma load_range_text p r : r.1 <= r.2 < CLUSTER_SLOTS ->
  load_slots p (range_text r) = cfor (expand r) (fun j => let! _ := clusterAddSlot p j in skip).
Proof.
  intros Hr. pose proof slots_law as Hsl. destruct r as [a b]. cbn in Hr. unfold range_text. cbn [fst snd].
  assert (Ha : exists c w, show_nat a = String c w /\ is_digit_char c = true).
  { pose proof (show_nat_digits a) as Hd. pose proof (pretty_nonempty (N.of_nat a)) as Hne. unfold show_nat in *.
    destruct (pretty (N.of_nat a)) as [|c w]; [done|]. exists c, w. split; [done|]. cbn in Hd. by apply andb_prop in Hd as [? _]. }
  destruct Ha as (c & w & Hcw & Hc). assert (Hd : all_digits (String c w) = true) by (rewrite <- Hcw; apply show_nat_digits).
  destruct (Nat.eqb_spec a b) as [->|Hne]; rewrite Hcw.
  - rewrite load_slots_word, strchr_none by (done || by apply digits_no). rewrite <- Hcw, atoi_show_nat by lia. by apply load_range_nat.
  - change (String c w +:+ "-" +:+ show_nat b) with (String c (w +:+ "-" +:+ show_nat b)). rewrite load_slots_word by done.
    change (String c (w +:+ "-" +:+ show_nat b)) with (String c w +:+ String "-" (show_nat b)).
    rewrite strchr_app by (by apply digits_no). rewrite <- Hcw, !atoi_show_nat by lia. by apply load_range_nat.
Qed.

Lemma serve_all_app v js ks : serve_all (js ++ ks) v = serve_all ks (serve_all js v).
Proof. apply foldl_app. Qed.

Lemma set_node_again x v w A : set_node x w (set_node x v A) = set_node x w A.
Proof. unfold set_node, field_update. cbn. by rewrite insert_insert_eq. Qed.
Lemma set_node_same x v A : cf_nodes A !! x = Some v -> set_node x v A = A.
Proof. intros Hv. unfold set_node, field_update. destruct A. cbn in *. by rewrite insert_id. Qed.
Lemma set_node_at x v A : cf_nodes (set_node x v A) !! x = Some v.
Proof. cbn. by rewrite lookup_insert_eq. Qed.

Lemma free_after_slot A x v js ks :
  cf_nodes A !! x = Some v -> Forall (free A) ks -> (forall k, k ∈ ks -> k ∉ js) ->
  Forall (free (set_node x (serve_all js v) A)) ks.
Proof.
  rewrite !Forall_forall. intros Hv Hf Hd k Hk y w. cbn. intros [[<- <-]|[_ Hw]]%lookup_insert_Some; [|by apply (Hf k Hk y)].
  rewrite serve_all_slots. cbn. rewrite elem_of_union, elem_of_list_to_set. intros [Hin|Hin]; [by eapply Hd|by apply (Hf k Hk x v)].
Qed.

Lemma wp_load_ranges es x p rs : forall A me s v,
  looks es A me s -> nodes s !! x = Some p -> cf_nodes A !! x = Some v ->
  Forall (fun r => r.1 <= r.2 < CLUSTER_SLOTS) rs -> NoDup (concat (expand <$> rs)) -> Forall (free A) (concat (expand <$> rs)) ->
  wp (S := cluster) (cfor (range_text <$> rs) (load_slots p))
    (fun _ s' => becomes es (set_node x (serve_all (concat (expand <$> rs)) v) A) me s s') s.
Proof.
  induction rs as [|r rs IH]; intros A me s v HL Hx Hv Hr Hd Hfree; cbn [fmap list_fmap cfor concat] in *.
  { apply (wp_skip (S := cluster)). split; [|done]. cbn. by rewrite set_node_same. }
  apply Forall_cons in Hr as [Hr Hrs]. apply NoDup_app in Hd as (Hd1 & Hd2 & Hd3). apply Forall_app in Hfree as [Hf1 Hf2].
  apply wp_cbind. rewrite load_range_text by done. eapply wp_mono.
  { apply (wp_add_slots es x p (expand r) A me s v); try done. apply Forall_forall. intros j Hj. unfold expand in Hj.
    apply elem_of_seq in Hj. lia. }
  intros [] s1 [HL1 Hm1]. eapply wp_mono.
  { apply (IH (set_node x (serve_all (expand r) v) A) me s1 (serve_all (expand r) v)); [done|by apply Hm1|apply set_node_at|done|done|].
    apply free_after_slot; [done|done|]. intros k Hk Hk2. by apply (Hd2 k). }
  intros [] s2 [HL2 Hm2]. rewrite set_node_again, <- serve_all_app in HL2. split; [done|auto].
Qed.

(** ** Open slots *)

Definition open_step (A : config) (o : nat * bool * string) : config :=
  let '(j, migrating, name) := o in
  if migrating : bool then touch name A <| cf_migrating ::= <[j := name]> |>
  else touch name A <| cf_importing ::= <[j := name]> |>.

Lemma looks_open es A me s j q name b :
  looks es A me s -> nodes s !! name = Some q ->
  looks es (if b : bool then A <| cf_migrating ::= <[j := name]> |> else A <| cf_importing ::= <[j := name]> |>) me
    (if b then s <| migrating_slots_to ::= <[j := q]> |> else s <| importing_slots_from ::= <[j := q]> |>).
Proof.
  intros HL Hq. destruct (looks_at _ _ _ _ _ _ HL Hq) as (n & Hn & Hnx & _).
  assert (Hname : name_of s q = Some name) by (unfold name_of; rewrite Hn; cbn; by rewrite Hnx).
  assert (Hinv := lk_inv _ _ _ _ HL). destruct HL, b; split; try done; try (by destruct Hinv);
    intros i; cbn; (destruct (decide (j = i)) as [<-|Hne]; [rewrite !lookup_insert_eq|rewrite !lookup_insert_ne by done]); try done; try apply lk_migrating0; try apply lk_importing0.
  - intros q' [[= <-]|Hi]; [by eexists|eauto].
  - intros q' Hi. eauto.
  - intros q' [Hi|[= <-]]; [eauto|by eexists].
  - intros q' Hi. eauto.
Qed.

Lemma substring_more s n : String.length s <= n -> String.substring 0 n s = s.
Proof.
  revert n. induction s as [|c s IH]; intros [|n] Hn; cbn in *; try done; [lia|]. by rewrite IH by lia.
Qed.

Lemma wp_load_open es p A me s o :
  looks es A me s -> o.1.1 < CLUSTER_SLOTS -> name_ok o.2 ->
  wp (S := cluster) (load_slots p (open_text o)) (fun _ s' => becomes es (open_step A o) me s s') s.
Proof.
  destruct o as [[j b] name]. cbn [fst snd]. intros HL Hj (Hlen & _ & _). pose proof slots_law as Hsl.
  set (d := if b then ">"%char else "<"%char).
  assert (Ho : open_text (j, b, name) = ("[" +:+ show_nat j) +:+ String "-" (String d (String "-" (name +:+ "]")))).
  { unfold open_text, d. rewrite string_app_assoc. by destruct b. }
  change (load_slots p (open_text (j, b, name))) with (load_open_slot (open_text (j, b, name))).
  rewrite Ho. unfold load_open_slot. rewrite strchr_app by (cbn; apply digits_no, show_nat_digits; done).
  assert (Hj2 : atoi (String.substring 1 (String.length ("[" +:+ show_nat j)) ("[" +:+ show_nat j)) = Z.of_nat j).
  { change (String.substring 1 _ _) with (String.substring 0 (S (String.length (show_nat j))) (show_nat j)).
    rewrite substring_more by lia. apply atoi_show_nat. lia. }
  rewrite Hj2. apply wp_cbind. eapply wp_mono; [by apply wp_lookup_or_create|].
  intros q s1 [[HL1 Hm1] Hq]. destruct (Z.ltb_spec (Z.of_nat j) 0); [lia|].
  destruct (Z.leb_spec (Z.of_nat CLUSTER_SLOTS) (Z.of_nat j)); [lia|]. cbn [orb]. rewrite Nat2Z.id.
  pose proof (looks_open es _ me s1 j q name b HL1 Hq) as HL2.
  unfold d. destruct b; apply (wp_set (S := cluster)); (split; [exact HL2|done]).
Qed.

Definition open_all (A : config) (os : list (nat * bool * string)) : config := foldl open_step A os.

Lemma wp_load_opens es p os : forall A me s,
  looks es A me s -> Forall (fun o => o.1.1 < CLUSTER_SLOTS /\ name_ok o.2) os ->
  wp (S := cluster) (cfor (open_text <$> os) (load_slots p)) (fun _ s' => becomes es (open_all A os) me s s') s.
Proof.
  induction os as [|o os IH]; intros A me s HL Ho; cbn [fmap list_fmap cfor]; [by apply (wp_skip (S := cluster))|].
  apply Forall_cons in Ho as [[Hj Hn] Ho]. apply wp_cbind. eapply wp_mono; [by apply (wp_load_open es p A me s o)|].
  intros [] s1 [HL1 Hm1]. eapply wp_mono; [by apply (IH _ me s1 HL1)|]. intros [] s2 [HL2 Hm2]. split; [done|auto].
Qed.

(** ** The line *)

Definition desc_view (d : node_desc) : node_view := {|
  v_ip := d_ip d;
  v_port := d_port d;
  v_cport := d_cport d;
  v_flags := List.filter (fun g => bool_decide (g ∈ d_flags d)) named_flags;
  v_master := d_master d;
  v_epoch := d_epoch d;
  v_slots := list_to_set (concat (expand <$> d_ranges d));
|}.

Definition load_desc (A : config) (d : node_desc) : config :=
  let A := match d_master d with Some m => touch m A | None => A end in
  let A := myself_if (bool_decide (MYSELF ∈ d_flags d)) (d_name d) A in
  open_all (set_node (d_name d) (desc_view d) A) (d_open d).

Lemma load_node_args me d :
  load_node me (tokens d) =
  (let! n := lookup_or_create (d_name d +:+ "") in
   let! ok := load_address n (d_ip d +:+ ":" +:+ show_Z (d_port d) +:+ "@" +:+ show_Z (d_cport d)) in
   if negb ok then cret None
   else
     let! me := load_flags n me (split_char "," (flags_text (d_flags d))) in
     load_master n (default "-" (d_master d)) ;;
     let! now := gets mstime in
     cwhen (negb (Z.eqb (atoi (show_Z (d_ping d))) 0)) (update n (fun n => n <| n_ping_sent := now |>)) ;;
     cwhen (negb (Z.eqb (atoi (show_Z (d_pong d))) 0)) (update n (fun n => n <| n_pong_received := now |>)) ;;
     update n (fun n => n <| n_configEpoch := strtoull (show_Z (d_epoch d)) |>) ;;
     cfor ((range_text <$> d_ranges d) ++ (open_text <$> d_open d)) (load_slots n) ;;
     cret (Some me)).
Proof. by rewrite string_app_nil_r. Qed.

Lemma wp_flags_text p me fl Q s :
  wp (S := cluster) (load_flags p me (flag_word <$> fl)) Q s ->
  wp (S := cluster) (load_flags p me (split_char "," (flags_text fl))) Q s.
Proof. unfold wp. by rewrite load_flags_split. Qed.

Lemma wp_cfor_app {X} (l1 l2 : list X) f (Q : unit -> cluster -> Prop) s :
  wp (S := cluster) (cfor l1 f) (fun _ s' => wp (S := cluster) (cfor l2 f) Q s') s ->
  wp (S := cluster) (cfor (l1 ++ l2) f) Q s.
Proof.
  revert s. induction l1 as [|a l1 IH]; intros s H; cbn [cfor app] in *.
  - by destruct H as (u & s' & [= <- <-] & H).
  - apply wp_cbind. apply (wp_bind_inv (S := cluster)) in H. eapply wp_mono; [exact H|]. intros [] s1. apply IH.
Qed.

(** Changes of the view that commute. *)
Lemma set_node_myself b x y w A : set_node y w (myself_if b x A) = myself_if b x (set_node y w A).
Proof. by destruct b. Qed.
Lemma touch_myself b x m A : touch m (myself_if b x A) = myself_if b x (touch m A).
Proof. destruct b; [|done]. unfold touch. cbn. by destruct (cf_nodes A !! m). Qed.
Lemma touch_set x m v w A : set_node x w (touch m (set_node x v A)) = set_node x w (touch m A).
Proof.
  unfold touch. cbn. destruct (decide (x = m)) as [<-|Hne].
  - rewrite lookup_insert_eq, set_node_again. destruct (cf_nodes A !! x); [done|by rewrite set_node_again].
  - rewrite lookup_insert_ne by done. destruct (cf_nodes A !! m); [by rewrite set_node_again|].
    unfold set_node, field_update. cbn. f_equal. rewrite (insert_insert_ne _ m x) by done. by rewrite insert_insert_eq, insert_insert_ne by done.
Qed.

Lemma free_node A x v j : v_slots v = ∅ -> free A j -> free (set_node x v A) j.
Proof. intros Hv Hf y w. cbn. intros [[<- <-]|[_ Hw]]%lookup_insert_Some; [rewrite Hv; set_solver|by apply (Hf y)]. Qed.
Lemma free_touch A x j : free A j -> free (touch x A) j.
Proof. unfold touch. destruct (cf_nodes A !! x); [done|]. by apply free_node. Qed.
Lemma free_myself A b x j : free A j -> free (myself_if b x A) j.
Proof. by destruct b. Qed.

(** The times of pings do not show. *)
Lemma wp_cwhen_same es A me s x p v b f :
  looks es (set_node x v A) me s -> nodes s !! x = Some p ->
  keeps_slots f -> (forall n, n_name (f n) = n_name n /\ n_slaveof (f n) = n_slaveof n) ->
  (forall n, view_of s (f n) = view_of s n) ->
  wp (S := cluster) (cwhen b (update p f)) (fun _ s' => becomes es (set_node x v A) me s s') s.
Proof.
  intros HL Hx Hk Hn Hv. destruct b; [|by apply (wp_skip (S := cluster))]. cbn [cwhen].
  eapply wp_mono; [by apply (wp_field es _ me s x p v f (fun v => v) HL Hx (set_node_at _ _ _))|].
  intros [] s1 [HL1 Hm1]. rewrite set_node_again in HL1. by split.
Qed.

Lemma final_view d :
  Forall (fun f => f ∈ named_flags) (d_flags d) ->
  serve_all (concat (expand <$> d_ranges d))
    (match d_master d with
     | Some m => mastered m (flagged (d_flags d) (addressed (d_ip d) (d_port d) (d_cport d) blank_view))
     | None => flagged (d_flags d) (addressed (d_ip d) (d_port d) (d_cport d) blank_view)
     end <| v_epoch := d_epoch d |>) = desc_view d.
Proof.
  intros Hf. rewrite serve_all_slots. unfold desc_view, flagged, mastered, addressed, blank_view, field_update.
  rewrite <- with_flags_all by done. destruct (d_master d); cbn -[with_flags expand concat]; by rewrite (union_empty_r_L (list_to_set _)).
Qed.

Lemma wp_load_node es A me s d :
  looks es A me s -> desc_ok d -> NoDup (d_flags d) ->
  (MYSELF ∈ d_flags d -> me = None) -> (cf_nodes A !! d_name d = None \/ cf_nodes A !! d_name d = Some blank_view) ->
  NoDup (concat (expand <$> d_ranges d)) -> Forall (free A) (concat (expand <$> d_ranges d)) ->
  wp (S := cluster) (load_node me (tokens d)) (fun r s' => exists me', r = Some me' /\
    (me' = None <-> MYSELF ∉ d_flags d /\ me = None) /\ looks es (load_desc A d) me' s') s.
Proof.
  intros HL [Hname [Hip1 Hip2] [Hport Hcport] [Hfl1 Hfl2] Hm (Hp1 & Hp2 & Hp3) [_ Hr] [_ Ho]] Hnd Hme HA Hdis Hfree.
  rewrite load_node_args. set (x := d_name d) in *. set (vr := d_ranges d) in *.
  apply wp_cbind. eapply wp_mono; [apply (wp_lookup_or_create es A me s x "" HL); apply Hname|].
  intros p s1 [[HL1 Hm1] Hx].
  assert (HA1 : touch x A = set_node x blank_view A).
  { unfold touch. destruct HA as [->|HA]; [done|]. rewrite HA. by rewrite set_node_same. }
  rewrite HA1 in HL1. apply wp_cbind. eapply wp_mono.
  { apply (wp_load_address es _ me s1 x p blank_view (d_ip d) (d_port d) (d_cport d) HL1 Hx (set_node_at _ _ _)); [done|lia..]. }
  intros ok s2 [-> [HL2 Hm2]]. rewrite set_node_again in HL2. cbn [negb].
  apply wp_cbind. eapply wp_flags_text.
  eapply wp_mono; [by apply (wp_load_flags es x p (d_flags d) _ me s2 _ HL2 (Hm2 _ _ Hx) (set_node_at _ _ _))|].
  intros me' s3 [-> [HL3 Hm3]]. rewrite set_node_again in HL3. set (b := bool_decide (MYSELF ∈ d_flags d)) in *.
  set (me' := if b then Some p else me) in *. set (v3 := flagged _ _) in HL3.
  rewrite <- set_node_myself in HL3.
  set (B := myself_if b x match d_master d with Some m => touch m A | None => A end).
  set (v4 := match d_master d with Some m => mastered m v3 | None => v3 end).
  apply wp_cbind. apply (wp_mono _ (fun _ s4 => becomes es (set_node x v4 B) me' s3 s4)).
  { unfold B, v4. destruct (d_master d) as [m|]; cbn [default].
    - eapply wp_mono; [apply (wp_load_master es _ me' s3 x p v3 m HL3); [by apply Hm3, Hm2|apply set_node_at|by apply Hm]|].
      intros [] s4 [HL4 Hm4]. split; [|done]. by rewrite touch_set, touch_myself in HL4.
    - apply (wp_skip (S := cluster)). by split. }
  intros [] s4 [HL4 Hm4]. apply wp_cbind, (wp_get (S := cluster)).
  assert (Hx4 : nodes s4 !! x = Some p) by (by apply Hm4, Hm3, Hm2).
  apply wp_cbind. eapply wp_mono; [by eapply wp_cwhen_same|]. intros [] s5 [HL5 Hm5].
  apply wp_cbind. eapply wp_mono; [eapply wp_cwhen_same; [exact HL5|by apply Hm5|done..]|]. intros [] s6 [HL6 Hm6].
  rewrite strtoull_show by done. apply wp_cbind. eapply wp_mono.
  { apply (wp_field es _ me' s6 x p v4 _ (fun v => v <| v_epoch := d_epoch d |>) HL6); [by apply Hm6, Hm5|apply set_node_at|done..]. }
  intros [] s7 [HL7 Hm7]. rewrite set_node_again in HL7. apply wp_cbind, wp_cfor_app. eapply wp_mono.
  { apply (wp_load_ranges es x p vr _ me' s7 (v4 <| v_epoch := d_epoch d |>) HL7); [by apply Hm7, Hm6, Hm5|apply set_node_at|done|done|].
    eapply Forall_impl; [exact Hfree|]. intros j Hj. apply free_node; [unfold v4; by destruct (d_master d)|].
    unfold B. apply free_myself. destruct (d_master d); [by apply free_touch|done]. }
  intros [] s8 [HL8 Hm8]. rewrite set_node_again in HL8. eapply wp_mono; [by apply (wp_load_opens es p (d_open d) _ me' s8 HL8)|].
  intros [] s9 [HL9 Hm9]. apply (wp_ret (S := cluster)). exists me'. split; [done|]. split.
  - unfold me', b. case_bool_decide; naive_solver.
  - unfold load_desc. fold x b. fold B. replace (desc_view d) with (serve_all (concat (expand <$> vr)) (v4 <| v_epoch := d_epoch d |>)); [done|].
    by apply final_view.
Qed.
End node.
