(* ===== verification/ClusterConfigFile.v ===== *)
(** * Loading a whole file

    The nodes' lines one after the other, the variables, and blank lines. *)

From Stdlib Require Import Ascii.
From stdpp Require Import base numbers pretty gmap strings list.
From S2P Require Import Prelude Text StateMonad ClusterTypes ClusterSlots ClusterNodes ClusterGossip ClusterCommand ClusterBitmap ClusterInv ClusterPreserve ClusterClaims ClusterCommandProps ClusterConfig ClusterConfigText ClusterConfigRead ClusterConfigLoad ClusterConfigNode.

Section file.
Context `{E : ClusterEnv} `{Cfg : ConfigEnv} `{!ClusterLaws E} `{!ConfigLaws E Cfg}.

Definition names (ds : list node_desc) : list string := d_name <$> ds.
Definition desc_slots (d : node_desc) : list nat := concat (expand <$> d_ranges d).

(** Descriptions of a cluster: they fit together. *)
Record descs_ok (ds : list node_desc) : Prop := {
  ds_each : Forall (fun d => desc_ok d /\ NoDup (d_flags d) /\ NoDup (desc_slots d)) ds;
  ds_names : NoDup (names ds);
  ds_master : forall d m, d ∈ ds -> d_master d = Some m -> m ∈ names ds;
  ds_opens : forall d o, d ∈ ds -> o ∈ d_open d -> o.2 ∈ names ds;
  ds_slots : forall d d' j, d ∈ ds -> d' ∈ ds -> j ∈ desc_slots d -> j ∈ desc_slots d' -> d_name d = d_name d';
  ds_open : forall d d' o o', d ∈ ds -> d' ∈ ds -> o ∈ d_open d -> o' ∈ d_open d' -> o.1.1 = o'.1.1 -> o = o';
  ds_myself : forall d d', d ∈ ds -> d' ∈ ds -> MYSELF ∈ d_flags d -> MYSELF ∈ d_flags d' -> d_name d = d_name d';
}.

(** The view after the lines of [done], of all of [ds]. *)
Record loaded (ds done : list node_desc) (A : config) : Prop := {
  ld_done : forall d, d ∈ done -> cf_nodes A !! d_name d = Some (desc_view d);
  ld_rest : forall x, x ∉ names done -> cf_nodes A !! x = None \/ cf_nodes A !! x = Some blank_view;
  ld_known : forall x, is_Some (cf_nodes A !! x) -> x ∈ names ds;
  ld_migrating : forall j x, cf_migrating A !! j = Some x <-> exists d, d ∈ done /\ (j, true, x) ∈ d_open d;
  ld_importing : forall j x, cf_importing A !! j = Some x <-> exists d, d ∈ done /\ (j, false, x) ∈ d_open d;
  ld_myself : forall x, cf_myself A = Some x <-> exists d, d ∈ done /\ MYSELF ∈ d_flags d /\ d_name d = x;
}.

(** The nodes of the view, as far as they matter. *)
Record nodes_like (ds done : list node_desc) (A : config) : Prop := {
  nl_done : forall d, d ∈ done -> cf_nodes A !! d_name d = Some (desc_view d);
  nl_rest : forall x, x ∉ names done -> cf_nodes A !! x = None \/ cf_nodes A !! x = Some blank_view;
  nl_known : forall x, is_Some (cf_nodes A !! x) -> x ∈ names ds;
}.

Lemma nodes_like_touch ds done A x : nodes_like ds done A -> x ∈ names ds -> nodes_like ds done (touch x A).
Proof.
  intros [H1 H2 H3] Hx. unfold touch. destruct (cf_nodes A !! x) eqn:He; [done|]. split; cbn.
  - intros d Hd. rewrite lookup_insert_ne; [by apply H1|]. intros ->. rewrite H1 in He by done. done.
  - intros y Hy. destruct (decide (x = y)) as [->|Hne]; [rewrite lookup_insert_eq; by right|].
    rewrite lookup_insert_ne by done. by apply H2.
  - intros y. destruct (decide (x = y)) as [->|Hne]; [done|]. rewrite lookup_insert_ne by done. apply H3.
Qed.

Lemma nodes_like_set ds done A d :
  nodes_like ds done A -> d ∈ ds -> d_name d ∉ names done -> nodes_like ds (done ++ [d]) (set_node (d_name d) (desc_view d) A).
Proof.
  intros [H1 H2 H3] Hd Hn. split; cbn.
  - intros d' [Hd'|Hd']%elem_of_app.
    + rewrite lookup_insert_ne; [by apply H1|]. intros Heq. apply Hn. rewrite Heq. by apply list_elem_of_fmap_2.
    + apply list_elem_of_singleton in Hd' as ->. by rewrite lookup_insert_eq.
  - intros x Hx. unfold names in Hx. rewrite fmap_app, elem_of_app in Hx. cbn in Hx. rewrite list_elem_of_singleton in Hx.
    rewrite lookup_insert_ne by naive_solver. apply H2. naive_solver.
  - intros x. destruct (decide (d_name d = x)) as [<-|Hne]; [intros _; by apply list_elem_of_fmap_2|].
    rewrite lookup_insert_ne by done. apply H3.
Qed.

Lemma nodes_like_same ds done A A' : cf_nodes A' = cf_nodes A -> nodes_like ds done A -> nodes_like ds done A'.
Proof. intros H []. split; rewrite H; done. Qed.

Lemma touch_migrating x A : cf_migrating (touch x A) = cf_migrating A.
Proof. unfold touch. by destruct (cf_nodes A !! x). Qed.
Lemma touch_importing x A : cf_importing (touch x A) = cf_importing A.
Proof. unfold touch. by destruct (cf_nodes A !! x). Qed.
Lemma touch_cf_myself x A : cf_myself (touch x A) = cf_myself A.
Proof. unfold touch. by destruct (cf_nodes A !! x). Qed.

(** The slots that are open after [os], of [all]. *)
Lemma open_all_spec ds done os : forall A P,
  nodes_like ds done A -> Forall (fun o => o.2 ∈ names ds) os ->
  (forall o o', (P o \/ o ∈ os) -> (P o' \/ o' ∈ os) -> o.1.1 = o'.1.1 -> o = o') ->
  (forall j x, cf_migrating A !! j = Some x <-> P (j, true, x)) ->
  (forall j x, cf_importing A !! j = Some x <-> P (j, false, x)) ->
  nodes_like ds done (open_all A os) /\ cf_myself (open_all A os) = cf_myself A /\
  (forall j x, cf_migrating (open_all A os) !! j = Some x <-> P (j, true, x) \/ (j, true, x) ∈ os) /\
  (forall j x, cf_importing (open_all A os) !! j = Some x <-> P (j, false, x) \/ (j, false, x) ∈ os).
Proof.
  induction os as [|o os IH]; intros A P HN Hn Hu Hm Hi.
  { cbn. split_and!; [done|done|intros j x; rewrite Hm|intros j x; rewrite Hi];
      (split; [by left|intros [?|[]%not_elem_of_nil]; done]). }
  apply Forall_cons in Hn as [Ho Hn]. cbn [open_all foldl]. fold (open_all (open_step A o) os).
  destruct (IH (open_step A o) (fun o' => P o' \/ o' = o)) as (H1 & H2 & H3 & H4).
  - destruct o as [[j b] x]. cbn in Ho. eapply (nodes_like_same _ _ (touch x A)); [by destruct b|by apply nodes_like_touch].
  - done.
  - intros o1 o2. set_solver.
  - intros j x. destruct o as [[i b] y]. cbn [open_step].
    destruct b; cbn; [|rewrite touch_migrating, Hm; split; [by left|by intros [?|[=]]]].
    rewrite touch_migrating. destruct (decide (i = j)) as [->|Hne].
    + rewrite lookup_insert_eq. split; [intros [= ->]; by right|]. intros [HP|[= ->]]; [|done].
      assert ((j, true, x) = (j, true, y)) as [= ->] by (apply Hu; [by left|right; by left|done]). done.
    + rewrite lookup_insert_ne, Hm by done. split; [by left|intros [?|[= -> _]]; done].
  - intros j x. destruct o as [[i b] y]. cbn [open_step].
    destruct b; cbn; [rewrite touch_importing, Hi; split; [by left|by intros [?|[=]]]|].
    rewrite touch_importing. destruct (decide (i = j)) as [->|Hne].
    + rewrite lookup_insert_eq. split; [intros [= ->]; by right|]. intros [HP|[= ->]]; [|done].
      assert ((j, false, x) = (j, false, y)) as [= ->] by (apply Hu; [by left|right; by left|done]). done.
    + rewrite lookup_insert_ne, Hi by done. split; [by left|intros [?|[= -> _]]; done].
  - split_and!; [done| | |].
    + rewrite H2. destruct o as [[j b] x]. cbn. destruct b; apply touch_cf_myself.
    + intros j x. rewrite H3, elem_of_cons. naive_solver.
    + intros j x. rewrite H4, elem_of_cons. naive_solver.
Qed.
Lemma loaded_step ds done A d :
  descs_ok ds -> (forall d', d' ∈ done -> d' ∈ ds) -> d ∈ ds -> d_name d ∉ names done ->
  loaded ds done A -> loaded ds (done ++ [d]) (load_desc A d).
Proof.
  intros Hds Hdone Hd Hn [H1 H2 H3 H4 H5 H6]. unfold load_desc.
  set (A1 := match d_master d with Some m => touch m A | None => A end).
  set (b := bool_decide (MYSELF ∈ d_flags d)). set (A2 := myself_if b (d_name d) A1).
  assert (HN : nodes_like ds (done ++ [d]) (set_node (d_name d) (desc_view d) A2)).
  { apply nodes_like_set; [|done|done]. apply (nodes_like_same _ _ A1); [unfold A2; by destruct b|].
    unfold A1. destruct (d_master d) as [m|] eqn:Hm; [|by split]. apply nodes_like_touch; [by split|]. by eapply ds_master. }
  assert (Hm2 : cf_migrating A2 = cf_migrating A /\ cf_importing A2 = cf_importing A).
  { unfold A2, A1. destruct b, (d_master d); cbn; by rewrite ?touch_migrating, ?touch_importing. }
  assert (Hme : cf_myself A2 = if b then Some (d_name d) else cf_myself A).
  { unfold A2, A1. destruct b, (d_master d); cbn; by rewrite ?touch_cf_myself. }
  destruct Hm2 as [Hmg Him].
  destruct (open_all_spec ds (done ++ [d]) (d_open d) (set_node (d_name d) (desc_view d) A2)
    (fun o => exists d', d' ∈ done /\ o ∈ d_open d')) as (H1' & H2' & H3' & H4').
  - done.
  - apply Forall_forall. intros o Ho. by eapply ds_opens.
  - intros o o' Ho Ho'. assert (Hin : forall o, (exists d', d' ∈ done /\ o ∈ d_open d') \/ o ∈ d_open d -> exists d', d' ∈ ds /\ o ∈ d_open d')
      by naive_solver.
    destruct (Hin o Ho) as (d1 & ? & ?), (Hin o' Ho') as (d2 & ? & ?). by eapply (ds_open _ Hds d1 d2).
  - intros j x. cbn. by rewrite Hmg, H4.
  - intros j x. cbn. by rewrite Him, H5.
  - destruct H1'. split; try done.
    + intros j x. rewrite H3'. setoid_rewrite elem_of_app. setoid_rewrite list_elem_of_singleton. naive_solver.
    + intros j x. rewrite H4'. setoid_rewrite elem_of_app. setoid_rewrite list_elem_of_singleton. naive_solver.
    + intros x. rewrite H2'. cbn. rewrite Hme. setoid_rewrite elem_of_app. setoid_rewrite list_elem_of_singleton.
      unfold b. case_bool_decide as Hmy.
      * split; [intros [= <-]; eauto|]. intros (d' & [Hd'|Hd'] & Hf & Hx); [|congruence].
        f_equal. rewrite <- Hx. apply (ds_myself _ Hds); auto.
      * rewrite H6. naive_solver.
Qed.

(** ** The lines *)

(** The view after all lines, and the variables. *)
Definition load_all (A : config) (ds : list node_desc) : config := foldl load_desc A ds.
Definition with_vars (cur vote : Z) (A : config) : config := A <| cf_current := cur |> <| cf_vote := vote |>.

Lemma node_line_plain d : desc_ok d -> plain_line (unwords (tokens d)).
Proof.
  intros Hd. split_and!; [|by apply words_line, tokens_plain|by apply tokens_fit].
  destruct (name_word _ (do_name _ Hd)) as [Hne _]. unfold unwords, tokens. cbn [app]. by destruct (d_name d).
Qed.

Lemma vars_plain cur vote : (0 <= cur < 2 ^ 64)%Z -> (0 <= vote < 2 ^ 64)%Z -> plain_line (unwords (vars_tokens cur vote)).
Proof.
  intros Hc Hv. split_and!; [done|apply words_line|].
  - unfold vars_tokens. repeat (apply Forall_cons; split); try done; apply show_Z_word; lia.
  - unfold vars_tokens, unwords, spaced, maxline. rewrite !length_string_app.
    assert (Hz : forall z, (0 <= z < 2 ^ 64)%Z -> String.length (show_Z z) <= 20) by (intros; apply show_Z_length; lia).
    pose proof (Hz _ Hc). pose proof (Hz _ Hv). cbn [String.length]. lia.
Qed.

Lemma wp_load_vars es A me s cur vote rest fuel :
  looks es A me s -> (0 <= cur < 2 ^ 64)%Z -> (0 <= vote < 2 ^ 64)%Z -> 1 < fuel -> rest < fuel ->
  wp (S := cluster) (load_lines fuel me (unwords (vars_tokens cur vote) +:+ nl_str +:+ newlines rest))
    (fun r s' => r = Some me /\ looks es (with_vars cur vote A) me s') s.
Proof.
  intros HL Hc Hv Hf Hr. destruct fuel as [|fuel]; [lia|].
  rewrite load_lines_cons by (by apply vars_plain). apply wp_cbind.
  rewrite load_vars_line by done. apply wp_cbind, wp_cbind, (wp_set (S := cluster)), wp_cbind, (wp_set (S := cluster)), (wp_skip (S := cluster)), (wp_ret (S := cluster)).
  rewrite load_lines_blank by (unfold maxline; lia). apply (wp_ret (S := cluster)). split; [done|].
  assert (Hinv := lk_inv _ _ _ _ HL). destruct HL. split; try done. by destruct Hinv.
Qed.

Lemma wp_load_nodes es ds cur vote rest todo : forall done A me s fuel,
  descs_ok ds -> ds = done ++ todo -> looks es A me s -> loaded ds done A ->
  (me = None <-> forall d, d ∈ done -> MYSELF ∉ d_flags d) ->
  (0 <= cur < 2 ^ 64)%Z -> (0 <= vote < 2 ^ 64)%Z -> length todo + 1 < fuel -> rest + length todo < fuel ->
  wp (S := cluster) (load_lines fuel me (lines (unwords <$> (tokens <$> todo) ++ [vars_tokens cur vote]) +:+ newlines rest))
    (fun r s' => exists me' A', r = Some me' /\ looks es (with_vars cur vote A') me' s' /\ loaded ds ds A' /\
      (me' = None <-> forall d, d ∈ ds -> MYSELF ∉ d_flags d)) s.
Proof.
  induction todo as [|d todo IH]; intros done A me s fuel Hds Hsplit HL Hld Hme Hc Hv Hf Hr.
  { rewrite app_nil_r in Hsplit. subst done. cbn [fmap list_fmap app lines]. rewrite string_app_assoc, string_app_assoc.
    eapply wp_mono; [apply (wp_load_vars es A me s cur vote rest fuel); [done..|cbn in *; lia|cbn in *; lia]|].
    intros r s' [-> HL']. by exists me, A. }
  assert (Hd : d ∈ ds) by (rewrite Hsplit; apply elem_of_app; right; by left).
  assert (Hdone : forall d', d' ∈ done -> d' ∈ ds) by (intros; rewrite Hsplit; apply elem_of_app; by left).
  pose proof (ds_each _ Hds) as Heach. rewrite Forall_forall in Heach. destruct (Heach d Hd) as (Hok & Hfl & Hsl).
  assert (Hnew : d_name d ∉ names done).
  { pose proof (ds_names _ Hds) as Hnd. rewrite Hsplit in Hnd. unfold names in Hnd. rewrite fmap_app in Hnd.
    apply NoDup_app in Hnd as (_ & Hnd & _). intros Hin. apply (Hnd _ Hin). by left. }
  cbn [fmap list_fmap app lines]. rewrite string_app_assoc, string_app_assoc.
  destruct fuel as [|fuel]; [cbn in Hf; lia|]. rewrite load_lines_cons by (by apply node_line_plain).
  rewrite load_node_line by done. apply wp_cbind. eapply wp_mono.
  { apply (wp_load_node es A me s d HL Hok Hfl); [|by apply (ld_rest _ _ _ Hld)|done|].
    - intros Hmy. apply Hme. intros d' Hd' Hmy'. apply Hnew. rewrite (ds_myself _ Hds d d') by auto. by apply list_elem_of_fmap_2.
    - apply Forall_forall. intros j Hj y w Hw.
      destruct (decide (y ∈ names done)) as [Hy|Hy].
      + apply list_elem_of_fmap in Hy as (d' & -> & Hd'). rewrite (ld_done _ _ _ Hld d' Hd') in Hw. injection Hw as <-.
        cbn. rewrite elem_of_list_to_set. intros Hj'. apply Hnew.
        rewrite (ds_slots _ Hds d d' j) by auto. by apply list_elem_of_fmap_2.
      + destruct (ld_rest _ _ _ Hld y Hy) as [He|He]; rewrite He in Hw; [done|]. injection Hw as <-. cbn. set_solver. }
  intros r s1 (me1 & -> & Hme1 & HL1). eapply wp_mono; [apply (IH (done ++ [d]) (load_desc A d) me1 s1 fuel); [done| |done|by apply loaded_step| |done|done|cbn in *; lia..]|].
  - by rewrite <- app_assoc.
  - rewrite Hme1, Hme. split.
    + intros [H1 H2] d' [Hd'|Hd']%elem_of_app; [by apply H2|]. by apply list_elem_of_singleton in Hd' as ->.
    + intros H. split; [apply H|intros d' Hd'; apply H]; apply elem_of_app; [right; by left|by left].
  - done.
Qed.
(** ** The file *)

Lemma max_epoch_spec s :
  valid_nodes s ->
  exists m, clusterGetMaxEpoch s = Ok (m, s) /\ (currentEpoch s <= m)%Z /\
    (forall x p n, nodes s !! x = Some p -> heap s !! p = Some n -> (n_configEpoch n <= m)%Z) /\
    (m = currentEpoch s \/ m = 0%Z \/ exists x p n, nodes s !! x = Some p /\ heap s !! p = Some n /\ m = n_configEpoch n).
Proof.
  intros Hv. unfold clusterGetMaxEpoch, all_nodes. unfold cbind at 1, gets. cbn [res_bind].
  assert (Hin : forall p, p ∈ snd <$> dict_iter (nodes s) <-> exists x, nodes s !! x = Some p).
  { intros p. rewrite list_elem_of_fmap. setoid_rewrite dict_iter_perm. split.
    - intros ([x q] & -> & Hq). exists x. by apply elem_of_map_to_list in Hq.
    - intros [x Hx]. exists (x, p). split; [done|]. by apply elem_of_map_to_list. }
  assert (Hgo : forall l acc, (forall p, p ∈ l -> exists x, nodes s !! x = Some p) ->
    exists m, cfold l acc (fun max p => let! node := deref p in
      cret (if (n_configEpoch node >? max)%Z then n_configEpoch node else max)) s = Ok (m, s) /\ (acc <= m)%Z /\
      (forall p n, p ∈ l -> heap s !! p = Some n -> (n_configEpoch n <= m)%Z) /\
      (m = acc \/ exists p n, p ∈ l /\ heap s !! p = Some n /\ m = n_configEpoch n)).
  { induction l as [|p l IH]; intros acc Hl; cbn [cfold].
    - exists acc. split_and!; [done|lia|by intros ? ? ?%not_elem_of_nil|by left].
    - destruct (Hl p ltac:(by left)) as [x Hx]. destruct (Hv x p Hx) as [n Hn].
      unfold cbind at 1 2, deref. rewrite Hn. cbn [res_bind cret].
      destruct (IH (if (n_configEpoch n >? acc)%Z then n_configEpoch n else acc)) as (m & Hm & H1 & H2 & H3).
      { intros q Hq. apply Hl. by right. }
      exists m. split; [exact Hm|]. destruct (Z.gtb_spec (n_configEpoch n) acc); split_and!; try lia.
      + intros q n' [->|Hq]%elem_of_cons Hn'; [assert (n' = n) as -> by congruence; lia|by eapply H2].
      + right. destruct H3 as [->|(q & n' & Hq & Hn' & ->)]; [exists p, n; split; [by left|done]|exists q, n'; split; [by right|done]].
      + intros q n' [->|Hq]%elem_of_cons Hn'; [assert (n' = n) as -> by congruence; lia|by eapply H2].
      + destruct H3 as [->|(q & n' & Hq & Hn' & ->)]; [by left|right; exists q, n'; split; [by right|done]]. }
  destruct (Hgo (snd <$> dict_iter (nodes s)) 0%Z) as (m & Hm & H1 & H2 & H3); [intros p; apply Hin|].
  unfold cbind at 1. rewrite Hm. cbn [res_bind]. unfold cbind, gets, cret. cbn [res_bind]. eexists. split; [reflexivity|].
  assert (Hall : forall x p n, nodes s !! x = Some p -> heap s !! p = Some n -> (n_configEpoch n <= m)%Z).
  { intros x p n Hx Hn. apply (H2 p n); [apply Hin; by exists x|done]. }
  destruct (Z.ltb_spec m (currentEpoch s)); split_and!; try lia.
  - intros x p n Hx Hn. specialize (Hall x p n Hx Hn). lia.
  - exact Hall.
  - right. destruct H3 as [->|(p & n & Hp & Hn & ->)]; [by left|right]. apply Hin in Hp as [x Hx]. by exists x, p, n.
Qed.

Lemma lines_length l : length l <= String.length (lines l).
Proof. induction l as [|w l IH]; cbn; [done|]. rewrite !length_string_app. cbn. lia. Qed.

Definition file_text (ds : list node_desc) (cur vote : Z) : string :=
  lines (unwords <$> (tokens <$> ds) ++ [vars_tokens cur vote]).

Lemma file_length ds cur vote : length ds + 1 < String.length (file_text ds cur vote).
Proof.
  unfold file_text. rewrite fmap_app, lines_app, length_string_app.
  pose proof (lines_length (unwords <$> (tokens <$> ds))) as Hl. rewrite !length_fmap in Hl.
  cbn. rewrite length_string_app. cbn. lia.
Qed.

Lemma newlines_length k : String.length (newlines k) = k.
Proof. induction k as [|k IH]; cbn; [done|by rewrite IH]. Qed.

Lemma valid_looks es A me s : looks es A me s -> valid_nodes s.
Proof. intros HL x p Hx. destruct (lk_name _ _ _ _ HL x p Hx) as (n & Hn & _). by eexists. Qed.

Definition no_config (cur vote : Z) : config := mkConfig ∅ ∅ ∅ None cur vote.

Lemma wp_load_file es s ds cur vote c v rest :
  looks es (no_config c v) None s -> descs_ok ds -> (exists d, d ∈ ds /\ MYSELF ∈ d_flags d) ->
  (0 <= cur < 2 ^ 64)%Z -> (0 <= vote < 2 ^ 64)%Z ->
  wp (S := cluster) (clusterLoadConfig (Some (file_text ds cur vote +:+ newlines rest))) (fun r s' => r = C_OK /\
    exists me A cur', looks es (with_vars cur' vote A) (Some me) s' /\ loaded ds ds A /\
      (cur <= cur')%Z /\ (forall d, d ∈ ds -> (d_epoch d <= cur')%Z) /\
      (cur' = cur \/ exists d, d ∈ ds /\ cur' = d_epoch d)) s.
Proof.
  intros HL Hds (my & Hmy & Hmyf) Hc Hv. pose proof (file_length ds cur vote) as Hlen.
  set (text := file_text ds cur vote +:+ newlines rest).
  assert (Htl : String.length text = String.length (file_text ds cur vote) + rest) by (unfold text; by rewrite length_string_app, newlines_length).
  assert (Heq : clusterLoadConfig (Some text) = let! r := load_lines (String.length text) None text in
      match r with
      | Some (Some _) =>
          let! max := clusterGetMaxEpoch in
          let! cur := gets currentEpoch in
          cwhen (max >? cur)%Z (modify (fun s => s <| currentEpoch := max |>)) ;;
          cret C_OK
      | _ => cret EXIT
      end).
  { destruct text; [cbn in Htl; lia|done]. }
  rewrite Heq. apply wp_cbind. eapply wp_mono.
  { apply (wp_load_nodes es ds cur vote rest ds [] (no_config c v) None s); [done|done|done| | |done|done|lia|lia].
    - split; cbn; [by intros ? ?%not_elem_of_nil|by left|by intros ? [? ?]|..]; intros *; (split; [done|intros (? & []%not_elem_of_nil & _)]).
    - split; [by intros _ ? ?%not_elem_of_nil|done]. }
  intros r s1 (me & A & -> & HL1 & Hld & Hme). destruct me as [me|]; [|exfalso; by eapply (proj1 Hme)].
  destruct (max_epoch_spec s1 (valid_looks _ _ _ _ HL1)) as (m & Hm & Hm1 & Hm2 & Hm3).
  apply wp_cbind. exists m, s1. split; [done|]. apply wp_cbind, (wp_get (S := cluster)), wp_cbind.
  assert (Hcur : currentEpoch s1 = cur) by apply (lk_current _ _ _ _ HL1). rewrite Hcur in *.
  assert (Hends : forall s2, looks es (with_vars m vote A) (Some me) s2 ->
    wp (S := cluster) (cret C_OK) (fun r s' => r = C_OK /\ exists me A cur', looks es (with_vars cur' vote A) (Some me) s' /\
      loaded ds ds A /\ (cur <= cur')%Z /\ (forall d, d ∈ ds -> (d_epoch d <= cur')%Z) /\
      (cur' = cur \/ exists d, d ∈ ds /\ cur' = d_epoch d)) s2).
  { intros s2 HL2. apply (wp_ret (S := cluster)). split; [done|]. exists me, A, m. split_and!; [done|done|lia| |].
    - intros d Hd. pose proof (ld_done _ _ _ Hld d Hd) as Hv1. destruct (lk_dom _ _ _ _ HL1 (d_name d)) as [p Hp]; [by eexists|].
      destruct (looks_at _ _ _ _ _ _ HL1 Hp) as (n & Hn & _ & Hv2). change (cf_nodes (with_vars cur vote A)) with (cf_nodes A) in Hv2.
      assert (Hvd : desc_view d = view_of s1 n) by congruence. specialize (Hm2 _ _ _ Hp Hn).
      change (d_epoch d) with (v_epoch (desc_view d)). rewrite Hvd. exact Hm2.
    - destruct Hm3 as [->|[->|(x & p & n & Hx & Hn & ->)]]; [by left|left; lia|].
      destruct (looks_at _ _ _ _ _ _ HL1 Hx) as (n' & Hn' & Hnx & Hv2). assert (n' = n) as -> by congruence.
      change (cf_nodes (with_vars cur vote A)) with (cf_nodes A) in Hv2.
      assert (Hxs : x ∈ names ds) by (apply (ld_known _ _ _ Hld); by eexists).
      apply list_elem_of_fmap in Hxs as (d & -> & Hd). right. exists d. split; [done|].
      assert (Hvd : desc_view d = view_of s1 n) by (pose proof (ld_done _ _ _ Hld d Hd); congruence).
      change (d_epoch d) with (v_epoch (desc_view d)). by rewrite Hvd. }
  destruct (Z.gtb_spec m cur); cbn [cwhen].
  - apply (wp_set (S := cluster)), Hends. assert (Hinv := lk_inv _ _ _ _ HL1). destruct HL1. split; try done. by destruct Hinv.
  - apply (wp_skip (S := cluster)), Hends. assert (m = cur) as -> by lia. done.
Qed.
End file.
