(* ===== verification/ClusterRestart.v ===== *)
(** * A node that restarts

    The configuration that [clusterSaveConfig] writes is the configuration
    that [clusterLoadConfig] reads: nodes, slots, open slots and epochs
    survive a restart, and so does the promise never to vote twice. *)

From Stdlib Require Import Ascii.
From stdpp Require Import base numbers pretty gmap strings list.
From S2P Require Import Prelude Text StateMonad ClusterTypes ClusterSlots ClusterNodes ClusterGossip ClusterCommand ClusterBitmap ClusterInv ClusterPreserve ClusterClaims ClusterCommandProps ClusterConfig ClusterConfigText ClusterConfigRead ClusterConfigLoad ClusterConfigNode ClusterConfigFile.

(** Keys stay distinct in an [omap] that keeps them. *)
Lemma NoDup_omap_key {A B K} (f : A -> option B) (k : A -> K) (k' : B -> K) l :
  (forall a b, a ∈ l -> f a = Some b -> k' b = k a) -> NoDup (k <$> l) -> NoDup (k' <$> omap f l).
Proof.
  induction l as [|a l IH]; intros Hk Hnd; [constructor|]. cbn in Hnd. apply NoDup_cons in Hnd as [Ha Hnd].
  assert (Hk' : forall b c, b ∈ l -> f b = Some c -> k' c = k b) by (intros; apply Hk; [by right|done]).
  cbn. destruct (f a) as [b|] eqn:Hb; [|by apply IH]. cbn. apply NoDup_cons. split; [|by apply IH].
  rewrite (Hk a b) by (done || by left). intros (c & Hc & (d & Hd & Hdc)%list_elem_of_omap)%list_elem_of_fmap.
  rewrite (Hk' d c) in Hc by done. apply Ha. rewrite Hc. by apply list_elem_of_fmap_2.
Qed.

Section restart.
Context `{E : ClusterEnv} `{Cfg : ConfigEnv} `{!ClusterLaws E} `{!ConfigLaws E Cfg}.

(** Node [n], at [p], has a line in the file. *)
Definition in_file (s : cluster) (p : ptr) (n : clusterNode) : Prop :=
  nodes s !! n_name n = Some p /\ heap s !! p = Some n /\ has_flag HANDSHAKE (n_flags n) = false.

(** What the line of a node can hold. *)
Record node_fits (n : clusterNode) : Prop := {
  nf_named : name_ok (n_name n);
  nf_ip : string_all plain_char (n_ip n) = true /\ String.length (n_ip n) < NET_IP_STR_LEN;
  nf_ports : (0 <= n_port n < 2 ^ 31 /\ 0 <= n_cport n < 2 ^ 31)%Z;
  nf_times : (0 <= n_ping_sent n < 2 ^ 64 /\ 0 <= n_pong_received n < 2 ^ 64 /\ 0 <= n_configEpoch n < 2 ^ 64)%Z;
}.

(** A state whose configuration can be saved: the nodes that the
    configuration speaks of have a line of their own. *)
Record saveable (s : cluster) : Prop := {
  sv_slots : slot_inv s;
  sv_pointers : pointers_ok s;
  sv_name : forall x p n, nodes s !! x = Some p -> heap s !! p = Some n -> n_name n = x;
  sv_flags : forall x p n, nodes s !! x = Some p -> heap s !! p = Some n -> flags_named (n_flags n);
  sv_node : forall p n, in_file s p n -> node_fits n;
  sv_master : forall p n m, in_file s p n -> n_slaveof n = Some m -> exists mn, in_file s m mn;
  sv_owner : forall j p, slots s !! j = Some p -> exists n, in_file s p n;
  sv_open : forall j p, migrating_slots_to s !! j = Some p \/ importing_slots_from s !! j = Some p ->
    j < CLUSTER_SLOTS /\ exists n, in_file s p n;
  sv_myself : exists n, in_file s (myself s) n /\ has_flag MYSELF (n_flags n) = true;
  sv_unique : forall p n, in_file s p n -> has_flag MYSELF (n_flags n) = true -> p = myself s;
  sv_epochs : (0 <= currentEpoch s < 2 ^ 64 /\ 0 <= lastVoteEpoch s < 2 ^ 64)%Z;
}.

(** ** The lines of a saveable state fit together *)

Lemma elem_saved s d : saveable s -> d ∈ saved s <-> exists p n, in_file s p n /\ d = describe s n.
Proof.
  intros Hs. unfold saved. rewrite list_elem_of_omap. split.
  - intros ([x p] & Hin & Hd). rewrite dict_iter_perm, elem_of_map_to_list in Hin. cbn in Hd.
    destruct (heap s !! p) as [n|] eqn:Hn; [|done]. destruct (has_flag HANDSHAKE (n_flags n)) eqn:Hh; [done|].
    injection Hd as <-. exists p, n. split; [|done]. split_and!; [|done|done]. by rewrite (sv_name _ Hs x p n).
  - intros (p & n & (Hx & Hn & Hh) & ->). exists (n_name n, p). split; [|cbn; by rewrite Hn, Hh].
    by rewrite dict_iter_perm, elem_of_map_to_list.
Qed.

Lemma in_file_eq s p q n m : in_file s p n -> in_file s q m -> n_name n = n_name m -> p = q /\ n = m.
Proof. intros (H1 & H2 & _) (H3 & H4 & _) He. rewrite He in H1. split; congruence. Qed.

Lemma elem_names s x : saveable s -> x ∈ names (saved s) <-> exists p n, in_file s p n /\ n_name n = x.
Proof.
  intros Hs. unfold names. rewrite list_elem_of_fmap. split.
  - intros (d & -> & (p & n & Hn & ->)%(elem_saved _ _ Hs)). by exists p, n.
  - intros (p & n & Hn & <-). exists (describe s n). split; [done|]. apply elem_saved; [done|]. by exists p, n.
Qed.

Lemma saved_names s : saveable s -> NoDup (names (saved s)).
Proof.
  intros Hs. apply (NoDup_omap_key _ fst); [|rewrite dict_iter_perm; apply NoDup_fst_map_to_list].
  intros [x p] d Hin Hd. rewrite dict_iter_perm, elem_of_map_to_list in Hin. cbn in Hd.
  destruct (heap s !! p) as [n|] eqn:Hn; [|done]. destruct (has_flag _ _); [done|]. injection Hd as <-.
  by apply (sv_name _ Hs x p).
Qed.

Lemma separate_ordered lo rs : separate lo rs -> Forall (fun r => r.1 <= r.2) rs.
Proof. revert lo. induction rs as [|r rs IH]; intros lo; cbn; [done|]. intros [? ?]. constructor; [lia|eauto]. Qed.

Lemma expand_length rs : Forall (fun r => r.1 <= r.2) rs -> length rs <= length (concat (expand <$> rs)).
Proof. induction 1 as [|r rs Hr _ IH]; cbn; [done|]. rewrite length_app. unfold expand at 1. rewrite length_seq. lia. Qed.

Lemma expand_ranges n : concat (expand <$> node_ranges n) = List.filter (clusterNodeGetSlotBit n) all_slots.
Proof. apply (slot_ranges_spec (clusterNodeGetSlotBit n) CLUSTER_SLOTS 0 eq_refl). Qed.

Lemma ranges_fit n :
  length (node_ranges n) <= CLUSTER_SLOTS /\ Forall (fun r => r.1 <= r.2 < CLUSTER_SLOTS) (node_ranges n).
Proof.
  pose proof (expand_ranges n) as He.
  assert (Ho : Forall (fun r => r.1 <= r.2) (node_ranges n)).
  { eapply separate_ordered, (slot_ranges_spec (clusterNodeGetSlotBit n) CLUSTER_SLOTS 0 eq_refl). }
  split.
  - etransitivity; [by apply expand_length|]. rewrite He. etransitivity; [apply List.filter_length_le|].
    unfold all_slots. by rewrite length_seq.
  - apply Forall_forall. intros r Hr. rewrite Forall_forall in Ho. specialize (Ho r Hr). split; [done|].
    apply all_slots_lt. assert (Hin : r.2 ∈ concat (expand <$> node_ranges n)).
    { apply list_elem_of_In, List.in_concat. exists (expand r). split; apply list_elem_of_In; [by apply list_elem_of_fmap_2|unfold expand; apply elem_of_seq; lia]. }
    rewrite He, list_elem_of_In, filter_In, <- list_elem_of_In in Hin. apply Hin.
Qed.

Lemma omap_length {A B} (f : A -> option B) l : length (omap f l) <= length l.
Proof. induction l as [|a l IH]; cbn; [done|]. destruct (f a); cbn; lia. Qed.

Lemma elem_open s n o : o ∈ d_open (describe s n) -> open_entry s o.1.1 = Some o /\ has_flag MYSELF (n_flags n) = true.
Proof.
  cbn. destruct (has_flag MYSELF (n_flags n)); [|by intros ?%not_elem_of_nil].
  intros (j & _ & Hj)%list_elem_of_omap. split; [|done].
  assert (j = o.1.1) as <-; [|done]. revert Hj. unfold open_entry.
  destruct (migrating_slots_to s !! j) as [p|]; [|destruct (importing_slots_from s !! j) as [p|]; [|done]];
    (destruct (name_of s p); cbn; [by intros [= <-]|done]).
Qed.

Lemma open_entry_in s o : saveable s -> open_entry s o.1.1 = Some o ->
  o.1.1 < CLUSTER_SLOTS /\ exists p n, in_file s p n /\ n_name n = o.2.
Proof.
  intros Hs Ho. assert (exists p, (migrating_slots_to s !! o.1.1 = Some p \/ importing_slots_from s !! o.1.1 = Some p) /\
    name_of s p = Some o.2) as (p & Hp & Hn).
  { revert Ho. unfold open_entry.
    destruct (migrating_slots_to s !! o.1.1) as [p|]; [|destruct (importing_slots_from s !! o.1.1) as [p|]; [|done]];
      (destruct (name_of s p) as [x|] eqn:Hx; cbn; [intros [= <-]; exists p; cbn; eauto|done]). }
  destruct (sv_open _ Hs _ _ Hp) as (Hj & n & Hf). split; [done|]. exists p, n. split; [done|].
  destruct Hf as (_ & Hn' & _). unfold name_of in Hn. rewrite Hn' in Hn. cbn in Hn. congruence.
Qed.

Lemma describe_ok s p n : saveable s -> in_file s p n -> desc_ok (describe s n).
Proof.
  intros Hs Hf. destruct (sv_node _ Hs p n Hf) as [H1 H2 H3 H4]. split; try done.
  - cbn [describe d_flags]. split; [apply List.filter_length_le|]. apply Forall_forall. intros g. unfold set_flags.
    rewrite list_elem_of_In, filter_In, <- list_elem_of_In. by intros [? _].
  - intros m. cbn. destruct (n_slaveof n) as [q|] eqn:Hq; [|done]. destruct (sv_master _ Hs p n q Hf Hq) as (mn & Hm).
    cbn. unfold name_of. pose proof Hm as (_ & -> & _). cbn. intros [= <-]. by apply (sv_node _ Hs q).
  - apply ranges_fit.
  - split.
    + cbn [describe d_open]. destruct (has_flag _ _); [|cbn; lia]. etransitivity; [apply omap_length|].
      unfold all_slots. by rewrite length_seq.
    + apply Forall_forall. intros o [Ho _]%elem_open. destruct (open_entry_in _ _ Hs Ho) as (Hj & q & m & Hm & <-).
      split; [done|]. by apply (sv_node _ Hs q).
Qed.

Lemma elem_desc_slots s n j : j ∈ desc_slots (describe s n) <-> j < CLUSTER_SLOTS /\ clusterNodeGetSlotBit n j = true.
Proof.
  unfold desc_slots. cbn [describe d_ranges]. rewrite expand_ranges, <- elem_slots_of. unfold slots_of.
  by rewrite elem_of_list_to_set.
Qed.

Lemma saved_ok s : saveable s -> descs_ok (saved s).
Proof.
  intros Hs. split.
  - apply Forall_forall. intros d (p & n & Hf & ->)%(elem_saved _ _ Hs). split_and!; [by eapply describe_ok| |].
    + apply NoDup_ListNoDup, List.NoDup_filter, NoDup_ListNoDup. unfold named_flags. apply (bool_decide_unpack _). vm_compute. done.
    + unfold desc_slots. cbn [describe d_ranges]. rewrite expand_ranges. apply NoDup_ListNoDup, List.NoDup_filter, List.seq_NoDup.
  - by apply saved_names.
  - intros d m (p & n & Hf & ->)%(elem_saved _ _ Hs). cbn. destruct (n_slaveof n) as [q|] eqn:Hq; [|done].
    destruct (sv_master _ Hs p n q Hf Hq) as (mn & Hm). cbn. unfold name_of. pose proof Hm as (_ & -> & _).
    intros [= <-]. apply elem_names; [done|]. by exists q, mn.
  - intros d o (p & n & Hf & ->)%(elem_saved _ _ Hs) [Ho _]%elem_open. apply elem_names; [done|].
    by apply open_entry_in.
  - intros d d' j (p & n & Hf & ->)%(elem_saved _ _ Hs) (q & m & Hm & ->)%(elem_saved _ _ Hs).
    rewrite !elem_desc_slots. intros [Hj Hb] [_ Hb']. destruct Hf as (_ & Hn & _), Hm as (_ & Hm & _).
    pose proof (iv_bit _ (sv_slots _ Hs) _ _ _ Hn Hj Hb). pose proof (iv_bit _ (sv_slots _ Hs) _ _ _ Hm Hj Hb'). cbn. congruence.
  - intros d d' o o' (p & n & Hf & ->)%(elem_saved _ _ Hs) (q & m & Hm & ->)%(elem_saved _ _ Hs).
    intros [H1 _]%elem_open [H2 _]%elem_open He. congruence.
  - intros d d' (p & n & Hf & ->)%(elem_saved _ _ Hs) (q & m & Hm & ->)%(elem_saved _ _ Hs).
    change (d_flags (describe s ?n)) with (set_flags (n_flags n)).
    rewrite !elem_set_flags by (by left). intros H1 H2. apply (sv_unique _ Hs p n Hf) in H1. apply (sv_unique _ Hs q m Hm) in H2.
    subst. cbn. destruct Hf as (_ & Hn & _), Hm as (_ & Hm & _). congruence.
Qed.

Lemma describe_view s n : desc_view (describe s n) = view_of s n.
Proof.
  unfold desc_view, view_of. cbn [describe d_ip d_port d_cport d_flags d_master d_epoch d_ranges]. f_equal.
  - apply filter_ext_named. intros g Hg. by apply decide_set_flags.
  - unfold slots_of. by rewrite expand_ranges.
Qed.

(** ** What is restored *)

(** [s'] knows of the cluster what the file of [s] says: its nodes, by name
    and without those still in a handshake, who owns and who moves a slot,
    who the node itself is, and the epochs. *)
Record restored (s s' : cluster) : Prop := {
  rs_node : forall p n, in_file s p n -> exists p' n',
    nodes s' !! n_name n = Some p' /\ heap s' !! p' = Some n' /\ n_name n' = n_name n /\ view_of s' n' = view_of s n;
  rs_only : forall x p', nodes s' !! x = Some p' -> exists p n, in_file s p n /\ n_name n = x;
  rs_heap : forall p' n', heap s' !! p' = Some n' -> nodes s' !! n_name n' = Some p';
  rs_slots : forall j, slots s' !! j ≫= name_of s' = slots s !! j ≫= name_of s;
  rs_migrating : forall j, migrating_slots_to s' !! j ≫= name_of s' = migrating_slots_to s !! j ≫= name_of s;
  rs_importing : forall j, importing_slots_from s' !! j ≫= name_of s' =
    match migrating_slots_to s !! j with Some _ => None | None => importing_slots_from s !! j ≫= name_of s end;
  rs_myself : name_of s' (myself s') = name_of s (myself s);
  rs_vote : lastVoteEpoch s' = lastVoteEpoch s;
  rs_current : (currentEpoch s <= currentEpoch s')%Z /\
    (currentEpoch s' = currentEpoch s \/ exists p n, in_file s p n /\ currentEpoch s' = n_configEpoch n);
  rs_inv : slot_inv s';
}.

(** A process before it reads its configuration. *)
Definition fresh (s : cluster) : Prop :=
  heap s = ∅ /\ nodes s = ∅ /\ slots s = ∅ /\ migrating_slots_to s = ∅ /\ importing_slots_from s = ∅.

Lemma fresh_looks s : fresh s -> looks (effects s) (no_config (currentEpoch s) (lastVoteEpoch s)) None s.
Proof.
  intros (Hh & Hn & Hs & Hm & Hi). split; rewrite ?Hh, ?Hn, ?Hm, ?Hi; try done.
  - split; rewrite ?Hh, ?Hs; done.
  - by intros x [? ?].
  - by intros j p [?|?].
Qed.

Lemma open_in_desc s p n j b x : in_file s p n -> has_flag MYSELF (n_flags n) = true -> j < CLUSTER_SLOTS ->
  (j, b, x) ∈ d_open (describe s n) <-> open_entry s j = Some (j, b, x).
Proof.
  intros _ Hf Hj. split; [by intros [H _]%elem_open|]. intros Ho. cbn [describe d_open]. rewrite Hf. apply list_elem_of_omap. exists j.
  split; [|done]. unfold all_slots. apply elem_of_seq. lia.
Qed.

(** The open slots of the file: those of the state. *)
Lemma saved_open s j b x : saveable s ->
  (exists d, d ∈ saved s /\ (j, b, x) ∈ d_open d) <-> open_entry s j = Some (j, b, x).
Proof.
  intros Hs. split.
  - intros (d & (p & n & Hn & ->)%(elem_saved _ _ Hs) & [Ho _]%elem_open). done.
  - intros Ho. destruct (sv_myself _ Hs) as (n & Hn & Hf). exists (describe s n).
    split; [apply elem_saved; [done|]; by exists (myself s), n|].
    destruct (open_entry_in _ (j, b, x) Hs Ho) as [Hj _]. by eapply open_in_desc.
Qed.

Lemma option_same {A} (a b : option A) : (forall x, a = Some x <-> b = Some x) -> a = b.
Proof. intros H. destruct a as [x|]; [symmetry; by apply H|]. destruct b as [x|]; [by apply H|done]. Qed.

(** Every open slot has a node with a name. *)
Lemma open_named s j p : saveable s ->
  migrating_slots_to s !! j = Some p \/ importing_slots_from s !! j = Some p -> exists x, name_of s p = Some x.
Proof.
  intros Hs Hp. destruct (sv_open _ Hs _ _ Hp) as (_ & n & _ & Hn & _). exists (n_name n). unfold name_of. by rewrite Hn.
Qed.

Lemma open_entry_migrating s j x : saveable s ->
  open_entry s j = Some (j, true, x) <-> migrating_slots_to s !! j ≫= name_of s = Some x.
Proof.
  intros Hs. unfold open_entry. destruct (migrating_slots_to s !! j) as [p|]; cbn.
  - destruct (name_of s p); cbn; [naive_solver|done].
  - destruct (importing_slots_from s !! j) as [p|]; [|done]. destruct (name_of s p); naive_solver.
Qed.
Lemma open_entry_importing s j x : saveable s ->
  open_entry s j = Some (j, false, x) <->
  match migrating_slots_to s !! j with Some _ => None | None => importing_slots_from s !! j ≫= name_of s end = Some x.
Proof.
  intros Hs. unfold open_entry. destruct (migrating_slots_to s !! j) as [p|]; cbn.
  - destruct (name_of s p); cbn; naive_solver.
  - destruct (importing_slots_from s !! j) as [p|]; [|done]. cbn. destruct (name_of s p); naive_solver.
Qed.

(** The nodes of the view after loading: those of the file, as they were. *)
Lemma loaded_nodes s A x v : saveable s -> loaded (saved s) (saved s) A ->
  cf_nodes A !! x = Some v <-> exists p n, in_file s p n /\ n_name n = x /\ v = view_of s n.
Proof.
  intros Hs HA. assert (Hd : forall p n, in_file s p n -> cf_nodes A !! n_name n = Some (view_of s n)).
  { intros p n Hn. rewrite <- describe_view. apply (ld_done _ _ _ HA (describe s n)). apply elem_saved; [done|]. by exists p, n. }
  split.
  - intros Hv. assert (Hx : x ∈ names (saved s)) by (apply (ld_known _ _ _ HA); by eexists).
    apply (elem_names _ _ Hs) in Hx as (p & n & Hn & <-). exists p, n. split_and!; [done|done|].
    rewrite (Hd p n Hn) in Hv. congruence.
  - intros (p & n & Hn & <- & ->). by apply (Hd p).
Qed.

Lemma view_bit s n s' n' j : view_of s' n' = view_of s n -> j < CLUSTER_SLOTS ->
  clusterNodeGetSlotBit n j = true -> clusterNodeGetSlotBit n' j = true.
Proof.
  intros Hv Hj Hb. pose proof (f_equal v_slots Hv) as Hsl. cbn in Hsl.
  apply (elem_slots_of n'). rewrite Hsl. by apply elem_slots_of.
Qed.

Lemma looks_restored es s s' me A cur' :
  saveable s -> looks es (with_vars cur' (lastVoteEpoch s) A) (Some me) s' -> loaded (saved s) (saved s) A ->
  (currentEpoch s <= cur')%Z -> (cur' = currentEpoch s \/ exists d, d ∈ saved s /\ cur' = d_epoch d) ->
  restored s s'.
Proof.
  intros Hs HL HA Hcur Hcur2. pose proof (fun x v => loaded_nodes s A x v Hs HA) as HN.
  assert (Hnode : forall p n, in_file s p n -> exists p' n',
    nodes s' !! n_name n = Some p' /\ heap s' !! p' = Some n' /\ n_name n' = n_name n /\ view_of s' n' = view_of s n).
  { intros p n Hn. assert (Hv : cf_nodes A !! n_name n = Some (view_of s n)) by (apply HN; by exists p, n).
    destruct (lk_dom _ _ _ _ HL (n_name n)) as [p' Hp']; [by eexists|].
    destruct (looks_at _ _ _ _ _ _ HL Hp') as (n' & Hn' & Hx & Hv'). exists p', n'. split_and!; try done. cbn in Hv'. congruence. }
  assert (Honly : forall p' n', heap s' !! p' = Some n' -> exists p n, in_file s p n /\ n_name n = n_name n' /\ view_of s' n' = view_of s n).
  { intros p' n' Hn'. by apply HN, (lk_view _ _ _ _ HL p'). }
  pose proof (lk_inv _ _ _ _ HL) as Hinv.
  split; try done.
  - intros x p' Hp'. destruct (lk_name _ _ _ _ HL x p' Hp') as (n' & Hn' & <-).
    destruct (Honly _ _ Hn') as (p & n & ? & ? & _). by exists p, n.
  - apply (lk_known _ _ _ _ HL).
  - intros j. destruct (slots s !! j) as [p|] eqn:Hj.
    + destruct (sv_owner _ Hs j p Hj) as (n & Hn). destruct (iv_owner _ (sv_slots _ Hs) _ _ Hj) as (Hlt & n2 & Hn2 & Hb).
      destruct (Hnode p n Hn) as (p' & n' & Hp' & Hn' & Hname & Hv). destruct Hn as (_ & Hn & _).
      assert (n2 = n) as -> by congruence. pose proof (view_bit _ _ _ _ j Hv Hlt Hb) as Hb'.
      rewrite (iv_bit _ Hinv p' n' j Hn' Hlt Hb'). cbn. unfold name_of. rewrite Hn, Hn'. cbn. by rewrite Hname.
    + destruct (slots s' !! j) as [p'|] eqn:Hj'; [|done]. exfalso.
      destruct (iv_owner _ Hinv _ _ Hj') as (Hlt & n' & Hn' & Hb'). destruct (Honly _ _ Hn') as (p & n & Hn & _ & Hv).
      pose proof (view_bit _ _ _ _ j (eq_sym Hv) Hlt Hb') as Hb. destruct Hn as (_ & Hn & _).
      rewrite (iv_bit _ (sv_slots _ Hs) p n j Hn Hlt Hb) in Hj. done.
  - intros j. rewrite (lk_migrating _ _ _ _ HL). apply option_same. intros x. cbn.
    by rewrite (ld_migrating _ _ _ HA), saved_open, open_entry_migrating.
  - intros j. rewrite (lk_importing _ _ _ _ HL). apply option_same. intros x. cbn.
    by rewrite (ld_importing _ _ _ HA), saved_open, open_entry_importing.
  - destruct (lk_myself _ _ _ _ HL) as (-> & _ & ->). cbn. destruct (sv_myself _ Hs) as (n & Hn & Hf).
    unfold name_of. pose proof Hn as (_ & -> & _). cbn. apply (ld_myself _ _ _ HA). exists (describe s n).
    split_and!; [apply elem_saved; [done|]; by exists (myself s), n| |done].
    change (d_flags (describe s n)) with (set_flags (n_flags n)). by rewrite elem_set_flags by (by left).
  - apply (lk_vote _ _ _ _ HL).
  - rewrite (lk_current _ _ _ _ HL). cbn. split; [done|]. destruct Hcur2 as [|(d & (p & n & Hn & ->)%(elem_saved _ _ Hs) & ->)]; [by left|].
    right. by exists p, n.
Qed.

Lemma saveable_text s : saveable s -> config_text s = Ok (file_text (saved s) (currentEpoch s) (lastVoteEpoch s), s).
Proof. intros Hs. apply config_lines; [apply (sv_pointers _ Hs)|apply (sv_flags _ Hs)]. Qed.

(** Saving clears flags of the loop, and nothing else. *)
Definition with_todo (l : list TodoFlag) (s : cluster) : cluster := s <| todo_before_sleep := l |>.

Lemma saveable_todo l s : saveable s -> saveable (with_todo l s).
Proof. intros [[] ? ? ? ? ? ? ? ? ?]. by split. Qed.

Lemma save_text s do_fsync can_truncate old : saveable s -> exists k l,
  clusterSaveConfig do_fsync true can_truncate old s =
    Ok (Some (file_text (saved s) (currentEpoch s) (lastVoteEpoch s) +:+ newlines k), with_todo l s).
Proof.
  intros Hs. unfold clusterSaveConfig, clear_todo. unfold cbind at 1, modify. cbn [res_bind].
  set (l1 := List.filter (fun g => negb (bool_decide (g = TODO_SAVE_CONFIG))) (todo_before_sleep s)).
  change (s <| todo_before_sleep ::= _ |>) with (with_todo l1 s).
  unfold cbind at 1. rewrite (saveable_text (with_todo l1 s)) by by apply saveable_todo. cbn [res_bind].
  change (saved (with_todo l1 s)) with (saved s). set (text := file_text _ _ _).
  exists (if can_truncate then 0 else String.length old - String.length text).
  destruct do_fsync, can_truncate; eexists; cbn [newlines]; rewrite ?string_app_nil_r; reflexivity.
Qed.

Lemma load_restores s s0 k : saveable s -> fresh s0 -> exists s',
  clusterLoadConfig (Some (file_text (saved s) (currentEpoch s) (lastVoteEpoch s) +:+ newlines k)) s0 = Ok (C_OK, s') /\
  restored s s' /\ effects s' = effects s0.
Proof.
  intros Hs Hf. destruct (sv_epochs _ Hs) as [Hc Hv].
  destruct (wp_load_file (effects s0) s0 (saved s) (currentEpoch s) (lastVoteEpoch s) _ _ k (fresh_looks s0 Hf) (saved_ok s Hs))
    as (r & s' & Hr & -> & me & A & cur' & HL & HA & Hle & _ & Hcur); [|done|done|].
  - destruct (sv_myself _ Hs) as (n & Hn & Hmy). exists (describe s n).
    split; [apply elem_saved; [done|]; by exists (myself s), n|].
    change (d_flags (describe s n)) with (set_flags (n_flags n)). by rewrite elem_set_flags by (by left).
  - exists s'. split_and!; [done|by eapply looks_restored|apply (lk_effects _ _ _ _ HL)].
Qed.

(** A file that was saved can be loaded. *)
Lemma save_load s s0 do_fsync can_truncate old file s1 :
  saveable s -> fresh s0 -> clusterSaveConfig do_fsync true can_truncate old s = Ok (Some file, s1) ->
  exists s', clusterLoadConfig (Some file) s0 = Ok (C_OK, s') /\ restored s s' /\ effects s' = effects s0.
Proof.
  intros Hs Hf H. destruct (save_text s do_fsync can_truncate old Hs) as (k & l & Hk). rewrite Hk in H.
  injection H as <- _. by apply load_restores.
Qed.

(** C6. The configuration of a [saveable] state survives a restart.  A state
    is saveable when its slot table is consistent, the node table is keyed by
    the nodes' names and every node in it has only flags the file has a name
    for, every node that owns a slot, is a master of a saved node or is named
    by an open slot is in the table and out of handshake, the fields of each
    saved node fit their columns (a 40-character name, an address below
    [NET_IP_STR_LEN] without separators, ports, times and epochs of their
    width), and this node, out of handshake, is the only one flagged
    [myself].  (A state outside it, such as an address with a separator in
    it, can write a file that is refused.)  Saving such a state succeeds when
    the file can be written, whether or not it can be truncated and whatever
    it held before; a new process, whose tables are still empty, reads it
    back without an error, and then knows what the node knew: every node that
    is not in a handshake by its name, with the same address, flags, master,
    config epoch and slots, and no other node; the same owner of every slot;
    the nodes its slots migrate to and are imported from (a slot that does
    both only migrates afterwards); itself; the epoch of its last vote; and
    the current epoch, raised to the config epoch of a node if that is
    greater. *)
Theorem config_survives_restart s s0 do_fsync can_truncate old :
  saveable s -> fresh s0 ->
  exists file s1 s', clusterSaveConfig do_fsync true can_truncate old s = Ok (Some file, s1) /\
    clusterLoadConfig (Some file) s0 = Ok (C_OK, s') /\ restored s s' /\ effects s' = effects s0.
Proof.
  intros Hs Hf. destruct (save_text s do_fsync can_truncate old Hs) as (k & l & Hk).
  destruct (load_restores s s0 k Hs Hf) as (s' & H).
  eexists _, _, s'. split; [exact Hk|exact H].
Qed.
End restart.
