(* ===== verification/ClusterLives.v ===== *)
(** * The lives of a node

    A node starts with a configuration file, whatever is in it, runs, saves
    its configuration, dies, and starts again.  The slot table stays
    consistent whatever the file holds, and no epoch gets two votes over all
    lives together. *)

From Stdlib Require Import Ascii Sorted.
From stdpp Require Import base numbers gmap strings list.
From S2P Require Import Prelude Text ClusterTypes ClusterSlots ClusterNodes ClusterGossip ClusterCommand ClusterBitmap ClusterInv ClusterPreserve ClusterSystem ClusterConfig ClusterConfigText ClusterConfigRead ClusterConfigFile ClusterRestart.

Section any_file.
Context `{E : ClusterEnv} `{Cfg : ConfigEnv} `{!ClusterLaws E}.
Implicit Types s : cluster.

(** Start with this configuration file, or without one, and handle [evs]. *)
Definition start_and_run (file : option string) (locked : bool) (evs : list event) : C unit :=
  clusterInit locked (load_or_exit file) ;; run evs.

Lemma start_split file locked evs s0 u s :
  start_and_run file locked evs s0 = Ok (u, s) ->
  exists v s1, clusterInit locked (load_or_exit file) s0 = Ok (v, s1) /\ run evs s1 = Ok (u, s).
Proof. intros H. by apply cbind_ok in H. Qed.

(** ** The loader keeps the slot table consistent *)

#[local] Hint Resolve pres_clusterAddSlot pres_createClusterNode pres_clusterAddNode pres_clusterLookupNode
  pres_clusterNodeAddSlave pres_all_nodes : pres.

Abbreviation keeps := (pres (Inv None)).

Lemma keeps_epochs f : (forall s, heap (f s) = heap s /\ next_ptr (f s) = next_ptr s /\ slots (f s) = slots s) ->
  keeps (modify f).
Proof.
  intros Hf. apply pres_modify. intros s [[] _]. destruct (Hf s) as (H1 & H2 & H3). split; [|done].
  split; rewrite ?H1, ?H2, ?H3; done.
Qed.

Lemma keeps_lookup_or_create x : keeps (lookup_or_create x).
Proof.
  unfold lookup_or_create, name_at. apply pres_bind; [case_match; pres|intros y]. pres.
Qed.
#[local] Hint Resolve keeps_lookup_or_create : pres.

Lemma keeps_load_vars argv : keeps (load_vars argv).
Proof.
  cut (forall k argv, length argv <= k -> keeps (load_vars argv)); [intros H; by eapply H|].
  clear argv. induction k as [|k IH]; intros [|x argv] Hk; cbn in Hk; try (cbn; apply pres_skip); [lia|].
  cbn [load_vars]. destruct argv as [|v argv]; cbn in Hk.
  - repeat case_match; pres.
  - assert (keeps (load_vars argv)) by (apply IH; lia). repeat case_match; try done;
      (apply pres_bind; [by apply keeps_epochs|intros _; done]).
Qed.

Lemma keeps_load_flags l : forall p me, keeps (load_flags p me l).
Proof. induction l as [|w l IH]; intros p me; cbn [load_flags]; [pres|]. repeat case_match; pres. Qed.

Lemma keeps_load_address p w : keeps (load_address p w).
Proof. unfold load_address. repeat case_match; pres. Qed.

Lemma keeps_load_master p w : keeps (load_master p w).
Proof. unfold load_master. repeat case_match; pres. Qed.

Lemma keeps_load_range p a b : keeps (load_range p a b).
Proof.
  unfold load_range. destruct (Z.leb_spec a b); [|pres]. destruct (Z.ltb_spec a 0); [pres|].
  destruct (Z.leb_spec (Z.of_nat CLUSTER_SLOTS) b); [pres|]. cbn [orb].
  apply pres_for. intros j Hj%elem_of_seq. assert (j < CLUSTER_SLOTS) by lia. pres.
Qed.

Lemma keeps_load_slots p w : keeps (load_slots p w).
Proof.
  unfold load_slots, load_open_slot. pose proof (keeps_load_range p). repeat case_match; try done; pres;
    apply keeps_epochs; done.
Qed.
#[local] Hint Resolve keeps_load_vars keeps_load_flags keeps_load_address keeps_load_master keeps_load_slots : pres.

Lemma keeps_load_node me argv : keeps (load_node me argv).
Proof. unfold load_node. pres. Qed.
#[local] Hint Resolve keeps_load_node : pres.

Lemma keeps_load_line me line : keeps (load_line me line).
Proof. unfold load_line. pres. Qed.

Lemma keeps_load_lines fuel : forall me file, keeps (load_lines fuel me file).
Proof.
  induction fuel as [|fuel IH]; intros me [|c file]; cbn [load_lines]; try apply pres_ret; [by intros s a s' _ H|].
  destruct (fgets _ _) as [line rest]. apply pres_bind; [apply keeps_load_line|intros [me'|]; [apply IH|apply pres_ret]].
Qed.

Lemma keeps_max_epoch : keeps clusterGetMaxEpoch.
Proof. unfold clusterGetMaxEpoch. pres. Qed.
#[local] Hint Resolve keeps_load_lines keeps_max_epoch : pres.

Lemma keeps_loader file : keeps (load_or_exit file).
Proof.
  unfold load_or_exit, clusterLoadConfig. apply pres_bind; [|intros []; pres].
  destruct file as [[|c text]|]; [apply pres_ret| |apply pres_ret].
  apply pres_bind; [apply keeps_load_lines|intros r]. destruct r as [[p|]|]; [|apply pres_ret..].
  apply pres_bind; [apply keeps_max_epoch|intros m]. apply pres_bind; [apply pres_gets|intros c0].
  apply pres_bind; [|intros; apply pres_ret]. apply pres_when. by apply keeps_epochs.
Qed.

(** Nothing is allocated yet. *)
Definition empty_heap s : Prop := heap s = ∅.

(** What [clusterInit] does before it loads the configuration. *)
Definition cleared s : cluster :=
  s <| currentEpoch := 0%Z |> <| state := CLUSTER_FAIL |> <| size := 1%Z |>
    <| todo_before_sleep := [] |> <| nodes := ∅ |> <| nodes_black_list := ∅ |>
    <| failover_auth_time := 0%Z |> <| failover_auth_count := 0%Z |>
    <| failover_auth_rank := 0%Z |> <| failover_auth_epoch := 0%Z |>
    <| cant_failover_reason := CANT_FAILOVER_NONE |> <| lastVoteEpoch := 0%Z |>
    <| stats_sent := [] |> <| stats_received := [] |> <| stats_pfail_nodes := 0%Z |>
    <| slots := ∅ |> <| migrating_slots_to := ∅ |> <| importing_slots_from := ∅ |>.

(** ... and after it. *)
Definition finish_init (loaded : bool) : C unit :=
  cwhen (negb loaded)
    (let! p := createClusterNode None (Z.lor (flag MYSELF) (flag MASTER)) in
     modify (fun s => s <| myself := p |>) ;;
     let! _ := clusterAddNode p in skip) ;;
  cwhen (negb loaded) (clusterSaveConfigOrDie true) ;;
  serverAssert (negb (server_port >? 65535 - CLUSTER_PORT_INCR)%Z) ;;
  let! me := gets myself in
  update me (fun n => n
    <| n_port := if (cluster_announce_port =? 0)%Z then server_port else cluster_announce_port |>
    <| n_cport := if (cluster_announce_bus_port =? 0)%Z then (server_port + CLUSTER_PORT_INCR)%Z
                  else cluster_announce_bus_port |>) ;;
  modify (fun s => s <| mf_end := 0%Z |>) ;;
  resetManualFailover.

Lemma init_split locked load s u s' :
  clusterInit locked load s = Ok (u, s') ->
  exists b s1, load (cleared s) = Ok (b, s1) /\ finish_init b s1 = Ok (u, s').
Proof.
  intros H. unfold clusterInit in H. apply cbind_ok in H as (? & s1 & [= _ <-] & H).
  unfold clusterCloseAllSlots in H. apply cbind_ok in H as (? & s2 & [= _ <-] & H).
  apply cbind_ok in H as (? & s3 & H0 & H). unfold serverAssert in H0. destruct locked; [|done]. injection H0 as _ <-.
  apply cbind_ok in H as (b & s4 & Hl & H). exists b, s4. split; [exact Hl|exact H].
Qed.

#[local] Hint Resolve pres_resetManualFailover pres_clusterSaveConfigOrDie : pres.
Lemma pres_finish oe b : pres (Inv oe) (finish_init b).
Proof. unfold finish_init. pres. Qed.

Lemma cleared_inv s : empty_heap s -> slot_inv (cleared s).
Proof. intros Hh. split; cbn; rewrite ?Hh; by intros *. Qed.

Lemma any_file_inv file locked evs s0 u s :
  empty_heap s0 -> Forall event_ok evs -> start_and_run file locked evs s0 = Ok (u, s) -> slot_inv s.
Proof.
  intros Hh Hok H. apply start_split in H as (? & s1 & H1 & H2). apply init_split in H1 as (b & s2 & Hl & Hi).
  assert (Hs2 : Inv None s2) by (eapply keeps_loader; [split; [by apply cleared_inv|exact I]|exact Hl]).
  assert (Hs1 : Inv None s1) by (eapply pres_finish; eassumption).
  eapply (pres_run None evs Hok (or_introl eq_refl)); eassumption.
Qed.

(** C5. Slot ownership, whatever the configuration file holds.  Start a node
    with any file, or none, and let any sequence of events happen to it.  If
    it has not crashed, then slot [j] has owner [p] in the slot table exactly
    when [p] is an allocated node whose bitmap has bit [j] set, two nodes
    never both have the bit of a slot, and every node's [numslots] is the
    number of bits of its bitmap. *)
Theorem any_file_slot_ownership file locked evs s0 u s :
  empty_heap s0 -> Forall event_ok evs -> start_and_run file locked evs s0 = Ok (u, s) ->
  (forall j p, slots s !! j = Some p <->
     j < CLUSTER_SLOTS /\ exists n, heap s !! p = Some n /\ clusterNodeGetSlotBit n j = true) /\
  (forall j p q n m, j < CLUSTER_SLOTS -> heap s !! p = Some n -> heap s !! q = Some m ->
     clusterNodeGetSlotBit n j = true -> clusterNodeGetSlotBit m j = true -> p = q) /\
  (forall p n, heap s !! p = Some n ->
     n_numslots n = Z.of_nat (length (List.filter (clusterNodeGetSlotBit n) all_slots))).
Proof.
  intros Hb Hok H. apply any_file_inv in H as [H1 H2 H3 H4 H5]; [|done..].
  unfold clusterNodeGetSlotBit. split_and!.
  - intros j p. split; [apply H3|]. intros (Hj & n & Hn & Hbit). by eapply H4.
  - intros j p q n m Hj Hn Hm Hpn Hqm. pose proof (H4 _ _ _ Hn Hj Hpn). pose proof (H4 _ _ _ Hm Hj Hqm).
    congruence.
  - apply H5.
Qed.
End any_file.

(** ** Lives *)

Section lives.
Context `{E : ClusterEnv} `{Cfg : ConfigEnv} `{!ClusterLaws E} `{!ConfigLaws E Cfg}.
Implicit Types s : cluster.

Definition soft (evs : list event) : Prop := Forall event_ok evs /\ Forall (fun e => hard_reset e = false) evs.

(** The states of a node over its lives; nobody resets it with HARD and the
    64-bit epoch counter never wraps around.  The effects are those of all
    lives: what was sent stays sent.  A node that died in state [dead] starts
    again from the configuration it saved in state [s], after its last
    vote. *)
Inductive life : cluster -> Prop :=
| first_life s0 evs u s :
    blank s0 -> soft evs -> start_and_run None true evs s0 = Ok (u, s) -> EpochWrapped ∉ effects s -> life s
| next_life s do_fsync can_truncate old file s1 later u dead s0 evs u' s' :
    life s -> saveable s -> clusterSaveConfig do_fsync true can_truncate old s = Ok (Some file, s1) ->
    soft later -> run later s1 = Ok (u, dead) -> votes dead = votes s ->
    empty_heap s0 -> effects s0 = effects dead -> soft evs ->
    start_and_run (Some file) true evs s0 = Ok (u', s') -> EpochWrapped ∉ effects s' -> life s'.

Lemma restored_epochs s s' : saveable s -> restored s s' -> votes s' = votes s -> epochs_ok 0 s -> epochs_ok 0 s'.
Proof.
  intros Hs Hr Hv [H1 H2 H3 H4]. destruct (rs_current _ _ Hr) as [Hle Hcur]. pose proof (rs_vote _ _ Hr) as Hvote.
  split; rewrite ?Hv, ?Hvote; try done; [|lia].
  destruct Hcur as [->|(p & n & Hn & ->)]; [done|]. destruct (sv_node _ Hs p n Hn). lia.
Qed.

Lemma restart_inv s s0 do_fsync can_truncate old file s1 u s' evs :
  saveable s -> clusterSaveConfig do_fsync true can_truncate old s = Ok (Some file, s1) -> epochs_ok 0 s ->
  empty_heap s0 -> votes s0 = votes s -> soft evs ->
  start_and_run (Some file) true evs s0 = Ok (u, s') -> Inv (Some 0%Z) s'.
Proof.
  intros Hs Ht He Hh Hv [Hok Hsoft] H. apply start_split in H as (? & s4 & H1 & H2). apply init_split in H1 as (b & s2 & Hl & Hi).
  destruct (save_load s (cleared s0) _ _ _ _ _ Hs ltac:(by split) Ht) as (s3 & Hl3 & Hr & Heff).
  unfold load_or_exit in Hl. apply cbind_ok in Hl as (r & s5 & Hl & Hb). rewrite Hl3 in Hl. injection Hl as <- <-.
  injection Hb as <- <-.
  assert (Hs3 : Inv (Some 0%Z) s3).
  { split; [apply (rs_inv _ _ Hr)|]. right. eapply restored_epochs; [done|exact Hr| |done].
    unfold votes. rewrite Heff. exact Hv. }
  assert (Hs4 : Inv (Some 0%Z) s4) by (eapply pres_finish; eassumption).
  eapply (pres_run (Some 0%Z) evs Hok (or_intror Hsoft)); eassumption.
Qed.

Lemma pres_no_file P : pres P (load_or_exit None).
Proof. unfold load_or_exit, clusterLoadConfig. apply pres_bind; [apply pres_ret|intros []]; auto using pres_ret, pres_crash. Qed.

Lemma first_inv s0 evs u s : blank s0 -> soft evs -> start_and_run None true evs s0 = Ok (u, s) -> Inv (Some 0%Z) s.
Proof.
  intros Hb [Hok Hsoft] H. apply start_split in H as (v & s1 & H1 & H2).
  assert (Hs1 : Inv (Some 0%Z) s1) by exact (clusterInit_inv true (load_or_exit None) s0 v s1 (pres_no_file _) Hb H1).
  exact (pres_run (Some 0%Z) evs Hok (or_intror Hsoft) s1 u s Hs1 H2).
Qed.

Lemma life_epochs s : life s -> EpochWrapped ∉ effects s /\ epochs_ok 0 s.
Proof.
  induction 1 as [s0 evs u s Hb He H Hw|s f tr old file s1 later u dead s0 evs u' s' Hlife [Hw IH] Hs Ht Hl Hd Hv Hh Heff He H Hw'].
  - split; [done|]. apply first_inv in H as [_ [?|?]]; done.
  - split; [done|]. eapply restart_inv in H as [_ [?|?]]; try done. unfold votes. by rewrite Heff.
Qed.

(** C7. No epoch gets two votes over the lives of a node that nobody resets
    with CLUSTER RESET HARD (which puts the epoch of the last vote back to
    zero) and whose 64-bit epoch counter does not wrap around.  A node runs,
    saves its configuration after its last vote in a [saveable] state (one
    whose configuration the file can hold, see [config_survives_restart]),
    runs on without voting, dies, and a new process with empty tables starts
    from the saved file, any number of times.  The epochs of all the failover
    votes it has ever sent strictly increase, in the order it sent them, and
    none is greater than its current epoch: the file brings back the epoch of
    the last vote. *)
Theorem lives_one_vote_per_epoch s :
  life s ->
  StronglySorted Z.lt (votes s) /\ NoDup (votes s) /\ Forall (fun v => v <= lastVoteEpoch s <= currentEpoch s)%Z (votes s).
Proof.
  intros [_ [Hc Hv Hi Hl]]%life_epochs. split_and!; [done|by apply increasing_NoDup|].
  eapply Forall_impl; [exact Hl|]. intros v Hle. cbn in *. lia.
Qed.
End lives.
