(* ===== verification/ClusterConfigExample.v ===== *)
(** * The configuration file on examples

    A reader of arguments that splits at blanks, a node that meets others,
    moves slots, votes, restarts and votes again, and files that the loader
    cannot read. *)

From Stdlib Require Import Ascii Sorted.
From stdpp Require Import base numbers pretty gmap strings list.
From S2P Require Import Prelude Text ClusterTypes ClusterSlots ClusterNodes ClusterBus ClusterGossip ClusterFailover ClusterPacket ClusterCron ClusterCommand ClusterBitmap ClusterInv ClusterPreserve ClusterSystem ClusterSample ClusterConfig ClusterConfigText ClusterConfigRead ClusterConfigFile ClusterRestart ClusterLives.

(** ** Arguments between blanks *)

Fixpoint pieces (s : string) : list string :=
  match s with
  | EmptyString => [""]
  | String c s =>
      if is_space_char c then "" :: pieces s
      else match pieces s with w :: ws => String c w :: ws | [] => [] end
  end.
Definition blank_word (w : string) : bool := String.eqb w "".
Definition sample_split (s : string) : option (list string) :=
  Some (List.filter (fun w => negb (blank_word w)) (pieces s)).

#[export] Instance sample_config : ConfigEnv := {| sdssplitargs := sample_split |}.

Lemma plain_no_space c : plain_char c = true -> is_space_char c = false.
Proof. destruct c as [[] [] [] [] [] [] [] []]; (reflexivity || discriminate). Qed.

Lemma pieces_word w c s : string_all plain_char w = true -> is_space_char c = true ->
  pieces (w +:+ String c s) = w :: pieces s.
Proof.
  intros Hw Hc. induction w as [|x w IH]; cbn; [by rewrite Hc|]. cbn in Hw. apply andb_prop in Hw as [Hx Hw].
  change (w +:+ String c s) with (String.append w (String c s)) in IH. rewrite plain_no_space, IH by done. done.
Qed.

Lemma split_words w l : Forall plain_word (w :: l) -> sample_split (unwords (w :: l) +:+ nl_str) = Some (w :: l).
Proof.
  unfold sample_split. intros Hl. f_equal. revert w Hl. induction l as [|v l IH]; intros w Hl; apply Forall_cons in Hl as [[Hne Hw] Hl].
  - cbn [unwords spaced]. rewrite string_app_nil_r. change nl_str with (String nl ""). rewrite pieces_word by done. cbn. unfold blank_word.
    by rewrite (proj2 (String.eqb_neq w "")).
  - cbn [unwords spaced]. rewrite !string_app_assoc. change (" " +:+ ?s) with (String " " s). rewrite pieces_word by done.
    cbn [List.filter]. unfold blank_word at 1. rewrite (proj2 (String.eqb_neq w "")) by done. cbn [negb].
    specialize (IH v Hl). cbn [unwords] in IH. rewrite string_app_assoc in IH. by rewrite IH.
Qed.

#[export] Instance sample_config_laws : ConfigLaws sample_env sample_config.
Proof. split; cbn; [|lia..]. intros [|w l] Hne Hl; [done|]. by apply split_words. Qed.

(** ** A run *)

Definition from_b (t : MsgType) (epoch : Z) : clusterMsg := sample_msg t "b-master" [MASTER] [0; 255]%Z None epoch 1.
Definition from_c (t : MsgType) (epoch : Z) : clusterMsg := sample_msg t "c-slave0" [SLAVE] [0; 255]%Z (Some "b-master") epoch 1.

(** Take slots, meet a master and its slave, open two slots, and vote. *)
Definition first_events : list event :=
  [Input (sample_inputs 100000);
   Command 0 None ["addslots"; "0"; "1"; "3"; "4"];
   Command 0 None ["meet"; "10.0.0.7"; "7000"]; Cron; Packet (from_b PONG 1) 2256 0; Packet (from_b PING 1) 2256 0;
   Command 0 None ["meet"; "10.0.0.8"; "7001"]; Cron; Packet (from_c PONG 1) 2256 1; Packet (from_c PING 1) 2256 1;
   Command 0 None ["setslot"; "3"; "migrating"; "b-master"]; Command 0 None ["setslot"; "9"; "importing"; "b-master"];
   Packet (from_c FAILOVER_AUTH_REQUEST 5) 2256 1; BeforeSleep].

Definition first_end : cluster := Eval vm_compute in final (start_and_run None true first_events) sample_blank.

(** ** Deciding that a state can be saved *)

Definition every {K V} `{Countable K} (m : gmap K V) (f : K -> V -> bool) : bool :=
  forallb (fun kv => f kv.1 kv.2) (map_to_list m).
Lemma every_lookup {K V} `{Countable K} (m : gmap K V) f k v : every m f = true -> m !! k = Some v -> f k v = true.
Proof.
  unfold every. rewrite forallb_forall. intros Hf Hm. apply (Hf (k, v)). by apply list_elem_of_In, elem_of_map_to_list.
Qed.

Section decide.
Context `{E : ClusterEnv} `{Cfg : ConfigEnv}.

Definition name_okb (x : string) : bool :=
  (String.length x =? CLUSTER_NAMELEN) && string_all plain_char x && negb (starts_with "-" x).
Definition below (k z : Z) : bool := ((0 <=? z) && (z <? k))%Z.
Definition fits_b (n : clusterNode) : bool :=
  name_okb (n_name n) && string_all plain_char (n_ip n) && (String.length (n_ip n) <? NET_IP_STR_LEN) &&
  below (2 ^ 31) (n_port n) && below (2 ^ 31) (n_cport n) && below (2 ^ 64) (n_ping_sent n) &&
  below (2 ^ 64) (n_pong_received n) && below (2 ^ 64) (n_configEpoch n).
Definition node_in_file (s : cluster) (p : ptr) (n : clusterNode) : bool :=
  bool_decide (nodes s !! n_name n = Some p) && negb (has_flag HANDSHAKE (n_flags n)).
Definition in_file_b (s : cluster) (p : ptr) : bool :=
  match heap s !! p with Some n => node_in_file s p n | None => false end.
Definition named_b (w : Z) : bool := (w =? 0)%Z || negb (length (set_flags w) =? 0).

Definition saveable_b (s : cluster) : bool :=
  every (nodes s) (fun x p => match heap s !! p with
    | Some n => String.eqb (n_name n) x && named_b (n_flags n) | None => false end) &&
  every (heap s) (fun p n => match n_slaveof n with Some m => in_file_b s m | None => true end &&
    (negb (node_in_file s p n) || (fits_b n && (negb (has_flag MYSELF (n_flags n)) || (p =? myself s))))) &&
  every (slots s) (fun j p => in_file_b s p) &&
  every (migrating_slots_to s) (fun j p => (j <? CLUSTER_SLOTS) && in_file_b s p) &&
  every (importing_slots_from s) (fun j p => (j <? CLUSTER_SLOTS) && in_file_b s p) &&
  in_file_b s (myself s) &&
  match heap s !! myself s with Some n => has_flag MYSELF (n_flags n) | None => false end &&
  below (2 ^ 64) (currentEpoch s) && below (2 ^ 64) (lastVoteEpoch s).

Lemma below_ok k z : below k z = true -> (0 <= z < k)%Z.
Proof. unfold below. lia. Qed.
Lemma node_in_file_ok s p n : heap s !! p = Some n -> node_in_file s p n = true <-> in_file s p n.
Proof.
  intros Hn. unfold node_in_file, in_file. rewrite andb_true_iff, bool_decide_eq_true, negb_true_iff. naive_solver.
Qed.
Lemma in_file_b_ok s p : in_file_b s p = true -> exists n, in_file s p n.
Proof. unfold in_file_b. destruct (heap s !! p) as [n|] eqn:Hn; [|done]. intros H. exists n. by apply node_in_file_ok. Qed.
Lemma named_b_ok w : named_b w = true -> flags_named w.
Proof. unfold named_b, flags_named. intros [H|H]%orb_prop; [left; lia|right]. by destruct (set_flags w). Qed.
Lemma name_okb_ok x : name_okb x = true -> name_ok x.
Proof. unfold name_okb, name_ok. intros [[H1 H2]%andb_prop H3]%andb_prop. apply Nat.eqb_eq in H1. by apply negb_true_iff in H3. Qed.
Lemma fits_b_ok n : fits_b n = true -> node_fits n.
Proof.
  unfold fits_b. rewrite !andb_true_iff. intros [[[[[[[H1 H2] H3] H4] H5] H6] H7] H8]. split.
  - by apply name_okb_ok.
  - split; [done|]. by apply Nat.ltb_lt.
  - auto using below_ok.
  - auto using below_ok.
Qed.

Lemma saveable_b_ok s : slot_inv s -> saveable_b s = true -> saveable s.
Proof.
  intros Hi. unfold saveable_b. rewrite !andb_true_iff. intros [[[[[[[[H1 H2] H3] H4] H5] H6] H7] H8] H9].
  assert (Hnodes : forall x p, nodes s !! x = Some p -> exists n, heap s !! p = Some n /\ n_name n = x /\ flags_named (n_flags n)).
  { intros x p Hp. pose proof (every_lookup _ _ _ _ H1 Hp) as H. cbn in H. destruct (heap s !! p) as [n|]; [|done].
    apply andb_prop in H as [Hx Hw]. exists n. split_and!; [done|by apply String.eqb_eq|by apply named_b_ok]. }
  assert (Hheap : forall p n, heap s !! p = Some n -> match n_slaveof n with Some m => in_file_b s m | None => true end = true /\
    (in_file s p n -> fits_b n = true /\ (has_flag MYSELF (n_flags n) = true -> p = myself s))).
  { intros p n Hn. pose proof (every_lookup _ _ _ _ H2 Hn) as H. apply andb_prop in H as [Hm Hf]. split; [done|].
    intros Hin%(node_in_file_ok s p n Hn). rewrite Hin in Hf. cbn in Hf. apply andb_prop in Hf as [Hf Hme]. split; [done|].
    intros Hmy. rewrite Hmy in Hme. by apply Nat.eqb_eq. }
  assert (Hopen : forall j p, migrating_slots_to s !! j = Some p \/ importing_slots_from s !! j = Some p ->
    j < CLUSTER_SLOTS /\ exists n, in_file s p n).
  { intros j p [Hj|Hj]; [pose proof (every_lookup _ _ _ _ H4 Hj) as H|pose proof (every_lookup _ _ _ _ H5 Hj) as H];
      apply andb_prop in H as [Hlt Hin]; (split; [by apply Nat.ltb_lt|by apply in_file_b_ok]). }
  assert (Hsome : forall p, (exists n, in_file s p n) -> is_Some (heap s !! p)) by (intros p (n & _ & Hn & _); by eexists).
  split; try done.
  - split_and!.
    + intros x p Hp. destruct (Hnodes x p Hp) as (n & -> & _). by eexists.
    + intros p n m Hn Hm. destruct (Hheap p n Hn) as [H _]. rewrite Hm in H. by apply Hsome, in_file_b_ok.
    + intros j p Hj. apply Hsome, (Hopen j). by left.
    + intros j p Hj. apply Hsome, (Hopen j). by right.
  - intros x p n Hp Hn. destruct (Hnodes x p Hp) as (m & Hm & Hx & _). congruence.
  - intros x p n Hp Hn. destruct (Hnodes x p Hp) as (m & Hm & _ & Hw). congruence.
  - intros p n Hin. apply fits_b_ok. by apply (Hheap p n (proj1 (proj2 Hin))).
  - intros p n m (_ & Hn & _) Hm. destruct (Hheap p n Hn) as [H _]. rewrite Hm in H. by apply in_file_b_ok.
  - intros j p Hj. by eapply in_file_b_ok, (every_lookup _ _ _ _ H3 Hj).
  - destruct (in_file_b_ok _ _ H6) as [n Hn]. exists n. split; [done|]. destruct Hn as (_ & Hn & _). by rewrite Hn in H7.
  - intros p n Hin Hmy. by apply (Hheap p n (proj1 (proj2 Hin))).
  - split; by apply below_ok.
Qed.
End decide.

(** ** The run, saved and restarted *)

Lemma sample_blank_heap : empty_heap sample_blank.
Proof. done. Qed.
Lemma first_events_soft : soft first_events.
Proof. split; repeat apply Forall_cons_2; cbn; try done. Qed.

Definition text_of (s : cluster) : string := match config_text s with Ok (t, _) => t | _ => "" end.

(** A new process after [s]: an empty memory, and everything sent so far. *)
Definition reborn (s : cluster) : cluster := sample_blank <| effects := effects s |>.

Lemma reborn_heap s : empty_heap (reborn s).
Proof. done. Qed.

Definition second_events : list event :=
  [Input (sample_inputs 300000); Cron; Packet (from_c FAILOVER_AUTH_REQUEST 5) 2256 0;
   Packet (from_c FAILOVER_AUTH_REQUEST 6) 2256 0; BeforeSleep].
Lemma second_events_soft : soft second_events.
Proof. split; repeat apply Forall_cons_2; cbn; try done. Qed.
Definition second_end : cluster :=
  Eval vm_compute in final (start_and_run (Some (text_of first_end)) true second_events) (reborn first_end).

Definition second_fresh : cluster := cleared (reborn first_end).

Lemma first_run : start_and_run None true first_events sample_blank = Ok (tt, first_end).
Proof. vm_compute. reflexivity. Qed.
Lemma first_saveable : saveable first_end.
Proof.
  apply saveable_b_ok; [|vm_compute; reflexivity].
  exact (any_file_inv None true first_events sample_blank tt first_end eq_refl (proj1 first_events_soft) first_run).
Qed.

Lemma config_survives_restart_witness :
  saveable_b first_end = true /\
  exists file s1 s', clusterSaveConfig true true false (text_of second_end) first_end = Ok (Some file, s1) /\
    clusterLoadConfig (Some file) second_fresh = Ok (C_OK, s') /\ restored first_end s'.
Proof.
  split; [vm_compute; reflexivity|].
  destruct (config_survives_restart first_end second_fresh true false (text_of second_end) first_saveable) as (f & s1 & s' & H1 & H2 & H3 & _);
    [split_and!; reflexivity|]. exists f, s1, s'. exact (conj H1 (conj H2 H3)).
Defined.

Lemma any_file_slot_ownership_witness :
  slots second_end !! 9 = Some 1 /\ exists n, heap second_end !! 1 = Some n /\ clusterNodeGetSlotBit n 9 = true.
Proof.
  assert (H : start_and_run (Some (text_of first_end)) true second_events (reborn first_end) = Ok (tt, second_end))
    by (vm_compute; reflexivity).
  split; [vm_compute; reflexivity|].
  apply (any_file_slot_ownership _ _ _ _ _ _ (reborn_heap first_end) (proj1 second_events_soft) H). vm_compute. reflexivity.
Defined.

Lemma lives_one_vote_per_epoch_witness : votes second_end = [5; 6]%Z /\ NoDup (votes second_end).
Proof.
  split; [vm_compute; reflexivity|]. refine (proj1 (proj2 (lives_one_vote_per_epoch second_end _))).
  eapply (next_life first_end true true "" (text_of first_end) _ [] tt _ (reborn first_end) second_events tt).
  - eapply first_life; [apply sample_blank_ok|apply first_events_soft|apply first_run|apply not_wrapped; vm_compute; reflexivity].
  - apply first_saveable.
  - vm_compute. reflexivity.
  - split; constructor.
  - vm_compute. reflexivity.
  - vm_compute. reflexivity.
  - apply reborn_heap.
  - vm_compute. reflexivity.
  - apply second_events_soft.
  - vm_compute. reflexivity.
  - apply not_wrapped. vm_compute. reflexivity.
Defined.

(** ** Files that were edited *)

(** A line of blanks is not skipped: the loader reads an argument that is
    not there. *)
Lemma blank_line_crashes me s : load_line me (" " +:+ nl_str) s = Panic.
Proof. reflexivity. Qed.

(** So does a variable without a value. *)
Lemma missing_value_crashes me s : load_line me ("vars currentEpoch" +:+ nl_str) s = Panic.
Proof. reflexivity. Qed.

(** A slave whose master has no line: the master gets a flag that has no
    name, and the file that is saved next has no field for its flags. *)
Definition orphan_file : string :=
  "a-random 10.0.0.1:6379@16379 myself,slave b-master 0 0 0 connected" +:+ nl_str +:+
  "vars currentEpoch 5 lastVoteEpoch 5" +:+ nl_str.
Definition result_of {A} (m : C A) (s : cluster) : option A := match m s with Ok (r, _) => Some r | _ => None end.

Lemma orphan_file_is_corrupted :
  let m := clusterLoadConfig (Some orphan_file) in
  result_of m sample_blank = Some C_OK /\
  result_of (clusterLoadConfig (Some (text_of (final m sample_blank)))) sample_blank = Some EXIT.
Proof. vm_compute. done. Qed.
