(* ===== verification/RtrsPermits.v ===== *)
(** * Permits of the RDMA transport client: [src/examples/rtrs-clt.c],
    [rtrs_clt_get_permit] and [rtrs_clt_put_permit]

    A session has [queue_depth] permits and a bitmap of those in use.  Any
    number of threads take and give back permits at the same time, without a
    lock: a thread looks for a zero bit, tries to set it, and starts over if
    another was faster; a thread that may wait goes to sleep on a wait queue.
    A step of the model is one access of one thread to the shared state, and
    the steps of all threads interleave in any way. *)

From stdpp Require Import base numbers sets gmap functions list.
From S2P Require Import Prelude.

Abbreviation thread := nat.

(** Wait queues of the kernel.  [blocked q t]: thread [t] sleeps when it calls
    [io_schedule], since nobody has woken it after its [prepare_to_wait]. *)
Class WaitQueue := {
  wait_queue : Type;
  prepare_to_wait : thread -> wait_queue -> wait_queue;
  finish_wait : thread -> wait_queue -> wait_queue;
  waitqueue_active : wait_queue -> bool;
  wake_up : wait_queue -> wait_queue;
  blocked : wait_queue -> thread -> bool;
}.

(** What the kernel documents: waiters that are not exclusive are all woken,
    and a thread that can sleep is in the queue. *)
Class WaitQueueLaws (W : WaitQueue) : Prop := {
  active_law : forall q t, waitqueue_active q = false -> blocked q t = false;
  wake_law : forall q t, blocked (wake_up q) t = false;
  prepare_law : forall q t t', blocked (prepare_to_wait t q) t' = bool_decide (t = t') || blocked q t';
  finish_law : forall q t t', blocked (finish_wait t q) t' = negb (bool_decide (t = t')) && blocked q t';
}.

(** Connection types; the file only tells those for I/O from others. *)
Inductive rtrs_clt_con_type := RTRS_IO_CON | OTHER_CON.

(** The arguments of [rtrs_clt_get_permit], and the processor it runs on. *)
Record request := mkRequest { rq_type : rtrs_clt_con_type; rq_wait : bool; rq_cpu : Z }.

(** The fields of a permit that change. *)
Record rtrs_permit := mkPermit { p_cpu_id : Z; p_con_type : rtrs_clt_con_type }.

(** Where a thread is.  [w]: in the loop that waits. *)
Inductive pc :=
| Out
| Scan (w : bool) (r : request) (bit : nat)      (* find_first_zero_bit, at [bit] *)
| Take (w : bool) (r : request) (bit : nat)      (* test_and_set_bit_lock *)
| Fill (w : bool) (r : request) (bit : nat)      (* cpu_id and con_type *)
| PrepareToWait (r : request)
| Schedule (r : request)                         (* io_schedule *)
| FinishWait (r : request) (bit : nat)
| TestBit (bit : nat)                            (* WARN_ON in put *)
| Clear (bit : nat)                              (* clear_bit_unlock *)
| ClearSeen (bit : nat) (active : bool)          (* ... with the queue read before *)
| Active                                         (* waitqueue_active *)
| WakeUp.

Section permits.
Context `{W : WaitQueue} (queue_depth : nat).

Record shared := mkShared {
  permits_map : gset nat;
  permits : nat -> rtrs_permit;
  permits_wait : wait_queue;
  pcs : thread -> pc;
  (** permits that callers have, as they asked for them *)
  users : list (nat * request);
}.
#[local] Instance shared_upd : Updatable shared :=
  (rd_pure mkShared <&> permits_map <&> permits <&> permits_wait <&> pcs <&> users)%upd.

Definition go (t : thread) (c : pc) (s : shared) : shared := s <| pcs ::= <[t := c]> |>.

(** A call of get and of put; a caller only gives back what it has. *)
Inductive action :=
| Get (t : thread) (r : request)
| Put (t : thread) (bit : nat)
| Step (t : thread)
| ReadFirst (t : thread).

(** The next access of thread [t]; [None] if it sleeps or is not in a call. *)
Definition step (t : thread) (s : shared) : option shared :=
  match pcs s t with
  | Out => None
  | Scan w r bit =>
      Some (go t (if queue_depth <=? bit then (if w then Schedule r else if rq_wait r then PrepareToWait r else Out)
                  else if bool_decide (bit ∈ permits_map s) then Scan w r (S bit) else Take w r bit) s)
  | Take w r bit =>
      Some (if bool_decide (bit ∈ permits_map s) then go t (Scan w r 0) s
            else go t (Fill w r bit) (s <| permits_map := {[bit]} ∪ permits_map s |>))
  | Fill w r bit =>
      let s := s <| permits ::= <[bit := mkPermit (rq_cpu r) (rq_type r)]> |> in
      Some (if w then go t (FinishWait r bit) s else go t Out (s <| users ::= cons (bit, r) |>))
  | PrepareToWait r => Some (go t (Scan true r 0) (s <| permits_wait ::= prepare_to_wait t |>))
  | Schedule r => if blocked (permits_wait s) t then None else Some (go t (PrepareToWait r) s)
  | FinishWait r bit => Some (go t Out (s <| permits_wait ::= finish_wait t |> <| users ::= cons (bit, r) |>))
  | TestBit bit => Some (go t (if bool_decide (bit ∈ permits_map s) then Clear bit else Out) s)
  | Clear bit => Some (go t Active (s <| permits_map := permits_map s ∖ {[bit]} |>))
  | ClearSeen bit active => Some (go t (if active then WakeUp else Out) (s <| permits_map := permits_map s ∖ {[bit]} |>))
  | Active => Some (go t (if waitqueue_active (permits_wait s) then WakeUp else Out) s)
  | WakeUp => Some (go t Out (s <| permits_wait ::= wake_up |>))
  end.

(** A machine that does not order the read of the queue after the release of
    the bit can do it first. *)
Definition read_first (t : thread) (s : shared) : option shared :=
  match pcs s t with
  | Clear bit => Some (go t (ClearSeen bit (waitqueue_active (permits_wait s))) s)
  | _ => None
  end.

Definition perform (a : action) (s : shared) : option shared :=
  match a with
  | Get t r => match pcs s t with Out => Some (go t (Scan false r 0) s) | _ => None end
  | Put t bit =>
      match pcs s t with
      | Out =>
          if bool_decide (bit ∈ (users s).*1)
          then Some (go t (TestBit bit) (s <| users ::= List.filter (fun u => negb (u.1 =? bit)) |>))
          else None
      | _ => None
      end
  | Step t => step t s
  | ReadFirst t => read_first t s
  end.

Fixpoint perform_all (l : list action) (s : shared) : option shared :=
  match l with
  | [] => Some s
  | a :: l => match perform a s with Some s => perform_all l s | None => None end
  end.

(** ** Who has a permit *)

(** The bit that a thread has taken and not handed over or cleared yet. *)
Definition holds (c : pc) : option nat :=
  match c with
  | Fill _ _ bit | FinishWait _ bit | TestBit bit | Clear bit | ClearSeen bit _ => Some bit
  | _ => None
  end.

(** A bit is set exactly if someone has it, and then only one has. *)
Record owned (map : gset nat) (us : list nat) (cs : thread -> pc) : Prop := {
  ow_bound : forall i, i ∈ map -> i < queue_depth;
  ow_take : forall t w r i, cs t = Take w r i -> i < queue_depth;
  ow_user : NoDup us;
  ow_map : forall i, i ∈ map <-> i ∈ us \/ exists t, holds (cs t) = Some i;
  ow_thread : forall t t' i, holds (cs t) = Some i -> holds (cs t') = Some i -> t = t';
  ow_apart : forall t i, holds (cs t) = Some i -> i ∉ us;
}.

Lemma pcs_at (cs : thread -> pc) t c t' : (<[t := c]> cs) t' = if decide (t = t') then c else cs t'.
Proof. case_decide as H; [subst; apply fn_lookup_insert|by apply fn_lookup_insert_ne]. Qed.

Lemma holds_at (cs : thread -> pc) t c i :
  (exists t', holds ((<[t := c]> cs) t') = Some i) <->
  holds c = Some i \/ exists t', t' <> t /\ holds (cs t') = Some i.
Proof.
  setoid_rewrite pcs_at. split.
  - intros [t' H]. case_decide; [by left|right; by exists t'].
  - intros [H|(t' & Hne & H)]; [exists t; by rewrite decide_True|exists t'; by rewrite decide_False].
Qed.

Lemma holds_split (cs : thread -> pc) t i :
  (exists t', holds (cs t') = Some i) <-> holds (cs t) = Some i \/ exists t', t' <> t /\ holds (cs t') = Some i.
Proof.
  split; [|naive_solver]. intros [t' H]. destruct (decide (t' = t)) as [->|]; [by left|right; by exists t'].
Qed.

Definition take_in (c : pc) : Prop := forall w r i, c = Take w r i -> i < queue_depth.

Lemma take_at (cs : thread -> pc) t c :
  (forall t w r i, cs t = Take w r i -> i < queue_depth) -> take_in c ->
  forall t' w r i, (<[t := c]> cs) t' = Take w r i -> i < queue_depth.
Proof. intros H Hc t' w r i. rewrite pcs_at. case_decide; [apply Hc|apply H]. Qed.

(** What a thread holds stays, is gained, or is lost. *)
Lemma owned_same map us cs t c :
  owned map us cs -> take_in c -> holds c = holds (cs t) -> owned map us (<[t := c]> cs).
Proof.
  intros [H1 H2 H3 H4 H5 H6] Hc Heq.
  assert (Hh : forall t', holds ((<[t := c]> cs) t') = holds (cs t')) by (intros t'; rewrite pcs_at; case_decide; congruence).
  split; [done|by apply take_at|done| | |]; setoid_rewrite Hh; eauto.
Qed.

Lemma owned_take map us cs t c i :
  owned map us cs -> take_in c -> i ∉ map -> i < queue_depth -> holds (cs t) = None -> holds c = Some i ->
  owned ({[i]} ∪ map) us (<[t := c]> cs).
Proof.
  intros [H1 H2 H3 H4 H5 H6] Hc Hi Hlt Hn Hs. split; [set_solver|by apply take_at|done| | |].
  - intros j. rewrite elem_of_union, elem_of_singleton, H4, holds_at, (holds_split cs t). rewrite Hn, Hs. naive_solver.
  - intros t1 t2 j. rewrite !pcs_at. repeat case_decide; subst; try done; rewrite ?Hs; [| |by apply H5].
    + intros [= <-] Hj. exfalso. apply Hi, H4. right. by exists t2.
    + intros Hj [= <-]. exfalso. apply Hi, H4. right. by exists t1.
  - intros t' j. rewrite pcs_at. case_decide; [rewrite Hs; intros [= <-] Hj; apply Hi, H4; by left|apply H6].
Qed.

Lemma owned_give map us cs t c i :
  owned map us cs -> take_in c -> holds (cs t) = Some i -> holds c = None -> owned map (i :: us) (<[t := c]> cs).
Proof.
  intros [H1 H2 H3 H4 H5 H6] Hc Hs Hn. split; [done|by apply take_at| | | |].
  - apply NoDup_cons. split; [by eapply H6|done].
  - intros j. rewrite H4, holds_at, (holds_split cs t), elem_of_cons, Hn, Hs. naive_solver.
  - intros t1 t2 j. rewrite !pcs_at. repeat case_decide; subst; try done; rewrite ?Hn; [done..|by apply H5].
  - intros t' j. rewrite pcs_at. case_decide; [by rewrite Hn|]. intros Hj [->|Hu]%elem_of_cons; [|by eapply H6].
    by assert (t = t') by (by eapply H5).
Qed.

Lemma owned_return map us us' cs t c i :
  owned map us cs -> take_in c -> i ∈ us -> NoDup us' -> (forall j, j ∈ us' <-> j ∈ us /\ j <> i) ->
  holds (cs t) = None -> holds c = Some i -> owned map us' (<[t := c]> cs).
Proof.
  intros [H1 H2 H3 H4 H5 H6] Hc Hi Hnd Hus Hn Hs. split; [done|by apply take_at|done| | |].
  - intros j. rewrite H4, holds_at, (holds_split cs t), Hus, Hn, Hs. destruct (decide (i = j)); naive_solver.
  - intros t1 t2 j. rewrite !pcs_at. repeat case_decide; subst; try done; rewrite ?Hs; [| |by apply H5].
    + intros [= <-] Hj. exfalso. by eapply H6.
    + intros Hj [= <-]. exfalso. by eapply H6.
  - intros t' j. rewrite pcs_at, Hus. case_decide; [rewrite Hs; naive_solver|]. intros Hj [Hu _]. by eapply H6.
Qed.

Lemma owned_clear map us cs t c i :
  owned map us cs -> take_in c -> holds (cs t) = Some i -> holds c = None -> owned (map ∖ {[i]}) us (<[t := c]> cs).
Proof.
  intros [H1 H2 H3 H4 H5 H6] Hc Hs Hn. split; [set_solver|by apply take_at|done| | |].
  - intros j. rewrite elem_of_difference, not_elem_of_singleton, H4, holds_at, (holds_split cs t), Hn, Hs. split.
    + intros [[Hu|[?|Ht]] Hne]; [by left|congruence|by right; right].
    + intros [Hu|[?|(t' & Hne & Ht)]]; [|done|].
      * split; [by left|]. intros ->. by eapply H6.
      * split; [right; right; by exists t'|]. intros ->. by apply Hne, (H5 t' t i).
  - intros t1 t2 j. rewrite !pcs_at. repeat case_decide; subst; try done; rewrite ?Hn; [done..|by apply H5].
  - intros t' j. rewrite pcs_at. case_decide; [by rewrite Hn|apply H6].
Qed.

Definition exclusive (s : shared) : Prop := owned (permits_map s) (users s).*1 (pcs s).

Lemma returned_users (us : list (nat * request)) bit :
  NoDup us.*1 -> let us' := List.filter (fun u => negb (u.1 =? bit)) us in
  NoDup us'.*1 /\ forall j, j ∈ us'.*1 <-> j ∈ us.*1 /\ j <> bit.
Proof.
  induction us as [|[i r] us IH]; cbn; intros Hnd.
  { split; [constructor|]. intros j. split; [by intros ?%not_elem_of_nil|by intros [?%not_elem_of_nil _]]. }
  apply NoDup_cons in Hnd as [Hi Hnd]. destruct (IH Hnd) as [H1 H2]. destruct (Nat.eqb_spec i bit) as [->|Hne]; cbn.
  - split; [done|]. intros j. rewrite H2, elem_of_cons. split; [naive_solver|]. intros [[->|?] ?]; [done|]. naive_solver.
  - split; [apply NoDup_cons; split; [rewrite H2; naive_solver|done]|].
    intros j. rewrite !elem_of_cons, H2. naive_solver.
Qed.

Ltac unpack H :=
  match type of H with
  | Some _ = Some _ => injection H as <-
  | None = Some _ => discriminate H
  end.

Lemma step_exclusive t s s' : exclusive s -> step t s = Some s' -> exclusive s'.
Proof.
  unfold exclusive, step. intros Hs H. destruct (pcs s t) as [|w r i|w r i|w r i|r|r|r i|i|i|i b| |] eqn:Hpc.
  - done.
  - unpack H. cbn. apply owned_same; [done| |].
    + destruct (Nat.leb_spec queue_depth i); [by destruct w, (rq_wait r)|]. case_bool_decide; [done|]. by intros ? ? ? [= <- <- <-].
    + rewrite Hpc. destruct (queue_depth <=? i); [by destruct w, (rq_wait r)|]. by case_bool_decide.
  - unpack H. assert (Hlt : i < queue_depth) by by eapply (ow_take _ _ _ Hs). case_bool_decide; cbn.
    + apply owned_same; [done|done|by rewrite Hpc].
    + apply owned_take; [done|done|done|done|by rewrite Hpc|done].
  - unpack H. destruct w; cbn.
    + apply owned_same; [done|done|by rewrite Hpc].
    + apply owned_give; [done|done|by rewrite Hpc|done].
  - unpack H. cbn. apply owned_same; [done|done|by rewrite Hpc].
  - destruct (blocked _ _); unpack H. cbn. apply owned_same; [done|done|by rewrite Hpc].
  - unpack H. cbn. apply owned_give; [done|done|by rewrite Hpc|done].
  - unpack H. cbn. assert (Hi : i ∈ permits_map s) by (apply (ow_map _ _ _ Hs); right; exists t; by rewrite Hpc).
    rewrite bool_decide_eq_true_2 by done. apply owned_same; [done|done|by rewrite Hpc].
  - unpack H. cbn. apply owned_clear; [done|done|by rewrite Hpc|done].
  - unpack H. cbn. destruct b; (apply owned_clear; [done|done|by rewrite Hpc|done]).
  - unpack H. cbn. apply owned_same; [done|by destruct (waitqueue_active _)|rewrite Hpc; by destruct (waitqueue_active _)].
  - unpack H. cbn. apply owned_same; [done|done|by rewrite Hpc].
Qed.

Lemma perform_exclusive a s s' : exclusive s -> perform a s = Some s' -> exclusive s'.
Proof.
  destruct a as [t r|t i|t|t]; cbn [perform]; intros Hs H.
  - destruct (pcs s t) eqn:Hpc; unpack H. apply owned_same; [done|done|by rewrite Hpc].
  - destruct (pcs s t) eqn:Hpc; [|discriminate H..]. case_bool_decide as Hi; unpack H.
    destruct (returned_users (users s) i (ow_user _ _ _ Hs)) as [H1 H2].
    eapply (owned_return _ _ _ (pcs s)); [exact Hs|done|exact Hi|exact H1|exact H2|by rewrite Hpc|done].
  - by eapply step_exclusive.
  - unfold read_first in H. destruct (pcs s t) eqn:Hpc; unpack H. apply owned_same; [done|done|by rewrite Hpc].
Qed.

(** ** What is in a permit *)

Definition as_asked (s : shared) (i : nat) (r : request) : Prop :=
  permits s i = mkPermit (rq_cpu r) (rq_type r).
Record filled (s : shared) : Prop := {
  fl_user : forall i r, (i, r) ∈ users s -> as_asked s i r;
  fl_wait : forall t i r, pcs s t = FinishWait r i -> as_asked s i r;
}.

Lemma filled_go t c s : filled s -> (forall r i, c = FinishWait r i -> as_asked s i r) -> filled (go t c s).
Proof.
  intros [H1 H2] Hc. split; [done|]. intros t' i r. cbn. rewrite pcs_at. case_decide; [apply Hc|apply H2].
Qed.

Lemma filled_same s s' :
  permits s' = permits s -> (forall u, u ∈ users s' -> u ∈ users s) -> pcs s' = pcs s -> filled s -> filled s'.
Proof. intros H1 H2 H3 [H4 H5]. unfold as_asked in *. split; unfold as_asked; rewrite ?H1, ?H3; eauto. Qed.

(** The new content of a permit that no one else has. *)
Lemma filled_write s t i r w :
  exclusive s -> filled s -> pcs s t = Fill w r i ->
  forall f, f = s <| permits ::= <[i := mkPermit (rq_cpu r) (rq_type r)]> |> -> filled f /\ as_asked f i r.
Proof.
  intros Hs [H1 H2] Hpc f ->. assert (Hh : holds (pcs s t) = Some i) by by rewrite Hpc.
  assert (Hother : forall j q, as_asked s j q -> j <> i -> as_asked (s <| permits ::= <[i := mkPermit (rq_cpu r) (rq_type r)]> |>) j q).
  { intros j q Hj Hne. unfold as_asked. cbn. by rewrite fn_lookup_insert_ne. }
  split; [split|].
  - intros j q Hu. apply Hother; [by apply H1|]. intros ->. eapply (ow_apart _ _ _ Hs); [exact Hh|].
    by apply (list_elem_of_fmap_2 fst _ (i, q)).
  - intros t' j q Hf. apply Hother; [by eapply H2|]. intros ->. cbn in Hf.
    assert (t = t') as <- by (eapply (ow_thread _ _ _ Hs); [exact Hh|by rewrite Hf]). congruence.
  - unfold as_asked. cbn. by rewrite fn_lookup_insert.
Qed.

Lemma filled_user s i r : filled s -> as_asked s i r -> filled (s <| users ::= cons (i, r) |>).
Proof. intros [H1 H2] Hi. split; [|done]. intros j q [[= -> ->]|Hu]%elem_of_cons; [done|by apply H1]. Qed.

Lemma step_filled t s s' : exclusive s -> filled s -> step t s = Some s' -> filled s'.
Proof.
  unfold step. intros He Hs H. destruct (pcs s t) as [|w r i|w r i|w r i|r|r|r i|i|i|i b| |] eqn:Hpc.
  - done.
  - unpack H. apply filled_go; [done|]. destruct (queue_depth <=? i); [by destruct w, (rq_wait r)|]. by case_bool_decide.
  - unpack H. case_bool_decide; (apply filled_go; [|done]); [done|]. by apply (filled_same s).
  - unpack H. destruct (filled_write s t i r w He Hs Hpc _ eq_refl) as [Hf Hi]. destruct w.
    + apply filled_go; [done|]. by intros ? ? [= <- <-].
    + apply filled_go; [by apply filled_user|done].
  - unpack H. apply filled_go; [by apply (filled_same s)|done].
  - destruct (blocked _ _); unpack H. by apply filled_go.
  - unpack H. assert (Hi : as_asked s i r) by by eapply (fl_wait _ Hs). apply filled_go; [|done]. apply filled_user; [by apply (filled_same s)|done].
  - unpack H. apply filled_go; [done|]. by case_bool_decide.
  - unpack H. apply filled_go; [by apply (filled_same s)|done].
  - unpack H. apply filled_go; [by apply (filled_same s)|by destruct b].
  - unpack H. apply filled_go; [done|]. by destruct (waitqueue_active _).
  - unpack H. apply filled_go; [by apply (filled_same s)|done].
Qed.

Lemma perform_filled a s s' : exclusive s -> filled s -> perform a s = Some s' -> filled s'.
Proof.
  destruct a as [t r|t i|t|t]; cbn [perform]; intros He Hs H.
  - destruct (pcs s t) eqn:Hpc; unpack H. by apply filled_go.
  - destruct (pcs s t) eqn:Hpc; [|discriminate H..]. case_bool_decide as Hi; unpack H. apply filled_go; [|done].
    apply (filled_same s); [done| |done|exact Hs]. intros u. cbn. rewrite list_elem_of_In, filter_In, <- list_elem_of_In. by intros [? _].
  - by eapply step_filled.
  - unfold read_first in H. destruct (pcs s t) eqn:Hpc; unpack H. by apply filled_go.
Qed.
(** ** No lost wake-up *)

(** A waiting thread has seen the bits below this one set since it got into
    the queue. *)
Definition scanned (c : pc) : option nat :=
  match c with Scan true _ bit => Some bit | Schedule _ => Some queue_depth | _ => None end.
(** A thread that has cleared a bit and is going to wake the others. *)
Definition waking (c : pc) : bool := match c with Active | WakeUp => true | _ => false end.

Definition awake (s : shared) : Prop := forall t k i,
  scanned (pcs s t) = Some k -> blocked (permits_wait s) t = true -> i < k -> i < queue_depth ->
  i ∉ permits_map s -> exists t', waking (pcs s t') = true.

(** A thread goes on, and the map does not lose a bit. *)
Lemma awake_go t c s s' :
  awake s -> waking (pcs s t) = false \/ waking c = true \/ (forall t', blocked (permits_wait s') t' = false) ->
  permits_map s ⊆ permits_map s' -> pcs s' = pcs s ->
  (forall t', t' <> t -> blocked (permits_wait s') t' = true -> blocked (permits_wait s) t' = true) ->
  (forall k i, scanned c = Some k -> blocked (permits_wait s') t = true -> i < k -> i < queue_depth ->
    i ∉ permits_map s' -> exists t', waking (pcs s t') = true) ->
  awake (go t c s').
Proof.
  intros Hs Hw Hmap Hpcs Hq Hc t1 k i. cbn. rewrite Hpcs, pcs_at. intros Hk Hb Hlt Hd Hi.
  assert (Hsome : exists t', waking (pcs s t') = true).
  { case_decide; [subst; by eapply Hc|]. apply (Hs t1 k i); auto. }
  destruct Hsome as [t' Ht']. destruct Hw as [Hw|[Hw|Hw]]; [|exists t; rewrite pcs_at; by rewrite decide_True|by rewrite Hw in Hb].
  exists t'. rewrite pcs_at. by rewrite decide_False by congruence.
Qed.
Context `{!WaitQueueLaws W}.

(** Nobody reads the queue too early. *)
Definition in_order (c : pc) : Prop := forall i b, c <> ClearSeen i b.

Lemma step_awake t s s' : awake s -> in_order (pcs s t) -> step t s = Some s' -> awake s'.
Proof.
  unfold step. intros Hs Ho H. destruct (pcs s t) as [|w r i|w r i|w r i|r|r|r i|i|i|i b| |] eqn:Hpc.
  - done.
  - unpack H. apply (awake_go t _ s); [done|left; by rewrite Hpc|done|done|done|].
    intros k j Hk Hb Hlt Hd Hj. destruct (Nat.leb_spec queue_depth i).
    + destruct w; [|by destruct (rq_wait r)]. injection Hk as <-. apply (Hs t i j); [by rewrite Hpc|done|lia|done|done].
    + case_bool_decide; [|done]. destruct w; [|done]. injection Hk as <-.
      destruct (decide (j = i)) as [->|]; [done|]. apply (Hs t i j); [by rewrite Hpc|done|lia|done|done].
  - unpack H. case_bool_decide; (apply (awake_go t _ s); [done|left; by rewrite Hpc|cbn; set_solver|done|done|]); [|done].
    intros k j Hk Hb Hlt Hd Hj. destruct w; [|done]. injection Hk as <-. lia.
  - unpack H. destruct w; (apply (awake_go t _ s); [done|left; by rewrite Hpc|done|done|done|done]).
  - unpack H. apply (awake_go t _ s); [done|left; by rewrite Hpc|done|done| |].
    + intros t' Hne. cbn. rewrite prepare_law, bool_decide_eq_false_2 by done. done.
    + intros k j [= <-] _ Hlt. lia.
  - destruct (blocked _ _); unpack H. apply (awake_go t _ s); [done|left; by rewrite Hpc|done|done|done|done].
  - unpack H. apply (awake_go t _ s); [done|left; by rewrite Hpc|done|done| |done].
    intros t' Hne. cbn. rewrite finish_law. by intros [_ ?]%andb_prop.
  - unpack H. apply (awake_go t _ s); [done|left; by rewrite Hpc|done|done|done|]. intros k j. by case_bool_decide.
  - unpack H. intros t1 k j _ _ _ _ _. exists t. cbn. by rewrite fn_lookup_insert.
  - by destruct (Ho i b).
  - unpack H. destruct (waitqueue_active (permits_wait s)) eqn:Ha.
    + apply (awake_go t _ s); [done|by right; left|done|done|done|done].
    + apply (awake_go t _ s); [done| |done|done|done|done]. right; right. intros t'. by apply active_law.
  - unpack H. apply (awake_go t _ s); [done| |done|done| |done].
    + right; right. intros t'. apply wake_law.
    + intros t' _. cbn. by rewrite wake_law.
Qed.

Definition ordered (a : action) : Prop := match a with ReadFirst _ => False | _ => True end.

Lemma perform_awake a s s' :
  awake s -> (forall t, in_order (pcs s t)) -> ordered a -> perform a s = Some s' ->
  awake s' /\ forall t, in_order (pcs s' t).
Proof.
  intros Hs Ho Ha H. split.
  - destruct a as [t r|t i|t|t]; cbn [perform] in H.
    + destruct (pcs s t) eqn:Hpc; unpack H. apply (awake_go t _ s); [done|left; by rewrite Hpc|done|done|done|done].
    + destruct (pcs s t) eqn:Hpc; [|discriminate H..]. case_bool_decide; unpack H.
      apply (awake_go t _ s); [done|left; by rewrite Hpc|done|done|done|done].
    + by eapply step_awake.
    + done.
  - assert (Hgo : forall t c s1, pcs s1 = pcs s -> in_order c -> forall t', in_order (pcs (go t c s1) t')).
    { intros t c s1 H1 Hc t'. cbn. rewrite H1, pcs_at. case_decide; [done|apply Ho]. }
    destruct a as [t r|t i|t|t]; cbn [perform] in H; [..|done].
    + destruct (pcs s t) eqn:Hpc; unpack H. by apply Hgo.
    + destruct (pcs s t) eqn:Hpc; [|discriminate H..]. case_bool_decide; unpack H. by apply Hgo.
    + unfold step in H. pose proof (Ho t) as Ht. destruct (pcs s t) as [|w r i|w r i|w r i|r|r|r i|i|i|i b| |] eqn:Hpc; try done;
        repeat case_bool_decide; repeat (case_match; try done); unpack H; (apply Hgo; [done|]); repeat case_match; done.
Qed.
(** ** A thread on its own *)

Fixpoint run_alone (n : nat) (t : thread) (s : shared) : option shared :=
  match n with
  | O => Some s
  | S n => match step t s with Some s => run_alone n t s | None => None end
  end.

Lemma run_alone_app n m t s s1 : run_alone n t s = Some s1 -> run_alone (n + m) t s = run_alone m t s1.
Proof.
  revert s. induction n as [|n IH]; intros s H; cbn in *; [by unpack H|]. destruct (step t s); [by apply IH|done].
Qed.

(** Only thread [t] has moved, to [c]. *)
Record moved (t : thread) (c : pc) (s s' : shared) : Prop := {
  mv_map : permits_map s' = permits_map s;
  mv_permits : permits s' = permits s;
  mv_queue : permits_wait s' = permits_wait s;
  mv_users : users s' = users s;
  mv_pc : pcs s' t = c;
  mv_others : forall t', t' <> t -> pcs s' t' = pcs s t';
}.

Lemma moved_go t c s : moved t c s (go t c s).
Proof. split; try done; cbn; [apply fn_lookup_insert|]. intros t' Hne. by apply fn_lookup_insert_ne. Qed.
Lemma moved_trans t c1 c2 s s1 s2 : moved t c1 s s1 -> moved t c2 s1 s2 -> moved t c2 s s2.
Proof. intros [] []. split; try congruence. intros t' Hne. rewrite mv_others1, mv_others0 by done. done. Qed.
Lemma moved_self t s c : pcs s t = c -> moved t c s s.
Proof. by split. Qed.

(** Looking at bits that are set. *)
Lemma scan_set t w r k i s :
  k <= i <= queue_depth -> (forall j, k <= j < i -> j ∈ permits_map s) -> pcs s t = Scan w r k ->
  exists s', run_alone (i - k) t s = Some s' /\ moved t (Scan w r i) s s'.
Proof.
  intros Hki. remember (i - k) as n eqn:Hn. revert k s Hki Hn. induction n as [|n IH]; intros k s Hki Hn Hset Hpc.
  { assert (k = i) as -> by lia. exists s. split; [done|by apply moved_self]. }
  cbn [run_alone]. unfold step. rewrite Hpc. destruct (Nat.leb_spec queue_depth k); [lia|].
  rewrite bool_decide_eq_true_2 by (apply Hset; lia).
  destruct (IH (S k) (go t (Scan w r (S k)) s)) as (s' & Hr & Hm); [lia|lia| |cbn; by rewrite fn_lookup_insert|].
  - intros j Hj. apply Hset. lia.
  - exists s'. split; [done|]. by eapply moved_trans; [apply moved_go|].
Qed.

(** The lowest free bit is taken. *)
Lemma get_free t w r i s :
  i < queue_depth -> i ∉ permits_map s -> (forall j, j < i -> j ∈ permits_map s) -> pcs s t = Scan w r 0 ->
  exists s1, run_alone (i + 3) t s = Some s1 /\ permits_map s1 = {[i]} ∪ permits_map s /\
    pcs s1 t = (if w then FinishWait r i else Out) /\
    users s1 = (if w then users s else (i, r) :: users s).
Proof.
  intros Hi Hfree Hset Hpc. destruct (scan_set t w r 0 i s) as (s1 & Hr & [H1 H2 H3 H4 H5 H6]); [lia|intros; apply Hset; lia|done|].
  rewrite Nat.sub_0_r in Hr. rewrite (run_alone_app _ _ _ _ _ Hr). cbn [run_alone]. unfold step at 1. rewrite H5.
  destruct (Nat.leb_spec queue_depth i); [lia|]. rewrite H1, bool_decide_eq_false_2 by done.
  unfold step at 1. cbn. rewrite fn_lookup_insert, H1, bool_decide_eq_false_2 by done.
  unfold step. cbn. rewrite fn_lookup_insert. destruct w; cbn; (eexists; split; [reflexivity|]); cbn;
    rewrite fn_lookup_insert, ?H4; done.
Qed.

(** No free bit: nothing is taken. *)
Lemma get_full t w r s :
  (forall j, j < queue_depth -> j ∈ permits_map s) -> pcs s t = Scan w r 0 ->
  exists s1, run_alone (queue_depth + 1) t s = Some s1 /\
    moved t (if w then Schedule r else if rq_wait r then PrepareToWait r else Out) s s1.
Proof.
  intros Hset Hpc. destruct (scan_set t w r 0 queue_depth s) as (s1 & Hr & Hm); [lia|intros; apply Hset; lia|done|].
  rewrite Nat.sub_0_r in Hr. rewrite (run_alone_app _ _ _ _ _ Hr). cbn [run_alone]. unfold step. rewrite (mv_pc _ _ _ _ Hm).
  destruct (Nat.leb_spec queue_depth queue_depth); [|lia]. eexists. split; [reflexivity|].
  eapply moved_trans; [exact Hm|apply moved_go].
Qed.

(** What a caller of [rtrs_clt_get_permit] gets when nobody interferes.
    It takes the lowest free permit, after as many accesses as that has
    lower ones and three more; if there is none, it returns nothing, or, when
    it may wait, is asleep in the wait queue after two scans.  Whatever
    happens, no other bit and no other caller's permit changes. *)
Theorem get_permit_alone t r s :
  pcs s t = Out ->
  exists s0, perform (Get t r) s = Some s0 /\
  (forall i, i < queue_depth -> i ∉ permits_map s -> (forall j, j < i -> j ∈ permits_map s) ->
     exists s1, run_alone (i + 3) t s0 = Some s1 /\ pcs s1 t = Out /\
       permits_map s1 = {[i]} ∪ permits_map s /\ users s1 = (i, r) :: users s) /\
  ((forall i, i < queue_depth -> i ∈ permits_map s) ->
     exists n s1, n <= 2 * queue_depth + 3 /\ run_alone n t s0 = Some s1 /\
       permits_map s1 = permits_map s /\ users s1 = users s /\
       (if rq_wait r then pcs s1 t = Schedule r /\ step t s1 = None else pcs s1 t = Out)).
Proof.
  intros Hpc. exists (go t (Scan false r 0) s). split; [by cbn; rewrite Hpc|]. split.
  - intros i Hi Hfree Hset. destruct (get_free t false r i (go t (Scan false r 0) s)) as (s1 & H1 & H2 & H3 & H4);
      [done..|cbn; apply fn_lookup_insert|]. by exists s1.
  - intros Hset. destruct (get_full t false r (go t (Scan false r 0) s)) as (s1 & H1 & [H2 H3 H4 H5 H6 H7]);
      [done|cbn; apply fn_lookup_insert|].
    destruct (rq_wait r) eqn:Hw; [|exists (queue_depth + 1), s1; split_and!; try done; lia].
    set (s2 := go t (Scan true r 0) (s1 <| permits_wait ::= prepare_to_wait t |>)).
    assert (Hs2 : run_alone (queue_depth + 2) t (go t (Scan false r 0) s) = Some s2).
    { replace (queue_depth + 2) with ((queue_depth + 1) + 1) by lia. rewrite (run_alone_app _ _ _ _ _ H1). cbn [run_alone].
      unfold step. by rewrite H6. }
    destruct (get_full t true r s2) as (s3 & H1' & [H2' H3' H4' H5' H6' H7']); [cbn; by rewrite H2|cbn; apply fn_lookup_insert|].
    exists (queue_depth + 2 + (queue_depth + 1)), s3. rewrite (run_alone_app _ _ _ _ _ Hs2). split_and!; [lia|done| | |done|].
    + rewrite H2'. cbn. by rewrite H2.
    + rewrite H5'. cbn. by rewrite H5.
    + unfold step. rewrite H6', H4'. cbn. by rewrite prepare_law, bool_decide_eq_true_2.
Qed.

(** ** Runs *)

(** A session that was just opened. *)
Record idle (s : shared) : Prop := {
  id_map : permits_map s = ∅;
  id_users : users s = [];
  id_out : forall t, pcs s t = Out;
  id_queue : forall t, blocked (permits_wait s) t = false;
}.

Lemma idle_ok s : idle s -> exclusive s /\ filled s /\ awake s /\ forall t, in_order (pcs s t).
Proof.
  intros [H1 H2 H3 H4]. split_and!.
  - unfold exclusive. rewrite H1, H2. split; try setoid_rewrite H3; try done; [constructor|]. intros i. cbn.
    split; [set_solver|]. by intros [?%not_elem_of_nil|[? ?]].
  - split; [rewrite H2; by intros ? ? ?%not_elem_of_nil|]. intros t i r. by rewrite H3.
  - intros t k i. by rewrite H3.
  - intros t i b. by rewrite H3.
Qed.

Lemma run_exclusive l : forall s s',
  exclusive s -> filled s -> perform_all l s = Some s' -> exclusive s' /\ filled s'.
Proof.
  induction l as [|a l IH]; intros s s' He Hf H; cbn in H; [by unpack H|].
  destruct (perform a s) as [s1|] eqn:Ha; [|done].
  eapply IH; [by eapply perform_exclusive|by eapply perform_filled|exact H].
Qed.

Lemma run_awake l : forall s s',
  awake s -> (forall t, in_order (pcs s t)) -> Forall ordered l -> perform_all l s = Some s' ->
  awake s' /\ forall t, in_order (pcs s' t).
Proof.
  induction l as [|a l IH]; intros s s' Hs Ho Hl H; cbn in H; [by unpack H|].
  apply Forall_cons in Hl as [Ha Hl]. destruct (perform a s) as [s1|] eqn:Hp; [|done].
  destruct (perform_awake a s s1 Hs Ho Ha Hp) as [Hs1 Ho1]. by eapply IH.
Qed.

(** C12. A permit has one owner.  Let any number of threads take and give back
    permits in any interleaving of their accesses to memory, on a machine
    that orders the read of the wait queue or on one that does not.  Then the
    permits that callers have are distinct and within the queue depth, each
    has the processor and the connection type that its caller asked for, its
    bit is set, so that the check of [rtrs_clt_put_permit] never warns; and a
    set bit belongs to a caller or to a thread in a call, so that none is
    lost. *)
Theorem permits_exclusive l s0 s :
  idle s0 -> perform_all l s0 = Some s ->
  NoDup (users s).*1 /\
  (forall i r, (i, r) ∈ users s ->
     i < queue_depth /\ i ∈ permits_map s /\ permits s i = mkPermit (rq_cpu r) (rq_type r)) /\
  (forall t i, pcs s t = TestBit i -> i ∈ permits_map s) /\
  (forall i, i ∈ permits_map s -> i ∈ (users s).*1 \/ exists t, holds (pcs s t) = Some i /\ i ∉ (users s).*1).
Proof.
  intros (He & Hf & _)%idle_ok H. destruct (run_exclusive l s0 s He Hf H) as [[H1 H2 H3 H4 H5 H6] [H7 _]].
  split_and!; [done|intros i r Hu|intros t i Ht|intros i Hi].
  - assert (Hi : i ∈ permits_map s) by (apply H4; left; by apply (list_elem_of_fmap_2 fst _ (i, r))).
    split_and!; [by apply H1|done|by apply H7].
  - apply H4. right. exists t. by rewrite Ht.
  - apply H4 in Hi as [Hi|[t Ht]]; [by left|right]. exists t. split; [done|by eapply H6].
Qed.

(** C13. No wake-up is lost.  On a machine that reads the wait queue after it
    has released the bit, when no thread can make a step any more, a thread
    that sleeps in [rtrs_clt_get_permit] sleeps because every permit is in
    the hands of a caller. *)
Theorem no_lost_wakeup l s0 s t r :
  idle s0 -> Forall ordered l -> perform_all l s0 = Some s ->
  (forall t', step t' s = None) -> pcs s t = Schedule r ->
  forall i, i < queue_depth -> i ∈ (users s).*1.
Proof.
  intros (He & Hf & Ha & Ho)%idle_ok Hl H Hq Ht i Hi.
  destruct (run_exclusive l s0 s He Hf H) as [Hs _]. destruct (run_awake l s0 s Ha Ho Hl H) as [Hw _].
  assert (Hb : blocked (permits_wait s) t = true).
  { specialize (Hq t). unfold step in Hq. rewrite Ht in Hq. by destruct (blocked _ _). }
  assert (Hmap : i ∈ permits_map s).
  { destruct (decide (i ∈ permits_map s)) as [|Hn]; [done|].
    destruct (Hw t queue_depth i) as [t' Ht']; [by rewrite Ht|done..|]. specialize (Hq t'). unfold step in Hq.
    by destruct (pcs s t'). }
  apply (ow_map _ _ _ Hs) in Hmap as [|[t' Ht']]; [done|]. specialize (Hq t'). unfold step in Hq. by destruct (pcs s t').
Qed.
End permits.
