(* ===== verification/Rtrs.v ===== *)
(** * Paths of the RDMA transport client: [src/examples/rtrs-clt.c]

    A session has a list of paths to the server.  A request goes out on one
    of the connected ones, which one the policy of the session decides; paths
    are added and removed, come up and go down, and the user of the session
    is told when the last one is lost and the first one is back.  Functions
    here run in one piece, as under the mutexes and the RCU lock they hold.

    What posts work to the hardware is an argument: the result that
    [rtrs_clt_read_req] or [rtrs_clt_write_req] has on a path. *)

From stdpp Require Import base numbers sets gmap functions list.
From S2P Require Import Prelude StateMonad RtrsPermits.
#[local] Open Scope store_scope.

(** What the headers define. *)
Class RtrsEnv := {
  MAX_PATHS_NUM : Z;
  MAX_IMM_PAYL_BITS : Z;
  INT_MAX : Z;
  KTIME_MAX : Z;
  EMSGSIZE : Z;
  ECONNABORTED : Z;
  EINVAL : Z;
  ilog2 : Z -> Z;
  sizeof_msg_read : Z;       (* struct rtrs_msg_rdma_read *)
  sizeof_msg_write : Z;      (* struct rtrs_msg_rdma_write *)
  sizeof_sg_desc : Z;        (* struct rtrs_sg_desc *)
}.
Class RtrsLaws (E : RtrsEnv) : Prop := {
  paths_law : (0 < MAX_PATHS_NUM)%Z;
  imm_law : (0 < MAX_IMM_PAYL_BITS < 32)%Z;
  errno_law : (0 < ECONNABORTED /\ 0 < EMSGSIZE /\ 0 < EINVAL)%Z;
  ilog2_law : forall x, (0 < x)%Z -> (2 ^ ilog2 x <= x < 2 ^ (ilog2 x + 1))%Z;
  ilog2_zero : ilog2 0 = (-1)%Z;
}.

(** ** States of a path *)

Inductive rtrs_clt_state :=
| RTRS_CLT_CONNECTING | RTRS_CLT_CONNECTING_ERR | RTRS_CLT_RECONNECTING | RTRS_CLT_CONNECTED
| RTRS_CLT_CLOSING | RTRS_CLT_CLOSED | RTRS_CLT_DEAD.
#[export] Instance rtrs_clt_state_eq_dec : EqDecision rtrs_clt_state.
Proof. solve_decision. Defined.

(** [rtrs_clt_change_state]: whether a path may go from [old] to [new]. *)
Definition rtrs_clt_change_state (old new : rtrs_clt_state) : bool :=
  match new with
  | RTRS_CLT_CONNECTING => match old with RTRS_CLT_RECONNECTING => true | _ => false end
  | RTRS_CLT_RECONNECTING =>
      match old with RTRS_CLT_CONNECTED | RTRS_CLT_CONNECTING_ERR | RTRS_CLT_CLOSED => true | _ => false end
  | RTRS_CLT_CONNECTED => match old with RTRS_CLT_CONNECTING => true | _ => false end
  | RTRS_CLT_CONNECTING_ERR => match old with RTRS_CLT_CONNECTING => true | _ => false end
  | RTRS_CLT_CLOSING =>
      match old with
      | RTRS_CLT_CONNECTING | RTRS_CLT_CONNECTING_ERR | RTRS_CLT_RECONNECTING | RTRS_CLT_CONNECTED => true
      | _ => false
      end
  | RTRS_CLT_CLOSED => match old with RTRS_CLT_CLOSING => true | _ => false end
  | RTRS_CLT_DEAD => match old with RTRS_CLT_CLOSED => true | _ => false end
  end.

(** ** The session *)

Record rtrs_clt_path := mkPath {
  p_state : rtrs_clt_state;
  p_inflight : Z;
  p_hb_cur_latency : Z;
  p_max_hdr_size : Z;
  p_established : bool;
}.
#[export] Instance rtrs_clt_path_upd : Updatable rtrs_clt_path :=
  (rd_pure mkPath <&> p_state <&> p_inflight <&> p_hb_cur_latency <&> p_max_hdr_size <&> p_established)%upd.

Inductive mp_policy_t := MP_POLICY_RR | MP_POLICY_MIN_INFLIGHT | MP_POLICY_MIN_LATENCY.
Inductive link_ev := RTRS_CLT_LINK_EV_RECONNECTED | RTRS_CLT_LINK_EV_DISCONNECTED.

(** Paths by address, in use or just removed; the list; the next path of the
    round robin on each processor; the entries of the skip list on the
    processor that runs; requests in use, by path and permit; and the link
    events so far. *)
Record rtrs_clt_sess := mkSess {
  paths : gmap nat rtrs_clt_path;
  paths_list : list nat;
  paths_num : nat;
  paths_up : Z;
  pcpu_path : nat -> option nat;
  skip_list : list nat;
  mp_policy : mp_policy_t;
  reqs_in_use : gset (nat * nat);
  link_evs : list link_ev;
}.
#[export] Instance rtrs_clt_sess_upd : Updatable rtrs_clt_sess :=
  (rd_pure mkSess <&> paths <&> paths_list <&> paths_num <&> paths_up <&> pcpu_path <&> skip_list <&> mp_policy
   <&> reqs_in_use <&> link_evs)%upd.

Abbreviation R := (SM rtrs_clt_sess).

Definition path (p : nat) : R rtrs_clt_path := fun s =>
  match paths s !! p with Some x => Ok (x, s) | None => Panic end.
Definition set_path (p : nat) (f : rtrs_clt_path -> rtrs_clt_path) : R unit :=
  mset (fun s => s <| paths ::= alter f p |>).

Definition connected (x : rtrs_clt_path) : bool := bool_decide (p_state x = RTRS_CLT_CONNECTED).

Section rtrs.
Context `{E : RtrsEnv}.

Fixpoint any_connected (l : list nat) : R bool :=
  match l with
  | [] => mret false
  | p :: l => do! x := path p in do! b := any_connected l in mret (connected x || b)
  end.
Definition rtrs_clt_is_connected : R bool := do! l := mget paths_list in any_connected l.

(** ** Choosing a path *)

(** The element after [p]; [None] if [p] is not in the list. *)
Fixpoint list_next (p : nat) (l : list nat) : option (option nat) :=
  match l with
  | [] => None
  | q :: l => if q =? p then Some (head l) else list_next p l
  end.

(** [list_next_or_null_rr_rcu]: the next path, the first one after the last.
    The pointer of a processor is in the list (see [sess_ok]). *)
Definition list_next_or_null_rr_rcu (p : nat) (l : list nat) : R (option nat) :=
  match list_next p l with
  | Some (Some q) => mret (Some q)
  | Some None => mret (head l)
  | None => a_crash
  end.

Definition get_next_path_rr (cpu : nat) : R (option nat) :=
  do! l := mget paths_list in
  do! cur := mget (fun s => pcpu_path s cpu) in
  do! next := match cur with None => mret (head l) | Some p => list_next_or_null_rr_rcu p l end in
  mset (fun s => s <| pcpu_path ::= <[cpu := next]> |>) ;;
  mret next.

(** The loop of the two policies that look for a minimum. *)
Fixpoint min_path (key : rtrs_clt_path -> Z) (l : list nat) (best : option nat) (least : Z) : R (option nat) :=
  match l with
  | [] => mret best
  | p :: l =>
      do! x := path p in
      do! skip := mget skip_list in
      if negb (connected x) || bool_decide (p ∈ skip) then min_path key l best least
      else if (key x <? least)%Z then min_path key l (Some p) (key x)
      else min_path key l best least
  end.

Definition get_next_path_min (key : rtrs_clt_path -> Z) (most : Z) : R (option nat) :=
  do! l := mget paths_list in
  do! p := min_path key l None most in
  match p with
  | Some p => mset (fun s => s <| skip_list ::= cons p |>) ;; mret (Some p)
  | None => mret None
  end.
Definition get_next_path_min_inflight : R (option nat) := get_next_path_min p_inflight INT_MAX.
Definition get_next_path_min_latency : R (option nat) := get_next_path_min p_hb_cur_latency KTIME_MAX.

(** [it->next_path], as [path_it_init] sets it. *)
Definition next_path (cpu : nat) : R (option nat) :=
  do! policy := mget mp_policy in
  match policy with
  | MP_POLICY_RR => get_next_path_rr cpu
  | MP_POLICY_MIN_INFLIGHT => get_next_path_min_inflight
  | MP_POLICY_MIN_LATENCY => get_next_path_min_latency
  end.
Definition path_it_deinit : R unit := mset (fun s => s <| skip_list := [] |>).

(** [for (path_it_init(&it, clt); (p = it.next_path(&it)) && it.i < n; it.i++)];
    the body gives its result and whether it leaves the loop.  [next_path] is
    called before [it.i] is compared. *)
Fixpoint each_path {A} (cpu : nat) (body : nat -> A -> R (A * bool)) (n : nat) (acc : A) : R A :=
  do! p := next_path cpu in
  match p, n with
  | None, _ | Some _, O => mret acc
  | Some p, S n =>
      do! r := body p acc in
      if snd r then mret (fst r) else each_path cpu body n (fst r)
  end.
Definition do_each_path {A} (cpu : nat) (body : nat -> A -> R (A * bool)) (acc : A) : R A :=
  do! n := mget paths_num in
  do! acc := each_path cpu body n acc in
  path_it_deinit ;; mret acc.

(** ** Requests *)

Inductive direction := READ | WRITE.

(** [usr_len + hdr_len]; [vec]: the lengths of the user's vector. *)
Definition request_len (dir : direction) (vec : list Z) (sg_cnt : Z) : Z :=
  let usr_len := foldl (fun len iov_len => u64 (len + iov_len)) 0%Z vec in
  let hdr_len := match dir with READ => u64 (sizeof_msg_read + sg_cnt * sizeof_sg_desc) | WRITE => sizeof_msg_write end in
  u64 (usr_len + hdr_len).

(** Sending on a connected path; [post p] is the result of posting there. *)
Definition send_on (post : nat -> Z) (mem_id : nat) (p : nat) : R (Z * bool) :=
  mset (fun s => s <| reqs_in_use := {[(p, mem_id)]} ∪ reqs_in_use s |>) ;;
  if (post p =? 0)%Z then mret (0%Z, true)
  else mset (fun s => s <| reqs_in_use := reqs_in_use s ∖ {[(p, mem_id)]} |>) ;; mret (post p, false).

Definition rtrs_clt_request (cpu : nat) (post : nat -> Z) (mem_id : nat) (dir : direction) (vec : list Z) (sg_cnt : Z) : R Z :=
  do_each_path cpu (fun p err =>
    do! x := path p in
    if negb (connected x) then mret (err, false)
    else if (request_len dir vec sg_cnt >? p_max_hdr_size x)%Z then mret (- EMSGSIZE, true)%Z
    else send_on post mem_id p) (- ECONNABORTED)%Z.

Definition rtrs_clt_failover_req (cpu : nat) (post : nat -> Z) (mem_id : nat) : R Z :=
  do_each_path cpu (fun p err =>
    do! x := path p in
    if negb (connected x) then mret (err, false) else send_on post mem_id p) (- ECONNABORTED)%Z.

(** [poll p]: completions found on the connection of the path. *)
Definition rtrs_clt_rdma_cq_direct (cpu : nat) (poll : nat -> Z) : R Z :=
  do_each_path cpu (fun p cnt =>
    do! x := path p in
    if negb (connected x) then mret (cnt, false) else mret (poll p, negb (poll p =? 0)%Z)) (-1)%Z.

(** ** Paths that come and go *)

Definition rtrs_clt_add_path_to_arr (p : nat) (x : rtrs_clt_path) : R unit :=
  mset (fun s => s <| paths_num ::= S |> <| paths ::= <[p := x]> |> <| paths_list ::= fun l => l ++ [p] |>).

(** The removed entry still points to the one after it. *)
Definition rtrs_clt_remove_path_from_arr (p : nat) : R unit :=
  do! old := mget paths_list in
  mset (fun s => s <| paths_list := List.filter (fun q => negb (q =? p)) old |>) ;;
  mset (fun s => s <| paths_num ::= Nat.pred |>) ;;
  do! l := mget paths_list in
  let next := match list_next p old with Some (Some q) => Some q | _ => head l end in
  mset (fun s => s <| pcpu_path ::= fun f cpu => if bool_decide (f cpu = Some p) then next else f cpu |>).

(** ** Link events *)

Definition fire (ev : link_ev) : R unit := mset (fun s => s <| link_evs ::= fun l => l ++ [ev] |>).

Definition rtrs_clt_path_up (p : nat) : R unit :=
  mset (fun s => s <| paths_up ::= Z.succ |>) ;;
  do! up := mget paths_up in
  do! num := mget (fun s => Z.of_nat (paths_num s)) in
  (if ((up >? MAX_PATHS_NUM) && (up =? MAX_PATHS_NUM + num))%Z then mset (fun s => s <| paths_up := num |>)
   else if (up =? 1)%Z then fire RTRS_CLT_LINK_EV_RECONNECTED
   else mskip) ;;
  set_path p (fun x => x <| p_established := true |>).

Definition rtrs_clt_path_down (p : nat) : R unit :=
  do! x := path p in
  if negb (p_established x) then mskip
  else
    set_path p (fun x => x <| p_established := false |>) ;;
    mset (fun s => s <| paths_up ::= Z.pred |>) ;;
    do! up := mget paths_up in
    if (up =? 0)%Z then fire RTRS_CLT_LINK_EV_DISCONNECTED else mskip.

(** ** The server's buffers *)

(** A region of the server's memory, and the buffer of one request. *)
Record rtrs_sg_desc := mkDesc { d_addr : Z; d_key : Z; d_len : Z }.
Record rtrs_rbuf := mkRbuf { b_addr : Z; b_rkey : Z }.

(** [for ( ; len && i < clt_path->queue_depth; i++)]; [n] buffers are left. *)
Fixpoint map_chunks (n i : nat) (chunk_size addr rkey len : Z) (rbufs : list rtrs_rbuf) : nat * list rtrs_rbuf :=
  match n with
  | O => (i, rbufs)
  | S n =>
      if (len =? 0)%Z then (i, rbufs)
      else map_chunks n (S i) chunk_size (u64 (addr + chunk_size)) rkey (as_u32 (len - chunk_size)) (<[i := mkRbuf addr rkey]> rbufs)
  end.

(** The loop over the regions; [None]: a length that makes no sense.  It gives
    the regions that are left, the next buffer and the total length. *)
Fixpoint map_descs (queue_depth : nat) (chunk_size : Z) (descs : list rtrs_sg_desc) (i : nat) (total_len : Z)
    (rbufs : list rtrs_rbuf) : res Empty_set (option (nat * nat * Z) * list rtrs_rbuf) :=
  match descs with
  | [] => Ok (Some (0, i, total_len), rbufs)
  | d :: rest =>
      if queue_depth <=? i then Ok (Some (length descs, i, total_len), rbufs)
      else if (d_len d =? 0)%Z then Ok (None, rbufs)
      else if (chunk_size =? 0)%Z then Panic
      else if negb (d_len d mod chunk_size =? 0)%Z then Ok (None, rbufs)
      else
        let '(i', rbufs) := map_chunks (queue_depth - i) i chunk_size (d_addr d) (d_key d) (d_len d) rbufs in
        map_descs queue_depth chunk_size rest i' (as_u32 (total_len + d_len d)) rbufs
  end.

(** [descs]: as many regions as [msg->sg_cnt] says, which the caller has
    checked against the size of the message. *)
Definition process_info_rsp (queue_depth : nat) (chunk_size : Z) (descs : list rtrs_sg_desc) (rbufs : list rtrs_rbuf) :
    res Empty_set (Z * list rtrs_rbuf) :=
  let sg_cnt := length descs in
  if (sg_cnt =? 0) || negb (queue_depth mod sg_cnt =? 0) then Ok ((- EINVAL)%Z, rbufs)
  else if ((ilog2 (Z.of_nat sg_cnt - 1) + 1) + (ilog2 (as_u32 (chunk_size - 1)) + 1) >? MAX_IMM_PAYL_BITS)%Z
  then Ok ((- EINVAL)%Z, rbufs)
  else
    let* (r, rbufs) := map_descs queue_depth chunk_size descs 0 0 rbufs in
    match r with
    | None => Ok ((- EINVAL)%Z, rbufs)
    | Some (unused, i, total_len) =>
        if negb (unused =? 0) || negb (i =? queue_depth) then Ok ((- EINVAL)%Z, rbufs)
        else if negb (total_len =? chunk_size * Z.of_nat queue_depth)%Z then Ok ((- EINVAL)%Z, rbufs)
        else Ok (0%Z, rbufs)
    end.

(** ** Permits: where they are in the immediate data of a message *)

(** [alloc_permits]: [permit->mem_off] of permit [i]. *)
Definition mem_off (queue_depth : nat) (i : nat) : Z :=
  let chunk_bits := (ilog2 (Z.of_nat queue_depth - 1) + 1)%Z in
  Z.shiftl (Z.of_nat i) (MAX_IMM_PAYL_BITS - chunk_bits).

(** The connection of a permit: 0 is for user messages. *)
Definition rtrs_permit_to_clt_con (irq_con_num : Z) (permit : rtrs_permit) : Z :=
  match p_con_type permit with
  | RTRS_IO_CON => (p_cpu_id permit mod (irq_con_num - 1) + 1)%Z
  | OTHER_CON => 0
  end.
End rtrs.
