(* ===== verification/RtrsProps.v ===== *)
(** * Paths of the transport client: what they promise

    A request goes out if a connected path can take it, whatever the policy;
    no pointer to a removed path stays; and the user of the session is told
    when all paths are lost and when one is back. *)

From stdpp Require Import base numbers sets gmap functions fin_maps fin_map_dom list.
From S2P Require Import Prelude StateMonad RtrsPermits Rtrs.
#[local] Open Scope store_scope.

Section rtrs.
Context `{E : RtrsEnv} `{!RtrsLaws E}.
Implicit Types (s : rtrs_clt_sess) (p q : nat).

(** ** A well-formed session *)

Record sess_ok s : Prop := {
  so_nodup : NoDup (paths_list s);
  so_listed : forall p, p ∈ paths_list s -> is_Some (paths s !! p);
  so_num : paths_num s = length (paths_list s);
  so_cpu : forall cpu p, pcpu_path s cpu = Some p -> p ∈ paths_list s;
  so_skip : skip_list s = [];
}.

Lemma wp_path p x (Q : rtrs_clt_path -> rtrs_clt_sess -> Prop) s : paths s !! p = Some x -> Q x s -> wp (path p) Q s.
Proof. intros Hp HQ. exists x, s. unfold path. by rewrite Hp. Qed.

Lemma head_in {A} (l : list A) a : head l = Some a -> a ∈ l.
Proof. destruct l as [|b l]; [done|]. intros [= ->]. by left. Qed.

Lemma list_next_some p l : p ∈ l -> exists o, list_next p l = Some o /\ forall q, o = Some q -> q ∈ l.
Proof.
  induction l as [|a l IH]; [by intros ?%not_elem_of_nil|]. intros Hp. cbn. destruct (Nat.eqb_spec a p) as [->|Hne].
  - exists (head l). split; [done|]. intros q Hq. right. by apply head_in.
  - apply elem_of_cons in Hp as [->|Hp]; [done|]. destruct (IH Hp) as (o & Ho & Hin). exists o. split; [done|].
    intros q Hq. right. by apply Hin.
Qed.

(** ** Added and removed paths *)

Definition others (p : nat) (l : list nat) : list nat := List.filter (fun q => negb (q =? p)) l.

Lemma elem_others p q l : q ∈ others p l <-> q ∈ l /\ q <> p.
Proof.
  unfold others. rewrite list_elem_of_In, filter_In, <- list_elem_of_In, negb_true_iff, Nat.eqb_neq. done.
Qed.
Lemma others_nodup p l : NoDup l -> NoDup (others p l).
Proof. intros H. apply NoDup_ListNoDup, List.NoDup_filter. by apply NoDup_ListNoDup. Qed.
Lemma others_notin p l : p ∉ l -> others p l = l.
Proof.
  induction l as [|q l IH]; cbn; [done|]. rewrite elem_of_cons. intros H. destruct (Nat.eqb_spec q p); [naive_solver|].
  cbn. f_equal. apply IH. naive_solver.
Qed.
Lemma others_length p l : NoDup l -> p ∈ l -> length l = S (length (others p l)).
Proof.
  induction l as [|q l IH]; [by intros _ ?%not_elem_of_nil|]. intros [Hq Hl]%NoDup_cons Hp. cbn.
  destruct (Nat.eqb_spec q p) as [->|Hne]; cbn; f_equal; fold (others p l); [by rewrite others_notin|].
  apply elem_of_cons in Hp as [->|Hp]; [done|]. by apply IH.
Qed.
Lemma list_next_other p q l : NoDup l -> list_next p l = Some (Some q) -> q <> p.
Proof.
  induction l as [|a l IH]; [done|]. intros [Ha Hl]%NoDup_cons. cbn. destruct (Nat.eqb_spec a p) as [->|Hne].
  - intros [= Hq]. apply head_in in Hq. by intros ->.
  - by apply IH.
Qed.

Lemma wp_add_path p x s : sess_ok s -> paths s !! p = None ->
  wp (rtrs_clt_add_path_to_arr p x) (fun _ s' => sess_ok s' /\ paths s' = <[p := x]> (paths s) /\
    paths_list s' = paths_list s ++ [p] /\ paths_up s' = paths_up s /\ link_evs s' = link_evs s) s.
Proof.
  intros [H1 H2 H3 H4 H5] Hp. apply wp_set. cbn. split_and!; try done. split; cbn; try done.
  - apply NoDup_app. split_and!; [done| |apply NoDup_singleton]. intros q Hq ->%list_elem_of_singleton.
    destruct (H2 p Hq) as [y Hy]. congruence.
  - intros q [Hq|Hq]%elem_of_app.
    + destruct (H2 q Hq) as [y Hy]. exists y. rewrite lookup_insert_ne; [done|]. intros ->. congruence.
    + apply list_elem_of_singleton in Hq as ->. rewrite lookup_insert_eq. by eexists.
  - rewrite length_app. cbn. lia.
  - intros cpu q Hq. apply elem_of_app. left. by eapply H4.
Qed.

Lemma wp_remove_path p s : sess_ok s -> p ∈ paths_list s ->
  wp (rtrs_clt_remove_path_from_arr p) (fun _ s' => sess_ok s' /\ paths s' = paths s /\
    paths_list s' = others p (paths_list s) /\ paths_up s' = paths_up s /\ link_evs s' = link_evs s /\
    forall cpu, pcpu_path s' cpu <> Some p) s.
Proof.
  intros [H1 H2 H3 H4 H5] Hp. unfold rtrs_clt_remove_path_from_arr.
  apply wp_bind, wp_get, wp_bind, wp_set, wp_bind, wp_set, wp_bind, wp_get, wp_set. cbn. fold (others p (paths_list s)).
  set (next := match list_next p (paths_list s) with Some (Some q) => Some q | _ => head (others p (paths_list s)) end).
  assert (Hnext : forall q, next = Some q -> q ∈ others p (paths_list s)).
  { unfold next. intros q. destruct (list_next_some p (paths_list s) Hp) as (o & Ho & Hin). rewrite Ho. destruct o as [q'|].
    - intros [= ->]. apply elem_others. split; [by apply Hin|by eapply list_next_other].
    - apply head_in. }
  split_and!; try done.
  - split; cbn; try done.
    + by apply others_nodup.
    + intros q [Hq _]%elem_others. by apply H2.
    + rewrite H3, (others_length p) by done. done.
    + intros cpu q. case_bool_decide as Hc; [apply Hnext|]. intros Hq. apply elem_others. split; [by eapply H4|].
      intros ->. done.
  - intros cpu. case_bool_decide as Hc; [|done]. intros Hn. by apply Hnext, elem_others in Hn as [_ ?].
Qed.

(** No processor keeps a pointer to a removed path.  Removing a path that
    is in the list leaves a well-formed session: the list holds the other
    paths in the same order and their number is right, and the round robin of
    every processor goes on at a path of the list. *)
Theorem remove_path_no_dangling p s : sess_ok s -> p ∈ paths_list s ->
  exists s', rtrs_clt_remove_path_from_arr p s = Ok (tt, s') /\ sess_ok s' /\
    paths_list s' = others p (paths_list s) /\
    forall cpu q, pcpu_path s' cpu = Some q -> q ∈ paths_list s /\ q <> p.
Proof.
  intros Hs Hp. destruct (wp_remove_path p s Hs Hp) as ([] & s' & Hr & Hok & _ & Hl & _). exists s'. split_and!; [done..|].
  intros cpu q Hq. apply elem_others. rewrite <- Hl. by apply (so_cpu _ Hok cpu).
Qed.

(** ** The paths that a loop visits *)

(** What a body does to the result and to the requests in use. *)
Definition outcome (A : Type) : Type := nat -> A -> (A * bool) * (gset (nat * nat) -> gset (nat * nat)).

(** Visiting paths one after the other until the body stops. *)
Fixpoint visit {A} (out : outcome A) (vs : list nat) (acc : A) (reqs : gset (nat * nat)) : A * gset (nat * nat) :=
  match vs with
  | [] => (acc, reqs)
  | p :: vs =>
      let '(r, f) := out p acc in
      if snd r then (fst r, f reqs) else visit out vs (fst r) (f reqs)
  end.

(** The loops of a session leave these alone. *)
Record same_session s s' : Prop := {
  ss_paths : paths s' = paths s;
  ss_list : paths_list s' = paths_list s;
  ss_num : paths_num s' = paths_num s;
  ss_up : paths_up s' = paths_up s;
  ss_policy : mp_policy s' = mp_policy s;
  ss_evs : link_evs s' = link_evs s;
}.
Lemma same_refl s : same_session s s.
Proof. done. Qed.
Lemma same_trans s1 s2 s3 : same_session s1 s2 -> same_session s2 s3 -> same_session s1 s3.
Proof. intros [] []. split; congruence. Qed.

(** [body] computes [out] in states with these paths. *)
Definition computes {A} (body : nat -> A -> R (A * bool)) (out : outcome A) s : Prop :=
  forall p acc s1, p ∈ paths_list s -> paths s1 = paths s ->
  body p acc s1 = Ok ((out p acc).1, s1 <| reqs_in_use ::= (out p acc).2 |>).

Lemma computes_same {A} (body : nat -> A -> R (A * bool)) out s s' :
  same_session s s' -> computes body out s -> computes body out s'.
Proof. intros [H1 H2 _ _ _ _] Hc p acc s1 Hp Hs. apply Hc; congruence. Qed.

(** ** Round robin *)

Fixpoint before (p : nat) (l : list nat) : list nat :=
  match l with [] => [] | q :: l => if q =? p then [] else q :: before p l end.
Fixpoint after (p : nat) (l : list nat) : list nat :=
  match l with [] => [] | q :: l => if q =? p then l else after p l end.
Lemma before_after p l : p ∈ l -> l = before p l ++ p :: after p l.
Proof.
  induction l as [|q l IH]; [by intros ?%not_elem_of_nil|]. cbn. destruct (Nat.eqb_spec q p) as [->|Hne]; [done|].
  intros [->|Hp]%elem_of_cons; [done|]. cbn. f_equal. by apply IH.
Qed.

(** The order in which the round robin goes on. *)
Definition rr_order (cur : option nat) (l : list nat) : list nat :=
  match cur with None => l | Some p => after p l ++ before p l ++ [p] end.

Lemma before_unique p l1 l2 : p ∉ l1 -> before p (l1 ++ p :: l2) = l1 /\ after p (l1 ++ p :: l2) = l2.
Proof.
  induction l1 as [|q l1 IH]; cbn; [by rewrite Nat.eqb_refl|]. rewrite elem_of_cons. intros H.
  destruct (Nat.eqb_spec q p); [naive_solver|]. destruct IH as [-> ->]; naive_solver.
Qed.
Lemma list_next_after p l : p ∈ l -> list_next p l = Some (head (after p l)).
Proof.
  induction l as [|q l IH]; [by intros ?%not_elem_of_nil|]. cbn. destruct (Nat.eqb_spec q p) as [->|Hne]; [done|].
  intros [->|Hp]%elem_of_cons; [done|]. by apply IH.
Qed.

Lemma rr_rotate cur l a o :
  NoDup l -> (forall p, cur = Some p -> p ∈ l) -> rr_order cur l = a :: o -> rr_order (Some a) l = o ++ [a].
Proof.
  intros Hl Hcur. destruct cur as [p|]; cbn [rr_order].
  - pose proof (before_after p l (Hcur p eq_refl)) as He. revert He. generalize (before p l) (after p l). intros l1 l2 ->.
    clear Hcur. destruct l2 as [|b l2]; cbn.
    + destruct l1 as [|b l1]; cbn.
      * intros [= -> <-]. by rewrite Nat.eqb_refl.
      * intros [= -> <-]. by rewrite Nat.eqb_refl.
    + intros [= -> <-]. replace (l1 ++ p :: a :: l2) with ((l1 ++ [p]) ++ a :: l2) in * by by rewrite <- app_assoc.
      destruct (before_unique a (l1 ++ [p]) l2) as [-> ->]; [|by rewrite <- !app_assoc].
      apply NoDup_app in Hl as (_ & Hl & _). intros Hin. apply (Hl a Hin). by left.
  - intros ->. cbn. by rewrite Nat.eqb_refl.
Qed.

Lemma rr_head cur l : (forall p, cur = Some p -> p ∈ l) ->
  match cur with
  | None => head l
  | Some p => match head (after p l) with Some q => Some q | None => head l end
  end = head (rr_order cur l).
Proof.
  intros Hcur. destruct cur as [p|]; [|done]. pose proof (before_after p l (Hcur p eq_refl)) as He. cbn.
  revert He. generalize (before p l) (after p l). intros l1 l2 ->. destruct l2 as [|b l2]; [|done]. by destruct l1.
Qed.

Lemma rr_elem cur l q : (forall p, cur = Some p -> p ∈ l) -> q ∈ rr_order cur l <-> q ∈ l.
Proof.
  intros Hcur. destruct cur as [p|]; [|done]. pose proof (before_after p l (Hcur p eq_refl)) as He. cbn.
  rewrite He at 3. set_solver.
Qed.
Lemma rr_length cur l : (forall p, cur = Some p -> p ∈ l) -> length (rr_order cur l) = length l.
Proof.
  intros Hcur. destruct cur as [p|]; [|done]. pose proof (before_after p l (Hcur p eq_refl)) as He. cbn.
  rewrite He at 3. rewrite !length_app. cbn. lia.
Qed.

Lemma get_next_path_rr_run cpu s : (forall p, pcpu_path s cpu = Some p -> p ∈ paths_list s) ->
  let next := head (rr_order (pcpu_path s cpu) (paths_list s)) in
  get_next_path_rr cpu s = Ok (next, s <| pcpu_path ::= <[cpu := next]> |>).
Proof.
  intros Hcur. unfold get_next_path_rr. unfold mbind_ at 1, mget. cbn [res_bind]. unfold mbind_ at 1. cbn [res_bind].
  rewrite <- (rr_head (pcpu_path s cpu) (paths_list s) Hcur). destruct (pcpu_path s cpu) as [p|] eqn:Hp; [|reflexivity].
  unfold list_next_or_null_rr_rcu. rewrite list_next_after by by apply Hcur. by destruct (head (after p (paths_list s))).
Qed.

(** What a loop leaves. *)
Record looped {A} (r : A * gset (nat * nat)) s (a : A) s' : Prop := {
  lp_result : a = r.1;
  lp_reqs : reqs_in_use s' = r.2;
  lp_same : same_session s s';
  lp_cpu : forall cpu p, pcpu_path s' cpu = Some p -> p ∈ paths_list s;
}.

Definition cpus_ok s : Prop := forall cpu p, pcpu_path s cpu = Some p -> p ∈ paths_list s.

Lemma each_rr {A} cpu (body : nat -> A -> R (A * bool)) out todo : forall rest s acc,
  mp_policy s = MP_POLICY_RR -> NoDup (paths_list s) -> cpus_ok s -> computes body out s ->
  rr_order (pcpu_path s cpu) (paths_list s) = todo ++ rest ->
  wp (each_path cpu body (length todo) acc) (looped (visit out todo acc (reqs_in_use s)) s) s.
Proof.
  induction todo as [|p todo IH]; intros rest s acc Hp Hnd Hcpu Hc Ho.
  - exists acc. cbn [each_path length]. unfold mbind_ at 1, next_path, mbind_ at 1, mget. cbn [res_bind]. rewrite Hp.
    pose proof (get_next_path_rr_run cpu s (Hcpu cpu)) as Hr. cbn zeta in Hr. rewrite Hr. cbn [res_bind].
    exists (s <| pcpu_path ::= <[cpu := head (rr_order (pcpu_path s cpu) (paths_list s))]> |>).
    split; [by destruct (head _)|]. split; try done. cbn. intros cpu' q.
    destruct (decide (cpu = cpu')) as [<-|Hne]; [rewrite fn_lookup_insert|rewrite fn_lookup_insert_ne by done; apply Hcpu].
    intros Hq. apply (rr_elem (pcpu_path s cpu)); [apply Hcpu|by apply head_in].
  - cbn [each_path length]. unfold wp. unfold mbind_ at 1, next_path, mbind_ at 1, mget. cbn [res_bind]. rewrite Hp.
    pose proof (get_next_path_rr_run cpu s (Hcpu cpu)) as Hr. cbn zeta in Hr. rewrite Hr, Ho. cbn [res_bind head app].
    assert (Hin : p ∈ paths_list s) by (apply (rr_elem (pcpu_path s cpu)); [apply Hcpu|rewrite Ho; by left]).
    set (s1 := s <| pcpu_path ::= <[cpu := Some p]> |>).
    assert (Hcpu1 : cpus_ok s1).
    { intros cpu' q. cbn. destruct (decide (cpu = cpu')) as [<-|Hne];
        [rewrite fn_lookup_insert; by intros [= <-]|rewrite fn_lookup_insert_ne by done; apply Hcpu]. }
    unfold mbind_ at 1. rewrite (Hc p acc s1) by done. cbn [res_bind visit].
    destruct (out p acc) as [[a stop] f]. cbn. set (s2 := s1 <| reqs_in_use ::= f |>).
    destruct stop; [by exists a, s2|].
    destruct (IH (rest ++ [p]) s2 a) as (a' & s' & Hr' & [H1 H2 H3 H4]); try done.
    + assert (Hcur : pcpu_path s2 cpu = Some p) by apply fn_lookup_insert. rewrite Hcur, (app_assoc todo).
      by apply (rr_rotate (pcpu_path s cpu)); [|apply Hcpu|].
    + exists a', s'. split; [exact Hr'|]. split; [exact H1|exact H2|by apply (same_trans s s2)|exact H4].
Qed.

(** ** The policies that look for a minimum *)

Definition eligible s (p : nat) : bool :=
  match paths s !! p with Some x => connected x | None => false end && negb (bool_decide (p ∈ skip_list s)).

Lemma min_path_run key l : forall s best least,
  (forall p, p ∈ l -> is_Some (paths s !! p)) ->
  exists o, min_path key l best least s = Ok (o, s) /\
    ((o = best /\ forall p x, p ∈ l -> eligible s p = true -> paths s !! p = Some x -> (least <= key x)%Z) \/
     (exists p, o = Some p /\ p ∈ l /\ eligible s p = true)).
Proof.
  induction l as [|p l IH]; intros s best least Hl; cbn [min_path].
  { exists best. split; [done|]. left. split; [done|]. by intros ? ? ?%not_elem_of_nil. }
  destruct (Hl p ltac:(by left)) as [x Hx]. unfold mbind_ at 1, path. rewrite Hx. cbn [res_bind].
  unfold mbind_ at 1, mget. cbn [res_bind].
  assert (Hl' : forall q, q ∈ l -> is_Some (paths s !! q)) by (intros; apply Hl; by right).
  assert (He : eligible s p = connected x && negb (bool_decide (p ∈ skip_list s))) by (unfold eligible; by rewrite Hx).
  destruct (negb (connected x) || bool_decide (p ∈ skip_list s)) eqn:Hb.
  - destruct (IH s best least Hl') as (o & Ho & [[-> Hall]|(q & -> & Hq & Heq)]); eexists; (split; [exact Ho|]).
    + left. split; [done|]. intros q y [->|Hq]%elem_of_cons Heq Hy; [|by eapply Hall].
      rewrite He in Heq. destruct (connected x), (bool_decide (p ∈ skip_list s)); done.
    + right. exists q. split_and!; [done|by right|done].
  - assert (Hep : eligible s p = true) by (rewrite He; destruct (connected x), (bool_decide (p ∈ skip_list s)); done).
    destruct (Z.ltb_spec (key x) least) as [Hlt|Hge].
    + destruct (IH s (Some p) (key x) Hl') as (o & Ho & [[-> _]|(q & -> & Hq & Heq)]); eexists; (split; [exact Ho|]); right.
      * exists p. split_and!; [done|by left|done].
      * exists q. split_and!; [done|by right|done].
    + destruct (IH s best least Hl') as (o & Ho & [[-> Hall]|(q & -> & Hq & Heq)]); eexists; (split; [exact Ho|]).
      * left. split; [done|]. intros q y [->|Hq]%elem_of_cons Heq Hy; [|by eapply Hall]. assert (y = x) as -> by congruence. lia.
      * right. exists q. split_and!; [done|by right|done].
Qed.

(** The key of every connected path is below the largest value. *)
Definition keys_below (key : rtrs_clt_path -> Z) (most : Z) s : Prop :=
  forall p x, p ∈ paths_list s -> paths s !! p = Some x -> connected x = true -> (key x < most)%Z.

Lemma get_min_run key most s :
  (forall p, p ∈ paths_list s -> is_Some (paths s !! p)) -> keys_below key most s ->
  (get_next_path_min key most s = Ok (None, s) /\ forall p, p ∈ paths_list s -> eligible s p = false) \/
  exists p, get_next_path_min key most s = Ok (Some p, s <| skip_list ::= cons p |>) /\ p ∈ paths_list s /\ eligible s p = true.
Proof.
  intros Hl Hk. unfold get_next_path_min, mbind_, mget. cbn [res_bind].
  destruct (min_path_run key (paths_list s) s None most Hl) as (o & Ho & [[-> Hall]|(p & -> & Hp & He)]).
  - left. rewrite Ho. split; [done|]. intros p Hp. apply not_true_iff_false. intros He.
    destruct (Hl p Hp) as [x Hx]. specialize (Hall p x Hp He Hx). unfold eligible in He. rewrite Hx in He.
    apply andb_prop in He as [Hcx _]. specialize (Hk p x Hp Hx Hcx). lia.
  - right. exists p. rewrite Ho. done.
Qed.

Definition min_policy (key : rtrs_clt_path -> Z) (most : Z) s : Prop := forall cpu s1,
  same_session s s1 -> next_path cpu s1 = get_next_path_min key most s1.

Definition still_eligible s : nat := length (List.filter (eligible s) (paths_list s)).

Lemma eligible_skip s p q : eligible (s <| skip_list ::= cons p |>) q = eligible s q && negb (q =? p).
Proof.
  unfold eligible. cbn. rewrite <- andb_assoc. f_equal. apply eq_true_iff_eq.
  rewrite andb_true_iff, !negb_true_iff, !bool_decide_eq_false, Nat.eqb_neq, not_elem_of_cons. naive_solver.
Qed.

Lemma filter_one_less f p (l : list nat) : NoDup l -> p ∈ l -> f p = true ->
  length (List.filter f l) = S (length (List.filter (fun q => f q && negb (q =? p)) l)).
Proof.
  induction l as [|q l IH]; [by intros _ ?%not_elem_of_nil|]. intros [Hq Hl]%NoDup_cons Hp Hf. cbn.
  destruct (Nat.eqb_spec q p) as [->|Hne]; cbn.
  - rewrite Hf, andb_false_r. cbn. f_equal. f_equal. apply filter_ext_in. intros r Hr. apply list_elem_of_In in Hr.
    destruct (Nat.eqb_spec r p) as [->|]; [done|by rewrite andb_true_r].
  - apply elem_of_cons in Hp as [->|Hp]; [done|]. rewrite andb_true_r. specialize (IH Hl Hp Hf). destruct (f q); cbn; lia.
Qed.

Lemma each_min {A} key most cpu (body : nat -> A -> R (A * bool)) out n : forall s acc,
  min_policy key most s -> NoDup (paths_list s) -> (forall p, p ∈ paths_list s -> is_Some (paths s !! p)) ->
  cpus_ok s -> keys_below key most s -> computes body out s -> still_eligible s <= n ->
  exists vs, NoDup vs /\ (forall p, p ∈ vs <-> p ∈ paths_list s /\ eligible s p = true) /\
    wp (each_path cpu body n acc) (looped (visit out vs acc (reqs_in_use s)) s) s.
Proof.
  induction n as [|n IH]; intros s acc Hmp Hnd Hl Hcpu Hk Hc Hn.
  all: pose proof (Hmp cpu s (same_refl s)) as Hnext; destruct (get_min_run key most s Hl Hk) as [[Hg Hnone]|(p & Hg & Hp & He)];
    rewrite Hg in Hnext; clear Hg.
  1, 3: exists []; split_and!; [constructor|split; [by intros ?%not_elem_of_nil|intros [Hq ?]; specialize (Hnone _ Hq); congruence]|];
    exists acc, s; unfold each_path; fold (@each_path E A); unfold mbind_ at 1; rewrite Hnext; by split.
  { exfalso. unfold still_eligible in Hn. rewrite (filter_one_less (eligible s) p) in Hn by done. lia. }
  set (s1 := s <| skip_list ::= cons p |>).
  assert (Hrun : forall vs, (forall s2, s2 = s1 <| reqs_in_use ::= (out p acc).2 |> -> (out p acc).1.2 = false ->
      wp (each_path cpu body n (out p acc).1.1) (looped (visit out vs (out p acc).1.1 (reqs_in_use s2)) s2) s2) ->
    wp (each_path cpu body (S n) acc) (looped (visit out (p :: vs) acc (reqs_in_use s)) s) s).
  { intros vs Hvs. unfold wp. cbn [each_path]. unfold mbind_ at 1. rewrite Hnext. cbn [res_bind].
    unfold mbind_ at 1. fold s1. rewrite (Hc p acc s1) by done. cbn [res_bind visit]. destruct (out p acc) as [[a stop] f]. cbn in *.
    destruct stop; [by exists a, (s1 <| reqs_in_use ::= f |>)|].
    destruct (Hvs _ eq_refl eq_refl) as (a' & s' & Hr & [G1 G2 G3 G4]). exists a', s'. split; [exact Hr|].
    split; [exact G1|exact G2|by apply (same_trans s (s1 <| reqs_in_use ::= f |>))|exact G4]. }
  set (s2 := s1 <| reqs_in_use ::= (out p acc).2 |>).
  assert (Hel : forall q, eligible s2 q = eligible s q && negb (q =? p)) by apply eligible_skip.
  assert (Hstill : still_eligible s2 <= n).
  { unfold still_eligible in *. cbn. rewrite (filter_one_less (eligible s) p) in Hn by done.
    rewrite (List.filter_ext (eligible s2) _ Hel). lia. }
  assert (Hmp2 : min_policy key most s2) by (intros cpu' s3 H3; apply Hmp; by apply (same_trans s s2)).
  assert (Hc2 : computes body out s2) by by apply (computes_same body out s).
  destruct (IH s2 (out p acc).1.1) as (vs & Hvn & Hvs & Hw); try done.
  exists (p :: vs). split_and!.
  - apply NoDup_cons. split; [|done]. rewrite Hvs, Hel, Nat.eqb_refl, andb_false_r. naive_solver.
  - intros q. rewrite elem_of_cons, Hvs, Hel, andb_true_iff, negb_true_iff, Nat.eqb_neq. cbn.
    destruct (decide (q = p)) as [->|Hne]; naive_solver.
  - apply Hrun. intros s3 -> _. exact Hw.
Qed.

(** ** Every loop *)

(** What a policy compares is below the largest value. *)
Definition keys_ok s : Prop :=
  match mp_policy s with
  | MP_POLICY_RR => True
  | MP_POLICY_MIN_INFLIGHT => keys_below p_inflight INT_MAX s
  | MP_POLICY_MIN_LATENCY => keys_below p_hb_cur_latency KTIME_MAX s
  end.

Definition listed_connected s p : Prop :=
  p ∈ paths_list s /\ exists x, paths s !! p = Some x /\ connected x = true.

Lemma min_policy_inflight s : mp_policy s = MP_POLICY_MIN_INFLIGHT -> min_policy p_inflight INT_MAX s.
Proof. intros Hp cpu s1 [_ _ _ _ H _]. unfold next_path, mbind_, mget. cbn. by rewrite H, Hp. Qed.
Lemma min_policy_latency s : mp_policy s = MP_POLICY_MIN_LATENCY -> min_policy p_hb_cur_latency KTIME_MAX s.
Proof. intros Hp cpu s1 [_ _ _ _ H _]. unfold next_path, mbind_, mget. cbn. by rewrite H, Hp. Qed.

(** A loop visits paths of the list, each at most once, and every connected
    one; then the session is well formed again. *)
Lemma wp_do_each_path {A} cpu (body : nat -> A -> R (A * bool)) out acc s :
  sess_ok s -> keys_ok s -> computes body out s ->
  exists vs, NoDup vs /\ (forall p, p ∈ vs -> p ∈ paths_list s) /\ (forall p, listed_connected s p -> p ∈ vs) /\
    wp (do_each_path cpu body acc) (fun a s' =>
      (a, reqs_in_use s') = visit out vs acc (reqs_in_use s) /\ sess_ok s' /\ same_session s s') s.
Proof.
  intros Hs Hk Hc. pose proof Hs as [H1 H2 H3 H4 H5].
  assert (Hvs : exists vs, NoDup vs /\ (forall p, p ∈ vs -> p ∈ paths_list s) /\ (forall p, listed_connected s p -> p ∈ vs) /\
    wp (each_path cpu body (paths_num s) acc) (looped (visit out vs acc (reqs_in_use s)) s) s).
  { assert (Hmin : forall key most, min_policy key most s -> keys_below key most s ->
      exists vs, NoDup vs /\ (forall p, p ∈ vs -> p ∈ paths_list s) /\ (forall p, listed_connected s p -> p ∈ vs) /\
        wp (each_path cpu body (paths_num s) acc) (looped (visit out vs acc (reqs_in_use s)) s) s).
    { intros key most Hmp Hb. destruct (each_min key most cpu body out (paths_num s) s acc) as (vs & Hv1 & Hv2 & Hv3); try done.
      - unfold still_eligible. rewrite H3. apply List.filter_length_le.
      - exists vs. split_and!; [done|intros p Hp; by apply Hv2| |done]. intros p (Hp & x & Hx & Hcx). apply Hv2. split; [done|].
        unfold eligible. rewrite Hx, Hcx, H5. done. }
    unfold keys_ok in Hk. destruct (mp_policy s) eqn:Hp.
    - exists (rr_order (pcpu_path s cpu) (paths_list s)). assert (Hcur := H4 cpu). split_and!.
      + destruct (pcpu_path s cpu) as [p|]; [|done]. pose proof (before_after p _ (Hcur p eq_refl)) as He. rewrite He in H1.
        cbn. revert H1. generalize (before p (paths_list s)) (after p (paths_list s)). intros l1 l2.
        intros Hn. by assert (l2 ++ l1 ++ [p] ≡ₚ l1 ++ p :: l2) as -> by solve_Permutation.
      + intros p. by apply rr_elem.
      + intros p [Hin _]. by apply rr_elem.
      + rewrite H3, <- (rr_length (pcpu_path s cpu)) by done. by eapply (each_rr cpu body out _ []); [..|rewrite app_nil_r].
    - apply (Hmin p_inflight INT_MAX); [by apply min_policy_inflight|done].
    - apply (Hmin p_hb_cur_latency KTIME_MAX); [by apply min_policy_latency|done]. }
  destruct Hvs as (vs & Hv1 & Hv2 & Hv3 & Hw). exists vs. split_and!; try done.
  unfold do_each_path. apply wp_bind, wp_get, wp_bind. eapply wp_mono; [exact Hw|].
  intros a s' [-> Hr Hsame Hcpu]. apply wp_bind, wp_set, wp_ret. cbn. split_and!.
  - rewrite Hr. by destruct (visit _ _ _ _).
  - destruct Hsame as [G1 G2 G3 G4 G5 G6]. split; cbn; rewrite ?G1, ?G2, ?G3; done.
  - by destruct Hsame.
Qed.

(** ** Requests *)

(** A path that is too small for the message, and one that can be tried. *)
Definition too_small s (len : Z) p : Prop :=
  p ∈ paths_list s /\ exists x, paths s !! p = Some x /\ connected x = true /\ (p_max_hdr_size x < len)%Z.

Definition request_out s (post : nat -> Z) (mem_id : nat) (len : Z) : outcome Z := fun p err =>
  match paths s !! p with
  | Some x =>
      if negb (connected x) then ((err, false), id)
      else if (len >? p_max_hdr_size x)%Z then ((- EMSGSIZE, true)%Z, id)
      else if (post p =? 0)%Z then ((0, true)%Z, fun r => {[(p, mem_id)]} ∪ r)
      else ((post p, false), fun r => ({[(p, mem_id)]} ∪ r) ∖ {[(p, mem_id)]})
  | None => ((err, false), id)
  end.

Lemma reqs_id s : s = s <| reqs_in_use ::= id |>.
Proof. by destruct s. Qed.

Lemma send_on_run post mem_id p s :
  send_on post mem_id p s =
  Ok (if (post p =? 0)%Z then ((0, true)%Z, s <| reqs_in_use := {[(p, mem_id)]} ∪ reqs_in_use s |>)
      else ((post p, false), s <| reqs_in_use := ({[(p, mem_id)]} ∪ reqs_in_use s) ∖ {[(p, mem_id)]} |>)).
Proof. unfold send_on, mbind_, mset, mret. cbn. by destruct (post p =? 0)%Z. Qed.

Lemma request_computes s post mem_id len : (forall p, p ∈ paths_list s -> is_Some (paths s !! p)) ->
  computes (fun p err =>
    do! x := path p in
    if negb (connected x) then mret (err, false)
    else if (len >? p_max_hdr_size x)%Z then mret (- EMSGSIZE, true)%Z
    else send_on post mem_id p) (request_out s post mem_id len) s.
Proof.
  intros Hl p err s1 Hp Hs. destruct (Hl p Hp) as [x Hx]. unfold request_out, mbind_, path. rewrite Hs, Hx. cbn [res_bind].
  destruct (negb (connected x)); [cbn; unfold mret; by rewrite <- reqs_id|].
  destruct (len >? p_max_hdr_size x)%Z; [cbn; unfold mret; by rewrite <- reqs_id|].
  rewrite send_on_run. by destruct (post p =? 0)%Z.
Qed.

Lemma request_visit s post mem_id len vs : forall err reqs,
  (forall p, p ∈ vs -> p ∈ paths_list s) -> (forall p, (p, mem_id) ∉ reqs) ->
  let '(a, reqs') := visit (request_out s post mem_id len) vs err reqs in
  (a = 0%Z /\ exists p, listed_connected s p /\ post p = 0%Z /\ reqs' = {[(p, mem_id)]} ∪ reqs) \/
  (a = (- EMSGSIZE)%Z /\ reqs' = reqs /\ exists p, too_small s len p) \/
  (reqs' = reqs /\ (forall p, p ∈ vs -> listed_connected s p -> post p <> 0%Z) /\
    ((a = err /\ forall p, p ∈ vs -> ~ listed_connected s p) \/ exists p, listed_connected s p /\ a = post p)).
Proof.
  induction vs as [|p vs IH]; intros err reqs Hin Hfree; cbn [visit].
  { right; right. split_and!; [done|by intros ? ?%not_elem_of_nil|left]. split; [done|]. by intros ? ?%not_elem_of_nil. }
  assert (Hp : p ∈ paths_list s) by (apply Hin; by left).
  assert (Hin' : forall q, q ∈ vs -> q ∈ paths_list s) by (intros; apply Hin; by right).
  assert (Hskip : ~ listed_connected s p -> forall a reqs', (a, reqs') = visit (request_out s post mem_id len) vs err reqs ->
    (reqs' = reqs /\ (forall q, q ∈ vs -> listed_connected s q -> post q <> 0%Z) /\
      ((a = err /\ forall q, q ∈ vs -> ~ listed_connected s q) \/ exists q, listed_connected s q /\ a = post q)) ->
    (reqs' = reqs /\ (forall q, q ∈ p :: vs -> listed_connected s q -> post q <> 0%Z) /\
      ((a = err /\ forall q, q ∈ p :: vs -> ~ listed_connected s q) \/ exists q, listed_connected s q /\ a = post q))).
  { intros Hn a reqs' _ (H1 & H2 & H3). split_and!; [done|set_solver|]. destruct H3 as [[H3 H4]|H3]; [left; split; [done|set_solver]|by right]. }
  unfold request_out at 1. destruct (paths s !! p) as [x|] eqn:Hx.
  - destruct (connected x) eqn:Hcx; cbn [negb].
    + assert (Hlc : listed_connected s p) by (split; [done|by exists x]).
      destruct (Z.gtb_spec len (p_max_hdr_size x)).
      { cbn. right; left. split_and!; [done..|]. exists p. split; [done|]. by exists x. }
      destruct (Z.eqb_spec (post p) 0) as [Hz|Hnz]; cbn; [left; split; [done|]; by exists p|].
      assert (({[(p, mem_id)]} ∪ reqs) ∖ {[(p, mem_id)]} = reqs) as -> by (pose proof (Hfree p); set_solver).
      specialize (IH (post p) reqs Hin' Hfree). destruct (visit _ _ _ _) as [a reqs'].
      destruct IH as [IH|[IH|(H1 & H2 & H3)]]; [by left|by right; left|right; right]. split_and!; [done| |right].
      * intros q [->|Hq]%elem_of_cons; [done|by apply H2].
      * destruct H3 as [[-> _]|H3]; [by exists p|done].
    + cbn. assert (Hn : ~ listed_connected s p) by (intros (_ & y & Hy & Hcy); congruence).
      specialize (IH err reqs Hin' Hfree). specialize (Hskip Hn). unfold id. destruct (visit _ _ _ _) as [a reqs'].
      destruct IH as [IH|[IH|IH]]; [by left|by right; left|right; right]. by apply (Hskip a reqs').
  - cbn. assert (Hn : ~ listed_connected s p) by (intros (_ & y & Hy & _); congruence).
    specialize (IH err reqs Hin' Hfree). specialize (Hskip Hn). unfold id. destruct (visit _ _ _ _) as [a reqs'].
    destruct IH as [IH|[IH|IH]]; [by left|by right; left|right; right]. by apply (Hskip a reqs').
Qed.

(** C16. A request goes out if it can.  Under every policy, [rtrs_clt_request]
    on a well-formed session succeeds exactly on a connected path of the
    list whose posting succeeds, and then the request is in use on that path
    and on no other; it fails with [-EMSGSIZE], when it has come to a
    connected path that is too small for the message; or else posting fails
    on every connected path, and the error is that of one of them, or
    [-ECONNABORTED] when none is connected.  A failed request is in use
    nowhere. *)
Theorem rtrs_clt_request_spec cpu post mem_id dir vec sg_cnt s :
  sess_ok s -> keys_ok s -> (forall p, (p, mem_id) ∉ reqs_in_use s) ->
  exists err s', rtrs_clt_request cpu post mem_id dir vec sg_cnt s = Ok (err, s') /\ sess_ok s' /\ same_session s s' /\
  ((err = 0%Z /\ exists p, listed_connected s p /\ post p = 0%Z /\ reqs_in_use s' = {[(p, mem_id)]} ∪ reqs_in_use s) \/
   (err = (- EMSGSIZE)%Z /\ reqs_in_use s' = reqs_in_use s /\ exists p, too_small s (request_len dir vec sg_cnt) p) \/
   (err <> 0%Z /\ reqs_in_use s' = reqs_in_use s /\ (forall p, listed_connected s p -> post p <> 0%Z) /\
     ((err = (- ECONNABORTED)%Z /\ forall p, ~ listed_connected s p) \/ exists p, listed_connected s p /\ err = post p))).
Proof.
  intros Hs Hk Hfree. destruct errno_law as [He _].
  destruct (wp_do_each_path cpu _ _ (- ECONNABORTED)%Z s Hs Hk (request_computes s post mem_id (request_len dir vec sg_cnt) (so_listed _ Hs)))
    as (vs & _ & Hv1 & Hv2 & err & s' & Hr & Hv & Hok & Hsame).
  exists err, s'. split_and!; [exact Hr|done|done|].
  pose proof (request_visit s post mem_id (request_len dir vec sg_cnt) vs (- ECONNABORTED)%Z (reqs_in_use s) Hv1 Hfree) as H. rewrite <- Hv in H.
  destruct H as [H|[H|(H1 & H2 & H3)]]; [by left|by right; left|right; right].
  assert (H2' : forall p, listed_connected s p -> post p <> 0%Z) by (intros p Hp; apply H2; [by apply Hv2|done]).
  destruct H3 as [[-> H3]|(p & Hp & ->)]; split_and!; try done; [lia| |by apply H2'|by right; exists p].
  left. split; [done|]. intros p Hp. apply (H3 p); [by apply Hv2|done].
Qed.
End rtrs.
