(* ===== verification/RtrsLink.v ===== *)
(** * Link events of the transport client, and the server's buffers

    The user of a session is told when the last path is lost and when the
    first one is back.  [paths_up] starts at [MAX_PATHS_NUM], so that nothing
    is told before all paths were up once; then it counts the paths that are
    up.

    When a path is up the server describes its memory as regions; the client
    cuts them into one buffer per request.  A description is accepted exactly
    when the regions, cut into chunks, give one buffer for each request; then
    the buffers are the chunks in order. *)

From stdpp Require Import base numbers sets gmap functions fin_maps fin_map_dom list.
From S2P Require Import Prelude StateMonad RtrsPermits Rtrs RtrsProps.
#[local] Open Scope store_scope.

(** ** What happens to the paths of a session *)

(** A path is opened by [rtrs_clt_open]; it comes up at the end of
    [init_path] and goes down when its connections are stopped; a path is
    added by [rtrs_clt_create_path_from_sysfs], discarded when that fails,
    and removed by [rtrs_clt_remove_path_from_sysfs], which stops it first. *)
Inductive link_op :=
| OpenPath (p : nat) (x : rtrs_clt_path) | PathUp (p : nat) | PathDown (p : nat)
| AddPath (p : nat) (x : rtrs_clt_path) | DiscardPath (p : nat) | RemovePath (p : nat).

Definition removal (op : link_op) : bool :=
  match op with DiscardPath _ | RemovePath _ => true | _ => false end.

Definition established (p : nat) (s : rtrs_clt_sess) : bool :=
  match paths s !! p with Some x => p_established x | None => false end.

Section link.
Context `{E : RtrsEnv} `{!RtrsLaws E}.
Implicit Types (s : rtrs_clt_sess) (p : nat).

(** [list_add_tail_rcu] in the loop of [rtrs_clt_open]; [paths_num] is the
    number of paths to open already. *)
Definition rtrs_clt_open_path (p : nat) (x : rtrs_clt_path) : R unit :=
  mset (fun s => s <| paths ::= <[p := x]> |> <| paths_list ::= fun l => l ++ [p] |>).

Definition link_op_run (op : link_op) : R unit :=
  match op with
  | OpenPath p x => rtrs_clt_open_path p x
  | PathUp p => rtrs_clt_path_up p
  | PathDown p => rtrs_clt_path_down p
  | AddPath p x => rtrs_clt_add_path_to_arr p x
  | DiscardPath p => rtrs_clt_remove_path_from_arr p ;; rtrs_clt_path_down p
  | RemovePath p => rtrs_clt_path_down p ;; rtrs_clt_remove_path_from_arr p
  end.

(** When the callers do so.  Paths are added and removed once all are open. *)
Definition all_open (s : rtrs_clt_sess) : bool := length (paths_list s) =? paths_num s.
Definition fresh_path (p : nat) (x : rtrs_clt_path) (s : rtrs_clt_sess) : bool :=
  bool_decide (paths s !! p = None) && negb (p_established x).
Definition allowed (op : link_op) (s : rtrs_clt_sess) : bool :=
  match op with
  | OpenPath p x => fresh_path p x s && (length (paths_list s) <? paths_num s)
  | PathUp p => bool_decide (p ∈ paths_list s) && negb (established p s)
  | PathDown p => bool_decide (p ∈ paths_list s)
  | AddPath p x => fresh_path p x s && all_open s
  | DiscardPath p | RemovePath p => bool_decide (p ∈ paths_list s) && all_open s
  end.

Inductive link_run : list link_op -> rtrs_clt_sess -> rtrs_clt_sess -> Prop :=
| lr_nil s : link_run [] s s
| lr_cons op ops s s1 s2 :
    allowed op s = true -> link_op_run op s = Ok (tt, s1) -> link_run ops s1 s2 -> link_run (op :: ops) s s2.

(** What [alloc_clt] leaves for a session with [n] paths. *)
Definition new_sess (n : nat) (s : rtrs_clt_sess) : Prop :=
  paths s = ∅ /\ paths_list s = [] /\ paths_num s = n /\ paths_up s = MAX_PATHS_NUM /\ link_evs s = [].

(** ** What the user is told *)

(** Whether the session has a path, as a user knows it who has heard these
    events; [None] if an event repeats what is known. *)
Fixpoint told (up : bool) (evs : list link_ev) : option bool :=
  match evs with
  | [] => Some up
  | RTRS_CLT_LINK_EV_DISCONNECTED :: evs => if up then told false evs else None
  | RTRS_CLT_LINK_EV_RECONNECTED :: evs => if up then None else told true evs
  end.

Lemma told_app up evs ev b : told up evs = Some b -> told up (evs ++ [ev]) = told b [ev].
Proof.
  revert up. induction evs as [|e evs IH]; intros up; cbn; [by intros [= ->]|]. destruct e, up; auto; done.
Qed.

(** The number of paths that are up. *)
Definition ups (m : gmap nat rtrs_clt_path) : nat := size (filter (fun kx => p_established kx.2 = true) m).

Lemma ups_insert m p x : ups (<[p := x]> m) = Nat.b2n (p_established x) + ups (delete p m).
Proof.
  unfold ups. destruct (p_established x) eqn:Hx; cbn [Nat.b2n].
  - rewrite map_filter_insert_True, map_filter_delete by done. rewrite <- insert_delete_eq.
    apply map_size_insert_None, lookup_delete_eq.
  - by rewrite map_filter_insert_False by (cbn; congruence).
Qed.
Lemma ups_new m p x : m !! p = None -> p_established x = false -> ups (<[p := x]> m) = ups m.
Proof. intros Hp Hx. by rewrite ups_insert, Hx, delete_id. Qed.
Lemma ups_alter m p x f : m !! p = Some x ->
  ups (alter f p m) + Nat.b2n (p_established x) = Nat.b2n (p_established (f x)) + ups m.
Proof.
  intros Hp. rewrite <- (insert_id m p x) at 1 2 by done. rewrite alter_insert_eq, !ups_insert. lia.
Qed.
Lemma ups_le m l : (forall p x, m !! p = Some x -> p_established x = true -> p ∈ l) -> NoDup l -> ups m <= length l.
Proof.
  intros H Hl. unfold ups. rewrite <- (size_dom (D := gset nat)), <- (size_list_to_set (C := gset nat)) by done.
  apply subseteq_size. intros p [x [Hp Hx]%map_lookup_filter_Some]%elem_of_dom. apply elem_of_list_to_set. by eapply H.
Qed.

(** ** Sessions *)

(** Paths that are up are in the list, and the list has no more paths than
    the session counts. *)
Record link_ok s : Prop := {
  lo_nodup : NoDup (paths_list s);
  lo_listed : forall p, p ∈ paths_list s -> is_Some (paths s !! p);
  lo_up : forall p x, paths s !! p = Some x -> p_established x = true -> p ∈ paths_list s;
  lo_num : length (paths_list s) <= paths_num s;
}.

(** Before all paths were up, and after. *)
Definition opening s : Prop :=
  paths_up s = (MAX_PATHS_NUM + Z.of_nat (ups (paths s)))%Z /\ ups (paths s) < paths_num s /\ link_evs s = [].
Definition running s : Prop :=
  paths_up s = Z.of_nat (ups (paths s)) /\ told true (link_evs s) = Some (bool_decide (0 < ups (paths s))).

Lemma ups_le_num s : link_ok s -> ups (paths s) <= length (paths_list s).
Proof. intros [H1 H2 H3 H4]. by apply ups_le. Qed.

Lemma link_ok_alter f p s s' : link_ok s -> p ∈ paths_list s ->
  paths s' = alter f p (paths s) -> paths_list s' = paths_list s -> paths_num s' = paths_num s -> link_ok s'.
Proof.
  intros [H1 H2 H3 H4] Hp Hs Hl Hn. split; rewrite ?Hl, ?Hn, ?Hs; try done.
  - intros q Hq. destruct (decide (q = p)) as [->|]; [rewrite lookup_alter_eq|rewrite lookup_alter_ne by done; by apply H2].
    by apply fmap_is_Some, H2.
  - intros q x. destruct (decide (q = p)) as [->|]; [done|]. rewrite lookup_alter_ne by done. by apply H3.
Qed.

Lemma established_lookup p s x : paths s !! p = Some x -> established p s = p_established x.
Proof. intros H. unfold established. by rewrite H. Qed.

Lemma wp_path_up p s : link_ok s -> p ∈ paths_list s -> established p s = false ->
  wp (rtrs_clt_path_up p) (fun _ s' => link_ok s' /\ paths_list s' = paths_list s /\ paths_num s' = paths_num s /\
    (opening s -> opening s' \/ running s') /\ (running s -> running s')) s.
Proof.
  intros Hok Hp He. destruct (lo_listed _ Hok p Hp) as [x Hx]. rewrite (established_lookup p s x Hx) in He.
  pose proof (ups_alter (paths s) p x (fun x => x <| p_established := true |>) Hx) as Hu. rewrite He in Hu. cbn in Hu.
  pose proof (ups_le_num (s <| paths ::= alter (fun x => x <| p_established := true |>) p |>)
    ltac:(by eapply link_ok_alter)) as Hle. cbn in Hle.
  pose proof (lo_num _ Hok) as Hn. pose proof paths_law as HM.
  unfold rtrs_clt_path_up. apply wp_bind, wp_set, wp_bind, wp_get, wp_bind, wp_get, wp_bind. cbn.
  assert (Hrun : forall (Q : unit -> rtrs_clt_sess -> Prop) s1,
    Q tt (s1 <| paths ::= alter (fun x => x <| p_established := true |>) p |>) -> wp (set_path p (fun x => x <| p_established := true |>)) Q s1)
    by (intros Q s1 H; by apply wp_set).
  set (m := alter _ p (paths s)) in *.
  destruct (Z.gtb_spec (Z.succ (paths_up s)) MAX_PATHS_NUM); cbn [andb].
  1: destruct (Z.eqb_spec (Z.succ (paths_up s)) (MAX_PATHS_NUM + Z.of_nat (paths_num s))) as [Heq|Heq].
  - apply wp_set, Hrun. split_and!; [by eapply link_ok_alter|done..| |].
    + intros (H1 & H2 & H3). right. unfold running. cbn. fold m. rewrite H3. cbn [told].
      replace (ups m) with (paths_num s) by lia. split; [done|]. rewrite bool_decide_eq_true_2 by lia. done.
    + intros [H1 H2]. lia.
  - rewrite (proj2 (Z.eqb_neq _ _)) by lia. apply wp_skip, Hrun. split_and!; [by eapply link_ok_alter|done..| |].
    + intros (H1 & H2 & H3). left. unfold opening. cbn. fold m. split_and!; [lia|lia|done].
    + intros [H1 H2]. unfold running. cbn. fold m. split; [lia|]. rewrite H2. f_equal.
      by rewrite !bool_decide_eq_true_2 by lia.
  - destruct (Z.eqb_spec (Z.succ (paths_up s)) 1) as [Heq|Heq].
    + apply wp_set, Hrun. split_and!; [by eapply link_ok_alter|done..| |].
      * intros (H1 & _ & _). lia.
      * intros [H1 H2]. unfold running. cbn. fold m. split; [lia|]. rewrite (told_app _ _ _ _ H2).
        replace (ups m) with 1 by lia. by replace (ups (paths s)) with 0 by lia.
    + apply wp_skip, Hrun. split_and!; [by eapply link_ok_alter|done..| |].
      * intros (H1 & _ & _). lia.
      * intros [H1 H2]. unfold running. cbn. fold m. split; [lia|]. rewrite H2. f_equal.
        by rewrite !bool_decide_eq_true_2 by lia.
Qed.

Lemma wp_path_down p x s : paths s !! p = Some x ->
  wp (rtrs_clt_path_down p) (fun _ s' => paths s' = alter (fun x => x <| p_established := false |>) p (paths s) /\
    paths_list s' = paths_list s /\ paths_num s' = paths_num s /\
    (opening s -> opening s') /\ (running s -> running s')) s.
Proof.
  intros Hx. pose proof paths_law as HM.
  pose proof (ups_alter (paths s) p x (fun x => x <| p_established := false |>) Hx) as Hu. cbn in Hu.
  unfold rtrs_clt_path_down. apply wp_bind. exists x, s. split; [unfold path; by rewrite Hx|].
  destruct (p_established x) eqn:He; cbn [negb].
  2:{ apply wp_skip. split_and!; try done. symmetry. apply alter_id. intros y Hy. rewrite Hx in Hy. injection Hy as <-.
      destruct x; cbn in *. by rewrite He. }
  cbn in Hu. apply wp_bind, wp_set, wp_bind, wp_set, wp_bind, wp_get. cbn.
  set (m := alter _ p (paths s)) in *.
  destruct (Z.eqb_spec (Z.pred (paths_up s)) 0) as [Hz|Hz].
  - apply wp_set. cbn. split_and!; try done.
    + intros (H1 & H2 & H3). lia.
    + intros [H1 H2]. unfold running. cbn. fold m. split; [lia|]. rewrite (told_app _ _ _ _ H2).
      rewrite bool_decide_eq_true_2, bool_decide_eq_false_2 by lia. done.
  - apply wp_skip. cbn. split_and!; try done.
    + intros (H1 & H2 & H3). unfold opening. cbn. fold m. split_and!; [lia|lia|done].
    + intros [H1 H2]. unfold running. cbn. fold m. split; [lia|]. rewrite H2.
      by rewrite !bool_decide_eq_true_2 by lia.
Qed.

(** Removing a path from the list changes nothing that is counted. *)
Lemma wp_unlist p s : wp (rtrs_clt_remove_path_from_arr p) (fun _ s' => paths s' = paths s /\
  paths_list s' = others p (paths_list s) /\ paths_num s' = Nat.pred (paths_num s) /\ (running s -> running s')) s.
Proof. unfold rtrs_clt_remove_path_from_arr. apply wp_bind, wp_get, wp_bind, wp_set, wp_bind, wp_set, wp_bind, wp_get, wp_set. done. Qed.

Lemma link_ok_unlist p s s' : link_ok s -> p ∈ paths_list s -> all_open s = true ->
  paths s' = alter (fun x => x <| p_established := false |>) p (paths s) ->
  paths_list s' = others p (paths_list s) -> paths_num s' = Nat.pred (paths_num s) -> link_ok s'.
Proof.
  intros [H1 H2 H3 H4] Hp Ho%Nat.eqb_eq Hs Hl Hn. split; rewrite ?Hl, ?Hn, ?Hs.
  - by apply others_nodup.
  - intros q [Hq Hne]%elem_others. rewrite lookup_alter_ne by done. by apply H2.
  - intros q x. destruct (decide (q = p)) as [->|Hne].
    + rewrite lookup_alter_eq. rewrite fmap_Some. by intros (y & _ & ->).
    + rewrite lookup_alter_ne by done. intros Hx He. apply elem_others. split; [by eapply H3|done].
  - pose proof (others_length p _ H1 Hp). lia.
Qed.

Lemma link_ok_new p x s s' : link_ok s -> fresh_path p x s = true ->
  paths s' = <[p := x]> (paths s) -> paths_list s' = paths_list s ++ [p] -> length (paths_list s') <= paths_num s' ->
  link_ok s' /\ ups (paths s') = ups (paths s).
Proof.
  intros [H1 H2 H3 H4] [Hp%bool_decide_eq_true He%negb_true_iff]%andb_true_iff Hs Hl Hn. split; [|rewrite Hs; by apply ups_new].
  split; [| | |done]; rewrite ?Hl, ?Hs.
  - apply NoDup_app. split_and!; [done| |apply NoDup_singleton]. intros q Hq ->%list_elem_of_singleton.
    destruct (H2 p Hq). congruence.
  - intros q [Hq| ->%list_elem_of_singleton]%elem_of_app; [|rewrite lookup_insert_eq; by eexists].
    destruct (H2 q Hq) as [y Hy]. rewrite lookup_insert_ne by congruence. by eexists.
  - intros q y. destruct (decide (q = p)) as [->|Hne]; [rewrite lookup_insert_eq; intros [= <-]; congruence|].
    rewrite lookup_insert_ne by done. intros Hy Hye. apply elem_of_app. left. by eapply H3.
Qed.

Lemma wp_link_op op s : link_ok s -> allowed op s = true ->
  wp (link_op_run op) (fun _ s' => link_ok s' /\ (running s -> running s') /\
    (removal op = false -> opening s -> opening s' \/ running s')) s.
Proof.
  intros Hok Ha. destruct op as [p x|p|p|p x|p|p]; cbn [allowed link_op_run removal] in *.
  - apply andb_true_iff in Ha as [Hf Hn%Nat.ltb_lt]. apply wp_set.
    destruct (link_ok_new p x s (s <| paths ::= <[p := x]> |> <| paths_list ::= fun l => l ++ [p] |>) Hok Hf ltac:(done) ltac:(done)) as [Hok' Hu].
    { cbn. rewrite length_app. cbn. lia. }
    split; [exact Hok'|]. cbn in Hu. unfold opening, running. cbn. rewrite Hu. split; [done|by left].
  - apply andb_true_iff in Ha as [Hp%bool_decide_eq_true He%negb_true_iff].
    eapply wp_mono; [by apply wp_path_up|]. cbn. tauto.
  - apply bool_decide_eq_true in Ha. destruct (lo_listed _ Hok p Ha) as [x Hx].
    eapply wp_mono; [by eapply wp_path_down|]. cbn. intros _ s' (H1 & H2 & H3 & H4 & H5).
    split; [by eapply link_ok_alter|]. split; [done|by left; auto].
  - apply andb_true_iff in Ha as [Hf Hn%Nat.eqb_eq]. apply wp_set.
    destruct (link_ok_new p x s (s <| paths_num ::= S |> <| paths ::= <[p := x]> |> <| paths_list ::= fun l => l ++ [p] |>) Hok Hf ltac:(done) ltac:(done)) as [Hok' Hu].
    { cbn. rewrite length_app. cbn. lia. }
    split; [exact Hok'|]. cbn in Hu. unfold opening, running. cbn. rewrite Hu. split; [done|]. intros _ (H1 & H2 & H3). left.
    split_and!; [done|lia|done].
  - apply andb_true_iff in Ha as [Hp%bool_decide_eq_true Ho]. apply wp_bind. eapply wp_mono; [apply wp_unlist|]. cbn.
    intros _ s1 (H1 & H2 & H3 & H4). destruct (lo_listed _ Hok p Hp) as [x Hx]. rewrite <- H1 in Hx.
    eapply wp_mono; [by eapply wp_path_down|]. cbn. intros _ s' (G1 & G2 & G3 & _ & G5).
    split; [apply (link_ok_unlist p s); [done..|by rewrite ?H1, ?G1, ?H1|congruence|congruence]|]. split; [auto|done].
  - apply andb_true_iff in Ha as [Hp%bool_decide_eq_true Ho]. destruct (lo_listed _ Hok p Hp) as [x Hx].
    apply wp_bind. eapply wp_mono; [by eapply wp_path_down|]. cbn. intros _ s1 (G1 & G2 & G3 & _ & G5).
    eapply wp_mono; [apply wp_unlist|]. cbn. intros _ s' (H1 & H2 & H3 & H4).
    split; [apply (link_ok_unlist p s); [done..|by rewrite ?H1, ?G1, ?H1|congruence|congruence]|]. split; [auto|done].
Qed.

Lemma link_run_running ops s s' : link_run ops s s' -> link_ok s -> running s -> link_ok s' /\ running s'.
Proof.
  induction 1 as [|op ops s s1 s2 Ha Hr _ IH]; [done|]. intros Hok Hrun.
  destruct (wp_link_op op s Hok Ha) as (u & s1' & Hr' & H1 & H2 & _). rewrite Hr in Hr'. injection Hr' as <- <-. auto.
Qed.

Lemma link_run_opening ops s s' : link_run ops s s' -> Forall (fun op => removal op = false) ops -> link_ok s -> opening s ->
  link_ok s' /\ (opening s' \/ running s').
Proof.
  induction 1 as [|op ops s s1 s2 Ha Hr Hrun IH]; [by auto|]. intros [Hop Hops]%Forall_cons Hok Hs.
  destruct (wp_link_op op s Hok Ha) as (u & s1' & Hr' & H1 & H2 & H3). rewrite Hr in Hr'. injection Hr' as <- <-.
  destruct (H3 Hop Hs) as [Hs1|Hs1]; [by auto|]. destruct (link_run_running _ _ _ Hrun H1 Hs1). auto.
Qed.

(** C17. The user of a session always knows whether it has a path.  Let a
    session be opened until all its paths are up at once, with no removal
    before.  From then on, whatever paths come up, go down, are added or
    removed, [paths_up] is the number of paths that are up; the events
    alternate, starting with a loss, and the last one is a loss exactly when
    no path is up. *)
Theorem link_events_truthful n s0 ops1 s1 ops2 s2 :
  0 < n -> new_sess n s0 -> link_run ops1 s0 s1 -> Forall (fun op => removal op = false) ops1 ->
  ups (paths s1) = paths_num s1 -> link_run ops2 s1 s2 ->
  paths_up s2 = Z.of_nat (ups (paths s2)) /\ told true (link_evs s2) = Some (bool_decide (0 < ups (paths s2))).
Proof.
  intros Hn (H1 & H2 & H3 & H4 & H5) Hr1 Hops Hall Hr2.
  assert (Hu0 : ups (paths s0) = 0) by (rewrite H1; unfold ups; by rewrite map_filter_empty, map_size_empty).
  destruct (link_run_opening _ _ _ Hr1 Hops) as [Hok1 Hs1].
  - split; rewrite ?H1, ?H2; [by apply NoDup_nil|by intros ? ?%not_elem_of_nil|done|cbn; lia].
  - split_and!; [lia|lia|done].
  - destruct (link_run_running _ _ _ Hr2 Hok1) as [_ H]; [|exact H]. destruct Hs1 as [(_ & Hlt & _)|Hs1]; [lia|done].
Qed.
End link.

(** * The server's buffers, and what the client accepts of them *)

Section info.
Context `{E : RtrsEnv} `{!RtrsLaws E}.

(** ** What is accepted *)

(** The chunks of [k] buffers from address [a] on. *)
Fixpoint chunks (k : nat) (chunk_size a key : Z) : list rtrs_rbuf :=
  match k with O => [] | S k => mkRbuf (u64 a) key :: chunks k chunk_size (a + chunk_size)%Z key end.
Definition desc_chunks (chunk_size : Z) (d : rtrs_sg_desc) : list rtrs_rbuf :=
  chunks (Z.to_nat (d_len d / chunk_size)) chunk_size (d_addr d) (d_key d).
Definition whole_chunks (chunk_size : Z) (d : rtrs_sg_desc) : Prop := d_len d <> 0%Z /\ (d_len d mod chunk_size = 0)%Z.
Fixpoint sum_len (descs : list rtrs_sg_desc) : Z :=
  match descs with [] => 0 | d :: ds => d_len d + sum_len ds end.

(** The sizes that fit the immediate data, as the code computes it. *)
Definition bits_fit (sg_cnt : nat) (chunk_size : Z) : Prop :=
  ((ilog2 (Z.of_nat sg_cnt - 1) + 1) + (ilog2 (as_u32 (chunk_size - 1)) + 1) <= MAX_IMM_PAYL_BITS)%Z.

Record accepted (queue_depth : nat) (chunk_size : Z) (descs : list rtrs_sg_desc) : Prop := {
  ac_some : descs <> [];
  ac_multiple : queue_depth mod length descs = 0;
  ac_bits : bits_fit (length descs) chunk_size;
  ac_chunks : Forall (whole_chunks chunk_size) descs;
  ac_total : (sum_len descs = chunk_size * Z.of_nat queue_depth)%Z;
  ac_32 : (sum_len descs < 2 ^ 32)%Z;
}.

(** Numbers have the width of the message's fields. *)
Definition desc_ok (d : rtrs_sg_desc) : Prop := (0 <= d_addr d < 2 ^ 64 /\ 0 <= d_len d < 2 ^ 32)%Z.

(** ** Cutting a region *)

Lemma chunks_length k c a key : length (chunks k c a key) = k.
Proof. revert a. induction k as [|k IH]; intros a; cbn; [done|by rewrite IH]. Qed.

Lemma as_u32_id x : (0 <= x < 2 ^ 32)%Z -> as_u32 x = x.
Proof. apply Z.mod_small. Qed.

Lemma map_chunks_run c key n : forall i a k (rbufs : list rtrs_rbuf),
  (0 < c)%Z -> (0 <= Z.of_nat k * c < 2 ^ 32)%Z -> i + n = length rbufs ->
  map_chunks n i c (u64 a) key (Z.of_nat k * c) rbufs =
  (i + min n k, take i rbufs ++ chunks (min n k) c a key ++ drop (i + min n k) rbufs).
Proof.
  induction n as [|n IH]; intros i a k rbufs Hc Hk Hl; cbn [map_chunks].
  { cbn. by rewrite Nat.add_0_r, take_drop. }
  destruct k as [|k]; [cbn; by rewrite Nat.add_0_r, take_drop|]. rewrite (proj2 (Z.eqb_neq _ _)) by lia.
  replace (as_u32 (Z.of_nat (S k) * c - c)) with (Z.of_nat k * c)%Z by (rewrite as_u32_id; lia).
  replace (u64 (u64 a + c)) with (u64 (a + c)) by (unfold u64; by rewrite Zplus_mod_idemp_l).
  rewrite IH by (rewrite ?length_insert; lia). cbn [Nat.min chunks].
  replace (i + S (min n k)) with (S i + min n k) by lia. f_equal.
  rewrite (take_S_r _ _ (mkRbuf (u64 a) key)) by (apply list_lookup_insert_eq; lia).
  by rewrite take_insert_ge, drop_insert_lt, <- app_assoc by lia.
Qed.

(** ** The loop over the regions *)

(** [t]: the total length so far, before it wraps; at the end of the buffers
    the last region may reach past them. *)
Definition total_upto (c : Z) (depth i : nat) (t : Z) : Prop :=
  i <= depth /\ (t = c * Z.of_nat i \/ i = depth /\ c * Z.of_nat depth < t < c * Z.of_nat depth + 2 ^ 32)%Z.

Lemma sum_len_nonneg c descs : Forall desc_ok descs -> (0 <= sum_len descs)%Z /\
  (Forall (whole_chunks c) descs -> descs <> [] -> 0 < sum_len descs)%Z.
Proof.
  induction 1 as [|d ds [_ Hd] _ [IH _]]; cbn; [split; [lia|done]|]. split; [lia|].
  intros [[Hn _] _]%Forall_cons _. lia.
Qed.

Lemma whole_chunks_count c d : (0 < c)%Z -> desc_ok d -> whole_chunks c d ->
  (d_len d = Z.of_nat (Z.to_nat (d_len d / c)) * c)%Z /\ 0 < Z.to_nat (d_len d / c).
Proof.
  intros Hc [_ Hd] [Hn Hm]. pose proof (Z.div_mod (d_len d) c ltac:(lia)).
  assert (0 < d_len d / c)%Z by nia. split; nia.
Qed.

Lemma map_descs_run c depth descs : forall i t (rbufs : list rtrs_rbuf),
  (0 < c)%Z -> Forall desc_ok descs -> length rbufs = depth -> total_upto c depth i t ->
  exists r rbufs', map_descs depth c descs i (as_u32 t) rbufs = Ok (r, rbufs') /\ length rbufs' = depth /\
  (r = Some (0, depth, (c * Z.of_nat depth)%Z) <->
     Forall (whole_chunks c) descs /\ (t + sum_len descs = c * Z.of_nat depth)%Z /\ (c * Z.of_nat depth < 2 ^ 32)%Z) /\
  (r = Some (0, depth, (c * Z.of_nat depth)%Z) -> rbufs' = take i rbufs ++ concat (desc_chunks c <$> descs)).
Proof.
  induction descs as [|d ds IH]; intros i t rbufs Hc Hds Hl [Hi Ht]; cbn [map_descs].
  { exists (Some (0, i, as_u32 t)), rbufs. split_and!; [done..| |].
    - cbn [sum_len]. split.
      + intros [= -> Hw]. split; [done|]. unfold as_u32 in Hw. pose proof (Z.mod_pos_bound t (2 ^ 32) ltac:(lia)).
        pose proof (Z.div_mod t (2 ^ 32) ltac:(lia)). destruct Ht as [Ht|[_ Ht]]; nia.
      + intros [_ Hw]. assert (i = depth) as -> by nia. do 2 f_equal. rewrite as_u32_id; nia.
    - intros [= -> _]. cbn. by rewrite app_nil_r, take_ge by lia. }
  apply Forall_cons in Hds as [Hd Hds].
  destruct (Nat.leb_spec depth i).
  { eexists _, rbufs. split; [done|]. split; [done|]. split; [|done]. split; [done|].
    intros [Hw Hs]. pose proof (proj2 (sum_len_nonneg c (d :: ds) (Forall_cons_2 _ _ _ Hd Hds)) Hw ltac:(done)).
    assert (i = depth) as -> by lia. destruct Ht as [Ht|[_ Ht]]; lia. }
  assert (t = c * Z.of_nat i)%Z as -> by lia. clear Ht.
  destruct (Z.eqb_spec (d_len d) 0) as [Hz|Hnz].
  { eexists _, rbufs. split; [done|]. split; [done|]. split; [|done]. split; [done|]. by intros [[[Hw _] _]%Forall_cons _]. }
  rewrite (proj2 (Z.eqb_neq c 0)) by lia. destruct (Z.eqb_spec (d_len d mod c) 0) as [Hm|Hm]; cbn [negb].
  2:{ eexists _, rbufs. split; [done|]. split; [done|]. split; [|done]. split; [done|]. by intros [[[_ Hw] _]%Forall_cons _]. }
  destruct (whole_chunks_count c d Hc Hd (conj Hnz Hm)) as [Hk Hk0]. set (k := Z.to_nat (d_len d / c)) in *.
  pose proof Hd as [Hda Hdl].
  assert (map_chunks (depth - i) i c (d_addr d) (d_key d) (d_len d) rbufs = (i + min (depth - i) k,
    take i rbufs ++ chunks (min (depth - i) k) c (d_addr d) (d_key d) ++ drop (i + min (depth - i) k) rbufs)) as ->.
  { rewrite <- map_chunks_run by lia. f_equal; [|lia]. symmetry. by apply Z.mod_small. }
  assert (as_u32 (as_u32 (c * Z.of_nat i) + d_len d) = as_u32 (c * Z.of_nat i + d_len d)) as ->
    by (unfold as_u32; by rewrite Zplus_mod_idemp_l).
  set (rbufs1 := take i rbufs ++ _).
  destruct (IH (i + min (depth - i) k) (c * Z.of_nat i + d_len d)%Z rbufs1 Hc Hds) as (r & rbufs' & Hr & Hl' & Hiff & Hb).
  - unfold rbufs1. rewrite !length_app, chunks_length, length_take, length_drop. lia.
  - split; [lia|]. destruct (Nat.le_gt_cases k (depth - i)).
    + left. rewrite Nat.min_r by done. lia.
    + right. rewrite Nat.min_l by lia. nia.
  - exists r, rbufs'. split; [done|]. split; [done|]. split.
    + rewrite Hiff, Forall_cons. cbn [sum_len]. rewrite Z.add_assoc. unfold whole_chunks at 2. tauto.
    + intros Heq. rewrite (Hb Heq). apply Hiff in Heq as [Hw Hs].
      pose proof (proj1 (sum_len_nonneg c ds Hds)). assert (k <= depth - i) by nia.
      unfold rbufs1. rewrite Nat.min_r, app_assoc by done. rewrite take_app_length' by (rewrite length_app, chunks_length, length_take; lia).
      cbn [fmap list_fmap concat]. by rewrite app_assoc.
Qed.

(** ** The answer to a description *)

Lemma ilog2_pos x : (0 < x)%Z -> (0 <= ilog2 x)%Z.
Proof.
  intros Hx. destruct (ilog2_law x Hx) as [_ H]. destruct (Z.lt_ge_cases (ilog2 x) 0) as [Hl|]; [|done].
  assert (2 ^ (ilog2 x + 1) <= 2 ^ 0)%Z by (apply Z.pow_le_mono_r; lia). lia.
Qed.
Lemma ilog2_ge x : (0 <= x)%Z -> (0 <= ilog2 x + 1)%Z.
Proof. intros Hx. destruct (Z.eq_dec x 0%Z) as [->|]; [rewrite ilog2_zero; lia|]. pose proof (ilog2_pos x). lia. Qed.
Lemma ilog2_bound x : (0 <= x)%Z -> (x < 2 ^ (ilog2 x + 1))%Z.
Proof. intros Hx. destruct (Z.eq_dec x 0%Z) as [->|]; [by rewrite ilog2_zero|]. apply ilog2_law. lia. Qed.

Lemma bits_fit_nonzero n c : 0 < n -> (0 <= c < 2 ^ 32)%Z -> bits_fit n c -> (0 < c)%Z.
Proof.
  intros Hn Hc Hb. destruct (Z.eq_dec c 0%Z) as [->|]; [|lia]. exfalso. unfold bits_fit in Hb.
  change (as_u32 (0 - 1)) with (2 ^ 32 - 1)%Z in Hb. pose proof (ilog2_ge (Z.of_nat n - 1) ltac:(lia)).
  pose proof (ilog2_bound (2 ^ 32 - 1) ltac:(lia)). pose proof imm_law.
  assert (2 ^ (ilog2 (2 ^ 32 - 1) + 1) <= 2 ^ 31)%Z by (apply Z.pow_le_mono_r; lia). lia.
Qed.

(** The client accepts what it can use.  On every description,
    [process_info_rsp] ends without a division by zero and answers 0 or
    [-EINVAL]; it answers 0 exactly when the number of regions divides the
    queue depth, the sizes fit the immediate data, each region is a positive
    number of chunks, and the regions together make one chunk for each
    request.  Then the buffers of the path are the chunks of the regions, in
    order. *)
Theorem process_info_rsp_spec queue_depth chunk_size descs (rbufs : list rtrs_rbuf) :
  (0 <= chunk_size < 2 ^ 32)%Z -> Forall desc_ok descs -> length rbufs = queue_depth ->
  exists r rbufs', process_info_rsp queue_depth chunk_size descs rbufs = Ok (r, rbufs') /\
    (r = 0%Z \/ r = (- EINVAL)%Z) /\ (r = 0%Z <-> accepted queue_depth chunk_size descs) /\
    (r = 0%Z -> rbufs' = concat (desc_chunks chunk_size <$> descs)).
Proof.
  intros Hc Hds Hl. destruct errno_law as (_ & _ & He). unfold process_info_rsp.
  assert (Hno : forall rb, ~ accepted queue_depth chunk_size descs -> exists r rbufs', Ok (E := Empty_set) ((- EINVAL)%Z, rb) = Ok (r, rbufs') /\
    (r = 0%Z \/ r = (- EINVAL)%Z) /\ (r = 0%Z <-> accepted queue_depth chunk_size descs) /\
    (r = 0%Z -> rbufs' = concat (desc_chunks chunk_size <$> descs))).
  { intros rb Hna. exists (- EINVAL)%Z, rb. split_and!; [done|by right|split; [lia|done]|lia]. }
  destruct (Nat.eqb_spec (length descs) 0) as [Hz|Hz]; cbn [orb].
  { apply Hno. intros [H _ _ _ _ _]. by destruct descs. }
  destruct (Nat.eqb_spec (queue_depth mod length descs) 0) as [Hm|Hm]; cbn [negb]; [|apply Hno; by intros []].
  destruct (Z.gtb_spec ((ilog2 (Z.of_nat (length descs) - 1) + 1) + (ilog2 (as_u32 (chunk_size - 1)) + 1)) MAX_IMM_PAYL_BITS) as [Hb|Hb].
  { apply Hno. intros [_ _ H _ _ _]. unfold bits_fit in H. lia. }
  assert (Hc0 : (0 < chunk_size)%Z) by (apply (bits_fit_nonzero (length descs)); [lia|done|done]).
  destruct (map_descs_run chunk_size queue_depth descs 0 0 rbufs Hc0 Hds Hl) as (r & rbufs' & Hr & Hl' & Hiff & Hbuf).
  { split; [lia|left; lia]. }
  change (as_u32 0) with 0%Z in Hr. rewrite Hr. cbn [res_bind]. rewrite Z.add_0_l in Hiff.
  assert (Hacc : accepted queue_depth chunk_size descs <-> r = Some (0, queue_depth, (chunk_size * Z.of_nat queue_depth)%Z)).
  { rewrite Hiff. split.
    - intros [_ _ _ H1 H2 H3]. split_and!; [done|done|lia].
    - intros (H1 & H2 & H3). split; try done; [by intros ->|lia]. }
  destruct r as [[[unused i] total]|]; [|apply Hno; rewrite Hacc; done].
  destruct (Nat.eqb_spec unused 0) as [->|Hu]; cbn [negb orb]; [|apply Hno; rewrite Hacc; congruence].
  destruct (Nat.eqb_spec i queue_depth) as [->|Hi]; cbn [negb]; [|apply Hno; rewrite Hacc; congruence].
  destruct (Z.eqb_spec total (chunk_size * Z.of_nat queue_depth)) as [->|Ht]; cbn [negb]; [|apply Hno; rewrite Hacc; congruence].
  exists 0%Z, rbufs'. split_and!; [done|by left|by rewrite Hacc|]. intros _. rewrite Hbuf by done. done.
Qed.

(** ** Permits in the immediate data *)

Definition mem_bits (queue_depth : nat) : Z := (ilog2 (Z.of_nat queue_depth - 1) + 1)%Z.

(** The server can tell the requests apart.  When the server gave one
    region for each request, the sum of a permit's [mem_off] and an offset
    inside a chunk has the permit's number in its upper bits and the offset
    in the others, and fits the immediate data. *)
Theorem permit_imm_decodes queue_depth chunk_size descs i off :
  (0 <= chunk_size < 2 ^ 32)%Z -> accepted queue_depth chunk_size descs -> length descs = queue_depth ->
  i < queue_depth -> (0 <= off < chunk_size)%Z ->
  let imm := (mem_off queue_depth i + off)%Z in
  (0 <= imm < 2 ^ MAX_IMM_PAYL_BITS)%Z /\
  Z.shiftr imm (MAX_IMM_PAYL_BITS - mem_bits queue_depth) = Z.of_nat i /\
  Z.land imm (Z.ones (MAX_IMM_PAYL_BITS - mem_bits queue_depth)) = off.
Proof.
  intros Hc [_ _ Hb _ _ _] Hn Hi Hoff. unfold bits_fit in Hb. rewrite Hn in Hb.
  unfold as_u32 in Hb. rewrite (Z.mod_small (chunk_size - 1)) in Hb by lia.
  unfold mem_off. fold (mem_bits queue_depth) in *.
  pose proof (ilog2_ge (Z.of_nat queue_depth - 1) ltac:(lia)) as H1. fold (mem_bits queue_depth) in H1.
  pose proof (ilog2_bound (Z.of_nat queue_depth - 1) ltac:(lia)) as H2. fold (mem_bits queue_depth) in H2.
  pose proof (ilog2_ge (chunk_size - 1) ltac:(lia)) as H3. pose proof (ilog2_bound (chunk_size - 1) ltac:(lia)) as H4.
  set (b := (MAX_IMM_PAYL_BITS - mem_bits queue_depth)%Z) in *.
  assert (Hb' : (2 ^ (ilog2 (chunk_size - 1) + 1) <= 2 ^ b)%Z) by (apply Z.pow_le_mono_r; lia).
  assert (Hm : (2 ^ MAX_IMM_PAYL_BITS = 2 ^ mem_bits queue_depth * 2 ^ b)%Z) by (rewrite <- Z.pow_add_r by lia; f_equal; lia).
  rewrite Z.shiftl_mul_pow2, Z.shiftr_div_pow2, Z.land_ones by lia. split_and!.
  - lia.
  - rewrite Hm. nia.
  - rewrite Z.div_add_l by lia. rewrite Z.div_small by lia. lia.
  - rewrite Z.add_comm, Z.mod_add by lia. apply Z.mod_small. lia.
Qed.
End info.
