(* ===== verification/RtrsExample.v ===== *)
(** * The transport client on examples

    A wait queue, a run of three threads on two permits, and the run that
    loses a wake-up on a machine that reads the queue too early; a session of
    three paths, the removal that loses a link event, and the description of
    the server's memory that is accepted although it should not be. *)

From stdpp Require Import base numbers sets gmap functions list.
From S2P Require Import Prelude StateMonad RtrsPermits Rtrs RtrsProps RtrsLink.

(** ** A wait queue *)

#[export] Instance sample_queue : WaitQueue := {|
  wait_queue := gset thread;
  prepare_to_wait t q := {[t]} ∪ q;
  finish_wait t q := q ∖ {[t]};
  waitqueue_active q := negb (bool_decide (q = ∅));
  wake_up _ := ∅;
  blocked q t := bool_decide (t ∈ q);
|}.

#[export] Instance sample_queue_laws : WaitQueueLaws sample_queue.
Proof.
  split; cbn.
  - intros q t H. apply negb_false_iff, bool_decide_eq_true in H as ->. by apply bool_decide_eq_false_2.
  - intros q t. by apply bool_decide_eq_false_2.
  - intros q t t'. apply eq_true_iff_eq. rewrite orb_true_iff, !bool_decide_eq_true. set_solver.
  - intros q t t'. apply eq_true_iff_eq. rewrite andb_true_iff, negb_true_iff, !bool_decide_eq_true, bool_decide_eq_false, elem_of_difference, not_elem_of_singleton. naive_solver.
Qed.

Definition sample_session : shared :=
  mkShared ∅ (fun _ => mkPermit 0 OTHER_CON) (∅ : gset thread) (fun _ => Out) [].

Lemma sample_idle : idle sample_session.
Proof. by split. Qed.

Definition steps (n : nat) (t : thread) : list action := replicate n (Step t).
Definition io (cpu : Z) : request := mkRequest RTRS_IO_CON true cpu.

(** Two threads go for bit 0 at once; a third finds no permit and sleeps
    until the first gives its permit back. *)
Definition contended : list action :=
  [Get 0 (io 0); Get 1 (io 1); Step 0; Step 1; Step 0; Step 1] ++ steps 1 0 ++ steps 4 1 ++
  [Get 2 (io 2)] ++ steps 7 2.
Definition handed_over : list action := [Put 0 0] ++ steps 4 0 ++ steps 6 2.

Definition sample_run (depth : nat) (l : list action) : shared := default sample_session (perform_all depth l sample_session).

Lemma permits_exclusive_witness :
  users (sample_run 2 (contended ++ handed_over)) = [(0, io 2); (1, io 1)] /\
  permits (sample_run 2 (contended ++ handed_over)) 0 = mkPermit 2 RTRS_IO_CON.
Proof.
  assert (H : perform_all 2 (contended ++ handed_over) sample_session = Some (sample_run 2 (contended ++ handed_over)))
    by (vm_compute; reflexivity).
  assert (Hu : users (sample_run 2 (contended ++ handed_over)) = [(0, io 2); (1, io 1)]) by (vm_compute; reflexivity).
  split; [exact Hu|].
  refine (proj2 (proj2 (proj1 (proj2 (permits_exclusive 2 _ _ _ sample_idle H)) 0 (io 2) _))). rewrite Hu. left.
Defined.

Lemma no_lost_wakeup_witness :
  pcs (sample_run 2 contended) 2 = Schedule (io 2) /\ 0 ∈ (users (sample_run 2 contended)).*1.
Proof.
  assert (H : perform_all 2 contended sample_session = Some (sample_run 2 contended)) by (vm_compute; reflexivity).
  assert (Hpc : pcs (sample_run 2 contended) 2 = Schedule (io 2)) by (vm_compute; reflexivity).
  split; [exact Hpc|].
  refine (no_lost_wakeup 2 contended _ _ 2 (io 2) sample_idle _ H _ Hpc 0 _); [|intros t'|lia].
  - vm_compute. repeat constructor.
  - do 3 (destruct t' as [|t']; [vm_compute; reflexivity|]). vm_compute. reflexivity.
Defined.

Lemma get_permit_alone_witness :
  exists s0 s1, perform 2 (Get 7 (io 7)) sample_session = Some s0 /\ run_alone 2 3 7 s0 = Some s1 /\
    users s1 = [(0, io 7)].
Proof.
  destruct (get_permit_alone 2 7 (io 7) sample_session eq_refl) as (s0 & H0 & Hfree & _).
  destruct (Hfree 0) as (s1 & H1 & _ & _ & Hu); [lia|cbn; set_solver|lia|]. exists s0, s1. done.
Defined.

(** Thread 0 has the only permit and gives it back; the machine reads the
    queue while it is still empty, thread 1 then sees the bit set and goes to
    sleep, and the bit is cleared. *)
Definition reordered : list action :=
  [Get 0 (io 0)] ++ steps 3 0 ++ [Put 0 0; Step 0; ReadFirst 0] ++ [Get 1 (io 1)] ++ steps 5 1 ++ [Step 0].

(** A wake-up can be lost.  [clear_bit_unlock] orders what is before it,
    not the read of the wait queue after it.  On a machine that does this
    read first, a thread can end up asleep for ever: the only permit is free,
    no caller has one, and no thread can make a step. *)
Lemma early_read_loses_wakeup :
  exists s, perform_all 1 reordered sample_session = Some s /\
    pcs s 1 = Schedule (io 1) /\ permits_map s = ∅ /\ users s = [] /\ forall t, step 1 t s = None.
Proof.
  exists (sample_run 1 reordered). split_and!; [vm_compute; reflexivity..|].
  intros t. do 2 (destruct t as [|t]; [vm_compute; reflexivity|]). vm_compute. reflexivity.
Qed.

(** ** A session *)

#[export] Instance sample_env : RtrsEnv := {|
  MAX_PATHS_NUM := 128; MAX_IMM_PAYL_BITS := 28; INT_MAX := 2 ^ 31 - 1; KTIME_MAX := 2 ^ 63 - 1;
  EMSGSIZE := 90; ECONNABORTED := 103; EINVAL := 22;
  sizeof_msg_read := 4; sizeof_msg_write := 4; sizeof_sg_desc := 16;
  ilog2 x := if (x =? 0)%Z then (-1)%Z else Z.log2 x;
|}.

#[export] Instance sample_laws : RtrsLaws sample_env.
Proof.
  split; cbn; [lia|lia|lia| |done]. intros x Hx. rewrite (proj2 (Z.eqb_neq _ _)) by lia. by apply Z.log2_spec.
Qed.

Definition sample_path (st : rtrs_clt_state) (busy : Z) : rtrs_clt_path := mkPath st busy 0 128 false.

(** Path 1 is reconnecting; path 2 is less busy than path 0. *)
Definition sample_paths (policy : mp_policy_t) : rtrs_clt_sess :=
  mkSess {[0 := sample_path RTRS_CLT_CONNECTED 7; 1 := sample_path RTRS_CLT_RECONNECTING 0;
           2 := sample_path RTRS_CLT_CONNECTED 3]}
         [0; 1; 2] 3 2 (fun cpu => if cpu =? 0 then Some 0 else None) [] policy ∅ [].

Lemma sample_listed policy p : p ∈ paths_list (sample_paths policy) -> p = 0 \/ p = 1 \/ p = 2.
Proof. cbn. rewrite !elem_of_cons. intros [->|[->|[->|H]]]; auto. by apply not_elem_of_nil in H. Qed.

Lemma sample_sess_ok policy : sess_ok (sample_paths policy).
Proof.
  split; cbn; [repeat constructor; set_solver| |done| |done].
  - intros p [-> | [-> | ->]]%(sample_listed policy); by eexists.
  - intros cpu p. destruct cpu; [|done]. cbn. intros [= <-]. by left.
Qed.

Lemma remove_path_no_dangling_witness : exists s,
  rtrs_clt_remove_path_from_arr 0 (sample_paths MP_POLICY_RR) = Ok (tt, s) /\ pcpu_path s 0 = Some 1 /\ sess_ok s.
Proof.
  destruct (remove_path_no_dangling 0 (sample_paths MP_POLICY_RR) (sample_sess_ok _) ltac:(by left)) as (s & Hr & Hs & _ & _).
  exists s. split; [exact Hr|]. split; [|exact Hs]. injection Hr as <-. vm_compute. reflexivity.
Defined.

(** Posting fails on path 2, the less busy one. *)
Definition sample_post (p : nat) : Z := if p =? 2 then (-12)%Z else 0%Z.

Lemma rtrs_clt_request_spec_witness : exists s,
  rtrs_clt_request 0 sample_post 5 READ [40; 24]%Z 2 (sample_paths MP_POLICY_MIN_INFLIGHT) = Ok (0%Z, s) /\
  reqs_in_use s = {[(0, 5)]}.
Proof.
  destruct (rtrs_clt_request_spec 0 sample_post 5 READ [40; 24]%Z 2 (sample_paths MP_POLICY_MIN_INFLIGHT) (sample_sess_ok _)) as
    (err & s & Hr & _ & _ & H).
  - intros p x Hp Hx _. assert (Hc : (p_inflight x < 10)%Z); [|change (p_inflight x < 2 ^ 31 - 1)%Z; lia].
    apply sample_listed in Hp as [-> | [-> | ->]]; vm_compute in Hx; injection Hx as <-; done.
  - intros p. apply not_elem_of_empty.
  - exists s. vm_compute in Hr. injection Hr as <- <-. split; vm_compute; reflexivity.
Defined.

(** ** Descriptions of the server's memory *)

(** Two regions of two chunks each, for four requests. *)
Definition two_regions : list rtrs_sg_desc := [mkDesc 4096 11 8192; mkDesc (2 ^ 64 - 4096) 12 8192].
Definition no_rbufs (n : nat) : list rtrs_rbuf := replicate n (mkRbuf 0 0).

Lemma process_info_rsp_spec_witness :
  process_info_rsp 4 4096 two_regions (no_rbufs 4) =
  Ok (0%Z, [mkRbuf 4096 11; mkRbuf 8192 11; mkRbuf (2 ^ 64 - 4096) 12; mkRbuf 0 12]) /\
  accepted 4 4096 two_regions.
Proof.
  destruct (process_info_rsp_spec 4 4096 two_regions (no_rbufs 4)) as (r & rbufs & Hr & _ & Hacc & Hb).
  - lia.
  - repeat constructor; cbn; lia.
  - reflexivity.
  - assert (H0 : process_info_rsp 4 4096 two_regions (no_rbufs 4) =
      Ok (0%Z, [mkRbuf 4096 11; mkRbuf 8192 11; mkRbuf (2 ^ 64 - 4096) 12; mkRbuf 0 12])) by (vm_compute; reflexivity).
    rewrite H0 in Hr. injection Hr as <- <-. split; [exact H0|]. by apply Hacc.
Defined.

(** One region for each of four requests. *)
Definition four_regions : list rtrs_sg_desc := map (fun i => mkDesc (i * 4096) 11 4096) [0; 1; 2; 3]%Z.

Lemma four_regions_accepted : accepted 4 4096 four_regions.
Proof. split; [done|done|vm_compute; done| |done|done]. repeat constructor; done. Qed.

Lemma permit_imm_decodes_witness : Z.shiftr (mem_off 4 3 + 4095) 26 = 3%Z.
Proof. exact (proj1 (proj2 (permit_imm_decodes 4 4096 four_regions 3 4095 ltac:(lia) four_regions_accepted eq_refl ltac:(lia) ltac:(lia)))). Defined.

(** The check of the immediate data is too weak.  It counts the regions,
    but the upper bits hold the number of a permit.  With one region of 512
    MiB for 512 requests of 1 MiB each, the description is accepted, and a
    request of permit 0 at an offset inside its chunk has the same immediate
    data as one of permit 1. *)
Lemma one_region_imm_collides :
  let c := (2 ^ 20)%Z in let descs := [mkDesc 0 11 (2 ^ 29)] in
  exists rbufs, process_info_rsp 512 c descs (no_rbufs 512) = Ok (0%Z, rbufs) /\
  exists off, (0 <= off < c)%Z /\ (mem_off 512 0 + off = mem_off 512 1 + 0)%Z.
Proof.
  eexists. split; [vm_compute; reflexivity|]. exists (2 ^ 19)%Z. split; [lia|vm_compute; reflexivity].
Qed.

(** ** Link events *)

Definition closed_path : rtrs_clt_path := sample_path RTRS_CLT_CONNECTING 0.
Definition opened (n : nat) : rtrs_clt_sess := mkSess ∅ [] n 128 (fun _ => None) [] MP_POLICY_RR ∅ [].

(** Running operations while they are allowed. *)
Fixpoint run_link (ops : list link_op) (s : rtrs_clt_sess) : option rtrs_clt_sess :=
  match ops with
  | [] => Some s
  | op :: ops =>
      if allowed op s then match link_op_run op s with Ok (_, s) => run_link ops s | _ => None end else None
  end.
Lemma run_link_ok ops : forall s s', run_link ops s = Some s' -> link_run ops s s'.
Proof.
  induction ops as [|op ops IH]; cbn; intros s s'; [intros [= ->]; constructor|].
  destruct (allowed op s) eqn:Ha; [|done]. destruct (link_op_run op s) as [[[] s1]|e| |] eqn:Hr; try done.
  intros H. econstructor; [exact Ha|exact Hr|by apply IH].
Qed.
Definition link_state (ops : list link_op) (s : rtrs_clt_sess) : rtrs_clt_sess := default s (run_link ops s).

(** Both paths come up, both are lost, one is back, the other is removed. *)
Definition both_up : list link_op := [OpenPath 0 closed_path; PathUp 0; OpenPath 1 closed_path; PathUp 1].
Definition lost_and_back : list link_op := [PathDown 0; PathDown 1; PathUp 1; RemovePath 0; AddPath 2 closed_path; PathUp 2].

Lemma link_events_truthful_witness :
  link_evs (link_state lost_and_back (link_state both_up (opened 2))) = [RTRS_CLT_LINK_EV_DISCONNECTED; RTRS_CLT_LINK_EV_RECONNECTED] /\
  paths_up (link_state lost_and_back (link_state both_up (opened 2))) = 2%Z.
Proof.
  split; [vm_compute; reflexivity|].
  refine (proj1 (link_events_truthful 2 (opened 2) both_up (link_state both_up (opened 2)) lost_and_back _ _ _ _ _ _ _)).
  - lia.
  - repeat split.
  - apply run_link_ok. vm_compute. reflexivity.
  - repeat constructor.
  - vm_compute. reflexivity.
  - apply run_link_ok. vm_compute. reflexivity.
Defined.

(** An event can be lost.  If a path goes down while the session is still
    being opened, and it is removed afterwards, [paths_up] stays above
    [MAX_PATHS_NUM] although nothing is being opened: the session loses its
    only path, and the user is told nothing. *)
Lemma removal_loses_event :
  exists s1 s2, link_run [OpenPath 0 closed_path; PathUp 0; PathDown 0; OpenPath 1 closed_path; PathUp 1; RemovePath 0] (opened 2) s1 /\
  all_open s1 = true /\ paths_num s1 = 1 /\ ups (paths s1) = 1 /\ (MAX_PATHS_NUM < paths_up s1)%Z /\
  link_run [PathDown 1] s1 s2 /\ ups (paths s2) = 0 /\ link_evs s2 = [].
Proof.
  eexists _, _. split; [apply run_link_ok; vm_compute; reflexivity|]. do 4 (split; [vm_compute; reflexivity|]).
  split; [apply run_link_ok; vm_compute; reflexivity|]. split; vm_compute; reflexivity.
Qed.
