(* ===== verification/RtrsLife.v ===== *)
(** * The life of a path of the transport client

    A path is set up by the thread that opens it, set up again by the
    reconnect work, and taken down by the close work; handlers of the RDMA
    stack and users of sysfs change its state meanwhile.  A step is one change
    of the state under its lock, one call to the work queue, or one stretch of
    work on the connections; all steps interleave in any way.

    What the RDMA stack does is an input: whether a stretch of work succeeds
    ([choice]), whether a wait ends before its time, and which handlers are
    called, at any time while the path has connections. *)

From stdpp Require Import base numbers sets gmap functions list.
From S2P Require Import Prelude RtrsPermits Rtrs.

Inductive work := ReconnectDwork | CloseWork.
#[export] Instance work_eq_dec : EqDecision work.
Proof. solve_decision. Defined.

(** Work queues of the kernel: what is queued and not started yet. *)
Class WorkQueue := {
  workqueue : Type;
  pending : workqueue -> work -> bool;
  queue_work : work -> workqueue -> workqueue;
  start_work : work -> workqueue -> workqueue;
  cancel_work : work -> workqueue -> workqueue;
}.

(** What the kernel documents: queueing twice is queueing once, and what is
    started or cancelled is not pending any more. *)
Class WorkQueueLaws (Q : WorkQueue) : Prop := {
  queue_law : forall w q w', pending (queue_work w q) w' = bool_decide (w = w') || pending q w';
  start_law : forall w q w', pending (start_work w q) w' = negb (bool_decide (w = w')) && pending q w';
  cancel_law : forall w q w', pending (cancel_work w q) w' = negb (bool_decide (w = w')) && pending q w';
}.

(** ** Where the threads are *)

(** In [init_path]: [init_conns], its error path, the request, the wait, the
    look at the state, the error at the end, [rtrs_clt_path_up]. *)
Inductive init_pc := InitConns | DestroyConns | SendInfo | WaitState | ReadState | SetErr | PathUp.

(** The thread of [rtrs_clt_open] or [rtrs_clt_create_path_from_sysfs]. *)
Inductive open_pc := OStart | OInit (c : init_pc) | OFiles | OClose | OQueueClose | OFlush | ODone | OFreed.

(** [rtrs_clt_reconnect_work]. *)
Inductive reconnect_pc :=
| RIdle | RRead | RClose | RQueueClose | RStopLock | RStop | RConnecting | RInitLock | RInit (c : init_pc) | RAgain | RQueue.

(** [rtrs_clt_close_work]. *)
Inductive close_pc := CIdle | CCancel | CStopLock | CStop | CClosed.

(** What a caller of [rtrs_clt_close_conns] does next: nothing, wait, or wait
    and try to make the path dead. *)
Inductive after_close := Leave | Flush | Die.

(** Handlers and users of sysfs. *)
Inductive user_pc :=
| UOut
| URecover | UQueueDwork | UTryErr                      (* rtrs_rdma_error_recovery *)
| UInfo (ok : bool)                                     (* rtrs_clt_info_rsp_done, rtrs_clt_info_req_done *)
| UClose (a : after_close) | UQueueClose (a : after_close) | UFlush (die : bool)
| UDead                                                 (* rtrs_clt_remove_path_from_sysfs *)
| UReconnect | UQueueNow | UFlushDwork.                 (* rtrs_clt_reconnect_from_sysfs *)

Inductive call := ErrorRecovery | Info (ok : bool) | DeviceRemoval | Reconnect | Disconnect | Remove.
Inductive actor := Opener | Reconnector | Closer | User (t : thread).
#[export] Instance actor_eq_dec : EqDecision actor.
Proof. solve_decision. Defined.

Section life.
Context `{Q : WorkQueue} (max_reconnect_attempts : nat).

Record life := mkLife {
  st : rtrs_clt_state;
  queue : workqueue;
  init_mutex : option actor;
  conns : bool;                  (* the path has connections, or is making them *)
  reconnect_attempts : nat;
  opener : open_pc;
  reconnector : reconnect_pc;
  closer : close_pc;
  users_at : thread -> user_pc;
  freed : bool;                  (* the path is given up, by kobject_put or free_path *)
}.
#[export] Instance life_upd : Updatable life :=
  (rd_pure mkLife <&> st <&> queue <&> init_mutex <&> conns <&> reconnect_attempts <&> opener <&> reconnector <&> closer
   <&> users_at <&> freed)%upd.

(** ** Shared steps *)

(** [rtrs_clt_change_state_get_old]: what the next step is if the state
    changed, and if not. *)
Definition change (new : rtrs_clt_state) (yes no : life -> life) (s : life) : life :=
  if rtrs_clt_change_state (st s) new then yes (s <| st := new |>) else no s.

(** [rtrs_clt_change_state_from_to]. *)
Definition change_from_to (old new : rtrs_clt_state) (yes no : life -> life) (s : life) : life :=
  if bool_decide (st s = old) then change new yes no s else no s.

Definition queue_it (w : work) (s : life) : life := s <| queue ::= queue_work w |>.
Definition closed_down (s : life) : bool :=
  negb (pending (queue s) CloseWork) && match closer s with CIdle => true | _ => false end.
Definition dwork_done (s : life) : bool :=
  negb (pending (queue s) ReconnectDwork) && match reconnector s with RIdle => true | _ => false end.

(** A step of [init_path], which holds [init_mutex]; [at_] is where the thread
    is, and [fin] where it goes with the result. *)
Definition init_step (c : init_pc) (choice : bool) (at_ : init_pc -> life -> life) (fin : bool -> life -> life)
    (s : life) : option life :=
  let return_ ok s := fin ok (s <| init_mutex := None |>) in
  match c with
  | InitConns => Some (at_ (if choice then SendInfo else DestroyConns) s)
  | DestroyConns => Some (change RTRS_CLT_CONNECTING_ERR (return_ false) (return_ false) (s <| conns := false |>))
  | SendInfo => Some (at_ (if choice then WaitState else SetErr) s)
  | WaitState => if negb (bool_decide (st s = RTRS_CLT_CONNECTING)) || choice then Some (at_ ReadState s) else None
  | ReadState => Some (at_ (if bool_decide (st s = RTRS_CLT_CONNECTED) then PathUp else SetErr) s)
  | SetErr => Some (change RTRS_CLT_CONNECTING_ERR (return_ false) (return_ false) s)
  | PathUp => Some (return_ true (s <| reconnect_attempts := 0 |>))
  end.
Definition init_lock (a : actor) (go : life -> life) (s : life) : option life :=
  match init_mutex s with None => Some (go (s <| init_mutex := Some a |> <| conns := true |>)) | Some _ => None end.
(** [mutex_lock] and [mutex_unlock] at the start of
    [rtrs_clt_stop_and_destroy_conns]. *)
Definition wait_init (go : life -> life) (s : life) : option life :=
  match init_mutex s with None => Some (go s) | Some _ => None end.

(** ** The threads *)

Definition o_at (c : open_pc) (s : life) : life := s <| opener := c |>.
Definition step_opener (choice : bool) (s : life) : option life :=
  match opener s with
  | OStart => init_lock Opener (o_at (OInit InitConns)) s
  | OInit c => init_step c choice (fun c => o_at (OInit c)) (fun ok => o_at (if ok then OFiles else OClose)) s
  | OFiles => Some (o_at (if choice then ODone else OClose) s)
  | OClose => Some (change RTRS_CLT_CLOSING (o_at OQueueClose) (o_at OFlush) s)
  | OQueueClose => Some (o_at OFlush (queue_it CloseWork s))
  | OFlush => if closed_down s then Some (o_at OFreed (s <| freed := true |>)) else None
  | ODone | OFreed => None
  end.

Definition r_at (c : reconnect_pc) (s : life) : life := s <| reconnector := c |>.
Definition step_reconnector (choice : bool) (s : life) : option life :=
  match reconnector s with
  | RIdle => if pending (queue s) ReconnectDwork then Some (r_at RRead (s <| queue ::= start_work ReconnectDwork |>)) else None
  | RRead =>
      Some (if negb (bool_decide (st s = RTRS_CLT_RECONNECTING)) then r_at RIdle s
            else if max_reconnect_attempts <=? reconnect_attempts s then r_at RClose s
            else r_at RStopLock (s <| reconnect_attempts ::= S |>))
  | RClose => Some (change RTRS_CLT_CLOSING (r_at RQueueClose) (r_at RIdle) s)
  | RQueueClose => Some (r_at RIdle (queue_it CloseWork s))
  | RStopLock => wait_init (r_at RStop) s
  | RStop => Some (r_at RConnecting (s <| conns := false |>))
  | RConnecting => Some (change RTRS_CLT_CONNECTING (r_at RInitLock) (r_at RIdle) s)
  | RInitLock => init_lock Reconnector (r_at (RInit InitConns)) s
  | RInit c => init_step c choice (fun c => r_at (RInit c)) (fun ok => r_at (if ok then RIdle else RAgain)) s
  | RAgain => Some (change RTRS_CLT_RECONNECTING (r_at RQueue) (r_at RIdle) s)
  | RQueue => Some (r_at RIdle (queue_it ReconnectDwork s))
  end.

(** [cancel_delayed_work_sync] returns when the work is neither queued nor
    running. *)
Definition c_at (c : close_pc) (s : life) : life := s <| closer := c |>.
Definition step_closer (s : life) : option life :=
  match closer s with
  | CIdle => if pending (queue s) CloseWork then Some (c_at CCancel (s <| queue ::= start_work CloseWork |>)) else None
  | CCancel =>
      match reconnector s with
      | RIdle => Some (c_at CStopLock (s <| queue ::= cancel_work ReconnectDwork |>))
      | _ => None
      end
  | CStopLock => wait_init (c_at CStop) s
  | CStop => Some (c_at CClosed (s <| conns := false |>))
  | CClosed => Some (change RTRS_CLT_CLOSED (c_at CIdle) (c_at CIdle) s)
  end.

Definition u_at (t : thread) (c : user_pc) (s : life) : life := s <| users_at ::= <[t := c]> |>.
Definition step_user (t : thread) (s : life) : option life :=
  match users_at s t with
  | UOut => None
  | URecover => Some (change_from_to RTRS_CLT_CONNECTED RTRS_CLT_RECONNECTING (u_at t UQueueDwork) (u_at t UTryErr) s)
  | UQueueDwork => Some (u_at t UOut (queue_it ReconnectDwork s))
  | UTryErr => Some (change_from_to RTRS_CLT_CONNECTING RTRS_CLT_CONNECTING_ERR (u_at t UOut) (u_at t UOut) s)
  | UInfo ok => Some (change (if ok then RTRS_CLT_CONNECTED else RTRS_CLT_CONNECTING_ERR) (u_at t UOut) (u_at t UOut) s)
  | UClose a =>
      Some (change RTRS_CLT_CLOSING (u_at t (UQueueClose a))
              (u_at t match a with Leave => UOut | Flush => UFlush false | Die => UFlush true end) s)
  | UQueueClose a =>
      Some (u_at t match a with Leave => UOut | Flush => UFlush false | Die => UFlush true end (queue_it CloseWork s))
  | UFlush die => if closed_down s then Some (u_at t (if die then UDead else UOut) s) else None
  | UDead =>
      let old := st s in
      Some (change RTRS_CLT_DEAD (fun s => u_at t UOut (s <| freed := true |>))
              (u_at t (if bool_decide (old = RTRS_CLT_DEAD) then UOut else UClose Die)) s)
  | UReconnect =>
      let old := st s in
      Some (change RTRS_CLT_RECONNECTING (fun s => u_at t UQueueNow (s <| reconnect_attempts := 0 |>))
              (u_at t (if bool_decide (old = RTRS_CLT_RECONNECTING) then UFlushDwork else UOut)) s)
  | UQueueNow => Some (u_at t UFlushDwork (queue_it ReconnectDwork s))
  | UFlushDwork => if dwork_done s then Some (u_at t UOut s) else None
  end.

(** ** Runs *)

Inductive life_act := Calls (t : thread) (c : call) | Goes (a : actor) (choice : bool).

(** Handlers are called while there are connections; the files in sysfs exist
    once the path is open. *)
Definition may_call (c : call) (s : life) : bool :=
  match c with
  | ErrorRecovery | Info _ | DeviceRemoval => conns s
  | Reconnect | Disconnect | Remove => match opener s with ODone => negb (freed s) | _ => false end
  end.
Definition first_pc (c : call) : user_pc :=
  match c with
  | ErrorRecovery => URecover | Info ok => UInfo ok | DeviceRemoval => UClose Leave
  | Reconnect => UReconnect | Disconnect => UClose Flush | Remove => UClose Die
  end.

Definition goes (a : actor) (choice : bool) (s : life) : option life :=
  match a with
  | Opener => step_opener choice s
  | Reconnector => step_reconnector choice s
  | Closer => step_closer s
  | User t => step_user t s
  end.
Definition life_step (a : life_act) (s : life) : option life :=
  match a with
  | Calls t c =>
      match users_at s t with
      | UOut => if may_call c s then Some (u_at t (first_pc c) s) else None
      | _ => None
      end
  | Goes a choice => goes a choice s
  end.

Inductive reachable (s0 : life) : life -> Prop :=
| re_start : reachable s0 s0
| re_step a s s' : reachable s0 s -> life_step a s = Some s' -> reachable s0 s'.

(** What [alloc_path] leaves. *)
Record new_path (s : life) : Prop := {
  np_st : st s = RTRS_CLT_CONNECTING;
  np_queue : forall w, pending (queue s) w = false;
  np_mutex : init_mutex s = None;
  np_conns : conns s = false;
  np_opener : opener s = OStart;
  np_reconnector : reconnector s = RIdle;
  np_closer : closer s = CIdle;
  np_users : forall t, users_at s t = UOut;
  np_freed : freed s = false;
}.
End life.
