(* ===== verification/RtrsLifeInv.v ===== *)
(** * The life of a path: the invariant

    What holds in every state of a path, whoever changes it while others set
    it up or take it down, and that every step keeps it. *)

From stdpp Require Import base numbers sets gmap functions list.
From S2P Require Import Prelude RtrsPermits Rtrs RtrsLife.

Section life.
Context `{Q : WorkQueue} `{!WorkQueueLaws Q} (max_reconnect_attempts : nat).

(** ** The invariant *)

(** Who is going to run the close work: it is announced, queued or running. *)
Inductive token := TOpen | TReconnect | TUser (t : thread) | TPending | TRunning.
#[export] Instance token_eq_dec : EqDecision token.
Proof. solve_decision. Defined.
Definition has (s : life) (x : token) : Prop :=
  match x with
  | TOpen => opener s = OQueueClose
  | TReconnect => reconnector s = RQueueClose
  | TUser t => exists a, users_at s t = UQueueClose a
  | TPending => pending (queue s) CloseWork = true
  | TRunning => closer s <> CIdle
  end.
Definition one_closer (s : life) : Prop :=
  (st s = RTRS_CLT_CLOSING /\ exists x, forall y, has s y <-> y = x) \/
  (st s <> RTRS_CLT_CLOSING /\ forall y, ~ has s y).

Definition before_stop (c : reconnect_pc) : bool :=
  match c with RIdle | RRead | RClose | RQueueClose | RStopLock => true | _ => false end.
Definition not_working (c : reconnect_pc) : bool := match c with RIdle | RRead => true | _ => false end.
Definition before_close (c : close_pc) : bool := match c with CIdle | CCancel | CStopLock => true | _ => false end.
Definition cancelled (c : close_pc) : bool := match c with CStopLock | CStop | CClosed => true | _ => false end.

Definition mutex_of (o : open_pc) (r : reconnect_pc) : option actor :=
  match o, r with OInit _, _ => Some Opener | _, RInit _ => Some Reconnector | _, _ => None end.

(** Who goes on with a path that is reconnecting, connecting, or has failed to
    connect. *)
Definition will_reconnect (r : reconnect_pc) : bool :=
  match r with RRead | RStopLock | RStop | RConnecting | RClose | RQueue => true | _ => false end.
Definition will_queue (c : user_pc) : bool := match c with UQueueDwork | UQueueNow => true | _ => false end.
Definition initialising (c : init_pc) : bool := match c with PathUp => false | _ => true end.
Definition connecting_o (o : open_pc) : bool := match o with OStart => true | OInit c => initialising c | _ => false end.
Definition connecting_r (r : reconnect_pc) : bool := match r with RInitLock => true | RInit c => initialising c | _ => false end.
Definition failing_o (o : open_pc) : bool := match o with OInit c => initialising c | OClose => true | _ => false end.
Definition failing_r (r : reconnect_pc) : bool := match r with RInitLock | RAgain => true | RInit c => initialising c | _ => false end.

Definition goes_on (s : life) : Prop :=
  match st s with
  | RTRS_CLT_RECONNECTING =>
      pending (queue s) ReconnectDwork = true \/ (exists t, will_queue (users_at s t) = true) \/ will_reconnect (reconnector s) = true
  | RTRS_CLT_CONNECTING => connecting_o (opener s) = true \/ connecting_r (reconnector s) = true
  | RTRS_CLT_CONNECTING_ERR => failing_o (opener s) = true \/ failing_r (reconnector s) = true
  | _ => True
  end.

Record life_ok (s : life) : Prop := {
  lk_start : opener s = OStart -> new_path s;
  lk_mutex : init_mutex s = mutex_of (opener s) (reconnector s);
  lk_open : forall c, opener s = OInit c -> before_stop (reconnector s) = true /\ before_close (closer s) = true;
  lk_close : cancelled (closer s) = true -> not_working (reconnector s) = true;
  lk_closer : one_closer s;
  lk_goes : goes_on s;
  lk_quiet : st s = RTRS_CLT_CLOSED \/ st s = RTRS_CLT_DEAD ->
    not_working (reconnector s) = true /\ forall c, opener s <> OInit c;
}.

(** Moving the duty to close. *)
Lemma closer_same s s' : one_closer s -> (forall y, has s' y <-> has s y) -> (st s' = RTRS_CLT_CLOSING <-> st s = RTRS_CLT_CLOSING) ->
  one_closer s'.
Proof.
  intros [[H1 [x Hx]]|[H1 Hx]] Hh Hs; [left|right]; (split; [tauto|]); [exists x|]; intros y; rewrite Hh; apply Hx.
Qed.
Lemma closer_new x s s' : one_closer s -> st s <> RTRS_CLT_CLOSING -> st s' = RTRS_CLT_CLOSING ->
  (forall y, has s' y <-> y = x \/ has s y) -> one_closer s'.
Proof.
  intros [[? _]|[_ Hx]] Hs Hs' Hh; [done|]. left. split; [done|]. exists x. intros y. rewrite Hh. pose proof (Hx y). tauto.
Qed.
Lemma closer_moves x x' s s' : one_closer s -> has s x -> st s' = st s ->
  (forall y, has s' y <-> y = x' \/ (has s y /\ y <> x)) -> one_closer s'.
Proof.
  intros [[H1 [z Hz]]|[_ Hn]] Hx Hs Hh; [|by destruct (Hn x)]. left. split; [congruence|]. exists x'. intros y.
  apply Hz in Hx as ->. rewrite Hh, Hz. tauto.
Qed.
Lemma closer_done x s s' : one_closer s -> has s x -> st s' <> RTRS_CLT_CLOSING ->
  (forall y, has s' y <-> has s y /\ y <> x) -> one_closer s'.
Proof.
  intros [[H1 [z Hz]]|[_ Hn]] Hx Hs Hh; [|by destruct (Hn x)]. right. split; [done|]. intros y.
  apply Hz in Hx as ->. rewrite Hh, Hz. tauto.
Qed.
Lemma has_closing x s : one_closer s -> has s x -> st s = RTRS_CLT_CLOSING.
Proof. intros [[H _]|[_ H]]; [done|]. by intros ?%H. Qed.

Lemma start_ok s : new_path s -> life_ok s.
Proof.
  intros Hn. pose proof Hn as [H1 H2 H3 H4 H5 H6 H7 H8 H9]. split.
  - done.
  - by rewrite H3, H5, H6.
  - intros c. by rewrite H5.
  - by rewrite H7.
  - right. rewrite H1. split; [done|]. intros [| |t| |]; cbn; rewrite ?H5, ?H6, ?H7, ?H8, ?H2; naive_solver.
  - unfold goes_on. rewrite H1, H5. by left.
  - rewrite H1. by intros [?|?].
Qed.

Lemma queue_same w q : pending (queue_work w q) w = true.
Proof. by rewrite queue_law, bool_decide_eq_true_2. Qed.
Lemma queue_other w q w' : w <> w' -> pending (queue_work w q) w' = pending q w'.
Proof. intros H. by rewrite queue_law, bool_decide_eq_false_2. Qed.
Lemma start_same w q : pending (start_work w q) w = false.
Proof. by rewrite start_law, bool_decide_eq_true_2. Qed.
Lemma start_other w q w' : w <> w' -> pending (start_work w q) w' = pending q w'.
Proof. intros H. by rewrite start_law, bool_decide_eq_false_2. Qed.
Lemma cancel_other w q w' : w <> w' -> pending (cancel_work w q) w' = pending q w'.
Proof. intros H. by rewrite cancel_law, bool_decide_eq_false_2. Qed.

Ltac queue_simpl := rewrite ?queue_same, ?start_same, ?queue_other, ?start_other, ?cancel_other in * by discriminate.
Ltac by_cases := queue_simpl; intuition congruence.
Ltac by_token := let y := fresh "y" in intros y; destruct y; cbn; by_cases.
Ltac closer_steps x :=
  first [ eapply closer_same; [eassumption|by_token|cbn; intuition congruence]
        | eapply (closer_new x); [eassumption|done|done|by_token]
        | eapply (closer_moves x TPending); [eassumption|cbn; congruence|done|by_token]
        | eapply (closer_moves TPending TRunning); [eassumption|cbn; congruence|done|by_token]
        | eapply (closer_done TRunning); [eassumption|cbn; congruence|cbn; congruence|by_token] ].

(** The clauses of the invariant after a step; [x] is who may take up the duty
    to close. *)
Ltac life_clauses x :=
  split; cbn;
  [ try (intros ?; congruence)
  | try first [congruence | match goal with r : reconnect_pc |- _ => destruct r end; cbn in *; congruence
        | match goal with o : open_pc |- _ => destruct o end; cbn in *; intuition congruence]
  | try (intros ? [=]; subst; cbn in *; intuition congruence);
    try (let Ho := fresh in intros ? Ho; match goal with H : forall c, _ = OInit c -> _ |- _ => specialize (H _ Ho) end;
         cbn in *; intuition congruence)
  | try (intros; cbn in *; intuition congruence)
  | try closer_steps x
  | unfold goes_on in *; cbn in *;
    try match goal with st : rtrs_clt_state |- _ => destruct st end; cbn in *; try by_cases
  | try (intros; cbn in *; intuition congruence) ].

Lemma opener_ok choice s s' : life_ok s -> step_opener choice s = Some s' -> life_ok s'.
Proof.
  intros [H1 H2 H3 H4 H5 H6 H7]. unfold step_opener. destruct s as [st0 q mu co at0 o r c u f]. cbn in *.
  destruct o; cbn in *.
  - unfold init_lock. cbn. destruct (H1 eq_refl). cbn in *. subst. intros [= <-].
    life_clauses TOpen.
  - assert (before_stop r = true /\ before_close c = true) as [Hr Hc] by (by apply (H3 c0)).
    destruct c0; cbn in *; unfold change; cbn.
    1, 3: intros [= <-]; destruct choice; life_clauses TOpen.
    all: destruct st0; cbn in *; try destruct choice; cbn; intros [= <-]; life_clauses TOpen.
  - intros [= <-]. destruct choice; life_clauses TOpen.
  - destruct st0; intros [= <-]; life_clauses TOpen.
  - intros [= <-]. life_clauses TOpen.
  - destruct (closed_down _); [|done]. intros [= <-]. life_clauses TOpen.
  - done.
  - done.
Qed.

(** Before the path is set up nothing happens to it. *)
Lemma idle_others s choice : new_path s ->
  step_reconnector max_reconnect_attempts choice s = None /\ step_closer s = None /\ forall t, step_user t s = None.
Proof.
  intros [_ H2 _ _ _ H6 H7 H8 _]. unfold step_reconnector, step_closer, step_user. rewrite H6, H7, !H2. split_and!; [done..|].
  intros t. by rewrite H8.
Qed.

Lemma cancelled_closing s : one_closer s -> cancelled (closer s) = true -> st s = RTRS_CLT_CLOSING.
Proof. intros Hc Hx. apply (has_closing TRunning s Hc). cbn. by destruct (closer s). Qed.

Lemma reconnector_ok choice s s' : life_ok s -> step_reconnector max_reconnect_attempts choice s = Some s' -> life_ok s'.
Proof.
  intros Hok Hstep. pose proof Hok as [H1 H2 H3 H4 H5 H6 H7]. pose proof (cancelled_closing s H5) as Hcl.
  assert (Hns : opener s <> OStart).
  { intros Ho. destruct (idle_others s choice (H1 Ho)) as [Hn _]. congruence. }
  revert Hstep. unfold step_reconnector. destruct s as [st0 q mu co at0 o r c u f]. cbn in *. clear H1 Hok.
  assert (Hin : (forall c, o <> OInit c) \/ before_stop r = true /\ before_close c = true).
  { destruct o; try (left; congruence). right. by eapply H3. }
  destruct r; cbn in *.
  - destruct (pending q ReconnectDwork); [|done]. intros [= <-]. life_clauses TReconnect.
  - intros [= <-]. case_bool_decide; cbn; [destruct (_ <=? _)|]; life_clauses TReconnect.
  - destruct st0; intros [= <-]; life_clauses TReconnect.
  - intros [= <-]; life_clauses TReconnect.
  - unfold wait_init. cbn. destruct mu; [done|]. intros [= <-]; life_clauses TReconnect.
  - intros [= <-]; life_clauses TReconnect.
  - destruct st0; intros [= <-]; life_clauses TReconnect.
  - unfold init_lock. cbn. destruct mu; [done|]. intros [= <-]; life_clauses TReconnect.
  - assert (Ho : forall c, o <> OInit c) by (by destruct Hin as [?|[? _]]). clear Hin H3.
    destruct c0; cbn in *; unfold change; cbn.
    1, 3: intros [= <-]; destruct choice; life_clauses TReconnect.
    all: destruct st0; cbn in *; try destruct choice; cbn; intros [= <-]; life_clauses TReconnect.
  - destruct st0; intros [= <-]; life_clauses TReconnect.
  - intros [= <-]; life_clauses TReconnect.
Qed.

Lemma closer_ok s s' : life_ok s -> step_closer s = Some s' -> life_ok s'.
Proof.
  intros Hok Hstep. pose proof Hok as [H1 H2 H3 H4 H5 H6 H7]. pose proof (has_closing TRunning s H5) as Hcl. cbn in Hcl.
  assert (Hns : opener s <> OStart).
  { intros Ho. destruct (idle_others s true (H1 Ho)) as (_ & Hn & _). congruence. }
  revert Hstep. unfold step_closer. destruct s as [st0 q mu co at0 o r c u f]. cbn in *. clear H1 Hok.
  destruct c; cbn in *.
  - destruct (pending q CloseWork) eqn:Hp; [|done]. intros [= <-]. life_clauses TRunning.
  - destruct r; try done. intros [= <-]. life_clauses TRunning.
  - unfold wait_init. cbn. destruct mu; [done|]. intros [= <-]; life_clauses TRunning.
  - intros [= <-]; life_clauses TRunning.
  - rewrite Hcl in * by done. intros [= <-]; life_clauses TRunning.
    intros _. split; [by apply H4|]. intros c Ho. by destruct (H3 c Ho).
Qed.

Lemma has_user t c s y : has (u_at t c s) y <-> (y = TUser t /\ exists a, c = UQueueClose a) \/ (y <> TUser t /\ has s y).
Proof.
  destruct y as [| |t'| |]; cbn; try naive_solver.
  destruct (decide (t' = t)) as [->|Hne]; [rewrite fn_lookup_insert|rewrite fn_lookup_insert_ne by done]; naive_solver.
Qed.

(** What a user of the path does leaves the three threads where they are. *)
Record same_threads (s s' : life) : Prop := {
  sm_mutex : init_mutex s' = init_mutex s;
  sm_opener : opener s' = opener s;
  sm_reconnector : reconnector s' = reconnector s;
  sm_closer : closer s' = closer s;
}.

Lemma user_threads t s s' : step_user t s = Some s' -> same_threads s s'.
Proof.
  unfold step_user, change_from_to, change, queue_it, u_at. intros H. destruct (users_at s t) as [| | | |ok|a|a|d| | | |] eqn:Hu; try done.
  all: repeat match type of H with context [if ?b then _ else _] => destruct b end; try done; injection H as <-; done.
Qed.

(** ** Handlers and users *)

(** A step of a user keeps the invariant if the duty to close is still in one
    hand and the path still has somebody who goes on with it. *)
Lemma user_keeps s s' : life_ok s -> opener s <> OStart -> same_threads s s' -> one_closer s' -> goes_on s' ->
  (st s' = RTRS_CLT_CLOSED \/ st s' = RTRS_CLT_DEAD -> st s = RTRS_CLT_CLOSED \/ st s = RTRS_CLT_DEAD) -> life_ok s'.
Proof.
  intros [H1 H2 H3 H4 H5 H6 H7] Ho [G1 G2 G3 G4] Hc Hg Hq. split; rewrite ?G1, ?G2, ?G3, ?G4; auto. done.
Qed.

Definition announces (c : user_pc) : bool := match c with UQueueClose _ => true | _ => false end.

(** The path after a user went from [users_at s t] to [c]. *)
Lemma user_goes_on t c s s1 : goes_on s -> users_at s1 = users_at s -> reconnector s1 = reconnector s -> opener s1 = opener s ->
  st s1 = st s ->
  (pending (queue s) ReconnectDwork = true -> pending (queue s1) ReconnectDwork = true) ->
  (will_queue (users_at s t) = true -> will_queue c = true \/ pending (queue s1) ReconnectDwork = true) ->
  goes_on (u_at t c s1).
Proof.
  intros H6 Hu Hr Ho Hs Hp Hw. unfold goes_on in *. cbn. rewrite Hu, Hr, Ho, Hs. destruct (st s); try done.
  destruct H6 as [?|[[t' Ht']|?]]; [by left; auto| |by right; right].
  destruct (decide (t' = t)) as [->|Hne].
  - destruct (Hw Ht') as [?|?]; [|by left]. right; left. exists t. by rewrite fn_lookup_insert.
  - right; left. exists t'. by rewrite fn_lookup_insert_ne.
Qed.

Lemma user_closer t c s s1 : one_closer s -> (forall y, has s1 y <-> has s y) ->
  (st s1 = RTRS_CLT_CLOSING <-> st s = RTRS_CLT_CLOSING) ->
  announces (users_at s t) = false -> announces c = false -> one_closer (u_at t c s1).
Proof.
  intros H Hh Hs Hold Hc. apply (closer_same s); [done| |done]. intros y. rewrite has_user, Hh.
  split; [|destruct (decide (y = TUser t)) as [->|]; [|by right]].
  - intros [[_ [a ->]]|[_ Hy]]; [done|done].
  - intros [a Ha]. rewrite Ha in Hold. done.
Qed.


Lemma has_queue_dwork s y : has (s <| queue ::= queue_work ReconnectDwork |>) y <-> has s y.
Proof. destruct y; try done. cbn. by rewrite queue_other. Qed.
Lemma has_queue_close s y : has (s <| queue ::= queue_work CloseWork |>) y <-> y = TPending \/ has s y.
Proof. destruct y; cbn; try naive_solver. rewrite queue_same. naive_solver. Qed.

Lemma after_announces a : announces match a with Leave => UOut | Flush => UFlush false | Die => UFlush true end = false.
Proof. by destruct a. Qed.

Lemma user_closer_ok t s s' : one_closer s -> step_user t s = Some s' -> one_closer s'.
Proof.
  intros H5. unfold step_user, change_from_to, change, queue_it.
  destruct (users_at s t) as [| | | |ok|a|a|d| | | |] eqn:Hu; intros Hs.
  all: repeat match type of Hs with context [if ?b then _ else _] => destruct b eqn:? end; try discriminate Hs; injection Hs as <-.
  all: try (eapply user_closer; [exact H5|done| |by rewrite Hu|apply after_announces || done]; cbn; destruct (st s); done).
  all: try (eapply user_closer; [exact H5|apply has_queue_dwork|done|by rewrite Hu|done]).
  - apply (closer_new (TUser t) s); [done|by destruct (st s)|done|]. intros y. rewrite has_user.
    destruct (decide (y = TUser t)) as [->|]; [|cbn; destruct y; naive_solver]. split; [by left|]. intros _. left. eauto.
  - apply (closer_moves (TUser t) TPending s); [done|by exists a|done|]. intros y. rewrite has_user, has_queue_close.
    pose proof (after_announces a) as Ha. split.
    + intros [[_ [b Hb]]|[Hy [->|Hh]]]; [by rewrite Hb in Ha|by left|by right].
    + intros [->|[Hh Hy]]; right; [split; [done|by left]|split; [done|by right]].
Qed.

Lemma user_goes_ok t s s' : life_ok s -> opener s <> OStart -> step_user t s = Some s' -> goes_on s'.
Proof.
  intros [_ _ _ _ _ H6 _] Hns. unfold step_user, change_from_to, change, queue_it.
  destruct (users_at s t) as [| | | |ok|a|a|d| | | |] eqn:Hu; intros Hs.
  all: repeat match type of Hs with context [if ?b then _ else _] => destruct b eqn:? end; try discriminate Hs; injection Hs as <-.
  all: try (apply user_goes_on with (s := s); [exact H6|done|done|done|done|done|rewrite Hu; done]).
  all: try (apply user_goes_on with (s := s); [exact H6|done|done|done|done|cbn; rewrite ?queue_same, ?queue_other by done; auto|rewrite Hu; cbn; rewrite ?queue_same; auto]).
  all: try done.
  all: try (right; left; exists t; cbn; by rewrite fn_lookup_insert).
  all: unfold goes_on in *; cbn; destruct (st s); try done.
  all: destruct H6 as [Ho|Hr]; [left; by destruct (opener s)|right; by destruct (reconnector s)].
Qed.

Lemma user_quiet t s s' : step_user t s = Some s' ->
  st s' = RTRS_CLT_CLOSED \/ st s' = RTRS_CLT_DEAD -> st s = RTRS_CLT_CLOSED \/ st s = RTRS_CLT_DEAD.
Proof.
  unfold step_user, change_from_to, change, queue_it.
  destruct (users_at s t) as [| | | |ok|a|a|d| | | |]; intros Hs.
  all: repeat match type of Hs with context [if ?b then _ else _] => destruct b eqn:? end; try discriminate Hs; injection Hs as <-; try done.
  all: cbn; destruct (st s); naive_solver.
Qed.

Lemma user_ok t s s' : life_ok s -> step_user t s = Some s' -> life_ok s'.
Proof.
  intros Hok Hstep. pose proof Hok as [H1 _ _ _ H5 H6 _].
  assert (Hns : opener s <> OStart).
  { intros Ho. destruct (idle_others s true (H1 Ho)) as (_ & _ & Hn). by rewrite Hn in Hstep. }
  apply (user_keeps s); [done..|by eapply user_threads|by eapply user_closer_ok|by eapply user_goes_ok|by eapply user_quiet].
Qed.

Lemma call_ok t c s s' : life_ok s -> life_step max_reconnect_attempts (Calls t c) s = Some s' -> life_ok s'.
Proof.
  intros Hok. pose proof Hok as [H1 _ _ _ H5 H6 _]. cbn. destruct (users_at s t) eqn:Hu; try done.
  destruct (may_call c s) eqn:Hm; [|done]. intros [= <-].
  assert (Hns : opener s <> OStart).
  { intros Ho. destruct (H1 Ho) as [_ _ _ Hc _ _ _ _ _]. unfold may_call in Hm. rewrite Hc, Ho in Hm. by destruct c. }
  apply (user_keeps s); [done..| | |done].
  - apply (user_closer t _ s); [done..|by rewrite Hu|by destruct c].
  - apply (user_goes_on t _ s); [done..|]. by rewrite Hu.
Qed.

Lemma reachable_ok s0 s : new_path s0 -> reachable max_reconnect_attempts s0 s -> life_ok s.
Proof.
  intros Hn. induction 1 as [|a s s' _ IH Hs]; [by apply start_ok|]. destruct a as [t c|[| | |t] choice].
  - by eapply call_ok.
  - by eapply opener_ok.
  - by eapply reconnector_ok.
  - by eapply closer_ok.
  - by eapply user_ok.
Qed.
End life.
