(* ===== verification/RtrsLifeProps.v ===== *)
(** * The life of a path: what it promises

    One thread at a time works on the connections of a path, and no path is
    left behind in a state that somebody should end.  At the end, runs in which
    a path is given up while work on it is still to come. *)

From stdpp Require Import base numbers sets gmap functions list.
From S2P Require Import Prelude RtrsPermits Rtrs RtrsLife RtrsLifeInv.

Section life.
Context `{Q : WorkQueue} `{!WorkQueueLaws Q} (max_reconnect_attempts : nat).

(** ** What follows *)

(** Who sets up or takes down the connections of the path. *)
Definition works (a : actor) (s : life) : Prop :=
  match a with
  | Opener => exists c, opener s = OInit c
  | Reconnector => reconnector s = RStop \/ exists c, reconnector s = RInit c
  | Closer => closer s = CStop
  | User _ => False
  end.

(** C15. One thread at a time works on the connections of a path.  In every
    state that a new path reaches, whatever handlers and users do, of the
    thread that opens the path, the reconnect work and the close work at most
    one sets up or takes down connections; and none does once the path is
    closed or dead. *)
Theorem connections_exclusive s0 s a b :
  new_path s0 -> reachable max_reconnect_attempts s0 s -> works a s ->
  (works b s -> a = b) /\ st s <> RTRS_CLT_CLOSED /\ st s <> RTRS_CLT_DEAD.
Proof.
  intros Hn Hr Ha. destruct (reachable_ok max_reconnect_attempts s0 s Hn Hr) as [H1 H2 H3 H4 H5 H6 H7].
  assert (Hq : ~ (st s = RTRS_CLT_CLOSED \/ st s = RTRS_CLT_DEAD)).
  { intros Hq. destruct (H7 Hq) as [Hw Ho]. destruct a as [| | |t]; cbn in Ha; [|..|done].
    - destruct Ha as [c Hc]. by apply (Ho c).
    - destruct Ha as [Hc|[c Hc]]; by rewrite Hc in Hw.
    - apply cancelled_closing in H5; [|by rewrite Ha]. destruct Hq; congruence. }
  split; [|tauto]. clear Hq. intros Hb.
  assert (Hex : forall c, opener s = OInit c -> ~ works Reconnector s /\ ~ works Closer s).
  { intros c Hc. destruct (H3 c Hc) as [Hx Hy]. split; cbn; [intros [Hw|[c' Hw]]; by rewrite Hw in Hx|intros Hw; by rewrite Hw in Hy]. }
  assert (Hcl : works Closer s -> ~ works Reconnector s).
  { cbn. intros Hw. rewrite Hw in H4. specialize (H4 eq_refl). intros [Hx|[c Hx]]; by rewrite Hx in H4. }
  destruct a as [| | |t], b as [| | |t']; try done; exfalso.
  all: try (destruct Ha as [c Hc]; destruct (Hex c Hc); tauto).
  all: try (destruct Hb as [c Hc]; destruct (Hex c Hc); tauto).
  all: tauto.
Qed.

(** Nobody can make a step any more unless a handler or a user comes. *)
Definition settled (s : life) : Prop := forall a choice, goes max_reconnect_attempts a choice s = None.

Lemma settled_threads s : life_ok s -> settled s ->
  (opener s = ODone \/ opener s = OFreed) /\ reconnector s = RIdle /\ closer s = CIdle /\
  (forall w, pending (queue s) w = false) /\ (forall t, users_at s t = UOut).
Proof.
  intros [_ H2 _ _ _ _ _] Hs.
  pose proof (Hs Opener true) as Ho. pose proof (Hs Reconnector true) as Hr. pose proof (Hs Closer true) as Hc.
  cbn in *. unfold step_opener, step_reconnector, step_closer, init_lock, wait_init in *.
  assert (Hno : forall c, opener s <> OInit c).
  { intros c Hi. rewrite Hi in Ho. destruct c; try done. cbn in Ho. by rewrite orb_true_r in Ho. }
  assert (Hnr : forall c, reconnector s <> RInit c).
  { intros c Hi. rewrite Hi in Hr. destruct c; try done. cbn in Hr. by rewrite orb_true_r in Hr. }
  assert (Hm : init_mutex s = None).
  { rewrite H2. destruct (opener s), (reconnector s); try done; first [by edestruct Hno|by edestruct Hnr]. }
  rewrite Hm in *.
  assert (Hrec : reconnector s = RIdle /\ pending (queue s) ReconnectDwork = false).
  { destruct (reconnector s) as [| | | | | | | |c| |] eqn:Er; try done; [|by destruct (Hnr c)].
    by destruct (pending (queue s) ReconnectDwork). }
  destruct Hrec as [Er Ed]. rewrite Er in *.
  assert (Hclo : closer s = CIdle /\ pending (queue s) CloseWork = false).
  { destruct (closer s); try done. by destruct (pending (queue s) CloseWork). }
  destruct Hclo as [Ec Ep].
  split_and!; [|done|done|by intros []|].
  - unfold closed_down in Ho. rewrite Ec, Ep in Ho. destruct (opener s) as [|c| | | | | |]; try done; auto; by edestruct Hno.
  - intros t. pose proof (Hs (User t) true) as Hu. cbn in Hu. unfold step_user, closed_down, dwork_done in Hu.
    rewrite Ec, Ep, Er, Ed in Hu. by destruct (users_at s t).
Qed.

(** C14. A path never gets stuck.  When, in a state that a new path reaches, no
    thread and no work can go on without a new call from outside, then nothing
    is queued, every caller has returned, the path has been opened or given
    up, and it is connected, closed or dead: nobody has forgotten a path that
    is connecting, reconnecting or closing, however the steps interleaved. *)
Theorem path_never_stuck s0 s :
  new_path s0 -> reachable max_reconnect_attempts s0 s -> settled s ->
  (st s = RTRS_CLT_CONNECTED \/ st s = RTRS_CLT_CLOSED \/ st s = RTRS_CLT_DEAD) /\
  (opener s = ODone \/ opener s = OFreed) /\
  (forall w, pending (queue s) w = false) /\ forall t, users_at s t = UOut.
Proof.
  intros Hn Hr Hs. pose proof (reachable_ok max_reconnect_attempts s0 s Hn Hr) as Hok.
  destruct (settled_threads s Hok Hs) as (Ho & Er & Ec & Ep & Eu). split; [|done].
  destruct Hok as [_ _ _ _ Hclo Hg _]. unfold goes_on in Hg. rewrite Er in Hg.
  destruct (st s) eqn:Es; auto; exfalso.
  - destruct Hg as [Hg|Hg]; [|done]. by destruct Ho as [Ho|Ho]; rewrite Ho in Hg.
  - destruct Hg as [Hg|Hg]; [|done]. by destruct Ho as [Ho|Ho]; rewrite Ho in Hg.
  - destruct Hg as [Hg|[[t Ht]|Hg]]; [by rewrite Ep in Hg|by rewrite Eu in Ht|done].
  - destruct Hclo as [[_ [x Hx]]|[Hx _]]; [|done]. pose proof (proj2 (Hx x) eq_refl) as Hh.
    destruct x as [| |t| |]; cbn in Hh.
    + destruct Ho; congruence.
    + congruence.
    + destruct Hh as [a Ha]. by rewrite Eu in Ha.
    + by rewrite Ep in Hh.
    + done.
Qed.
End life.

(** ** The life of a path on examples: a work queue, the run that opens a
    path, and two runs in which a path is given up while work on it is still
    to come *)

#[export] Instance sample_workqueue : WorkQueue := {|
  workqueue := work -> bool;
  pending q w := q w;
  queue_work w q := <[w := true]> q;
  start_work w q := <[w := false]> q;
  cancel_work w q := <[w := false]> q;
|}.

#[export] Instance sample_workqueue_laws : WorkQueueLaws sample_workqueue.
Proof.
  split; cbn; intros w q w'; destruct (decide (w = w')) as [->|Hne].
  all: rewrite ?fn_lookup_insert, ?fn_lookup_insert_ne, ?bool_decide_eq_true_2, ?bool_decide_eq_false_2 by done; done.
Qed.

Definition fresh_life : life :=
  mkLife RTRS_CLT_CONNECTING (fun _ => false) None false 0 OStart RIdle CIdle (fun _ => UOut) false.
Lemma fresh_life_new : new_path fresh_life.
Proof. by split. Qed.

Fixpoint life_run (l : list life_act) (s : life) : option life :=
  match l with
  | [] => Some s
  | a :: l => match life_step 5 a s with Some s => life_run l s | None => None end
  end.
Definition after_run (l : list life_act) : life := default fresh_life (life_run l fresh_life).

Lemma life_run_reachable l : forall s0 s s', reachable 5 s0 s -> life_run l s = Some s' -> reachable 5 s0 s'.
Proof.
  induction l as [|a l IH]; cbn; intros s0 s s' Hr; [by intros [= <-]|].
  destruct (life_step 5 a s) as [s1|] eqn:Hs; [|done]. apply IH. by eapply re_step.
Qed.
Lemma after_run_reachable l : bool_decide (is_Some (life_run l fresh_life)) = true -> reachable 5 fresh_life (after_run l).
Proof.
  intros [s Hs]%bool_decide_eq_true. unfold after_run. rewrite Hs. eapply life_run_reachable; [apply re_start|exact Hs].
Qed.

Definition many (n : nat) (a : actor) : list life_act := replicate n (Goes a true).

(** The path is opened, and thread 1 hands over the answer of the server. *)
Definition opening_run : list life_act := many 3 Opener ++ [Calls 1 (Info true)] ++ many 1 (User 1) ++ many 4 Opener.

Lemma connections_exclusive_witness :
  works Opener (after_run (many 2 Opener)) /\ ~ works Closer (after_run (many 2 Opener)).
Proof.
  assert (Ho : works Opener (after_run (many 2 Opener))) by (exists SendInfo; vm_compute; reflexivity).
  split; [exact Ho|]. intros Hc.
  pose proof (connections_exclusive 5 fresh_life (after_run (many 2 Opener)) Opener Closer fresh_life_new
    (after_run_reachable (many 2 Opener) ltac:(vm_compute; reflexivity)) Ho) as [H _].
  discriminate (H Hc).
Defined.

Lemma opening_run_settled : settled 5 (after_run opening_run).
Proof.
  intros a choice. destruct a as [| | |t]; [vm_compute; reflexivity..|].
  destruct t as [|[|t]]; vm_compute; reflexivity.
Qed.

Lemma path_never_stuck_witness :
  opener (after_run opening_run) = ODone /\
  (st (after_run opening_run) = RTRS_CLT_CONNECTED \/ st (after_run opening_run) = RTRS_CLT_CLOSED \/
   st (after_run opening_run) = RTRS_CLT_DEAD).
Proof.
  split; [vm_compute; reflexivity|].
  exact (proj1 (path_never_stuck 5 fresh_life (after_run opening_run) fresh_life_new
    (after_run_reachable opening_run ltac:(vm_compute; reflexivity)) opening_run_settled)).
Defined.

(** Thread 1 is a handler that recovers from an error, thread 2 removes the
    path: the reconnect work is cancelled before thread 1 has queued it. *)
Definition late_reconnect : list life_act :=
  opening_run ++ [Calls 1 ErrorRecovery] ++ many 1 (User 1) ++ [Calls 2 Remove] ++ many 2 (User 2) ++ many 2 Closer ++
  many 1 (User 1) ++ many 3 Closer ++ many 2 (User 2).

(** The reconnect work can outlive its path.  [rtrs_clt_close_work]
    cancels it before the handlers that queue it are stopped: a handler that
    has seen the path fail, and queues the work only then, leaves it queued on
    a path that is dead and given up, although every thread has returned. *)
Lemma reconnect_work_outlives_path :
  exists s, life_run late_reconnect fresh_life = Some s /\ st s = RTRS_CLT_DEAD /\ freed s = true /\
  pending (queue s) ReconnectDwork = true /\ users_at s 1 = UOut /\ users_at s 2 = UOut.
Proof. eexists. split; [vm_compute; reflexivity|]. repeat split. Qed.

(** Thread 1 is the handler of a device's removal, while the path is opened:
    the thread that opens it finds it closing, and no close work to wait
    for. *)
Definition early_removal : list life_act :=
  many 2 Opener ++ [Calls 1 DeviceRemoval] ++ many 1 (User 1) ++ [Goes Opener false] ++ many 3 Opener ++ many 1 (User 1).

(** The close work can be queued on a path that is freed: a path that fails to
    open is given up while its connections are there and a handler is about
    to queue the work that closes them. *)
Lemma close_work_outlives_path :
  exists s, life_run early_removal fresh_life = Some s /\ freed s = true /\ conns s = true /\
  pending (queue s) CloseWork = true.
Proof. eexists. split; [vm_compute; reflexivity|]. repeat split. Qed.
