(* ===== verification/Uring.v ===== *)
(** * The rings of io_uring: [src/examples/io_uring.c]

    An application and the kernel share two rings.  The application puts
    submissions into one; the kernel puts completions into the other, and
    those that do not fit go to a list until there is room.  Positions in the
    rings are 32-bit counters that wrap around; a count of the completions
    decides when drained requests start and when timeouts fire.

    Functions run in one piece, as under the locks they hold.  [kmalloc_ok n]
    is whether the [n]th allocation of an overflow entry succeeds,
    [hrtimer_try_to_cancel] the kernel's function, on the number of a
    request.  What the functions ask of the rest of the kernel is a log. *)

From stdpp Require Import base numbers list.
From S2P Require Import Prelude StateMonad.
#[local] Open Scope store_scope.

(** ** Data *)

(** [struct io_uring_cqe]. *)
Record cqe := mkCqe { c_user_data : Z; c_res : Z; c_flags : Z }.
#[export] Instance cqe_inhabited : Inhabited cqe := populate (mkCqe 0 0 0).

(** A request, as far as completions, timeouts and draining see it:
    its number, [user_data], whether it has [REQ_F_CQE_SKIP] and
    [REQ_F_IO_DRAIN]. *)
Record req := mkReq { r_id : nat; r_user_data : Z; r_cqe_skip : bool; r_io_drain : bool }.

(** An entry of [timeout_list], and of [defer_list]. *)
Record timeout := mkTimeout { t_req : req; t_off : Z; t_target_seq : Z }.
Record defer_entry := mkDefer { de_req : req; de_seq : Z }.

(** What the rest of the kernel is asked to do. *)
Inductive kernel_request :=
| Wake | Eventfd
| Queue (r : req)                    (* io_req_task_queue *)
| Issue (r : req)                    (* io_issue_sqe *)
| Async (r : req)                    (* io_queue_async_work *)
| StartTimer (r : req)
| CompleteLater (r : req) (res : Z). (* io_req_task_work_add, with io_req_task_complete *)

(** [io_rings] and the parts of [io_ring_ctx] about them.  The last four
    fields are a history, which no function reads: completions handed to the
    ring, taken by the application, and dropped, and how many of the first did
    not complete a request. *)
Record uring := mkUring {
  cached_sq_head : Z;
  cached_cq_tail : Z;
  cq_extra : Z;
  cq_timeouts : Z;
  cq_last_tm_flush : Z;
  sq_head : Z;
  sq_tail : Z;
  cq_head : Z;
  cq_tail : Z;
  sq_dropped : Z;
  cq_overflow : Z;
  cqes : list cqe;
  sq_array : list Z;
  sq_cq_overflow : bool;             (* IORING_SQ_CQ_OVERFLOW in sq_flags *)
  check_cq_overflow : bool;
  cq_overflow_list : list cqe;
  timeout_list : list timeout;
  defer_list : list defer_entry;
  off_timeout_used : bool;
  drain_active : bool;
  allocs : nat;
  effects : list kernel_request;
  posted : list cqe;
  reaped : list cqe;
  lost : list cqe;
  extra_posted : nat;
}.
#[export] Instance uring_upd : Updatable uring :=
  (rd_pure mkUring <&> cached_sq_head <&> cached_cq_tail <&> cq_extra <&> cq_timeouts <&> cq_last_tm_flush
   <&> sq_head <&> sq_tail <&> cq_head <&> cq_tail <&> sq_dropped <&> cq_overflow <&> cqes <&> sq_array
   <&> sq_cq_overflow <&> check_cq_overflow <&> cq_overflow_list <&> timeout_list <&> defer_list
   <&> off_timeout_used <&> drain_active <&> allocs <&> effects <&> posted <&> reaped <&> lost <&> extra_posted)%upd.

Abbreviation U := (SM uring).

(** What is fixed when a ring is made, and the kernel's answers. *)
Class UringEnv := {
  sq_entries : Z;
  cq_entries : Z;
  has_evfd : bool;
  kmalloc_ok : nat -> bool;
  hrtimer_try_to_cancel : nat -> Z;
  ENOMEM : Z;
  ETIME : Z;
  ECANCELED : Z;
}.

Section uring.
Context `{E : UringEnv}.

Definition act (e : kernel_request) : U unit := mset (fun s => s <| effects ::= fun l => l ++ [e] |>).

(** ** Completions *)

Definition __io_cqring_events (s : uring) : Z := as_u32 (cached_cq_tail s - cq_head s).

(** The index of the next free entry, or [None]. *)
Definition io_get_cqe : U (option Z) := fun s =>
  if (__io_cqring_events s =? cq_entries)%Z then Ok (None, s)
  else Ok (Some (Z.land (cached_cq_tail s) (cq_entries - 1)), s <| cached_cq_tail := as_u32 (cached_cq_tail s + 1) |>).

(** A write through the pointer that [io_get_cqe] gives. *)
Definition write_cqe (i : Z) (c : cqe) : U unit := fun s =>
  if (0 <=? i)%Z && (i <? Z.of_nat (length (cqes s)))%Z then Ok (tt, s <| cqes ::= <[Z.to_nat i := c]> |>) else Panic.

(** [c] is the completion that is dropped. *)
Definition io_account_cq_overflow (c : cqe) : U unit :=
  mset (fun s => s <| cq_overflow := as_u32 (cq_overflow s + 1) |> <| cq_extra := as_u32 (cq_extra s - 1) |>
                   <| lost ::= fun l => l ++ [c] |>).

Definition io_cqring_event_overflow (c : cqe) : U bool :=
  do! n := mget allocs in
  mset (fun s => s <| allocs ::= S |>) ;;
  if negb (kmalloc_ok n) then io_account_cq_overflow c ;; mret false
  else
    do! l := mget cq_overflow_list in
    mwhen (match l with [] => true | _ => false end)
      (mset (fun s => s <| check_cq_overflow := true |> <| sq_cq_overflow := true |>)) ;;
    mset (fun s => s <| cq_overflow_list := l ++ [c] |>) ;;
    mret true.

Definition __io_fill_cqe (c : cqe) : U bool :=
  mset (fun s => s <| posted ::= fun l => l ++ [c] |>) ;;
  do! i := io_get_cqe in
  match i with
  | Some i => write_cqe i c ;; mret true
  | None => io_cqring_event_overflow c
  end.

Definition io_fill_cqe_req (r : req) (res flags : Z) : U unit :=
  if r_cqe_skip r then mskip
  else do! _ := __io_fill_cqe (mkCqe (r_user_data r) res flags) in mskip.

Definition io_fill_cqe_aux (user_data res flags : Z) : U bool :=
  mset (fun s => s <| cq_extra := as_u32 (cq_extra s + 1) |> <| extra_posted ::= S |>) ;;
  __io_fill_cqe (mkCqe user_data res flags).

Definition io_commit_cqring : U unit := mset (fun s => s <| cq_tail := cached_cq_tail s |>).

(** ** Timeouts and drained requests *)

Definition io_is_timeout_noseq (t : timeout) : bool := (t_off t =? 0)%Z.

(** Completions so far that are not those of timeouts. *)
Definition timeout_seq (s : uring) : Z := as_u32 (cached_cq_tail s - cq_timeouts s).

Definition list_del (r : req) : U unit :=
  mset (fun s => s <| timeout_list ::= List.filter (fun t => negb (r_id (t_req t) =? r_id r)) |>).

(** [req_set_fail] clears [REQ_F_CQE_SKIP]. *)
Definition req_set_fail (r : req) : req := mkReq (r_id r) (r_user_data r) false (r_io_drain r).

Definition io_kill_timeout (r : req) (status : Z) : U unit :=
  if (hrtimer_try_to_cancel (r_id r) =? -1)%Z then mskip
  else
    let r := if (status =? 0)%Z then r else req_set_fail r in
    mset (fun s => s <| cq_timeouts := as_u32 (cq_timeouts s + 1) |>) ;;
    list_del r ;;
    io_fill_cqe_req r status 0.

(** The loop of [io_flush_timeouts]. *)
Fixpoint flush_timeouts (seq last : Z) (l : list timeout) : U unit :=
  match l with
  | [] => mskip
  | t :: l =>
      if io_is_timeout_noseq t then mskip
      else
        let events_needed := as_u32 (t_target_seq t - last) in
        let events_got := as_u32 (seq - last) in
        if (events_got <? events_needed)%Z then mskip
        else io_kill_timeout (t_req t) 0 ;; flush_timeouts seq last l
  end.
Definition io_flush_timeouts : U unit :=
  do! seq := mget timeout_seq in
  do! last := mget cq_last_tm_flush in
  do! l := mget timeout_list in
  flush_timeouts seq last l ;;
  mset (fun s => s <| cq_last_tm_flush := seq |>).

Definition req_need_defer (r : req) (seq : Z) (s : uring) : bool :=
  r_io_drain r && negb (as_u32 (seq + cq_extra s) =? cached_cq_tail s)%Z.

Fixpoint queue_deferred (l : list defer_entry) : U unit :=
  match l with
  | [] => mskip
  | de :: l =>
      do! b := mget (req_need_defer (de_req de) (de_seq de)) in
      if b then mskip
      else mset (fun s => s <| defer_list := l |>) ;; act (Queue (de_req de)) ;; queue_deferred l
  end.
Definition io_queue_deferred : U unit := do! l := mget defer_list in queue_deferred l.

(** The application has not disabled the event descriptor. *)
Definition __io_commit_cqring_flush : U unit :=
  do! timeouts := mget off_timeout_used in
  do! drain := mget drain_active in
  mwhen (timeouts || drain) (mwhen timeouts io_flush_timeouts ;; mwhen drain io_queue_deferred ;; io_commit_cqring) ;;
  mwhen has_evfd (act Eventfd).

Definition io_cqring_ev_posted : U unit :=
  do! timeouts := mget off_timeout_used in
  do! drain := mget drain_active in
  mwhen (timeouts || drain || has_evfd) __io_commit_cqring_flush ;;
  act Wake.

(** ** The overflow list *)

(** The loop of the flush; whether it has posted something. *)
Fixpoint flush_loop (force : bool) (l : list cqe) (posted : bool) : U bool :=
  match l with
  | [] => mret posted
  | c :: l =>
      do! i := io_get_cqe in
      match i with
      | None =>
          if force then io_account_cq_overflow c ;; mset (fun s => s <| cq_overflow_list := l |>) ;; flush_loop force l true
          else mret posted
      | Some i => write_cqe i c ;; mset (fun s => s <| cq_overflow_list := l |>) ;; flush_loop force l true
      end
  end.

Definition __io_cqring_overflow_flush (force : bool) : U bool :=
  do! full := mget (fun s => __io_cqring_events s =? cq_entries)%Z in
  if negb force && full then mret false
  else
    do! l := mget cq_overflow_list in
    do! posted := flush_loop force l false in
    do! all_flushed := mget (fun s => match cq_overflow_list s with [] => true | _ => false end) in
    mwhen all_flushed (mset (fun s => s <| check_cq_overflow := false |> <| sq_cq_overflow := false |>)) ;;
    mwhen posted io_commit_cqring ;;
    mwhen posted io_cqring_ev_posted ;;
    mret all_flushed.

Definition io_cqring_overflow_flush : U bool :=
  do! b := mget check_cq_overflow in
  if b then __io_cqring_overflow_flush false else mret true.

(** ** Posting *)

(** [io_req_complete_post] of a request without links. *)
Definition io_req_complete_post (r : req) (res flags : Z) : U unit :=
  io_fill_cqe_req r res flags ;; io_commit_cqring ;; io_cqring_ev_posted.

(** [io_msg_ring], on the ring it sends to: 0, or [-EOVERFLOW]. *)
Definition io_msg_ring_post (user_data len : Z) : U bool :=
  do! filled := io_fill_cqe_aux user_data len 0 in
  io_commit_cqring ;;
  mwhen filled io_cqring_ev_posted ;;
  mret filled.

(** ** Requests that wait *)

(** The loop of [io_timeout], from the end of the list, which is given in
    reverse. *)
Fixpoint insert_timeout (t : timeout) (off tail : Z) (l : list timeout) : list timeout :=
  match l with
  | [] => [t]
  | nxt :: l =>
      if io_is_timeout_noseq nxt then nxt :: insert_timeout t off tail l
      else if (as_u32 (t_target_seq nxt - tail) <=? off)%Z then t :: nxt :: l
      else nxt :: insert_timeout t off tail l
  end.

(** [off] is [req->timeout.off], which [io_timeout_prep] sets, with
    [off_timeout_used]. *)
Definition io_timeout (r : req) (off : Z) : U unit :=
  (if (off =? 0)%Z then mset (fun s => s <| timeout_list ::= fun l => l ++ [mkTimeout r off 0] |>)
   else
     mset (fun s => s <| off_timeout_used := true |>) ;;
     do! tail := mget timeout_seq in
     mset (fun s => s <| cq_last_tm_flush := tail |>) ;;
     let t := mkTimeout r off (as_u32 (tail + off)) in
     mset (fun s => s <| timeout_list ::= fun l => rev (insert_timeout t off tail (rev l)) |>)) ;;
  act (StartTimer r).

(** The timer of a request expires; [success] is its flag
    [IORING_TIMEOUT_ETIME_SUCCESS]. *)
Definition io_timeout_fn (r : req) (success : bool) : U unit :=
  list_del r ;;
  mset (fun s => s <| cq_timeouts := as_u32 (cq_timeouts s + 1) |>) ;;
  act (CompleteLater (if success then r else req_set_fail r) (- ETIME)).

(** [io_timeout_extract] and [io_timeout_cancel]: by [user_data]; the result
    is the request, or [None] if there is none or its timer runs. *)
Definition io_timeout_extract (user_data : Z) : U (option req) :=
  do! l := mget timeout_list in
  match List.find (fun t => (r_user_data (t_req t) =? user_data)%Z) l with
  | None => mret None
  | Some t =>
      if (hrtimer_try_to_cancel (r_id (t_req t)) =? -1)%Z then mret None
      else list_del (t_req t) ;; mret (Some (t_req t))
  end.

(** [io_req_complete_failed] of a request without links and without a
    selected buffer. *)
Definition io_req_complete_failed (r : req) (res : Z) : U unit := io_req_complete_post (req_set_fail r) res 0.

(** [failed] is [io_req_complete_failed] of the request, and [seq] is
    [io_get_sequence]; [prep] is the result of [io_req_prep_async], and
    [alloc] whether there is memory for the entry. *)
Definition io_drain_req (failed : Z -> U unit) (r : req) (seq prep : Z) (alloc : bool) : U unit :=
  let queue := mset (fun s => s <| drain_active := false |>) ;; act (Queue r) in
  do! ready := mget (fun s => negb (req_need_defer r seq s) && match defer_list s with [] => true | _ => false end) in
  if ready then queue
  else if negb (prep =? 0)%Z then failed prep
  else if negb alloc then failed (- ENOMEM)%Z
  else
    do! ready := mget (fun s => negb (req_need_defer r seq s) && match defer_list s with [] => true | _ => false end) in
    if ready then queue
    else mset (fun s => s <| defer_list ::= fun l => l ++ [mkDefer r seq] |>).

(** [io_kill_timeouts]; [matches] is [io_match_task]. *)
Fixpoint kill_timeouts (matches : req -> bool) (status : Z) (l : list timeout) : U unit :=
  match l with
  | [] => mskip
  | t :: l => mwhen (matches (t_req t)) (io_kill_timeout (t_req t) status) ;; kill_timeouts matches status l
  end.
Definition io_kill_timeouts (matches : req -> bool) : U bool :=
  do! l := mget timeout_list in
  kill_timeouts matches (- ECANCELED) l ;;
  let canceled := existsb (fun t => matches (t_req t)) l in
  mwhen canceled io_commit_cqring ;;
  mwhen canceled io_cqring_ev_posted ;;
  mret canceled.

(** ** Submissions *)

Definition io_sqring_entries (s : uring) : Z := as_u32 (sq_tail s - cached_sq_head s).
Definition io_sqring_full (s : uring) : bool := (as_u32 (sq_tail s - cached_sq_head s) =? sq_entries)%Z.

(** The number of the next submission entry, or [None] if the application
    wrote an invalid one. *)
Definition io_get_sqe : U (option Z) := fun s =>
  let sq_idx := Z.land (cached_sq_head s) (sq_entries - 1) in
  let s := s <| cached_sq_head := as_u32 (cached_sq_head s + 1) |> in
  match sq_array s !! Z.to_nat sq_idx with
  | None => Panic
  | Some head =>
      if (head <? sq_entries)%Z then Ok (Some head, s)
      else Ok (None, s <| cq_extra := as_u32 (cq_extra s - 1) |> <| sq_dropped := as_u32 (sq_dropped s + 1) |>)
  end.
Definition io_commit_sqring : U unit := mset (fun s => s <| sq_head := cached_sq_head s |>).

(** ** Waiting *)

Definition s32 (x : Z) : Z := let x := as_u32 x in if (x <? 2 ^ 31)%Z then x else (x - 2 ^ 32)%Z.

(** [iowq->cq_tail] and [iowq->nr_timeouts]. *)
Definition io_should_wake (iowq_cq_tail iowq_nr_timeouts : Z) (s : uring) : bool :=
  (0 <=? s32 (cached_cq_tail s - iowq_cq_tail))%Z || negb (cq_timeouts s =? iowq_nr_timeouts)%Z.

(** ** The application

    It takes a completion that is published, and publishes a submission if
    there is room, as the memory of the rings documents. *)
Definition app_reap : U (option cqe) := fun s =>
  if (cq_head s =? cq_tail s)%Z then Ok (None, s)
  else
    match cqes s !! Z.to_nat (Z.land (cq_head s) (cq_entries - 1)) with
    | Some c => Ok (Some c, s <| cq_head := as_u32 (cq_head s + 1) |> <| reaped ::= fun l => l ++ [c] |>)
    | None => Panic
    end.
Definition app_submit (i : Z) : U bool := fun s =>
  if (as_u32 (sq_tail s - sq_head s) =? sq_entries)%Z then Ok (false, s)
  else Ok (true, s <| sq_array ::= <[Z.to_nat (Z.land (sq_tail s) (sq_entries - 1)) := i]> |>
                   <| sq_tail := as_u32 (sq_tail s + 1) |>).
End uring.
