(* ===== verification/UringRing.v ===== *)
(** * The completion ring of io_uring: no completion is lost unseen

    A completion that is posted is in exactly one place: taken by the
    application, in the ring, in the overflow list, or counted as dropped.
    The ring is first in, first out, and its positions wrap around at any
    number of completions. *)

From stdpp Require Import base numbers list.
From S2P Require Import Prelude StateMonad Uring.
#[local] Open Scope store_scope.

Create HintDb keeps.

Section ring.
Context `{E : UringEnv}.

(** Rings have a power of two of entries. *)
Class UringLaws : Prop := {
  cq_pow2 : exists k, (0 <= k < 32)%Z /\ cq_entries = (2 ^ k)%Z;
  sq_pow2 : exists k, (0 <= k < 32)%Z /\ sq_entries = (2 ^ k)%Z;
}.
Context `{L : !UringLaws}.
Implicit Types (s : uring) (c : cqe).

Lemma wp_unit (m : U unit) (Q : uring -> Prop) s : wp m (fun _ => Q) s -> exists s', m s = Ok (tt, s') /\ Q s'.
Proof. intros ([] & s' & Hr & H). by exists s'. Qed.

(** ** Positions *)

Definition idx (x : Z) : Z := Z.land x (cq_entries - 1).

Lemma idx_mod x : idx x = (x mod cq_entries)%Z.
Proof.
  destruct cq_pow2 as (k & Hk & He). unfold idx. rewrite He, <- Z.land_ones, Z.ones_equiv by lia. by rewrite Z.sub_1_r.
Qed.
Lemma entries_pos : (0 < cq_entries < 2 ^ 32)%Z.
Proof.
  destruct cq_pow2 as (k & Hk & ->). split; [apply Z.pow_pos_nonneg; lia|apply Z.pow_lt_mono_r; lia].
Qed.
Lemma idx_range x : (0 <= idx x < cq_entries)%Z.
Proof. rewrite idx_mod. apply Z.mod_pos_bound, entries_pos. Qed.
Lemma idx_u32 x : idx (as_u32 x) = idx x.
Proof.
  rewrite !idx_mod. unfold as_u32. destruct cq_pow2 as (k & Hk & He). rewrite He.
  symmetry. apply Znumtheory.Zmod_div_mod; [apply Z.pow_pos_nonneg; lia|lia|].
  exists (2 ^ (32 - k))%Z. rewrite <- Z.pow_add_r by lia. f_equal. lia.
Qed.
Lemma idx_inj x i j : (0 <= i < j)%Z -> (j <= cq_entries)%Z -> j <> (i + cq_entries)%Z -> idx (x + i) <> idx (x + j).
Proof.
  intros Hi Hj Hne. rewrite !idx_mod. pose proof entries_pos as He. intros H.
  assert (((x + j) - (x + i)) mod cq_entries = 0)%Z as Hz by (rewrite Zminus_mod, H, Z.sub_diag; by apply Z.mod_0_l; lia).
  apply Z.mod_divide in Hz as [q Hq]; [|lia]. assert (q = 1 \/ q <= 0 \/ 2 <= q)%Z as [->|[?|?]] by lia; nia.
Qed.

Lemma as_u32_range x : (0 <= as_u32 x < 2 ^ 32)%Z.
Proof. apply Z.mod_pos_bound. lia. Qed.
Lemma as_u32_small x : (0 <= x < 2 ^ 32)%Z -> as_u32 x = x.
Proof. apply Z.mod_small. Qed.
Lemma as_u32_add x y : as_u32 (as_u32 x + y) = as_u32 (x + y).
Proof. unfold as_u32. by rewrite Zplus_mod_idemp_l. Qed.
Lemma as_u32_sub_l x y : as_u32 (as_u32 x - y) = as_u32 (x - y).
Proof. unfold as_u32. by rewrite Zminus_mod_idemp_l. Qed.
Lemma as_u32_sub_r x y : as_u32 (x - as_u32 y) = as_u32 (x - y).
Proof. unfold as_u32. by rewrite Zminus_mod_idemp_r. Qed.

Lemma idx_add_u32 x y : idx (as_u32 x + y) = idx (x + y).
Proof. by rewrite <- idx_u32, as_u32_add, idx_u32. Qed.

(** ** What is in the ring *)

Definition at_pos (l : list cqe) (x : Z) : cqe := l !!! Z.to_nat (idx x).
Definition ring_from (l : list cqe) (head : Z) (n : nat) : list cqe :=
  (fun i => at_pos l (head + Z.of_nat i)) <$> seq 0 n.
Definition ring s : list cqe := ring_from (cqes s) (cq_head s) (Z.to_nat (__io_cqring_events s)).

Lemma ring_from_S l head n : ring_from l head (S n) = ring_from l head n ++ [at_pos l (head + Z.of_nat n)].
Proof. unfold ring_from. by rewrite seq_S, fmap_app. Qed.
Lemma ring_from_cons l head n : ring_from l head (S n) = at_pos l head :: ring_from l (head + 1) n.
Proof.
  unfold ring_from. cbn [seq fmap list_fmap]. rewrite Z.add_0_r. f_equal. rewrite <- seq_shift, <- list_fmap_compose.
  apply list_fmap_ext. intros _ i _. cbn. f_equal. lia.
Qed.
Lemma ring_from_u32 l head n : ring_from l (as_u32 head) n = ring_from l head n.
Proof. apply list_fmap_ext. intros _ i _. unfold at_pos. by rewrite idx_add_u32. Qed.
Lemma ring_from_insert l head n c : (Z.of_nat n < cq_entries)%Z -> Z.of_nat (length l) = cq_entries ->
  ring_from (<[Z.to_nat (idx (head + Z.of_nat n)) := c]> l) head (S n) = ring_from l head n ++ [c].
Proof.
  intros Hn Hl. rewrite ring_from_S. pose proof (idx_range (head + Z.of_nat n)) as Hr. f_equal.
  - apply list_fmap_ext. intros j i Hi. apply lookup_seq in Hi as [-> Hi]. cbn. unfold at_pos.
    apply list_lookup_total_insert_ne. pose proof (idx_range (head + Z.of_nat j)).
    pose proof (idx_inj head (Z.of_nat j) (Z.of_nat n)). lia.
  - unfold at_pos. f_equal. apply list_lookup_total_insert_eq. lia.
Qed.

(** The ring and the counters. *)
Record core s : Prop := {
  k_len : Z.of_nat (length (cqes s)) = cq_entries;
  k_sq : Z.of_nat (length (sq_array s)) = sq_entries;
  k_head : (0 <= cq_head s < 2 ^ 32)%Z;
  k_cq_tail : (0 <= cq_tail s < 2 ^ 32)%Z;
  k_events : (__io_cqring_events s <= cq_entries)%Z;
  k_published : (as_u32 (cq_tail s - cq_head s) <= __io_cqring_events s)%Z;
  k_overflow : cq_overflow s = as_u32 (Z.of_nat (length (lost s)));
  k_all : reaped s ++ ring s ++ cq_overflow_list s ++ lost s ≡ₚ posted s;
  k_tail : cached_cq_tail s = as_u32 (Z.of_nat (length (reaped s) + length (ring s)));
  k_extra : cq_extra s = as_u32 (Z.of_nat (extra_posted s) - Z.of_nat (length (lost s)) - sq_dropped s);
}.
Definition nonempty {A} (l : list A) : bool := match l with [] => false | _ => true end.
Definition flags_ok s : Prop :=
  check_cq_overflow s = nonempty (cq_overflow_list s) /\ sq_cq_overflow s = nonempty (cq_overflow_list s).
Definition ring_ok s : Prop := core s /\ flags_ok s.

(** What is not about the completion ring. *)
Record same_ring s s' : Prop := {
  e_cqes : cqes s' = cqes s;
  e_head : cq_head s' = cq_head s;
  e_tail : cq_tail s' = cq_tail s \/ cq_tail s' = cached_cq_tail s;
  e_cached : cached_cq_tail s' = cached_cq_tail s;
  e_overflow : cq_overflow s' = cq_overflow s;
  e_list : cq_overflow_list s' = cq_overflow_list s;
  e_check : check_cq_overflow s' = check_cq_overflow s;
  e_flag : sq_cq_overflow s' = sq_cq_overflow s;
  e_posted : posted s' = posted s;
  e_reaped : reaped s' = reaped s;
  e_lost : lost s' = lost s;
  e_extra : as_u32 (cq_extra s' + sq_dropped s' - Z.of_nat (extra_posted s')) = as_u32 (cq_extra s + sq_dropped s - Z.of_nat (extra_posted s));
  e_u32 : cq_extra s = as_u32 (cq_extra s) -> cq_extra s' = as_u32 (cq_extra s');
  e_sq : length (sq_array s') = length (sq_array s);
}.

Lemma ring_same s s' : cqes s' = cqes s -> cq_head s' = cq_head s -> cached_cq_tail s' = cached_cq_tail s ->
  ring s' = ring s /\ __io_cqring_events s' = __io_cqring_events s.
Proof. intros H1 H2 H3. unfold ring, __io_cqring_events. by rewrite H1, H2, H3. Qed.

Lemma core_same s s' : core s -> same_ring s s' -> core s'.
Proof.
  intros [H1 Hsq H2 Hct H3 H4 H5 H6 H7 H8] [G1 G2 G3 G4 G5 G6 G7 G8 G9 G10 G11 G12 G13 G14].
  destruct (ring_same s s' G1 G2 G4) as [Hr He]. split; rewrite ?G1, ?G2, ?G4, ?G5, ?G6, ?G9, ?G10, ?G11, ?G14, ?Hr, ?He; try done.
  - destruct G3 as [->| ->]; [done|]. rewrite H7. apply as_u32_range.
  - destruct G3 as [->| ->]; [done|]. unfold __io_cqring_events. lia.
  - rewrite G13 by (rewrite H8; symmetry; apply as_u32_small, as_u32_range). rewrite H8 in G12. unfold as_u32 in *.
    replace (cq_extra s') with ((cq_extra s' + sq_dropped s' - Z.of_nat (extra_posted s')) + (Z.of_nat (extra_posted s') - sq_dropped s'))%Z by lia.
    rewrite <- Zplus_mod_idemp_l, G12, Zplus_mod_idemp_l.
    replace ((_ - _ - sq_dropped s) mod 2 ^ 32 + sq_dropped s - Z.of_nat (extra_posted s) + (Z.of_nat (extra_posted s') - sq_dropped s'))%Z
      with ((Z.of_nat (extra_posted s) - Z.of_nat (length (lost s)) - sq_dropped s) mod 2 ^ 32 +
            (sq_dropped s - Z.of_nat (extra_posted s) + (Z.of_nat (extra_posted s') - sq_dropped s')))%Z by lia.
    rewrite Zplus_mod_idemp_l. f_equal. lia.
Qed.
Lemma ring_ok_same s s' : ring_ok s -> same_ring s s' -> ring_ok s'.
Proof. intros [Hc Hf] H. split; [by eapply core_same|]. destruct H as [_ _ _ _ _ G6 G7 G8 _ _ _ _ _ _]. unfold flags_ok. by rewrite G6, G7, G8. Qed.

(** ** A free entry *)

Definition put c s : uring :=
  s <| cached_cq_tail := as_u32 (cached_cq_tail s + 1) |> <| cqes ::= <[Z.to_nat (idx (cached_cq_tail s)) := c]> |>.

Lemma put_ring c s : core s -> (__io_cqring_events s < cq_entries)%Z ->
  __io_cqring_events (put c s) = (__io_cqring_events s + 1)%Z /\ ring (put c s) = ring s ++ [c].
Proof.
  intros [H1 Hsq H2 Hct H3 H4 H5 H6 H7 H8] Hlt. pose proof entries_pos as He.
  assert (Hev : __io_cqring_events (put c s) = (__io_cqring_events s + 1)%Z).
  { unfold __io_cqring_events in *. cbn. rewrite as_u32_sub_l.
    replace (cached_cq_tail s + 1 - cq_head s)%Z with ((cached_cq_tail s - cq_head s) + 1)%Z by lia.
    rewrite <- as_u32_add, as_u32_small by (pose proof (as_u32_range (cached_cq_tail s - cq_head s)); lia). done. }
  split; [done|]. unfold ring. rewrite Hev. cbn.
  pose proof (as_u32_range (cached_cq_tail s - cq_head s)) as Hrg. fold (__io_cqring_events s) in Hrg.
  replace (Z.to_nat (__io_cqring_events s + 1)) with (S (Z.to_nat (__io_cqring_events s))) by lia.
  rewrite <- ring_from_insert by lia. do 3 f_equal. rewrite Z2Nat.id by lia.
  unfold __io_cqring_events. rewrite Z.add_comm, idx_add_u32. f_equal. lia.
Qed.

Lemma get_cqe_full s : __io_cqring_events s = cq_entries -> io_get_cqe s = Ok (None, s).
Proof. intros H. unfold io_get_cqe. by rewrite H, Z.eqb_refl. Qed.
Lemma get_and_write c s : Z.of_nat (length (cqes s)) = cq_entries -> __io_cqring_events s <> cq_entries ->
  exists i s1, io_get_cqe s = Ok (Some i, s1) /\ write_cqe i c s1 = Ok (tt, put c s).
Proof.
  intros Hl Hn. unfold io_get_cqe. rewrite (proj2 (Z.eqb_neq _ _) Hn). eexists _, _. split; [done|].
  fold (idx (cached_cq_tail s)). pose proof (idx_range (cached_cq_tail s)). unfold write_cqe. cbn.
  rewrite Hl, (proj2 (Z.leb_le _ _)), (proj2 (Z.ltb_lt _ _)) by lia. done.
Qed.

(** ** Posting a completion *)

(** What posting leaves: the completion is the last in the ring, or the last
    in the list, or dropped and counted. *)
Inductive outcome c s : bool -> uring -> Prop :=
| in_ring s' : (__io_cqring_events s < cq_entries)%Z -> ring s' = ring s ++ [c] ->
    cq_overflow_list s' = cq_overflow_list s -> lost s' = lost s ->
    cached_cq_tail s' = as_u32 (cached_cq_tail s + 1) -> outcome c s true s'
| in_list s' : __io_cqring_events s = cq_entries -> kmalloc_ok (allocs s) = true -> ring s' = ring s ->
    cq_overflow_list s' = cq_overflow_list s ++ [c] -> lost s' = lost s -> cached_cq_tail s' = cached_cq_tail s -> outcome c s true s'
| dropped s' : __io_cqring_events s = cq_entries -> kmalloc_ok (allocs s) = false -> ring s' = ring s ->
    cq_overflow_list s' = cq_overflow_list s -> lost s' = lost s ++ [c] -> cached_cq_tail s' = cached_cq_tail s -> outcome c s false s'.

(** The application's side, the submission ring and the waiting requests are
    left alone. *)
Record same_rest s s' : Prop := {
  sr_array : sq_array s' = sq_array s;
  sr_sq_head : sq_head s' = sq_head s;
  sr_sq_tail : sq_tail s' = sq_tail s;
  sr_sq_cached : cached_sq_head s' = cached_sq_head s;
  sr_history : extra_posted s' = extra_posted s;
  sr_head : cq_head s' = cq_head s;
  sr_tail : cq_tail s' = cq_tail s;
  sr_reaped : reaped s' = reaped s;
  sr_timeouts : cq_timeouts s' = cq_timeouts s;
  sr_last : cq_last_tm_flush s' = cq_last_tm_flush s;
  sr_timeout_list : timeout_list s' = timeout_list s;
  sr_defer : defer_list s' = defer_list s;
  sr_dropped : sq_dropped s' = sq_dropped s;
  sr_effects : effects s' = effects s;
  sr_off : off_timeout_used s' = off_timeout_used s;
  sr_drain : drain_active s' = drain_active s;
}.

Lemma wp_fill_cqe c s : ring_ok s ->
  wp (__io_fill_cqe c) (fun b s' => ring_ok s' /\ outcome c s b s' /\ same_rest s s' /\ posted s' = posted s ++ [c]) s.
Proof.
  intros [Hc Hf]. pose proof Hc as [H1 Hsq H2 Hct H3 H4 H5 H6 H7 H8]. unfold __io_fill_cqe. apply wp_bind, wp_set, wp_bind. cbn.
  set (s0 := s <| posted ::= fun l => l ++ [c] |>). destruct (Z.eq_dec (__io_cqring_events s) cq_entries) as [He|He].
  - exists None, s0. split; [by apply get_cqe_full|]. unfold io_cqring_event_overflow.
    apply wp_bind, wp_get, wp_bind, wp_set. cbn. destruct (kmalloc_ok (allocs s)) eqn:Hk; cbn.
    + apply wp_bind, wp_get, wp_bind. cbn. 
      assert (Hw : wp (mwhen (match cq_overflow_list s with [] => true | _ => false end)
        (mset (fun s => s <| check_cq_overflow := true |> <| sq_cq_overflow := true |>)))
        (fun _ s1 => s1 = s0 <| allocs ::= S |> <| check_cq_overflow := true |> <| sq_cq_overflow := true |>) (s0 <| allocs ::= S |>)).
      { destruct Hf as [Hf1 Hf2]. destruct (cq_overflow_list s) eqn:Hl; [by apply wp_set|]. apply wp_skip.
        unfold s0. destruct s; cbn in *. by rewrite Hf1, Hf2. }
      eapply wp_mono; [exact Hw|]. cbn. intros _ s1 ->. apply wp_bind, wp_set, wp_ret. split_and!; [split|by constructor|done|done].
      * split; try done. cbn. rewrite <- H6. change (ring _) with (ring s). by rewrite <- !app_assoc, (Permutation_app_comm (lost s)), !app_assoc.
      * unfold flags_ok. cbn. by destruct (cq_overflow_list s).
    + apply wp_bind, wp_set, wp_ret. split_and!; [split|by constructor|done|done].
      * split; try done; cbn.
        -- rewrite H5, as_u32_add, length_app. cbn. f_equal. lia.
        -- rewrite <- H6. change (ring _) with (ring s). by rewrite !app_assoc.
        -- rewrite H8, as_u32_sub_l, length_app. cbn. f_equal. lia.
      * exact Hf.
  - destruct (get_and_write c s0 H1 He) as (i & s1 & Hg & Hw). exists (Some i), s1. split; [exact Hg|].
    apply wp_bind. exists tt, (put c s0). split; [exact Hw|]. apply wp_ret.
    destruct (put_ring c s Hc ltac:(lia)) as [Hev Hr]. change (ring (put c s)) with (ring (put c s0)) in Hr.
    change (__io_cqring_events (put c s)) with (__io_cqring_events (put c s0)) in Hev.
    split_and!; [split|constructor; try done; lia|done|done].
    + split; rewrite ?Hev, ?Hr; try done; cbn.
      * by rewrite length_insert.
      * lia.
      * lia.
      * rewrite <- H6, <- !app_assoc. do 2 f_equiv. by rewrite (Permutation_app_comm [c]), !app_assoc.
      * rewrite H7, as_u32_add, length_app. cbn. f_equal. lia.
    + exact Hf.
Qed.

(** ** Flushing the overflow list *)

Definition free s : nat := Z.to_nat (cq_entries - __io_cqring_events s).

Lemma core_flushed c l s : core s -> cq_overflow_list s = c :: l -> (__io_cqring_events s < cq_entries)%Z ->
  core (put c s <| cq_overflow_list := l |>).
Proof.
  intros Hc Hl Hlt. destruct (put_ring c s Hc Hlt) as [Hev Hr]. destruct Hc as [H1 Hsq H2 Hct H3 H4 H5 H6 H7 H8].
  change (__io_cqring_events (put c s)) with (__io_cqring_events (put c s <| cq_overflow_list := l |>)) in Hev.
  change (ring (put c s)) with (ring (put c s <| cq_overflow_list := l |>)) in Hr.
  split; rewrite ?Hev, ?Hr; try done; cbn.
  - by rewrite length_insert.
  - lia.
  - lia.
  - rewrite <- H6, Hl, <- !app_assoc. done.
  - rewrite H7, as_u32_add, length_app. cbn. f_equal. lia.
Qed.
Lemma core_dropped c l s : core s -> cq_overflow_list s = c :: l ->
  core (s <| cq_overflow := as_u32 (cq_overflow s + 1) |> <| cq_extra := as_u32 (cq_extra s - 1) |>
          <| lost ::= fun l => l ++ [c] |> <| cq_overflow_list := l |>).
Proof.
  intros [H1 Hsq H2 Hct H3 H4 H5 H6 H7 H8] Hl. split; try done; cbn.
  - rewrite H5, as_u32_add, length_app. cbn. f_equal. lia.
  - rewrite <- H6, Hl. change (ring _) with (ring s). do 2 f_equiv. rewrite (app_assoc l), <- Permutation_cons_append. done.
  - rewrite H8, as_u32_sub_l, length_app. cbn. f_equal. lia.
Qed.

(** What the loop leaves. *)
Record flushed (force : bool) (l : list cqe) s s' : Prop := {
  fl_ring : ring s' = ring s ++ take (free s) l;
  fl_list : cq_overflow_list s' = if force then [] else drop (free s) l;
  fl_lost : lost s' = lost s ++ (if force then drop (free s) l else []);
  fl_posted : posted s' = posted s;
  fl_rest : same_rest s s';
  fl_check : check_cq_overflow s' = check_cq_overflow s;
  fl_flag : sq_cq_overflow s' = sq_cq_overflow s;
}.

Lemma wp_flush_loop force l : forall s p, core s -> cq_overflow_list s = l ->
  wp (flush_loop force l p) (fun p' s' => core s' /\ flushed force l s s' /\ (p' = false -> p = false /\ (free s = 0 \/ l = []))) s.
Proof.
  induction l as [|c l IH]; intros s p Hc Hl; cbn [flush_loop].
  { apply wp_ret. split_and!; [done| |by auto]. split; rewrite ?take_nil, ?drop_nil, ?app_nil_r; try done; by destruct force; rewrite ?app_nil_r. }
  apply wp_bind. destruct (Z.eq_dec (__io_cqring_events s) cq_entries) as [He|He].
  - exists None, s. split; [by apply get_cqe_full|]. assert (Hfr : free s = 0) by (unfold free; lia). destruct force.
    + apply wp_bind, wp_set, wp_bind, wp_set. eapply wp_mono; [apply IH; [by apply core_dropped|done]|].
      intros p' s' (Hc' & [F1 F2 F3 F4 F5 F6 F7] & Hp'). split; [done|]. split; [|by intros Hf; destruct (Hp' Hf)].
      change (free (s <| cq_overflow := as_u32 (cq_overflow s + 1) |> <| cq_extra := as_u32 (cq_extra s - 1) |>
          <| lost ::= fun l => l ++ [c] |> <| cq_overflow_list := l |>)) with (free s) in *.
      split; rewrite ?Hfr in *; try done; [by rewrite F3; cbn; rewrite <- app_assoc|by destruct F5; split].
    + apply wp_ret. split_and!; [done| |by auto]. split; rewrite ?Hfr; cbn; rewrite ?app_nil_r; try done.
  - destruct (get_and_write c s (k_len _ Hc) He) as (i & s1 & Hg & Hw). exists (Some i), s1. split; [exact Hg|].
    apply wp_bind. exists tt, (put c s). split; [exact Hw|]. apply wp_bind, wp_set.
    pose proof (k_events _ Hc) as Hle. destruct (put_ring c s Hc ltac:(lia)) as [Hev Hr].
    eapply wp_mono; [apply IH; [apply core_flushed; [done|done|lia]|done]|].
    intros p' s' (Hc' & [F1 F2 F3 F4 F5 F6 F7] & Hp'). split; [done|]. split; [|by intros Hf; destruct (Hp' Hf)].
    assert (Hfr : free s = S (free (put c s))) by (unfold free; rewrite Hev; lia).
    change (free (put c s <| cq_overflow_list := l |>)) with (free (put c s)) in *.
    change (ring (put c s <| cq_overflow_list := l |>)) with (ring (put c s)) in F1.
    split; rewrite ?Hfr; cbn; try done; [by rewrite F1, Hr, <- app_assoc|by destruct F5; split].
Qed.

(** ** Every operation keeps the ring in order *)

(** [forced]: the list may be flushed by force, when the ring is torn down. *)
Definition in_order (forced : bool) s : Prop :=
  ring_ok s /\ ((forall n, kmalloc_ok n = true) -> forced = false -> lost s = []).
Definition keeps (forced : bool) {A} (m : U A) : Prop :=
  forall s, in_order forced s -> wp m (fun _ s' => in_order forced s') s.

Section keeps.
Context (forced : bool).

Lemma keeps_bind {A B} (m : U A) (k : A -> U B) : keeps forced m -> (forall a, keeps forced (k a)) -> keeps forced (mbind_ m k).
Proof. intros Hm Hk s Hs. apply wp_bind. eapply wp_mono; [by apply Hm|]. intros a s' Hs'. by apply Hk. Qed.
Lemma keeps_get {A} (f : uring -> A) : keeps forced (mget f).
Proof. intros s Hs. by apply wp_get. Qed.
Lemma keeps_ret {A} (a : A) : keeps forced (mret a).
Proof. intros s Hs. by apply wp_ret. Qed.
Lemma keeps_skip : keeps forced mskip.
Proof. intros s Hs. by apply wp_skip. Qed.
Lemma keeps_set f : (forall s, same_ring s (f s)) -> keeps forced (mset f).
Proof.
  intros H s [Hr Hl]. apply wp_set. split; [by eapply ring_ok_same|]. intros Hk Hf. rewrite (e_lost _ _ (H s)). by apply Hl.
Qed.
Lemma keeps_when b m : keeps forced m -> keeps forced (mwhen b m).
Proof. destruct b; [done|]. intros _. apply keeps_skip. Qed.
Lemma keeps_if {A} (b : bool) (m n : U A) : keeps forced m -> keeps forced n -> keeps forced (if b then m else n).
Proof. by destruct b. Qed.
End keeps.
#[local] Hint Resolve keeps_bind keeps_get keeps_ret keeps_skip keeps_when keeps_if : keeps.

Ltac same_fields := apply keeps_set; intros ?; split; cbn; auto.

Lemma keeps_fill_cqe forced c : keeps forced (__io_fill_cqe c).
Proof.
  intros s [Hr Hl]. eapply wp_mono; [by apply wp_fill_cqe|]. intros b s' (Hr' & Ho & _). split; [done|].
  intros Hk Hf. specialize (Hl Hk Hf). destruct Ho; congruence.
Qed.
Lemma keeps_act forced e : keeps forced (act e).
Proof. same_fields. Qed.
Lemma keeps_commit forced : keeps forced io_commit_cqring.
Proof. same_fields. Qed.
Lemma keeps_list_del forced r : keeps forced (list_del r).
Proof. same_fields. Qed.
#[local] Hint Resolve keeps_fill_cqe keeps_act keeps_commit keeps_list_del : keeps.
#[local] Hint Extern 1 (keeps _ (mset _)) => same_fields : keeps.

Lemma keeps_fill_req forced r res flags : keeps forced (io_fill_cqe_req r res flags).
Proof. unfold io_fill_cqe_req. auto with keeps. Qed.
#[local] Hint Resolve keeps_fill_req : keeps.
Lemma keeps_kill_timeout forced r status : keeps forced (io_kill_timeout r status).
Proof. unfold io_kill_timeout. auto 10 with keeps. Qed.
#[local] Hint Resolve keeps_kill_timeout : keeps.
Lemma keeps_flush_timeouts forced seq last l : keeps forced (flush_timeouts seq last l).
Proof. induction l; cbn [flush_timeouts]; auto 10 with keeps. Qed.
Lemma keeps_queue_deferred forced l : keeps forced (queue_deferred l).
Proof. induction l; cbn [queue_deferred]; auto 15 with keeps. Qed.
#[local] Hint Resolve keeps_flush_timeouts keeps_queue_deferred : keeps.
Lemma keeps_ev_posted forced : keeps forced io_cqring_ev_posted.
Proof. unfold io_cqring_ev_posted, __io_commit_cqring_flush, io_flush_timeouts, io_queue_deferred. auto 20 with keeps. Qed.
#[local] Hint Resolve keeps_ev_posted : keeps.

Lemma keeps_fill_aux forced user_data res flags : keeps forced (io_fill_cqe_aux user_data res flags).
Proof.
  unfold io_fill_cqe_aux. apply keeps_bind; [|auto with keeps]. apply keeps_set. intros s. split; cbn; auto.
  - replace (as_u32 (cq_extra s + 1) + sq_dropped s - Z.of_nat (S (extra_posted s)))%Z
      with (as_u32 (cq_extra s + 1) + (sq_dropped s - Z.of_nat (S (extra_posted s))))%Z by lia.
    rewrite as_u32_add. f_equal. lia.
  - intros _. symmetry. apply as_u32_small, as_u32_range.
Qed.
#[local] Hint Resolve keeps_fill_aux : keeps.

Lemma keeps_overflow_flush forced force : (force = true -> forced = true) -> keeps forced (__io_cqring_overflow_flush force).
Proof.
  intros Hforce s Hs. unfold __io_cqring_overflow_flush. apply wp_bind, wp_get. destruct (_ && _); [by apply wp_ret|].
  apply wp_bind, wp_get, wp_bind. destruct Hs as [[Hc Hf] Hl].
  eapply wp_mono; [by apply wp_flush_loop|]. cbn. intros p s1 (Hc1 & [F1 F2 F3 F4 F5 F6 F7] & Hp). apply wp_bind, wp_get, wp_bind.
  assert (H1 : wp (mwhen (match cq_overflow_list s1 with [] => true | _ => false end)
      (mset (fun s => s <| check_cq_overflow := false |> <| sq_cq_overflow := false |>))) (fun _ s2 => in_order forced s2) s1).
  { assert (Hlost : (forall n, kmalloc_ok n = true) -> forced = false -> lost s1 = []).
    { intros Hk Hfc. rewrite F3, (Hl Hk Hfc). destruct force; [by rewrite Hforce in Hfc|done]. }
    destruct Hf as [Hf1 Hf2]. destruct (cq_overflow_list s1) as [|c l] eqn:Hl1; [apply wp_set|apply wp_skip]; split; try done.
    - split; [|unfold flags_ok; cbn; by rewrite Hl1]. by destruct Hc1; split.
    - split; [done|]. unfold flags_ok. rewrite F6, F7, Hf1, Hf2, Hl1. split; [|]; cbn; destruct (cq_overflow_list s); try done;
        cbn in F2; rewrite drop_nil in F2; destruct force; done. }
  eapply wp_mono; [exact H1|]. intros []. change (keeps forced (mwhen p io_commit_cqring ;; mwhen p io_cqring_ev_posted ;; mret (match cq_overflow_list s1 with [] => true | _ => false end))).
  auto 10 with keeps.
Qed.
#[local] Hint Resolve keeps_overflow_flush : keeps.

Lemma keeps_complete_post forced r res flags : keeps forced (io_req_complete_post r res flags).
Proof. unfold io_req_complete_post. auto 10 with keeps. Qed.
#[local] Hint Resolve keeps_complete_post : keeps.
Lemma keeps_drain forced failed r seq prep alloc : (forall res, keeps forced (failed res)) ->
  keeps forced (io_drain_req failed r seq prep alloc).
Proof. intros Hf. unfold io_drain_req. auto 20 with keeps. Qed.
Lemma keeps_kill_loop forced matches status l : keeps forced (kill_timeouts matches status l).
Proof. induction l; cbn [kill_timeouts]; auto 10 with keeps. Qed.
#[local] Hint Resolve keeps_drain keeps_kill_loop : keeps.
Lemma keeps_extract forced user_data : keeps forced (io_timeout_extract user_data).
Proof.
  unfold io_timeout_extract. apply keeps_bind; [auto with keeps|]. intros l. destruct (List.find _ l); auto 10 with keeps.
Qed.

(** ** The submission ring and the application *)

Lemma sq_idx_range x : (0 <= Z.land x (sq_entries - 1) < sq_entries)%Z.
Proof.
  destruct sq_pow2 as (k & Hk & ->). pose proof (Z.land_ones x k ltac:(lia)) as H. rewrite Z.ones_equiv, <- Z.sub_1_r in H.
  rewrite H. apply Z.mod_pos_bound, Z.pow_pos_nonneg; lia.
Qed.

Lemma keeps_get_sqe forced : keeps forced io_get_sqe.
Proof.
  intros s [[Hc Hf] Hl]. pose proof (sq_idx_range (cached_sq_head s)) as Hi. pose proof (k_sq _ Hc) as Hn.
  unfold wp, io_get_sqe. cbn.
  destruct (lookup_lt_is_Some_2 (sq_array s) (Z.to_nat (Z.land (cached_sq_head s) (sq_entries - 1)))) as [h Hh]; [lia|].
  rewrite Hh. destruct (h <? sq_entries)%Z; (eexists _, _; split; [done|]); split; try exact Hl.
  - apply (ring_ok_same s); [by split|]. split; cbn; auto.
  - apply (ring_ok_same s); [by split|]. split; cbn; auto.
    + unfold as_u32. rewrite Zminus_mod, Zplus_mod, !Zmod_mod, <- Zplus_mod, <- Zminus_mod. f_equal. lia.
    + intros _. symmetry. apply as_u32_small, as_u32_range.
Qed.

(** Taking the first completion. *)
Lemma reap_ring c s : core s -> cq_head s <> cq_tail s -> cqes s !! Z.to_nat (idx (cq_head s)) = Some c ->
  let s' := s <| cq_head := as_u32 (cq_head s + 1) |> in
  __io_cqring_events s' = (__io_cqring_events s - 1)%Z /\
  as_u32 (cq_tail s - as_u32 (cq_head s + 1)) = (as_u32 (cq_tail s - cq_head s) - 1)%Z /\
  ring s = c :: ring s'.
Proof.
  intros [H1 Hsq H2 Hct H3 H4 H5 H6 H7 H8] Hne Hc. cbn.
  pose proof (as_u32_range (cq_tail s - cq_head s)) as Hr1. pose proof (as_u32_range (cached_cq_tail s - cq_head s)) as Hr2.
  assert (Hpos : (1 <= as_u32 (cq_tail s - cq_head s))%Z).
  { destruct (Z.eq_dec (as_u32 (cq_tail s - cq_head s)) 0%Z) as [Hz|]; [|lia]. unfold as_u32 in Hz.
    apply Z.mod_divide in Hz as [q Hq]; [|lia]. assert (q = 0)%Z by lia. lia. }
  assert (Hsub : forall x, (1 <= as_u32 (x - cq_head s))%Z -> as_u32 (x - as_u32 (cq_head s + 1)) = (as_u32 (x - cq_head s) - 1)%Z).
  { intros x Hx. rewrite as_u32_sub_r. replace (x - (cq_head s + 1))%Z with ((x - cq_head s) - 1)%Z by lia.
    rewrite <- as_u32_sub_l, as_u32_small; [done|]. pose proof (as_u32_range (x - cq_head s)). lia. }
  unfold __io_cqring_events in *. cbn. split; [|split]; [apply Hsub; lia|by apply Hsub|].
  unfold ring, __io_cqring_events. cbn. rewrite Hsub by lia. rewrite ring_from_u32.
  replace (Z.to_nat (as_u32 (cached_cq_tail s - cq_head s))) with (S (Z.to_nat (as_u32 (cached_cq_tail s - cq_head s) - 1))) by lia.
  rewrite ring_from_cons. f_equal. unfold at_pos. by rewrite (list_lookup_total_correct _ _ _ Hc).
Qed.

Lemma keeps_reap forced : keeps forced app_reap.
Proof.
  intros s [[Hc Hf] Hl]. unfold wp, app_reap. destruct (Z.eqb_spec (cq_head s) (cq_tail s)) as [He|He].
  { exists None, s. split; [done|]. by split. }
  pose proof Hc as [H1 Hsq H2 Hct H3 H4 H5 H6 H7 H8]. fold (idx (cq_head s)). pose proof (idx_range (cq_head s)) as Hi.
  destruct (lookup_lt_is_Some_2 (cqes s) (Z.to_nat (idx (cq_head s)))) as [c Hcq]; [lia|]. rewrite Hcq.
  eexists _, _. split; [done|]. split; [|exact Hl]. split; [|exact Hf].
  destruct (reap_ring c s Hc He Hcq) as (Hev & Hpub & Hrg). cbn. set (s' := s <| cq_head := _ |> <| reaped ::= _ |>).
  change (ring (s <| cq_head := as_u32 (cq_head s + 1) |>)) with (ring s') in Hrg.
  change (__io_cqring_events (s <| cq_head := as_u32 (cq_head s + 1) |>)) with (__io_cqring_events s') in Hev.
  split; rewrite ?Hev; try done; cbn.
  - apply as_u32_range.
  - lia.
  - lia.
  - rewrite <- H6, Hrg, <- app_assoc. done.
  - rewrite H7, Hrg, !length_app. cbn. f_equal. lia.
Qed.

Lemma keeps_submit forced i : keeps forced (app_submit i).
Proof.
  intros s [Hr Hl]. unfold wp, app_submit. destruct (_ =? _)%Z; (eexists _, _; split; [done|]); [by split|].
  split; [|exact Hl]. apply (ring_ok_same s); [done|]. split; cbn; auto. apply length_insert.
Qed.
End ring.

#[export] Hint Resolve keeps_bind keeps_get keeps_ret keeps_skip keeps_when keeps_if keeps_fill_cqe keeps_act keeps_commit
  keeps_list_del keeps_fill_req keeps_kill_timeout keeps_ev_posted keeps_fill_aux keeps_overflow_flush keeps_complete_post
  keeps_drain keeps_extract keeps_get_sqe keeps_reap keeps_submit : keeps.
#[export] Hint Extern 1 (keeps _ (mset _)) => apply keeps_set; intros ?; split; cbn; auto : keeps.
