(* ===== verification/UringLinks.v ===== *)
(** * Linked requests of io_uring

    A request may be linked to the next.  The next one starts when it is done;
    when it fails, those after it are cancelled, unless the link is a hard
    one.  A request that follows may be a timeout for the one before it. *)

From stdpp Require Import base numbers list.
From S2P Require Import Prelude StateMonad Uring UringRing.
#[local] Open Scope store_scope.

(** ** Requests and their flags *)

(** [REQ_F_*_BIT], the first of which are the flags of a submission. *)
Definition IO_DRAIN : Z := 1.
Definition LINK : Z := 2.
Definition HARDLINK : Z := 3.
Definition FORCE_ASYNC : Z := 4.
Definition BUFFER_SELECT : Z := 5.
Definition CQE_SKIP : Z := 6.
Definition FAIL : Z := 8.
Definition LINK_TIMEOUT : Z := 12.
Definition ARM_LTIMEOUT : Z := 20.
Definition SKIP_LINK_CQES : Z := 22.

(** [struct io_kiocb].  Its [link] is the request after it in a list.
    [k_prep_async] is what [io_req_prep_async] would say. *)
Record kiocb := mkKiocb {
  k_id : nat;
  k_user_data : Z;
  k_opcode : Z;
  k_flags : Z;
  k_result : Z;
  k_prep_async : Z;
}.
#[export] Instance kiocb_upd : Updatable kiocb :=
  (rd_pure mkKiocb <&> k_id <&> k_user_data <&> k_opcode <&> k_flags <&> k_result <&> k_prep_async)%upd.

Definition flagged (bit : Z) (k : kiocb) : bool := Z.testbit (k_flags k) bit.
Definition flag_on (bit : Z) (k : kiocb) : kiocb := k <| k_flags ::= fun f => Z.setbit f bit |>.
Definition flag_off (bit : Z) (k : kiocb) : kiocb := k <| k_flags ::= fun f => Z.clearbit f bit |>.
#[global] Arguments flagged : simpl never.
#[global] Arguments flag_on : simpl never.
#[global] Arguments flag_off : simpl never.
Definition is_linked (k : kiocb) : bool := flagged LINK k || flagged HARDLINK k.

(** What the rings see of it. *)
Definition as_req (k : kiocb) : req := mkReq (k_id k) (k_user_data k) (flagged CQE_SKIP k) (flagged IO_DRAIN k).

(** [req_set_fail]. *)
Definition set_fail (k : kiocb) : kiocb :=
  let k := flag_on FAIL k in
  if flagged CQE_SKIP k then flag_on SKIP_LINK_CQES (flag_off CQE_SKIP k) else k.
Definition req_fail_link_node (k : kiocb) (res : Z) : kiocb := set_fail k <| k_result := res |>.

Section links.
Context `{E : UringEnv} (IORING_OP_LINK_TIMEOUT : Z).
Implicit Types (k : kiocb) (l : list kiocb).

(** ** Failing the rest of a chain *)

(** The result of a request that is failed. *)
Definition failed_result k : Z := if flagged FAIL k then k_result k else (- ECANCELED)%Z.

(** The loop of [io_fail_links]. *)
Fixpoint fail_links (ignore_cqes : bool) l : U unit :=
  match l with
  | [] => mskip
  | link :: l =>
      mwhen (negb ignore_cqes) (io_fill_cqe_req (as_req (flag_off CQE_SKIP link)) (failed_result link) 0) ;;
      fail_links ignore_cqes l
  end.
Definition io_fail_links k l : U unit := fail_links (flagged SKIP_LINK_CQES k) l.

Definition is_link_timeout k : bool := (k_opcode k =? IORING_OP_LINK_TIMEOUT)%Z.

(** Whether a completion is posted, and the requests that follow now.  A
    timeout whose timer runs is left to it. *)
Definition io_kill_linked_timeout l : U (bool * list kiocb) :=
  match l with
  | link :: rest =>
      if is_link_timeout link then
        if (hrtimer_try_to_cancel (k_id link) =? -1)%Z then mret (false, rest)
        else io_fill_cqe_req (as_req link) (- ECANCELED) 0 ;; mret (true, rest)
      else mret (false, l)
  | [] => mret (false, l)
  end.

Definition io_disarm_next k l : U (bool * list kiocb) :=
  do! r :=
    (if flagged ARM_LTIMEOUT k then
       match l with
       | link :: rest =>
           if is_link_timeout link then io_fill_cqe_req (as_req link) (- ECANCELED) 0 ;; mret (true, rest)
           else mret (false, l)
       | [] => mret (false, l)
       end
     else if flagged LINK_TIMEOUT k then io_kill_linked_timeout l
     else mret (false, l)) in
  let '(posted, l) := r in
  if flagged FAIL k && negb (flagged HARDLINK k) then
    io_fail_links k l ;; mret (posted || nonempty l, [])
  else mret (posted, l).

(** [IO_DISARM_MASK]. *)
Definition to_disarm k : bool := flagged ARM_LTIMEOUT k || flagged LINK_TIMEOUT k || flagged FAIL k.

(** The requests that start when [k] is done. *)
Definition io_req_find_next k l : U (list kiocb) :=
  if negb (is_linked k) then mret []
  else if to_disarm k then
    do! r := io_disarm_next k l in
    let '(posted, l) := r in
    mwhen posted io_commit_cqring ;;
    mwhen posted io_cqring_ev_posted ;;
    mret l
  else mret l.

(** ** Completion *)

(** [last]: this is the last reference to the request. *)
Definition __io_req_complete_post k l (last : bool) (res cflags : Z) : U unit :=
  io_fill_cqe_req (as_req k) res cflags ;;
  mwhen last
    (if is_linked k then
       do! r := (if to_disarm k then io_disarm_next k l else mret (false, l)) in
       match r.2 with
       | [] => mskip
       | next :: _ => act (Queue (as_req next))
       end
     else mskip).
Definition io_req_complete_post_links k l (last : bool) (res cflags : Z) : U unit :=
  __io_req_complete_post k l last res cflags ;; io_commit_cqring ;; io_cqring_ev_posted.
(** The flags are [io_put_kbuf]'s, which are 0 for a request that holds no
    buffer of the kernel's choice; no request of the model does. *)
Definition io_req_complete_failed_links k l (last : bool) (res : Z) : U unit :=
  io_req_complete_post_links (set_fail k) l last res 0.
Definition io_req_complete_fail_submit k l : U unit :=
  io_req_complete_failed_links (flag_on LINK (flag_off HARDLINK k)) l true (k_result k).
End links.

(** ** Facts about flags *)

Lemma has_set b c k : (0 <= b)%Z -> (0 <= c)%Z -> flagged b (flag_on c k) = (c =? b)%Z || flagged b k.
Proof. intros. unfold flagged, flag_on. cbn. by rewrite Z.setbit_eqb. Qed.
Lemma has_clear b c k : flagged b (flag_off c k) = flagged b k && negb (c =? b)%Z.
Proof. unfold flagged, flag_off. cbn. by rewrite Z.clearbit_eqb. Qed.
Lemma as_req_set_fail k : as_req (set_fail k) = req_set_fail (as_req k).
Proof.
  assert (Hs : flagged CQE_SKIP (flag_on FAIL k) = flagged CQE_SKIP k) by by rewrite has_set.
  unfold set_fail. rewrite Hs. unfold as_req, req_set_fail. destruct (flagged CQE_SKIP k) eqn:Hk; [|by rewrite Hs, has_set].
  f_equal; [rewrite has_set, has_clear by done; apply andb_false_r|]. by rewrite has_set, has_clear, has_set, andb_true_r.
Qed.

(** ** Completing a chain *)

Section complete.
Context `{E : UringEnv} `{L : !UringLaws} (IORING_OP_LINK_TIMEOUT : Z).
Implicit Types (k : kiocb) (l : list kiocb) (s : uring).

(** The completion of [k], unless it skips it. *)
Definition own_cqe k (res cflags : Z) : list cqe := if flagged CQE_SKIP k then [] else [mkCqe (k_user_data k) res cflags].

(** The timeout of [k], and the requests after it. *)
Definition split_timeout k l : option kiocb * list kiocb :=
  match l with
  | link :: rest => if (flagged ARM_LTIMEOUT k || flagged LINK_TIMEOUT k) && is_link_timeout IORING_OP_LINK_TIMEOUT link then (Some link, rest) else (None, l)
  | [] => (None, [])
  end.
(** It is cancelled, unless its timer runs. *)
Definition timeout_cqes k (t : option kiocb) : list cqe :=
  match t with
  | Some t => if negb (flagged ARM_LTIMEOUT k) && (hrtimer_try_to_cancel (k_id t) =? -1)%Z then [] else own_cqe t (- ECANCELED) 0
  | None => []
  end.
Definition cancels k : bool := flagged FAIL k && negb (flagged HARDLINK k).
(** The completion of a request that is cancelled: its own error if it has
    failed. *)
Definition cancelled_cqe (m : kiocb) : cqe :=
  mkCqe (k_user_data m) (if flagged FAIL m then k_result m else (- ECANCELED)%Z) 0.
Definition cancelled_cqes k l : list cqe := if flagged SKIP_LINK_CQES k then [] else cancelled_cqe <$> l.

(** What completing [k] posts about the chain, and what starts then. *)
Definition chain_cqes k l : list cqe :=
  let '(t, rest) := split_timeout k l in
  timeout_cqes k t ++ (if cancels k then cancelled_cqes k rest else []).
Definition chain_next k l : list kiocb := if cancels k then [] else (split_timeout k l).2.

(** Completions were posted, and nothing else. *)
Record posts (c : list cqe) s s' : Prop := {
  po_ok : ring_ok s';
  po_posted : posted s' = posted s ++ c;
  po_rest : same_rest s s';
}.
Lemma posts_nil s : ring_ok s -> posts [] s s.
Proof. intros H. split; [done|by rewrite app_nil_r|done]. Qed.
Lemma posts_app c1 c2 s1 s2 s3 : posts c1 s1 s2 -> posts c2 s2 s3 -> posts (c1 ++ c2) s1 s3.
Proof.
  intros [H1 H2 H3] [G1 G2 G3]. split; [done|by rewrite G2, H2, app_assoc|]. destruct H3, G3. split; congruence.
Qed.

Lemma wp_fill_req r res flags s : ring_ok s ->
  wp (io_fill_cqe_req r res flags) (fun _ => posts (if r_cqe_skip r then [] else [mkCqe (r_user_data r) res flags]) s) s.
Proof.
  intros H. unfold io_fill_cqe_req. destruct (r_cqe_skip r); [by apply wp_skip, posts_nil|]. apply wp_bind.
  eapply wp_mono; [by apply wp_fill_cqe|]. intros b s' (H1 & _ & H2 & H3). apply wp_skip. by split.
Qed.

Lemma wp_fail_links ignore l : forall s, ring_ok s ->
  wp (fail_links ignore l) (fun _ => posts (if ignore then [] else cancelled_cqe <$> l) s) s.
Proof.
  induction l as [|m l IH]; intros s H; cbn [fail_links]; [apply wp_skip; destruct ignore; by apply posts_nil|].
  apply wp_bind. destruct ignore; cbn [negb mwhen].
  - by apply wp_skip, IH.
  - eapply wp_mono; [by apply wp_fill_req|]. intros [] s1 H1.
    change (r_cqe_skip _) with (flagged CQE_SKIP (flag_off CQE_SKIP m)) in H1. rewrite has_clear, andb_false_r in H1.
    eapply wp_mono; [apply IH, H1|]. intros [] s2 H2. by eapply (posts_app [_]).
Qed.

Lemma wp_disarm_next k l s : ring_ok s ->
  wp (io_disarm_next IORING_OP_LINK_TIMEOUT k l) (fun r s' => r.2 = chain_next k l /\ posts (chain_cqes k l) s s' /\
    (r.1 = false -> chain_cqes k l = [])) s.
Proof.
  intros H. unfold io_disarm_next. apply wp_bind.
  eapply (wp_mono _ (fun r s' => r.2 = (split_timeout k l).2 /\ posts (timeout_cqes k (split_timeout k l).1) s s' /\
    (r.1 = false -> timeout_cqes k (split_timeout k l).1 = []))).
  { assert (Hnone : forall l', wp (mret (false, l')) (fun r s' => r.2 = l' /\ posts [] s s' /\ (r.1 = false -> [] = @nil cqe)) s)
      by (intros l'; apply wp_ret; split; [done|split; [by apply posts_nil|done]]).
    unfold split_timeout, timeout_cqes, io_kill_linked_timeout. destruct (flagged ARM_LTIMEOUT k); cbn [orb negb andb].
    - destruct l as [|m l]; [apply Hnone|]. destruct (is_link_timeout IORING_OP_LINK_TIMEOUT m); [|apply Hnone]. cbn.
      apply wp_bind. eapply wp_mono; [by apply wp_fill_req|]. intros [] s' H'. by apply wp_ret.
    - destruct (flagged LINK_TIMEOUT k); cbn [andb]; [|destruct l; apply Hnone].
      destruct l as [|m l]; [apply Hnone|]. destruct (is_link_timeout IORING_OP_LINK_TIMEOUT m); [|apply Hnone]. cbn.
      destruct (_ =? _)%Z; [apply Hnone|]. apply wp_bind. eapply wp_mono; [by apply wp_fill_req|]. intros [] s' H'. by apply wp_ret. }
  intros [posted rest] s1 (Hr & Hp & Hn). cbn in Hr, Hn. unfold chain_cqes, chain_next, cancels. subst rest.
  destruct (split_timeout k l) as [t rest]. cbn in *. destruct (flagged FAIL k && negb (flagged HARDLINK k)).
  - apply wp_bind. eapply wp_mono; [apply wp_fail_links, Hp|]. intros [] s2 H2. apply wp_ret. split; [done|]. split; [by eapply posts_app|].
    cbn. intros [Hf He]%orb_false_iff. rewrite Hn by done. unfold cancelled_cqes. destruct rest; [|done]. by destruct (flagged SKIP_LINK_CQES k).
  - apply wp_ret. by rewrite app_nil_r.
Qed.

Lemma not_to_disarm k l : to_disarm k = false -> chain_cqes k l = [] /\ chain_next k l = l.
Proof.
  unfold to_disarm, chain_cqes, chain_next, split_timeout, cancels. intros [[H1 H2]%orb_false_iff H3]%orb_false_iff.
  rewrite H1, H2, H3. by destruct l.
Qed.

Lemma wp_complete_post k l last res cflags s : ring_ok s ->
  wp (__io_req_complete_post IORING_OP_LINK_TIMEOUT k l last res cflags) (fun _ s' => exists s1,
    posts (own_cqe k res cflags ++ (if last && is_linked k then chain_cqes k l else [])) s s1 /\
    s' = s1 <| effects ::= fun e => e ++ (if last && is_linked k then (fun m => Queue (as_req m)) <$> take 1 (chain_next k l) else []) |>) s.
Proof.
  intros Hok. assert (Hnop : forall s1 : uring, s1 = s1 <| effects ::= fun e => e ++ [] |>).
  { intros s1. unfold field_update. destruct s1. cbn. by rewrite app_nil_r. }
  apply wp_bind. eapply wp_mono; [by apply wp_fill_req|]. intros [] s1 H1.
  change (if r_cqe_skip (as_req k) then _ else _) with (own_cqe k res cflags) in H1.
  destruct last; cbn [andb mwhen]; [|apply wp_skip; exists s1; by rewrite app_nil_r].
  destruct (is_linked k); [|apply wp_skip; exists s1; by rewrite app_nil_r].
  apply wp_bind. eapply (wp_mono _ (fun r s2 => r.2 = chain_next k l /\ posts (chain_cqes k l) s1 s2)).
  { destruct H1 as [H1 _ _]. destruct (to_disarm k) eqn:Hd; [eapply wp_mono; [by apply wp_disarm_next|]; by intros r s2 (? & ? & ?)|].
    apply wp_ret. destruct (not_to_disarm k l Hd) as [-> ->]. split; [done|by apply posts_nil]. }
  intros r s2 [-> G]. pose proof (posts_app _ _ _ _ _ H1 G) as Hp. destruct (chain_next k l) as [|m l']; cbn; rewrite ?take_0.
  - apply wp_skip. by exists s2.
  - apply wp_set. by exists s2.
Qed.

(** C20. What happens to a chain when a request of it is done, for rings in
    order.  Completing a request posts its completion, unless it skips it.
    If this was the last reference to a linked request, then the timeout that
    follows it, if it was armed or its timer can be cancelled, is completed as
    cancelled, unless it skips its completion; and if the request has failed
    and its link is not a hard one, so is every other request behind it, in
    order, each with its own result if it is marked as failed and
    [-ECANCELED] otherwise, unless the request keeps them silent.  If it has
    not failed, or its link is a hard one, the first request behind it and its
    timeout is queued; no other is.  The completions go to the ring, its
    overflow list or the count of dropped ones, which stay in order; the
    counts of timeouts, the waiting timeouts and drained requests, the
    submission ring, the application's positions and what is asked of the
    rest of the kernel do not change otherwise. *)
Theorem complete_post_chain k l last res cflags s :
  ring_ok s -> exists s', __io_req_complete_post IORING_OP_LINK_TIMEOUT k l last res cflags s = Ok (tt, s') /\ ring_ok s' /\
  posted s' = posted s ++ own_cqe k res cflags ++ (if last && is_linked k then chain_cqes k l else []) /\
  effects s' = effects s ++ (if last && is_linked k then (fun m => Queue (as_req m)) <$> take 1 (chain_next k l) else []) /\
  same_rest s (s' <| effects := effects s |>).
Proof.
  intros Hok. apply wp_unit. eapply wp_mono; [by apply wp_complete_post|]. intros _ s' (s1 & [H1 H2 H3] & ->). cbn.
  split_and!; [|done|by f_equal; apply H3|].
  - apply (ring_ok_same s1); [done|]. split; cbn; auto.
  - destruct H3. by split.
Qed.
End complete.

(** Completing a chain keeps the rings in order. *)
Section keeps.
Context `{E : UringEnv} `{L : !UringLaws} (IORING_OP_LINK_TIMEOUT : Z) (forced : bool).
Implicit Types (k : kiocb) (l : list kiocb).

Lemma keeps_fail_links ignore l : keeps forced (fail_links ignore l).
Proof. induction l; cbn [fail_links]; auto with keeps. Qed.
#[local] Hint Resolve keeps_fail_links : keeps.
Lemma keeps_disarm_next k l : keeps forced (io_disarm_next IORING_OP_LINK_TIMEOUT k l).
Proof.
  unfold io_disarm_next, io_kill_linked_timeout. apply keeps_bind.
  - destruct (flagged ARM_LTIMEOUT k), (flagged LINK_TIMEOUT k), l; auto with keeps; destruct (is_link_timeout _ _); auto with keeps.
  - intros [p r]. unfold io_fail_links. auto with keeps.
Qed.
#[local] Hint Resolve keeps_disarm_next : keeps.
Lemma keeps_complete_links k l last res cflags : keeps forced (io_req_complete_post_links IORING_OP_LINK_TIMEOUT k l last res cflags).
Proof.
  unfold io_req_complete_post_links, __io_req_complete_post. apply keeps_bind; [|auto with keeps].
  apply keeps_bind; [auto with keeps|]. intros _. apply keeps_when, keeps_if; [|auto with keeps].
  apply keeps_bind; [auto with keeps|]. intros [p [|m r]]; cbn; auto with keeps.
Qed.
Lemma keeps_find_next k l : keeps forced (io_req_find_next IORING_OP_LINK_TIMEOUT k l).
Proof.
  unfold io_req_find_next. apply keeps_if; [auto with keeps|]. apply keeps_if; [|auto with keeps].
  apply keeps_bind; [auto with keeps|]. intros [p r]. auto with keeps.
Qed.
End keeps.
#[export] Hint Resolve keeps_complete_links keeps_find_next : keeps.
