(* ===== verification/UringProps.v ===== *)
(** * What the rings of io_uring promise

    Runs of the kernel and a well-behaved application on a new ring: where
    every completion is, what a flush of the overflow list moves, when a task
    that waits is woken, and when drained requests start.

    The list of timeouts is kept in the order in which they fire: those that
    count completions by how many they still need, then those that only have
    a timer.  A flush fires exactly those for which the ring's count has
    advanced enough; timeouts that fire into a full ring turn this count
    back, and the next flush fires the others too early. *)

From Stdlib Require Import Sorted.
From stdpp Require Import base numbers sets list.
From S2P Require Import Prelude StateMonad Uring UringRing UringLinks.
#[local] Open Scope store_scope.

Section props.
Context `{E : UringEnv} `{L : !UringLaws}.
Implicit Types (s : uring) (c : cqe) (r : req).

(** ** Runs *)

Inductive uring_op :=
| CompletePost (r : req) (res flags : Z)
| CompleteChain (lt : Z) (k : kiocb) (l : list kiocb) (last : bool) (res flags : Z)
| FindNext (lt : Z) (k : kiocb) (l : list kiocb)     (* lt: IORING_OP_LINK_TIMEOUT *)
| Message (user_data len : Z)
| OverflowFlush
| ForceFlush                                   (* when the ring is torn down *)
| AddTimeout (r : req) (off : Z)
| TimerExpires (r : req) (success : bool)
| CancelTimeout (user_data : Z)
| KillTimeouts (matches : req -> bool)
| Drain (r : req) (seq prep : Z) (alloc : bool)
| GetSqe
| CommitSq
| Reap
| Submit (i : Z).

Definition ignore {A} (m : U A) : U unit := do! _ := m in mskip.

Definition op_run (op : uring_op) : U unit :=
  match op with
  | CompletePost r res flags => io_req_complete_post r res flags
  | CompleteChain lt k l last res flags => io_req_complete_post_links lt k l last res flags
  | FindNext lt k l => ignore (io_req_find_next lt k l)
  | Message user_data len => ignore (io_msg_ring_post user_data len)
  | OverflowFlush => ignore io_cqring_overflow_flush
  | ForceFlush => ignore (__io_cqring_overflow_flush true)
  | AddTimeout r off => io_timeout r off
  | TimerExpires r success => io_timeout_fn r success
  | CancelTimeout user_data => ignore (io_timeout_extract user_data)
  | KillTimeouts matches => ignore (io_kill_timeouts matches)
  | Drain r seq prep alloc => io_drain_req (io_req_complete_failed r) r seq prep alloc
  | GetSqe => ignore io_get_sqe
  | CommitSq => io_commit_sqring
  | Reap => ignore app_reap
  | Submit i => ignore (app_submit i)
  end.
Fixpoint ops_run (ops : list uring_op) : U unit :=
  match ops with [] => mskip | op :: ops => op_run op ;; ops_run ops end.

Definition force (op : uring_op) : bool := match op with ForceFlush => true | _ => false end.

(** A ring as [io_allocate_scq_urings] leaves it, in zeroed memory. *)
Record new_ring s : Prop := {
  nr_cqes : Z.of_nat (length (cqes s)) = cq_entries;
  nr_sq : Z.of_nat (length (sq_array s)) = sq_entries;
  nr_cached : cached_cq_tail s = 0%Z;
  nr_head : cq_head s = 0%Z;
  nr_tail : cq_tail s = 0%Z;
  nr_overflow : cq_overflow s = 0%Z;
  nr_extra : cq_extra s = 0%Z;
  nr_dropped : sq_dropped s = 0%Z;
  nr_list : cq_overflow_list s = [];
  nr_check : check_cq_overflow s = false;
  nr_flag : sq_cq_overflow s = false;
  nr_history : posted s = [] /\ reaped s = [] /\ lost s = [] /\ extra_posted s = 0;
}.

Lemma new_in_order forced s : new_ring s -> in_order forced s.
Proof.
  intros [H1 H2 H3 H4 H5 H6 H7 H8 H9 H10 H11 (H12 & H13 & H14 & H15)]. pose proof entries_pos.
  assert (He : __io_cqring_events s = 0%Z) by (unfold __io_cqring_events; by rewrite H3, H4).
  assert (Hr : ring s = []) by (unfold ring; by rewrite He).
  split; [|done]. split; [|unfold flags_ok; by rewrite H9, H10, H11].
  split; rewrite ?He, ?Hr, ?H3, ?H4, ?H5, ?H6, ?H7, ?H8, ?H9, ?H12, ?H13, ?H14, ?H15; try done; lia.
Qed.

Lemma keeps_ignore forced {A} (m : U A) : keeps forced m -> keeps forced (ignore m).
Proof. intros H. apply keeps_bind; [done|]. intros _. apply keeps_skip. Qed.

Lemma keeps_op forced op : (force op = true -> forced = true) -> keeps forced (op_run op).
Proof.
  intros Hforce. destruct op; cbn [op_run force] in *.
  - apply keeps_complete_post.
  - apply keeps_complete_links.
  - apply keeps_ignore, keeps_find_next.
  - apply keeps_ignore. unfold io_msg_ring_post. apply keeps_bind; [apply keeps_fill_aux|]. intros b.
    apply keeps_bind; [apply keeps_commit|]. intros _. apply keeps_bind; [apply keeps_when, keeps_ev_posted|]. intros _. apply keeps_ret.
  - apply keeps_ignore, keeps_bind; [apply keeps_get|]. intros b. destruct b; [by apply keeps_overflow_flush|apply keeps_ret].
  - by apply keeps_ignore, keeps_overflow_flush.
  - apply keeps_bind; [|intros; apply keeps_act]. destruct (off =? 0)%Z; [apply keeps_set; intros ?; split; cbn; auto|].
    apply keeps_bind; [apply keeps_set; intros ?; split; cbn; auto|]. intros _. apply keeps_bind; [apply keeps_get|]. intros tail.
    apply keeps_bind; [apply keeps_set; intros ?; split; cbn; auto|]. intros _. apply keeps_set; intros ?; split; cbn; auto.
  - apply keeps_bind; [apply keeps_list_del|]. intros _. apply keeps_bind; [apply keeps_set; intros ?; split; cbn; auto|].
    intros _. apply keeps_act.
  - apply keeps_ignore, keeps_extract.
  - apply keeps_ignore, keeps_bind; [apply keeps_get|]. intros l. apply keeps_bind; [apply keeps_kill_loop|]. intros _.
    apply keeps_bind; [apply keeps_when, keeps_commit|]. intros _. apply keeps_bind; [apply keeps_when, keeps_ev_posted|].
    intros _. apply keeps_ret.
  - apply keeps_drain. intros res. apply keeps_complete_post.
  - apply keeps_ignore, keeps_get_sqe.
  - apply keeps_set. intros ?; split; cbn; auto.
  - apply keeps_ignore, keeps_reap.
  - apply keeps_ignore, keeps_submit.
Qed.

Lemma keeps_ops forced ops : (forced = false -> Forall (fun op => force op = false) ops) -> keeps forced (ops_run ops).
Proof.
  induction ops as [|op ops IH]; intros Hf; cbn [ops_run]; [apply keeps_skip|]. apply keeps_bind.
  - apply keeps_op. intros Ho. destruct forced; [done|]. by rewrite (Forall_inv (Hf eq_refl)) in Ho.
  - intros _. apply IH. intros H. by apply Forall_inv_tail with (a := op), Hf.
Qed.

(** C18. No completion is lost unseen.  On a new ring let the kernel post
    completions of requests and their chains, messages and timeouts, flush, kill
    and drain in any order,
    while the application takes completions and submits.  Nothing fails, and
    afterwards every completion posted so far is in exactly one place: taken
    by the application, in the ring, in the overflow list, or dropped.
    [cq_overflow] counts the dropped ones, modulo the width of the counter;
    the flag that the application sees says whether the list is empty; the
    ring holds no more than it has room for; and nothing is dropped when
    memory does not run out and the ring is not torn down. *)
Theorem completions_accounted s0 ops :
  new_ring s0 -> exists s, ops_run ops s0 = Ok (tt, s) /\
  reaped s ++ ring s ++ cq_overflow_list s ++ lost s ≡ₚ posted s /\
  (Z.of_nat (length (ring s)) <= cq_entries)%Z /\
  cq_overflow s = as_u32 (Z.of_nat (length (lost s))) /\
  (sq_cq_overflow s = false <-> cq_overflow_list s = []) /\
  ((forall n, kmalloc_ok n = true) -> Forall (fun op => force op = false) ops -> lost s = []).
Proof.
  intros Hn. assert (Hrun : forall forced, (forced = false -> Forall (fun op => force op = false) ops) ->
    exists s, ops_run ops s0 = Ok (tt, s) /\ in_order forced s).
  { intros forced Hf. destruct (keeps_ops forced ops Hf s0 (new_in_order forced s0 Hn)) as ([] & s & Hr & Ho). by exists s. }
  destruct (Hrun true ltac:(done)) as (s & Hr & [Hc [Hf1 Hf2]] & _). exists s. split; [done|].
  pose proof Hc as [H1 Hsq H2 Hct H3 H4 H5 H6 H7 H8]. split; [done|]. split; [|split; [done|split]].
  - unfold ring, ring_from. rewrite length_fmap, length_seq. pose proof entries_pos. lia.
  - rewrite Hf2. by destruct (cq_overflow_list s).
  - intros Hk Hops. destruct (Hrun false ltac:(done)) as (s' & Hr' & _ & Hl). rewrite Hr in Hr'. injection Hr' as <-. by apply Hl.
Qed.

(** ** Flushing *)

(** What posting the event does to the ring when no timeout counts events. *)
Lemma queue_deferred_ring l : forall s,
  wp (queue_deferred l) (fun _ s' => ring s' = ring s /\ cq_overflow_list s' = cq_overflow_list s /\ lost s' = lost s /\
    cq_tail s' = cq_tail s /\ cached_cq_tail s' = cached_cq_tail s) s.
Proof.
  induction l as [|de l IH]; intros s; cbn [queue_deferred]; [by apply wp_skip|]. apply wp_bind, wp_get.
  destruct (req_need_defer _ _ s); [by apply wp_skip|]. apply wp_bind, wp_set, wp_bind, wp_set.
  eapply wp_mono; [apply IH|]. done.
Qed.

Lemma ev_posted_ring s : off_timeout_used s = false ->
  wp io_cqring_ev_posted (fun _ s' => ring s' = ring s /\ cq_overflow_list s' = cq_overflow_list s /\ lost s' = lost s /\
    cached_cq_tail s' = cached_cq_tail s /\ (cq_tail s' = cq_tail s \/ cq_tail s' = cached_cq_tail s)) s.
Proof.
  intros Ht. unfold io_cqring_ev_posted, __io_commit_cqring_flush, io_queue_deferred.
  apply wp_bind, wp_get, wp_bind, wp_get. rewrite Ht. cbn [orb].
  apply wp_bind. set (Q := fun (_ : unit) s' => ring s' = ring s /\ cq_overflow_list s' = cq_overflow_list s /\ lost s' = lost s /\
    cached_cq_tail s' = cached_cq_tail s /\ (cq_tail s' = cq_tail s \/ cq_tail s' = cached_cq_tail s)).
  assert (H : wp (mwhen (drain_active s || has_evfd) __io_commit_cqring_flush) Q s).
  { destruct (drain_active s || has_evfd); [|apply wp_skip; unfold Q; split_and!; auto].
    unfold mwhen, __io_commit_cqring_flush, io_queue_deferred. apply wp_bind, wp_get, wp_bind, wp_get, wp_bind. rewrite Ht. cbn [orb].
    eapply (wp_mono _ Q).
    - destruct (drain_active s); [|apply wp_skip; unfold Q; split_and!; auto]. cbn [mwhen]. apply wp_bind, wp_skip, wp_bind, wp_bind, wp_get.
      eapply wp_mono; [apply queue_deferred_ring|]. cbn. intros _ s1 (H1 & H2 & H3 & H4 & H5). apply wp_set. unfold Q. cbn.
      split_and!; [by rewrite <- H1|done|done|done|by right].
    - intros [] s1 H1. destruct has_evfd; [by apply wp_set|by apply wp_skip]. }
  eapply wp_mono; [exact H|]. intros [] s1 H1. by apply wp_set.
Qed.

(** What a flush moves.  When no timeout counts completions, flushing a
    list that is not empty moves its oldest completions, in order and as many
    as fit, to the end of the ring, and publishes them; it tells whether the
    list is empty now.  When the flush is forced, the others are dropped; else
    they stay. *)
Theorem overflow_flush_fifo forced s :
  ring_ok s -> off_timeout_used s = false -> cq_overflow_list s <> [] ->
  exists b s', __io_cqring_overflow_flush forced s = Ok (b, s') /\
  ring s' = ring s ++ take (free s) (cq_overflow_list s) /\
  cq_overflow_list s' = (if forced then [] else drop (free s) (cq_overflow_list s)) /\
  lost s' = lost s ++ (if forced then drop (free s) (cq_overflow_list s) else []) /\
  (b = true <-> cq_overflow_list s' = []) /\ (0 < free s -> cq_tail s' = cached_cq_tail s').
Proof.
  intros [Hc Hf] Ht Hne. cut (wp (__io_cqring_overflow_flush forced) (fun b s' =>
    ring s' = ring s ++ take (free s) (cq_overflow_list s) /\
    cq_overflow_list s' = (if forced then [] else drop (free s) (cq_overflow_list s)) /\
    lost s' = lost s ++ (if forced then drop (free s) (cq_overflow_list s) else []) /\
    (b = true <-> cq_overflow_list s' = []) /\ (0 < free s -> cq_tail s' = cached_cq_tail s')) s).
  { intros (b & s' & Hr & HQ). by exists b, s'. }
  unfold __io_cqring_overflow_flush. apply wp_bind, wp_get.
  destruct (negb forced && (__io_cqring_events s =? cq_entries)%Z) eqn:Hfull.
  { apply andb_true_iff in Hfull as [Hn%negb_true_iff Hfl%Z.eqb_eq]. subst forced. apply wp_ret.
    assert (Hfr : free s = 0) by (unfold free; lia). rewrite Hfr. cbn. rewrite !app_nil_r. split_and!; try done; lia. }
  apply wp_bind, wp_get, wp_bind. eapply wp_mono; [by apply wp_flush_loop|]. cbn.
  intros p s1 (Hc1 & [F1 F2 F3 F4 F5 F6 F7] & Hp). apply wp_bind, wp_get, wp_bind.
  set (b := match cq_overflow_list s1 with [] => true | _ => false end).
  assert (Hoff : off_timeout_used s1 = false) by (by rewrite (sr_off _ _ F5)).
  set (Q := fun s' => ring s' = ring s1 /\ cq_overflow_list s' = cq_overflow_list s1 /\ lost s' = lost s1 /\
    cached_cq_tail s' = cached_cq_tail s1 /\ off_timeout_used s' = false).
  assert (H2 : wp (mwhen b (mset (fun s => s <| check_cq_overflow := false |> <| sq_cq_overflow := false |>))) (fun _ => Q) s1)
    by (destruct b; [by apply wp_set|by apply wp_skip]).
  eapply wp_mono; [exact H2|]. intros [] s2 (G1 & G2 & G3 & G4 & G5). apply wp_bind.
  assert (Hend : forall s3, ring s3 = ring s1 -> cq_overflow_list s3 = cq_overflow_list s1 -> lost s3 = lost s1 ->
    (p = true -> cq_tail s3 = cached_cq_tail s3) ->
    ring s3 = ring s ++ take (free s) (cq_overflow_list s) /\
    cq_overflow_list s3 = (if forced then [] else drop (free s) (cq_overflow_list s)) /\
    lost s3 = lost s ++ (if forced then drop (free s) (cq_overflow_list s) else []) /\
    (b = true <-> cq_overflow_list s3 = []) /\ (0 < free s -> cq_tail s3 = cached_cq_tail s3)).
  { intros s3 -> -> -> Hp3. split_and!; try done.
    - unfold b. by destruct (cq_overflow_list s1).
    - intros Hfree. apply Hp3. destruct p; [done|]. destruct (Hp eq_refl) as [_ [H0|H0]]; [lia|done]. }
  destruct p; cbn [mwhen].
  - apply wp_set, wp_bind. eapply wp_mono; [apply ev_posted_ring; exact G5|]. cbn. intros [] s3 (K1 & K2 & K3 & K4 & K5).
    apply wp_ret, Hend; [by rewrite K1, <- G1|congruence|congruence|]. intros _. rewrite K4. by destruct K5.
  - apply wp_skip, wp_bind, wp_skip, wp_ret, Hend; done.
Qed.

(** ** Drained requests *)


(** A task that waits for [min] completions is woken when there are as many,
    or when a timeout fired since. *)
Lemma should_wake_exact s min nr : ring_ok s -> (0 < min <= 2 ^ 31)%Z ->
  io_should_wake (as_u32 (cq_head s + min)) nr s = true <-> (min <= __io_cqring_events s)%Z \/ cq_timeouts s <> nr.
Proof.
  intros [Hc _] Hmin. unfold io_should_wake. rewrite orb_true_iff, negb_true_iff, Z.eqb_neq, Z.leb_le. apply or_iff_compat_r.
  pose proof (k_events _ Hc) as He. assert (Hmax : (cq_entries <= 2 ^ 31)%Z).
  { destruct cq_pow2 as (k & Hk & ->). apply Z.pow_le_mono_r; lia. }
  assert (Hd : as_u32 (cached_cq_tail s - as_u32 (cq_head s + min)) = as_u32 (__io_cqring_events s - min)).
  { unfold __io_cqring_events. rewrite as_u32_sub_r, as_u32_sub_l. f_equal. lia. }
  pose proof (as_u32_range (cached_cq_tail s - cq_head s)) as Hr. fold (__io_cqring_events s) in Hr.
  unfold s32. cbv zeta. rewrite Hd. destruct (Z.le_gt_cases min (__io_cqring_events s)).
  - rewrite as_u32_small by lia. rewrite (proj2 (Z.ltb_lt _ _)) by lia. lia.
  - assert (as_u32 (__io_cqring_events s - min) = __io_cqring_events s - min + 2 ^ 32)%Z as ->.
    { rewrite <- (as_u32_small (_ + 2 ^ 32)) by lia. unfold as_u32. rewrite <- (Z_mod_plus_full (_ - min) 1). f_equal. }
    rewrite (proj2 (Z.ltb_ge _ _)) by lia. lia.
Qed.

End props.

(** * The timeouts that count completions *)

Section timeouts.
Context `{E : UringEnv} `{L : !UringLaws}.
Implicit Types (s : uring) (t : timeout) (l : list timeout).

(** How many completions [t] needs after the one with number [last]. *)
Definition need (last : Z) t : Z := as_u32 (t_target_seq t - last).

(** The order of the list. *)
Definition before (last : Z) t t' : Prop :=
  io_is_timeout_noseq t' = true \/ (io_is_timeout_noseq t = false /\ (need last t <= need last t')%Z).
Definition timeouts_ordered (last : Z) l : Prop := StronglySorted (before last) l.

(** The request numbers are distinct, and no timer runs now. *)
Definition timeouts_distinct l : Prop := NoDup ((fun t => r_id (t_req t)) <$> l).
Definition cancellable l : Prop := Forall (fun t => hrtimer_try_to_cancel (r_id (t_req t)) <> (-1)%Z) l.

(** Has [t] seen enough when [got] completions came after [last]? *)
Definition fires (last got : Z) t : bool := negb (io_is_timeout_noseq t) && (need last t <=? got)%Z.
Definition fired_cqes (l : list timeout) : list cqe :=
  (fun t => mkCqe (r_user_data (t_req t)) 0 0) <$> List.filter (fun t => negb (r_cqe_skip (t_req t))) l.

Lemma fires_prefix last got l : timeouts_ordered last l ->
  (exists t l', l = t :: l' /\ fires last got t = true) \/ List.filter (fires last got) l = [].
Proof.
  destruct 1 as [|t l Hs Ht]; [by right|]. destruct (fires last got t) eqn:Hf; [left; eauto|]. right. cbn. rewrite Hf.
  induction Ht as [|t' l Hb Ht IH]; [done|]. cbn. assert (fires last got t' = false) as ->; [|apply IH; by inversion Hs].
  unfold fires in *. destruct Hb as [->|[Hn Hle]]; [done|]. rewrite Hn in Hf. cbn in Hf. apply Z.leb_gt in Hf.
  apply andb_false_iff. right. apply Z.leb_gt. lia.
Qed.

Lemma list_del_head t l s : timeouts_distinct (t :: l) -> timeout_list s = t :: l ->
  wp (list_del (t_req t)) (fun _ s' => s' = s <| timeout_list := l |>) s.
Proof.
  intros Hd Hl. apply wp_set. assert (Hf : List.filter (fun t' => negb (r_id (t_req t') =? r_id (t_req t))) (timeout_list s) = l).
  { rewrite Hl. cbn. rewrite Nat.eqb_refl. cbn. unfold timeouts_distinct in Hd. cbn in Hd. apply NoDup_cons in Hd as [Hin Hd].
    clear Hl Hd. induction l as [|t' l IH]; [done|]. cbn in *. apply not_elem_of_cons in Hin as [Hne Hin].
    rewrite (proj2 (Nat.eqb_neq _ _)) by auto. cbn. by rewrite IH. }
  unfold field_update. cbn. by rewrite Hf.
Qed.

(** What a flush does to the waiting requests. *)
Record flushed_timeouts (gone rest : list timeout) s s' : Prop := {
  ft_list : timeout_list s' = rest;
  ft_posted : posted s' = posted s ++ fired_cqes gone;
  ft_count : as_u32 (cq_timeouts s') = as_u32 (cq_timeouts s + Z.of_nat (length gone));
  ft_last : cq_last_tm_flush s' = cq_last_tm_flush s;
  ft_ok : ring_ok s';
  ft_full : __io_cqring_events s = cq_entries -> cached_cq_tail s' = cached_cq_tail s /\ cq_head s' = cq_head s;
}.

Lemma kill_timeout_spec t l s : ring_ok s -> timeouts_distinct (t :: l) -> timeout_list s = t :: l ->
  hrtimer_try_to_cancel (r_id (t_req t)) <> (-1)%Z ->
  wp (io_kill_timeout (t_req t) 0) (fun _ => flushed_timeouts [t] l s) s.
Proof.
  intros Hok Hd Hl Hc. unfold io_kill_timeout. rewrite (proj2 (Z.eqb_neq _ _) Hc). cbn [Z.eqb]. apply wp_bind, wp_set, wp_bind.
  eapply wp_mono; [by apply list_del_head|]. intros [] s1 ->. set (s1 := s <| cq_timeouts := _ |> <| timeout_list := _ |>).
  assert (Hok1 : ring_ok s1) by (apply (ring_ok_same s); [done|]; split; cbn; auto).
  unfold io_fill_cqe_req, fired_cqes. cbn. destruct (r_cqe_skip (t_req t)) eqn:Hs.
  - apply wp_skip. split; cbn; rewrite ?Hs, ?app_nil_r; try done; unfold as_u32; by rewrite Zmod_mod.
  - apply wp_bind. eapply wp_mono; [by apply wp_fill_cqe|]. intros b s2 (Hok2 & Ho & Hr & Hp). apply wp_skip.
    split; cbn; rewrite ?Hs; try done; cycle 3.
    + intros Hfull. change (__io_cqring_events s) with (__io_cqring_events s1) in Hfull.
      split; [|by rewrite (sr_head _ _ Hr)]. destruct Ho; [lia|done..].
    + by rewrite (sr_timeout_list _ _ Hr).
    + rewrite (sr_timeouts _ _ Hr). cbn. unfold as_u32. by rewrite Zmod_mod.
    + by rewrite (sr_last _ _ Hr).
Qed.

Lemma flush_timeouts_spec seq last l : forall s, ring_ok s -> timeouts_ordered last l -> timeouts_distinct l -> cancellable l ->
  timeout_list s = l ->
  wp (flush_timeouts seq last l) (fun _ => let got := as_u32 (seq - last) in
    flushed_timeouts (List.filter (fires last got) l) (List.filter (fun t => negb (fires last got t)) l) s) s.
Proof.
  cbn. set (got := as_u32 (seq - last)). induction l as [|t l IH]; intros s Hok Ho Hd Hc Hl.
  { apply wp_skip. split; cbn; rewrite ?app_nil_r, ?Z.add_0_r; done. }
  assert (Hstay : List.filter (fires last got) (t :: l) = [] ->
    flushed_timeouts (List.filter (fires last got) (t :: l)) (List.filter (fun t => negb (fires last got t)) (t :: l)) s s).
  { intros H0. rewrite H0. split; cbn -[List.filter]; rewrite ?app_nil_r, ?Z.add_0_r; try done. rewrite Hl.
    clear -H0. induction (t :: l) as [|t' l' IH]; [done|]. cbn in *. destruct (fires last got t'); [done|]. cbn. by rewrite <- IH. }
  destruct (fires_prefix last got _ Ho) as [(t' & l' & [= <- <-] & Hf)|H0].
  - cbn. rewrite Hf. cbn. unfold fires in Hf. apply andb_true_iff in Hf as [Hn%negb_true_iff Hle%Z.leb_le]. rewrite Hn.
    fold got. fold (need last t). rewrite (proj2 (Z.ltb_ge _ _)) by lia. apply wp_bind.
    eapply wp_mono; [apply (kill_timeout_spec t l); try done; by inversion Hc|].
    intros [] s1 [G1 G2 G3 G4 G5 G6]. unfold timeouts_distinct in Hd. cbn in Hd. apply NoDup_cons in Hd as [_ Hd].
    eapply wp_mono; [apply IH; try done; [by inversion Ho|by inversion Hc]|].
    intros _ s2 [K1 K2 K3 K4 K5 K6]. split; try congruence; cycle 2.
    + intros Hfull. destruct (G6 Hfull) as [T1 T2]. destruct K6 as [U1 U2]; [|split; congruence].
      unfold __io_cqring_events in *. by rewrite T1, T2.
    + rewrite K2, G2, <- app_assoc. f_equal. unfold fired_cqes. cbn. destruct (r_cqe_skip (t_req t)); done.
    + rewrite K3. cbn [length] in *. rewrite <- as_u32_add, G3, as_u32_add. f_equal. lia.
  - cbn [flush_timeouts]. destruct (io_is_timeout_noseq t) eqn:Hn; [by apply wp_skip, Hstay|].
    fold got. fold (need last t). destruct (got <? need last t)%Z eqn:Hlt; [by apply wp_skip, Hstay|].
    apply Z.ltb_ge in Hlt. cbn in H0. unfold fires in H0. rewrite Hn in H0. cbn in H0. by rewrite (proj2 (Z.leb_le _ _)) in H0.
Qed.

(** The timeouts that stay need fewer completions after a flush. *)
Lemma need_later seq last t : fires last (as_u32 (seq - last)) t = false -> io_is_timeout_noseq t = false ->
  need seq t = (need last t - as_u32 (seq - last))%Z.
Proof.
  unfold fires, need. intros Hf Hn. rewrite Hn in Hf. cbn in Hf. apply Z.leb_gt in Hf.
  pose proof (as_u32_range (seq - last)). pose proof (as_u32_range (t_target_seq t - last)).
  replace (t_target_seq t - seq)%Z with ((t_target_seq t - last) - (seq - last))%Z by lia.
  rewrite <- as_u32_sub_l, <- as_u32_sub_r. apply as_u32_small. lia.
Qed.

Lemma ordered_later seq last l : timeouts_ordered last l ->
  timeouts_ordered seq (List.filter (fun t => negb (fires last (as_u32 (seq - last)) t)) l).
Proof.
  induction 1 as [|t l Hs IH Ht]; [constructor|]. cbn. destruct (fires last _ t) eqn:Hf; [exact IH|]. cbn. constructor; [exact IH|].
  apply List.Forall_forall. intros t' [Hin Hf'%negb_true_iff]%List.filter_In. rewrite List.Forall_forall in Ht.
  destruct (Ht t' Hin) as [?|[Hn Hle]]; [by left|]. destruct (io_is_timeout_noseq t') eqn:Hn'; [by left|]. right. split; [done|].
  rewrite !(need_later seq last) by done. lia.
Qed.

(** A flush leaves what the loop leaves, and remembers its count. *)
Lemma flush_spec s : ring_ok s -> timeouts_ordered (cq_last_tm_flush s) (timeout_list s) ->
  timeouts_distinct (timeout_list s) -> cancellable (timeout_list s) ->
  let count := as_u32 (cached_cq_tail s - cq_timeouts s) in
  let last := cq_last_tm_flush s in let got := as_u32 (count - last) in
  wp io_flush_timeouts (fun _ s' => exists s1, s' = s1 <| cq_last_tm_flush := count |> /\
    flushed_timeouts (List.filter (fires last got) (timeout_list s)) (List.filter (fun t => negb (fires last got t)) (timeout_list s)) s s1) s.
Proof.
  intros Hok Ho Hd Hc count last got. unfold io_flush_timeouts. apply wp_bind, wp_get, wp_bind, wp_get, wp_bind, wp_get, wp_bind.
  eapply wp_mono; [by apply flush_timeouts_spec|]. cbn. intros _ s1 Hs1. apply wp_set. by exists s1.
Qed.

Lemma elem_of_filter_bool {A} (f : A -> bool) (l : list A) x : x ∈ List.filter f l <-> x ∈ l /\ f x = true.
Proof. by rewrite !list_elem_of_In, List.filter_In. Qed.

Lemma filter_partition {A} (f : A -> bool) (l : list A) : l ≡ₚ List.filter f l ++ List.filter (fun x => negb (f x)) l.
Proof.
  induction l as [|t l IH]; [done|]. cbn. destruct (f t); cbn; [by rewrite <- IH|].
  by rewrite <- Permutation_middle, <- IH.
Qed.
Lemma filter_sublist {A} (f : A -> bool) (l : list A) : List.filter f l `sublist_of` l.
Proof. induction l as [|t l IH]; [constructor|]. cbn. destruct (f t); by constructor. Qed.

(** C21. Which timeouts a flush fires.  The count of a ring is
    [cached_cq_tail - cq_timeouts] modulo [2 ^ 32]: the completions put into
    the ring, less the timeouts that have fired or expired.  Let the list be
    in the order of what the timeouts still need, their numbers be distinct
    and none of the timers be running.  Then a flush removes exactly the
    timeouts that count and need at most as much as the count has advanced,
    modulo [2 ^ 32], since the last flush, posts theirs in the order of the
    list, and adds them to [cq_timeouts]; the others stay, in order again,
    each with as many fewer to see; and the flush remembers the count.  (The
    count advances with the completions only while each timeout's completion
    enters the ring: see [flush_in_full_ring].) *)
Theorem io_flush_timeouts_exact s :
  ring_ok s -> timeouts_ordered (cq_last_tm_flush s) (timeout_list s) -> timeouts_distinct (timeout_list s) ->
  cancellable (timeout_list s) ->
  let count := as_u32 (cached_cq_tail s - cq_timeouts s) in
  let last := cq_last_tm_flush s in let got := as_u32 (count - last) in
  exists s', io_flush_timeouts s = Ok (tt, s') /\ ring_ok s' /\ cq_last_tm_flush s' = count /\
  (forall t, t ∈ timeout_list s' <-> t ∈ timeout_list s /\ (io_is_timeout_noseq t = true \/ (got < need last t)%Z)) /\
  timeouts_ordered (cq_last_tm_flush s') (timeout_list s') /\
  (forall t, t ∈ timeout_list s' -> io_is_timeout_noseq t = false -> need (cq_last_tm_flush s') t = (need last t - got)%Z) /\
  (exists gone, timeout_list s ≡ₚ gone ++ timeout_list s' /\ gone `sublist_of` timeout_list s /\
     posted s' = posted s ++ fired_cqes gone /\
     as_u32 (cq_timeouts s') = as_u32 (cq_timeouts s + Z.of_nat (length gone))).
Proof.
  intros Hok Ho Hd Hc count last got.
  destruct (flush_spec s Hok Ho Hd Hc) as ([] & s' & Hr & s1 & -> & [G1 G2 G3 G4 G5 G6]).
  fold count last got in G1, G2, G3. eexists. split; [exact Hr|]. cbn. rewrite G1.
  assert (Hin : forall t, t ∈ List.filter (fun t => negb (fires last got t)) (timeout_list s) <-> t ∈ timeout_list s /\ fires last got t = false).
  { intros t. by rewrite elem_of_filter_bool, negb_true_iff. }
  split; [|split; [done|split; [|split; [by apply ordered_later|split]]]].
  - apply (ring_ok_same s1); [done|]. split; cbn; auto.
  - intros t. rewrite Hin. unfold fires. rewrite andb_false_iff, negb_false_iff, Z.leb_gt. done.
  - intros t [_ Hf]%Hin Hn. by apply need_later.
  - exists (List.filter (fires last got) (timeout_list s)). split; [apply filter_partition|].
    split; [apply filter_sublist|done].
Qed.


(** ** A new timeout *)

Lemma insert_rev_perm t off tail l : insert_timeout t off tail l ≡ₚ t :: l.
Proof.
  induction l as [|t' l IH]; [done|]. cbn. destruct (io_is_timeout_noseq t'); [by rewrite IH; constructor|].
  destruct (_ <=? _)%Z; [done|]. rewrite IH. constructor.
Qed.

Lemma ordered_snoc last l t : timeouts_ordered last l -> (forall t', t' ∈ l -> before last t' t) -> timeouts_ordered last (l ++ [t]).
Proof.
  induction 1 as [|t' l Hs IH Ht]; intros Hb; [by repeat constructor|]. cbn. constructor; [apply IH; set_solver|].
  apply Forall_app. split; [done|]. constructor; [|done]. apply Hb. set_solver.
Qed.
Lemma ordered_app_inv last l t : timeouts_ordered last (l ++ [t]) -> timeouts_ordered last l /\ (forall t', t' ∈ l -> before last t' t).
Proof.
  induction l as [|t' l IH]; intros Ho; [split; [constructor|set_solver]|]. cbn in Ho. inversion Ho as [|? ? Hs Ht]; subst.
  destruct (IH Hs) as [H1 H2]. apply Forall_app in Ht as [Ht1 Ht2]. split; [by constructor|].
  intros t'' [->|Hin]%elem_of_cons; [by inversion Ht2|by apply H2].
Qed.

Lemma before_refl_trans last t1 t2 t3 : before last t1 t2 -> before last t2 t3 -> before last t1 t3.
Proof. intros [H1|[H1 H1']] [H2|[H2 H2']]; try (by left); [congruence|right; split; [done|lia]]. Qed.

Lemma insert_ordered t tail l : io_is_timeout_noseq t = false ->
  timeouts_ordered tail (rev l) -> timeouts_ordered tail (rev (insert_timeout t (need tail t) tail l)).
Proof.
  intros Hn. induction l as [|t' l IH]; intros Ho; [by repeat constructor|]. cbn [rev insert_timeout] in *.
  destruct (ordered_app_inv _ _ _ Ho) as [Ho1 Hb]. specialize (IH Ho1).
  assert (Hperm : forall t'', t'' ∈ rev (insert_timeout t (need tail t) tail l) <-> t'' = t \/ t'' ∈ rev l).
  { intros t''. rewrite !list_elem_of_In, <- !in_rev, <- !list_elem_of_In, insert_rev_perm. set_solver. }
  destruct (io_is_timeout_noseq t') eqn:Hn'.
  - cbn. apply ordered_snoc; [done|]. intros t'' _. by left.
  - fold (need tail t'). destruct (Z.leb_spec (need tail t') (need tail t)) as [Hle|Hgt]; cbn.
    + apply ordered_snoc; [done|]. intros t'' [Hin| ->%list_elem_of_singleton]%elem_of_app.
      * eapply before_refl_trans; [by apply Hb|]. right. done.
      * right. done.
    + apply ordered_snoc; [done|]. intros t'' [->|Hin]%Hperm; [right; split; [done|lia]|by apply Hb].
Qed.

(** A new timeout takes its place in the list.  If the timeouts have been
    flushed since the last completion, as the function supposes, then adding
    one that counts [off] completions puts it where it keeps the list in
    order, needing exactly [off] more, and starts its timer; the others are
    not touched. *)
Theorem io_timeout_ordered s r off :
  (0 < off < 2 ^ 32)%Z -> cq_last_tm_flush s = timeout_seq s -> timeouts_ordered (cq_last_tm_flush s) (timeout_list s) ->
  exists s' t, io_timeout r off s = Ok (tt, s') /\ t_req t = r /\ io_is_timeout_noseq t = false /\
  need (cq_last_tm_flush s') t = off /\ cq_last_tm_flush s' = cq_last_tm_flush s /\ off_timeout_used s' = true /\
  timeout_list s' ≡ₚ t :: timeout_list s /\ timeouts_ordered (cq_last_tm_flush s') (timeout_list s') /\
  effects s' = effects s ++ [StartTimer r].
Proof.
  intros Hoff Hlast Ho. set (tail := timeout_seq s) in *. set (t := mkTimeout r off (as_u32 (tail + off))).
  assert (Hn : io_is_timeout_noseq t = false) by (unfold io_is_timeout_noseq; cbn; apply Z.eqb_neq; lia).
  assert (Hneed : need tail t = off).
  { unfold need. cbn. rewrite as_u32_sub_l. replace (tail + off - tail)%Z with off by lia. by apply as_u32_small; lia. }
  cut (wp (io_timeout r off) (fun _ s' => cq_last_tm_flush s' = tail /\ off_timeout_used s' = true /\
    timeout_list s' = rev (insert_timeout t off tail (rev (timeout_list s))) /\ effects s' = effects s ++ [StartTimer r]) s).
  - intros ([] & s' & Hr & H1 & H2 & H3 & H4). exists s', t. rewrite H1, H3. split_and!; try done.
    + by rewrite <- Permutation_rev, insert_rev_perm, <- Permutation_rev.
    + rewrite <- Hneed. apply insert_ordered; [done|]. rewrite rev_involutive. by rewrite Hlast in Ho.
  - unfold io_timeout. rewrite (proj2 (Z.eqb_neq off 0)) by lia. apply wp_bind, wp_bind, wp_set, wp_bind, wp_get, wp_bind, wp_set, wp_set.
    by apply wp_set.
Qed.
End timeouts.
