(* ===== verification/UringSubmit.v ===== *)
(** * Submitting requests to io_uring

    [io_submit_sqes] takes the entries that the application has submitted, in
    order, makes a request of each, collects linked ones into a chain, and
    gives each chain, or a request alone, to [io_queue_sqe].  What
    [io_req_prep] says of an entry and [io_req_prep_async] of its request is
    part of the entry here, but for what they do to the chain.

    Every entry that is taken becomes one request, in one chain or alone, in
    the order of the ring; and a chain in which anything fails is completed
    at once, every request of it exactly once. *)

From stdpp Require Import base numbers list.
From S2P Require Import Prelude StateMonad Uring UringRing UringLinks.
#[local] Open Scope store_scope.

(** [struct io_uring_sqe].  [sqe_creds] is 0, or the error of its
    [personality]; [sqe_prep] the result of [io_req_prep], for a linked
    timeout before it looks at the chain. *)
Record sqe := mkSqe {
  sqe_user_data : Z;
  sqe_opcode : Z;
  sqe_flags : Z;
  sqe_creds : Z;
  sqe_prep : Z;
  sqe_prep_async : Z;
}.

(** [struct io_restriction]. *)
Record restriction := mkRestriction {
  re_sqe_op : Z -> bool;
  re_flags_allowed : Z;
  re_flags_required : Z;
}.

(** What became of submitted requests: a chain was queued, or a request was
    refused. *)
Inductive submission :=
| Queued (c : list kiocb)
| Refused (k : kiocb) (res : Z).

(** [submit_state] and the parts of [io_ring_ctx] about submissions; [chain]
    is [submit_state.link], and [log] a history. *)
Record submitter := mkSubmitter {
  ctx : uring;
  sq_sqes : list sqe;
  chain : list kiocb;
  drain_disabled : bool;
  drain_next : bool;
  next_id : nat;
  log : list submission;
}.
#[export] Instance submitter_upd : Updatable submitter :=
  (rd_pure mkSubmitter <&> ctx <&> sq_sqes <&> chain <&> drain_disabled <&> drain_next <&> next_id <&> log)%upd.

Abbreviation M := (SM submitter).

(** The kernel's constants and answers. *)
Class SubmitEnv := {
  IORING_OP_LAST : Z;
  IORING_OP_LINK_TIMEOUT : Z;
  op_buffer_select : Z -> bool;               (* io_op_defs[opcode].buffer_select *)
  EINVAL : Z;
  EOPNOTSUPP : Z;
  EACCES : Z;
  EAGAIN : Z;
  submit_all : bool;                          (* IORING_SETUP_SUBMIT_ALL *)
  restricted : option restriction;
  req_alloc_ok : nat -> bool;                 (* io_alloc_req_refill, for a request *)
  defer_alloc_ok : nat -> bool;
}.

(** Error numbers are not 0. *)
Class SubmitLaws `{SE : SubmitEnv} : Prop := {
  einval_nz : EINVAL <> 0%Z;
  eopnotsupp_nz : EOPNOTSUPP <> 0%Z;
  eacces_nz : EACCES <> 0%Z;
}.

Section submit.
Context `{E : UringEnv} `{SE : SubmitEnv}.

Definition on_ctx {A} (m : U A) : M A := fun s =>
  let* (a, u) := m (ctx s) in Ok (a, s <| ctx := u |>).

(** [SQE_COMMON_FLAGS]: FIXED_FILE, IO_LINK, IO_HARDLINK and ASYNC;
    [SQE_VALID_FLAGS]: all seven. *)
Definition SQE_COMMON_FLAGS : Z := 1 + 4 + 8 + 16.
Definition SQE_VALID_FLAGS : Z := 127.

Definition io_check_restriction (r : restriction) (opcode flags : Z) : bool :=
  re_sqe_op r opcode && (Z.land flags (re_flags_required r) =? re_flags_required r)%Z &&
  (Z.ldiff flags (Z.lor (re_flags_allowed r) (re_flags_required r)) =? 0)%Z.

Definition update_head (f : kiocb -> kiocb) : M unit :=
  mset (fun s => s <| chain ::= fun c => match c with [] => [] | k :: c => f k :: c end |>).

Definition io_init_req_drain : M unit :=
  on_ctx (mset (fun s => s <| drain_active := true |>)) ;;
  do! c := mget chain in
  mwhen (nonempty c)
    (update_head (fun k => flag_on FORCE_ASYNC (flag_on IO_DRAIN k)) ;; mset (fun s => s <| drain_next := true |>)).

(** ** [io_init_req], in the order of its checks *)

(** Flags that are not common. *)
Definition init_flags (q : sqe) : M Z :=
  let flagged b := Z.testbit (sqe_flags q) b in
  if (Z.ldiff (sqe_flags q) SQE_COMMON_FLAGS =? 0)%Z then mret 0%Z
  else if negb (Z.ldiff (sqe_flags q) SQE_VALID_FLAGS =? 0)%Z then mret (- EINVAL)%Z
  else if flagged BUFFER_SELECT && negb (op_buffer_select (sqe_opcode q)) then mret (- EOPNOTSUPP)%Z
  else
    mwhen (flagged CQE_SKIP) (mset (fun s => s <| drain_disabled := true |>)) ;;
    if flagged IO_DRAIN then
      do! disabled := mget drain_disabled in
      if disabled then mret (- EOPNOTSUPP)%Z else io_init_req_drain ;; mret 0%Z
    else mret 0%Z.

(** Restrictions and drains. *)
Definition init_slow (k : kiocb) (q : sqe) : M (kiocb * Z) :=
  let denied := match restricted with Some r => negb (io_check_restriction r (sqe_opcode q) (sqe_flags q)) | None => false end in
  if denied then mret (k, - EACCES)%Z
  else
    do! active := mget (fun s => drain_active (ctx s)) in
    let k := if active then flag_on FORCE_ASYNC k else k in
    do! next := mget (fun s => drain_next s && negb (nonempty (chain s))) in
    if next then
      mset (fun s => s <| drain_next := false |>) ;;
      on_ctx (mset (fun s => s <| drain_active := true |>)) ;;
      mret (flag_on FORCE_ASYNC (flag_on IO_DRAIN k), 0%Z)
    else mret (k, 0%Z).

(** [io_req_prep]; a linked timeout arms the request before it. *)
Definition io_req_prep (q : sqe) : M Z :=
  if (sqe_opcode q =? IORING_OP_LINK_TIMEOUT)%Z && (sqe_prep q =? 0)%Z then
    do! c := mget chain in
    match rev c with
    | [] => mret (- EINVAL)%Z
    | last :: c =>
        if is_link_timeout IORING_OP_LINK_TIMEOUT last then mret (- EINVAL)%Z
        else mset (fun s => s <| chain := rev (flag_on ARM_LTIMEOUT last :: c) |>) ;; mret 0%Z
    end
  else mret (sqe_prep q).

Definition io_init_req (id : nat) (q : sqe) : M (kiocb * Z) :=
  let k := mkKiocb id (sqe_user_data q) (sqe_opcode q) (sqe_flags q) 0 (sqe_prep_async q) in
  if (IORING_OP_LAST <=? sqe_opcode q)%Z then mret (k <| k_opcode := 0%Z |>, - EINVAL)%Z
  else
    do! ret := init_flags q in
    if negb (ret =? 0)%Z then mret (k, ret)
    else
      do! r := init_slow k q in
      let '(k, ret) := r in
      if negb (ret =? 0)%Z then mret (k, ret)
      else if negb (sqe_creds q =? 0)%Z then mret (k, sqe_creds q)
      else do! ret := io_req_prep q in mret (k, ret).

(** ** Queueing *)

(** [io_queue_sqe] and [io_queue_sqe_fallback], on a request and those linked
    to it. *)
Definition io_queue_sqe (k : kiocb) (l : list kiocb) : M unit :=
  mset (fun s => s <| log ::= fun g => g ++ [Queued (k :: l)] |>) ;;
  if negb (flagged FORCE_ASYNC k || flagged FAIL k) then on_ctx (act (Issue (as_req k)))
  else if flagged FAIL k then on_ctx (io_req_complete_fail_submit IORING_OP_LINK_TIMEOUT k l)
  else
    do! active := mget (fun s => drain_active (ctx s)) in
    let failed res := io_req_complete_failed_links IORING_OP_LINK_TIMEOUT k l true res in
    if active then
      do! seq := mget (fun s => as_u32 (cached_sq_head (ctx s) - Z.of_nat (S (length l)))) in
      on_ctx (io_drain_req failed (as_req k) seq (k_prep_async k) (defer_alloc_ok (k_id k)))
    else if negb (k_prep_async k =? 0)%Z then on_ctx (failed (k_prep_async k))
    else on_ctx (act (Async (as_req k))).

(** ** [io_submit_sqe] *)

Definition fail_head : M unit :=
  update_head (fun k => if flagged FAIL k then k else req_fail_link_node k (- ECANCELED)).

(** A request that is ready, into the chain or to the queue. *)
Definition link_req (k : kiocb) : M unit :=
  do! c := mget chain in
  match c with
  | [] => if is_linked k then mset (fun s => s <| chain := [k] |>) else io_queue_sqe k []
  | _ :: _ =>
      do! k := (if negb (flagged FAIL k) && negb (k_prep_async k =? 0)%Z
                then fail_head ;; mret (req_fail_link_node k (k_prep_async k)) else mret k) in
      do! c := mget chain in
      if is_linked k then mset (fun s => s <| chain := c ++ [k] |>)
      else
        mset (fun s => s <| chain := [] |>) ;;
        match c ++ [k] with [] => mskip | head :: l => io_queue_sqe head l end
  end.

Definition io_submit_sqe (id : nat) (q : sqe) : M Z :=
  do! r := io_init_req id q in
  let '(k, ret) := r in
  do! c := mget chain in
  if (ret =? 0)%Z then link_req k ;; mret 0%Z
  else if nonempty c then fail_head ;; link_req (req_fail_link_node k ret) ;; mret 0%Z
  else if is_linked k then link_req (req_fail_link_node k ret) ;; mret 0%Z
  else
    mset (fun s => s <| log ::= fun g => g ++ [Refused k ret] |>) ;;
    on_ctx (io_req_complete_failed_links IORING_OP_LINK_TIMEOUT k [] true ret) ;;
    mret ret.

(** ** [io_submit_sqes] *)

Definition io_submit_state_start : M unit := mset (fun s => s <| chain := [] |>).
(** Up to [io_submit_flush_completions]. *)
Definition io_submit_state_end : M unit :=
  do! c := mget chain in match c with [] => mskip | k :: l => io_queue_sqe k l end.

(** The entry that [io_get_sqe] finds. *)
Definition get_sqe : M (option sqe) :=
  do! i := on_ctx io_get_sqe in
  match i with
  | None => mret None
  | Some i => do! q := mget (fun s => sq_sqes s !! Z.to_nat i) in match q with Some q => mret (Some q) | None => a_crash end
  end.

(** [n] rounds are left. *)
Fixpoint submit_loop (n : nat) (submitted : Z) : M Z :=
  match n with
  | O => mret submitted
  | S n =>
      do! id := mget next_id in
      if negb (req_alloc_ok id) then mret (if (submitted =? 0)%Z then (- EAGAIN)%Z else submitted)
      else
        do! q := get_sqe in
        match q with
        | None => mret submitted
        | Some q =>
            mset (fun s => s <| next_id ::= S |>) ;;
            do! ret := io_submit_sqe id q in
            if negb (ret =? 0)%Z && negb submit_all then mret (submitted + 1)%Z
            else submit_loop n (submitted + 1)
        end
  end.

(** The loop runs at least once. *)
Definition io_submit_sqes (nr : Z) : M Z :=
  do! entries := mget (fun s => io_sqring_entries (ctx s)) in
  if (entries =? 0)%Z then mret 0%Z
  else
    let nr := Z.min nr (Z.min sq_entries entries) in
    io_submit_state_start ;;
    do! submitted := submit_loop (Z.to_nat (Z.max 1 nr)) 0 in
    io_submit_state_end ;;
    on_ctx io_commit_sqring ;;
    mret submitted.
End submit.

(** * What submitting requests promises *)

(** ** The submission ring is left alone *)

Section frames.
Context `{E : UringEnv}.

Definition submission_side (s : uring) : list Z * Z * Z := (sq_array s, cached_sq_head s, sq_tail s).
Definition frames {A} (m : U A) : Prop := forall s a s', m s = Ok (a, s') -> submission_side s' = submission_side s.

Lemma frames_bind {A B} (m : U A) (f : A -> U B) : frames m -> (forall a, frames (f a)) -> frames (mbind_ m f).
Proof.
  intros Hm Hf s b s' H. unfold mbind_ in H. apply res_bind_ok in H as ([a s1] & H1 & H2). rewrite (Hf a s1 b s' H2). by apply (Hm s a).
Qed.
Lemma frames_get {A} (f : uring -> A) : frames (mget f).
Proof. by intros s a s' [= _ <-]. Qed.
Lemma frames_ret {A} (a : A) : frames (mret a).
Proof. by intros s b s' [= _ <-]. Qed.
Lemma frames_skip : frames mskip.
Proof. apply frames_ret. Qed.
Lemma frames_set f : (forall s, submission_side (f s) = submission_side s) -> frames (mset f).
Proof. intros H s a s' [= _ <-]. apply H. Qed.
Lemma frames_when b m : frames m -> frames (mwhen b m).
Proof. destruct b; [done|intros _; apply frames_skip]. Qed.
Lemma frames_if {A} (b : bool) (m n : U A) : frames m -> frames n -> frames (if b then m else n).
Proof. by destruct b. Qed.
Lemma frames_get_cqe : frames io_get_cqe.
Proof. intros s a s'. unfold io_get_cqe. destruct (_ =? _)%Z; by intros [= _ <-]. Qed.
Lemma frames_write i c : frames (write_cqe i c).
Proof. intros s a s'. unfold write_cqe. destruct (_ && _); [by intros [= _ <-]|done]. Qed.
End frames.

Create HintDb frames.
#[export] Hint Resolve frames_bind frames_get frames_ret frames_skip frames_when frames_if frames_get_cqe frames_write : frames.
#[export] Hint Extern 1 (frames (mset _)) => apply frames_set; reflexivity : frames.

Section frames_ops.
Context `{E : UringEnv}.

Lemma frames_act e : frames (act e).
Proof. unfold act. auto with frames. Qed.
Lemma frames_commit : frames io_commit_cqring.
Proof. unfold io_commit_cqring. auto with frames. Qed.
#[local] Hint Resolve frames_act frames_commit : frames.
Lemma frames_fill_cqe c : frames (__io_fill_cqe c).
Proof.
  unfold __io_fill_cqe, io_cqring_event_overflow, io_account_cq_overflow. apply frames_bind; [auto with frames|]. intros _.
  apply frames_bind; [auto with frames|]. intros [i|]; auto 20 with frames.
Qed.
#[local] Hint Resolve frames_fill_cqe : frames.
Lemma frames_fill_req r res flags : frames (io_fill_cqe_req r res flags).
Proof. unfold io_fill_cqe_req. auto with frames. Qed.
#[local] Hint Resolve frames_fill_req : frames.
Lemma frames_flush_timeouts seq last l : frames (flush_timeouts seq last l).
Proof. induction l; cbn [flush_timeouts]; unfold io_kill_timeout, list_del; auto 20 with frames. Qed.
Lemma frames_queue_deferred l : frames (queue_deferred l).
Proof. induction l; cbn [queue_deferred]; auto 20 with frames. Qed.
#[local] Hint Resolve frames_flush_timeouts frames_queue_deferred : frames.
Lemma frames_ev_posted : frames io_cqring_ev_posted.
Proof. unfold io_cqring_ev_posted, __io_commit_cqring_flush, io_flush_timeouts, io_queue_deferred. auto 20 with frames. Qed.
#[local] Hint Resolve frames_ev_posted : frames.
Lemma frames_fail_links ignore l : frames (fail_links ignore l).
Proof. induction l; cbn [fail_links]; auto with frames. Qed.
#[local] Hint Resolve frames_fail_links : frames.
Lemma frames_disarm_next lt k l : frames (io_disarm_next lt k l).
Proof.
  unfold io_disarm_next, io_kill_linked_timeout. apply frames_bind.
  - destruct (flagged ARM_LTIMEOUT k), (flagged LINK_TIMEOUT k), l; auto with frames; destruct (is_link_timeout _ _); auto with frames.
  - intros [p r]. unfold io_fail_links. auto with frames.
Qed.
#[local] Hint Resolve frames_disarm_next : frames.
Lemma frames_complete_links lt k l last res cflags : frames (io_req_complete_post_links lt k l last res cflags).
Proof.
  unfold io_req_complete_post_links, __io_req_complete_post. apply frames_bind; [|auto with frames].
  apply frames_bind; [auto with frames|]. intros _. apply frames_when, frames_if; [|auto with frames].
  apply frames_bind; [auto with frames|]. intros [p [|m r]]; cbn; auto with frames.
Qed.
Lemma frames_drain failed r seq prep alloc : (forall res, frames (failed res)) -> frames (io_drain_req failed r seq prep alloc).
Proof. intros Hf. unfold io_drain_req. auto 20 with frames. Qed.
End frames_ops.
#[export] Hint Resolve frames_act frames_complete_links frames_drain : frames.

Section props.
Context `{E : UringEnv} `{L : !UringLaws} `{SE : SubmitEnv} `{SL : !SubmitLaws}.
Implicit Types (s : submitter) (k : kiocb) (c : list kiocb) (q : sqe).

(** ** Operations of the rings, on a submitter *)

Definition rings_ok s : Prop := in_order true (ctx s).

Lemma wp_on_ctx {A} (m : U A) (Q : A -> submitter -> Prop) s :
  keeps true m -> frames m -> rings_ok s ->
  (forall a u, in_order true u -> submission_side u = submission_side (ctx s) -> Q a (s <| ctx := u |>)) -> wp (on_ctx m) Q s.
Proof.
  intros Hk Hf Hs HQ. destruct (Hk _ Hs) as (a & u & Hr & Hu). exists a, (s <| ctx := u |>). split; [|by apply HQ; [|apply (Hf _ a)]].
  unfold on_ctx. by rewrite Hr.
Qed.

(** ** What a request and a chain keep *)

Definition ident k : nat * Z := (k_id k, k_user_data k).
Definition key k : nat * Z * bool * bool * Z := (ident k, is_linked k, flagged FAIL k, k_result k).

Definition linked_all c : Prop := Forall (fun k => is_linked k = true) c.
Definition head_fails c : bool := match c with k :: _ => flagged FAIL k | [] => false end.
(** If a request of the chain has failed, the first is marked. *)
Definition fail_at_head c : Prop := existsb (flagged FAIL) c = true -> head_fails c = true.
Definition chain_ok c : Prop := linked_all c /\ fail_at_head c.
Lemma chain_ok_nil : chain_ok [].
Proof. split; [constructor|done]. Qed.
#[local] Hint Resolve chain_ok_nil : core.

Lemma key_ident c c' : key <$> c' = key <$> c -> ident <$> c' = ident <$> c.
Proof.
  intros H. assert (Hk : forall c, ident <$> c = (fun x => x.1.1.1) <$> (key <$> c)) by (intros; by rewrite <- list_fmap_compose).
  by rewrite !Hk, H.
Qed.
Lemma key_chain_ok c c' : key <$> c' = key <$> c -> chain_ok c -> chain_ok c'.
Proof.
  intros H [Hl Hf]. split.
  - assert (Hk : forall c, linked_all c <-> Forall (fun x => x.1.1.2 = true) (key <$> c)) by (intros; unfold linked_all; by rewrite Forall_fmap).
    by rewrite Hk, H, <- Hk.
  - assert (Hk : forall c, existsb (flagged FAIL) c = existsb (fun x => x.1.2) (key <$> c)) by (intros c0; induction c0; cbn; by f_equal).
    assert (Hh : forall c, head_fails c = match key <$> c with x :: _ => x.1.2 | [] => false end) by (by intros []).
    unfold fail_at_head. by rewrite Hk, Hh, H, <- Hk, <- Hh.
Qed.

Lemma key_set_flag bit k : (0 <= bit)%Z -> bit <> LINK -> bit <> HARDLINK -> bit <> FAIL -> key (flag_on bit k) = key k.
Proof.
  intros H0 H1 H2 H3. unfold key, is_linked. rewrite !has_set by done. by rewrite !(proj2 (Z.eqb_neq _ _)).
Qed.
Lemma key_fail_node k res : key (req_fail_link_node k res) = (ident k, is_linked k, true, res).
Proof.
  unfold key, is_linked, req_fail_link_node. change (flagged ?b (_ <| k_result := res |>)) with (flagged b (set_fail k)).
  unfold set_fail. cbv zeta. destruct (flagged CQE_SKIP _); f_equal; f_equal; repeat (rewrite ?has_set, ?has_clear by done);
    cbn; by rewrite ?andb_true_r.
Qed.

(** ** What is wrong with an entry *)

(** The error that an entry has whatever the state of the ring, if any, in the
    order of the checks. *)
Definition flags_error q : option Z :=
  let flag b := Z.testbit (sqe_flags q) b in
  if (2 ^ 7 <=? sqe_flags q)%Z then Some (- EINVAL)%Z
  else if flag BUFFER_SELECT && negb (op_buffer_select (sqe_opcode q)) then Some (- EOPNOTSUPP)%Z
  else if flag IO_DRAIN && flag CQE_SKIP then Some (- EOPNOTSUPP)%Z
  else None.
Definition denied q : bool :=
  match restricted with Some r => negb (io_check_restriction r (sqe_opcode q) (sqe_flags q)) | None => false end.
Definition entry_error q : option Z :=
  if (IORING_OP_LAST <=? sqe_opcode q)%Z then Some (- EINVAL)%Z
  else match flags_error q with
  | Some e => Some e
  | None =>
      if denied q then Some (- EACCES)%Z
      else if negb (sqe_creds q =? 0)%Z then Some (sqe_creds q)
      else if negb (sqe_prep q =? 0)%Z then Some (sqe_prep q)
      else None
  end.

(** The results that preparing an entry may have: its error, or success; a
    drain may also be refused because completions were skipped before, and a
    linked timeout because nothing stands before it that it could time. *)
Definition init_result q (r : Z) : Prop :=
  (Z.testbit (sqe_flags q) IO_DRAIN = true /\ r = (- EOPNOTSUPP)%Z) \/
  match entry_error q with
  | Some e => r = e
  | None => r = 0%Z \/ (sqe_opcode q = IORING_OP_LINK_TIMEOUT /\ r = (- EINVAL)%Z)
  end.

(** The flags of an entry are a byte. *)
Definition sqe_ok q : Prop := (0 <= sqe_flags q < 2 ^ 8)%Z.
Definition sqe_linked q : bool := Z.testbit (sqe_flags q) LINK || Z.testbit (sqe_flags q) HARDLINK.

Lemma byte_flags (f : Z) : (0 <= f < 2 ^ 8)%Z ->
  (Z.ldiff f SQE_VALID_FLAGS =? 0)%Z = negb (2 ^ 7 <=? f)%Z /\
  ((Z.ldiff f SQE_COMMON_FLAGS =? 0)%Z = true -> (2 ^ 7 <=? f)%Z = false /\
     Z.testbit f BUFFER_SELECT = false /\ Z.testbit f IO_DRAIN = false /\ Z.testbit f CQE_SKIP = false).
Proof.
  intros Hf.
  set (ok f := (eqb (Z.ldiff f SQE_VALID_FLAGS =? 0)%Z (negb (2 ^ 7 <=? f)%Z)) &&
    implb (Z.ldiff f SQE_COMMON_FLAGS =? 0)%Z (negb (2 ^ 7 <=? f)%Z && negb (Z.testbit f BUFFER_SELECT) &&
      negb (Z.testbit f IO_DRAIN) && negb (Z.testbit f CQE_SKIP))).
  assert (H : forallb (fun i => ok (Z.of_nat i)) (seq 0 256) = true) by (vm_compute; reflexivity).
  rewrite forallb_forall in H. specialize (H (Z.to_nat f) ltac:(apply in_seq; lia)). rewrite Z2Nat.id in H by lia.
  apply andb_true_iff in H as [H1%eqb_prop H2]. split; [done|]. intros Hc. rewrite Hc in H2. cbn [implb] in H2.
  rewrite !andb_true_iff, !negb_true_iff in H2. tauto.
Qed.

(** ** [io_init_req] *)

(** Nothing changes but flags that do not matter here. *)
Record held s s' : Prop := {
  he_ok : rings_ok s';
  he_side : submission_side (ctx s') = submission_side (ctx s);
  he_sqes : sq_sqes s' = sq_sqes s;
  he_next : next_id s' = next_id s;
  he_log : log s' = log s;
  he_chain : key <$> chain s' = key <$> chain s;
}.
Definition holds {A} (m : M A) (P : A -> Prop) : Prop := forall s, rings_ok s -> wp m (fun a s' => P a /\ held s s') s.

Lemma holds_ret {A} (a : A) (P : A -> Prop) : P a -> holds (mret a) P.
Proof. intros HP s Hs. apply wp_ret. by split. Qed.
Lemma holds_bind {A B} (m : M A) (f : A -> M B) (P : A -> Prop) (Q : B -> Prop) :
  holds m P -> (forall a, P a -> holds (f a) Q) -> holds (mbind_ m f) Q.
Proof.
  intros Hm Hf s Hs. apply wp_bind. eapply wp_mono; [by apply Hm|]. intros a s1 [Ha H1]. eapply wp_mono; [by apply (Hf a Ha), H1|].
  intros b s2 [Hb H2]. split; [done|]. destruct H1, H2. split; congruence.
Qed.
Lemma holds_get {A} (f : submitter -> A) : holds (mget f) (fun _ => True).
Proof. intros s Hs. by apply wp_get. Qed.
Lemma holds_set f : (forall s, rings_ok s -> held s (f s)) -> holds (mset f) (fun _ => True).
Proof. intros H s Hs. apply wp_set. split; [done|by apply H]. Qed.
Lemma holds_ctx (m : U unit) : keeps true m -> frames m -> holds (on_ctx m) (fun _ => True).
Proof. intros Hk Hf s Hs. apply wp_on_ctx; [done..|]. intros a u Hu Hside. split; [done|by split]. Qed.
Lemma holds_when b (m : M unit) : holds m (fun _ => True) -> holds (mwhen b m) (fun _ => True).
Proof. destruct b; [done|]. intros _. by apply holds_ret. Qed.

Lemma holds_drain_active : holds (on_ctx (mset (fun u : uring => u <| drain_active := true |>))) (fun _ => True).
Proof. apply holds_ctx; [auto with keeps|auto with frames]. Qed.

Lemma holds_init_req_drain : holds io_init_req_drain (fun _ => True).
Proof.
  apply (holds_bind _ _ (fun _ => True)); [apply holds_drain_active|]. intros _ _.
  apply (holds_bind _ _ (fun _ => True)); [apply holds_get|]. intros c _. apply holds_when.
  apply (holds_bind _ _ (fun _ => True)); [|intros; by apply holds_set; split].
  apply holds_set. intros s Hs. split; try done. cbn. destruct (chain s) as [|k l]; [done|]. cbn. f_equal.
  by rewrite !key_set_flag.
Qed.

Definition flags_result q (r : Z) : Prop :=
  (Z.testbit (sqe_flags q) IO_DRAIN = true /\ r = (- EOPNOTSUPP)%Z) \/ r = default 0%Z (flags_error q).

Lemma holds_init_flags q : sqe_ok q -> holds (init_flags q) (flags_result q).
Proof.
  intros Hq. destruct (byte_flags _ Hq) as [Hvalid Hcommon]. unfold init_flags, flags_result, flags_error.
  destruct (Z.ldiff (sqe_flags q) SQE_COMMON_FLAGS =? 0)%Z.
  { apply holds_ret. right. destruct Hcommon as (-> & -> & -> & _); done. }
  rewrite Hvalid, negb_involutive. destruct (_ <=? _)%Z; [by apply holds_ret; right|].
  destruct (Z.testbit (sqe_flags q) BUFFER_SELECT && negb (op_buffer_select (sqe_opcode q))); [by apply holds_ret; right|].
  destruct (Z.testbit (sqe_flags q) CQE_SKIP); cbn [mwhen]; rewrite ?andb_true_r, ?andb_false_r.
  - intros s Hs. apply wp_bind, wp_set. destruct (Z.testbit (sqe_flags q) IO_DRAIN); [apply wp_bind, wp_get|]; apply wp_ret.
    all: split; [by right|by split].
  - apply (holds_bind _ _ (fun _ => True)); [by apply holds_ret|]. intros _ _.
    destruct (Z.testbit (sqe_flags q) IO_DRAIN); [|by apply holds_ret; right].
    apply (holds_bind _ _ (fun _ => True)); [apply holds_get|]. intros [] _; [by apply holds_ret; left|].
    apply (holds_bind _ _ (fun _ => True)); [apply holds_init_req_drain|]. intros _ _. by apply holds_ret; right.
Qed.

Lemma holds_init_slow k q : holds (init_slow k q) (fun r => key r.1 = key k /\
  k_prep_async r.1 = k_prep_async k /\ r.2 = if denied q then (- EACCES)%Z else 0%Z).
Proof.
  unfold init_slow. fold (denied q). destruct (denied q); [by apply holds_ret|].
  apply (holds_bind _ _ (fun _ => True)); [apply holds_get|]. intros active _.
  apply (holds_bind _ _ (fun _ => True)); [apply holds_get|]. intros next _.
  destruct next; [|by apply holds_ret; destruct active; cbn; rewrite ?key_set_flag].
  apply (holds_bind _ _ (fun _ => True)); [by apply holds_set; split|]. intros _ _.
  apply (holds_bind _ _ (fun _ => True)); [apply holds_drain_active|]. intros _ _.
  apply holds_ret. cbn. destruct active; by rewrite !key_set_flag.
Qed.

Lemma holds_prep q : holds (io_req_prep q) (fun r =>
  r = sqe_prep q \/ (sqe_prep q = 0%Z /\ sqe_opcode q = IORING_OP_LINK_TIMEOUT /\ r = (- EINVAL)%Z)).
Proof.
  unfold io_req_prep. destruct (_ && _) eqn:Hb; [|by apply holds_ret; left].
  apply andb_true_iff in Hb as [Hop%Z.eqb_eq Hp%Z.eqb_eq]. intros s Hs. apply wp_bind, wp_get.
  destruct (rev (chain s)) as [|k c] eqn:Hr; [by apply wp_ret; split; [right|]|].
  destruct (is_link_timeout _ _); [by apply wp_ret; split; [right|]|].
  apply wp_bind, wp_set, wp_ret. split; [by left|]. split; try done. cbn.
  rewrite <- (rev_involutive (chain s)), Hr. cbn. by rewrite !fmap_app, !list_fmap_singleton, key_set_flag.
Qed.

Lemma holds_init id q : sqe_ok q -> holds (io_init_req id q) (fun r =>
  key r.1 = (id, sqe_user_data q, sqe_linked q, false, 0%Z) /\ k_prep_async r.1 = sqe_prep_async q /\ init_result q r.2).
Proof.
  intros Hq. unfold io_init_req. set (k := mkKiocb _ _ _ _ _ _).
  assert (Hk : key k = (id, sqe_user_data q, sqe_linked q, false, 0%Z)).
  { assert (Hf : flagged FAIL k = false); [|by unfold key; rewrite Hf]. change (Z.testbit (sqe_flags q) FAIL = false).
    unfold sqe_ok in Hq. destruct (Z.eq_dec (sqe_flags q) 0%Z) as [->|Hn]; [done|].
    apply Z.bits_above_log2; [lia|]. apply Z.log2_lt_pow2; unfold FAIL; lia. }
  unfold init_result, entry_error.
  destruct (_ <=? _)%Z; [by apply holds_ret; split_and!; [done..|right]|].
  eapply holds_bind; [by apply holds_init_flags|]. intros r Hr.
  pose proof einval_nz as N1. pose proof eopnotsupp_nz as N2. pose proof eacces_nz as N3.
  destruct (Z.eqb_spec r 0) as [->|Hr0]; cbn [negb].
  2: { apply holds_ret. split_and!; [done..|]. cbn. destruct Hr as [Hr| ->]; [by left|]. right.
       by destruct (flags_error q). }
  assert (Hnone : flags_error q = None).
  { destruct Hr as [[_ H]|H]; [lia|]. unfold flags_error in *. repeat case_match; cbn in H; first [done|lia]. }
  rewrite Hnone. eapply holds_bind; [apply holds_init_slow|]. intros [k1 r1] (H1 & H2 & H3). cbn in H1, H2, H3.
  rewrite Hk in H1. destruct (denied q); rewrite H3.
  { rewrite (proj2 (Z.eqb_neq (- EACCES) 0)) by lia. apply holds_ret. split_and!; [done..|by right]. }
  cbn [negb Z.eqb]. destruct (negb (sqe_creds q =? 0)%Z); [by apply holds_ret; split_and!; [done..|right]|].
  eapply holds_bind; [apply holds_prep|]. intros r2 Hr2. apply holds_ret. split_and!; [done..|]. right. cbn.
  destruct (Z.eqb_spec (sqe_prep q) 0) as [Hz|Hz]; cbn [negb]; naive_solver.
Qed.

(** ** What becomes of a request

    [src] gives the entry that a request was made of, by its number. *)

(** A request of a chain that was made of entry [q], which was prepared with
    result [r], has failed with its own error, if there is one: [r], or that
    of [io_req_prep_async], which is asked of all but the [first] request of a
    chain.  Without one of its own, it is marked as failed only if it is the
    first, and a [later] one has failed; it is cancelled then. *)
Definition fate (src : nat -> option sqe) (first later : bool) k : Prop :=
  exists q r, src (k_id k) = Some q /\ init_result q r /\ is_linked k = sqe_linked q /\
  let own := if (r =? 0)%Z then (if first then 0%Z else sqe_prep_async q) else r in
  if (own =? 0)%Z then flagged FAIL k = later /\ (later = true -> k_result k = (- ECANCELED)%Z)
  else flagged FAIL k = true /\ k_result k = own.
Definition fates (src : nat -> option sqe) c : Prop :=
  match c with [] => True | k :: l => fate src true (existsb (flagged FAIL) l) k /\ Forall (fate src false false) l end.

Lemma fate_key src first later k k' : key k' = key k -> fate src first later k -> fate src first later k'.
Proof.
  intros H (q & r & H1 & H2 & H3 & H4). exists q, r. unfold key, ident in H.
  assert (k_id k' = k_id k /\ is_linked k' = is_linked k /\ flagged FAIL k' = flagged FAIL k /\ k_result k' = k_result k) as (-> & -> & -> & ->)
    by (split_and!; congruence). done.
Qed.
Lemma key_cons k l k' l' : key <$> k' :: l' = key <$> k :: l -> key k' = key k /\ key <$> l' = key <$> l.
Proof. rewrite !fmap_cons. intros H. split; [exact (f_equal (hd (key k)) H)|exact (f_equal tail H)]. Qed.
Lemma fates_key src c c' : key <$> c' = key <$> c -> fates src c -> fates src c'.
Proof.
  destruct c as [|k l], c' as [|k' l']; try done. intros [H Hl]%key_cons [Hk Hf].
  assert (existsb (flagged FAIL) l' = existsb (flagged FAIL) l /\ Forall (fate src false false) l') as [He Hf'].
  { clear H Hk k k'. revert l Hl Hf. induction l' as [|m' l' IH]; intros [|m l]; try done. intros [Hm Hl]%key_cons [Hf1 Hf2]%Forall_cons.
    destruct (IH l Hl Hf2) as [He H2]. cbn. rewrite He. split; [|constructor; [by eapply fate_key|done]].
    f_equal. exact (f_equal (fun x => x.1.2) Hm). }
  split; [|done]. rewrite He. by eapply fate_key.
Qed.

(** ** Chains *)

Definition members (g : submission) : list kiocb := match g with Queued c => c | Refused k _ => [k] end.
(** A request alone, or a chain that ends where it should. *)
Definition closed (g : submission) : Prop :=
  match g with
  | Refused k _ => is_linked k = false
  | Queued c => exists c' k, c = c' ++ [k] /\ linked_all c' /\ is_linked k = false /\ fail_at_head c
  end.

(** What became of requests that were queued or refused. *)
Definition settled (src : nat -> option sqe) (g : submission) : Prop :=
  match g with
  | Queued c => fates src c
  | Refused k res => exists q, src (k_id k) = Some q /\ is_linked k = sqe_linked q /\ init_result q res /\ res <> 0%Z
  end.
Definition refused (g : submission) : Prop := match g with Refused _ _ => True | Queued _ => False end.

(** [gs] were queued or refused. *)
Record grown (gs : list submission) s s' : Prop := {
  gr_ok : rings_ok s';
  gr_side : submission_side (ctx s') = submission_side (ctx s);
  gr_sqes : sq_sqes s' = sq_sqes s;
  gr_next : next_id s' = next_id s;
  gr_log : log s' = log s ++ gs;
}.

Lemma wp_queue k l s : rings_ok s -> wp (io_queue_sqe k l) (fun _ s' => grown [Queued (k :: l)] s s' /\ chain s' = chain s) s.
Proof.
  intros Hs. apply wp_bind, wp_set. set (s0 := s <| log ::= _ |>).
  assert (Hctx : forall m : U unit, keeps true m -> frames m ->
    wp (on_ctx m) (fun _ s' => grown [Queued (k :: l)] s s' /\ chain s' = chain s) s0).
  { intros m Hk Hf. apply wp_on_ctx; [done..|]. intros a u Hu Hside. by split; [split|]. }
  assert (Hk : forall res, keeps true (io_req_complete_failed_links IORING_OP_LINK_TIMEOUT k l true res)) by (intros; apply keeps_complete_links).
  assert (Hf : forall res, frames (io_req_complete_failed_links IORING_OP_LINK_TIMEOUT k l true res)) by (intros; apply frames_complete_links).
  destruct (negb _); [apply Hctx; auto with keeps frames|].
  destruct (flagged FAIL k); [apply Hctx; [apply keeps_complete_links|apply frames_complete_links]|].
  apply wp_bind, wp_get. destruct (drain_active _).
  - apply wp_bind, wp_get. apply Hctx; [by apply keeps_drain|by apply frames_drain].
  - destruct (negb _); apply Hctx; auto with keeps frames.
Qed.

Lemma fail_at_head_one k : fail_at_head [k].
Proof. unfold fail_at_head. cbn. by destruct (flagged FAIL k). Qed.
Lemma fail_at_head_snoc c k : c <> [] -> fail_at_head c -> (flagged FAIL k = true -> head_fails c = true) -> fail_at_head (c ++ [k]).
Proof.
  intros Hc Hf Hk. unfold fail_at_head in *. rewrite existsb_app. cbn. rewrite orb_false_r. intros H.
  destruct c as [|k0 c]; [done|]. apply orb_true_iff in H as [H|H]; [by apply Hf|by apply Hk].
Qed.

Definition marked c : list kiocb :=
  match c with k :: l => (if flagged FAIL k then k else req_fail_link_node k (- ECANCELED)) :: l | [] => [] end.
Lemma has_fail_node k res : flagged FAIL (req_fail_link_node k res) = true.
Proof. exact (f_equal (fun x => x.1.2) (key_fail_node k res)). Qed.
Lemma linked_fail_node k res : is_linked (req_fail_link_node k res) = is_linked k.
Proof. exact (f_equal (fun x => x.1.1.2) (key_fail_node k res)). Qed.
Lemma ident_fail_node k res : ident (req_fail_link_node k res) = ident k.
Proof. exact (f_equal (fun x => x.1.1.1) (key_fail_node k res)). Qed.
Lemma id_fail_node k res : k_id (req_fail_link_node k res) = k_id k.
Proof. exact (f_equal fst (ident_fail_node k res)). Qed.
Lemma marked_ok c : chain_ok c -> chain_ok (marked c) /\ ident <$> marked c = ident <$> c /\ (c <> [] -> marked c <> [] /\ head_fails (marked c) = true).
Proof.
  destruct c as [|k c]; [done|]. intros [Hl Hf]. cbn. destruct (flagged FAIL k) eqn:Hk; [done|].
  split; [|split; [|by intros _; rewrite has_fail_node]].
  - split; [|intros _; apply has_fail_node]. inversion Hl; subst. constructor; [by rewrite linked_fail_node|done].
  - f_equal. apply ident_fail_node.
Qed.

Lemma fate_marked src later k : fate src true later k ->
  fate src true true (if flagged FAIL k then k else req_fail_link_node k (- ECANCELED)).
Proof.
  intros (q & r & H1 & H2 & H3 & H4). destruct (flagged FAIL k) eqn:Hf.
  - exists q, r. do 3 (split; [done|]). cbv zeta in *. set (own := if (r =? 0)%Z then _ else r) in *.
    revert H4. destruct (own =? 0)%Z; intros H4; [|by rewrite Hf].
    destruct H4 as [<- H5]. by split; [|intros _; apply H5].
  - exists q, r. rewrite id_fail_node, linked_fail_node, has_fail_node. do 3 (split; [done|]). cbv zeta in *. set (own := if (r =? 0)%Z then _ else r) in *.
    revert H4. destruct (own =? 0)%Z; [done|]. by intros [H4 _].
Qed.
Lemma fates_snoc src c k : c <> [] -> fates src c -> fate src false false k -> flagged FAIL k = false -> fates src (c ++ [k]).
Proof.
  destruct c as [|h l]; [done|]. intros _ [H1 H2] H3 H4. cbn. rewrite existsb_app. cbn. rewrite H4, !orb_false_r.
  split; [done|]. apply Forall_app. split; [done|]. by constructor.
Qed.
Lemma fates_mark src c k : c <> [] -> fates src c -> fate src false false k -> flagged FAIL k = true -> fates src (marked c ++ [k]).
Proof.
  destruct c as [|h l]; [done|]. intros _ [H1 H2] H3 H4. cbn. rewrite existsb_app. cbn. rewrite H4, orb_true_r.
  split; [by eapply fate_marked|]. apply Forall_app. split; [done|]. by constructor.
Qed.

Lemma wp_fail_head s (Q : unit -> submitter -> Prop) : Q tt (s <| chain := marked (chain s) |>) -> wp fail_head Q s.
Proof. intros H. apply wp_set. unfold field_update in *. cbn in *. by destruct (chain s). Qed.

(** What adding a request to the chain or the queue does. *)
Record added (src : nat -> option sqe) (gs : list submission) (x : nat * Z) s s' : Prop := {
  ad_grown : grown gs s s';
  ad_closed : Forall closed gs;
  ad_settled : Forall (settled src) gs;
  ad_chain : chain_ok (chain s');
  ad_fates : fates src (chain s');
  ad_ids : ident <$> (concat (members <$> gs) ++ chain s') = (ident <$> chain s) ++ [x];
}.
Definition queues src x s s' : Prop := exists gs, added src gs x s s' /\ Forall (fun g => ~ refused g) gs.

(** A chain that is not empty gets [k]. *)
Lemma wp_chain_add src k c s : rings_ok s -> c <> [] -> chain_ok c -> (flagged FAIL k = true -> head_fails c = true) ->
  ident <$> chain s = ident <$> c -> fates src (c ++ [k]) ->
  wp (if is_linked k then mset (fun s => s <| chain := c ++ [k] |>)
      else mset (fun s => s <| chain := [] |>) ;; match c ++ [k] with [] => mskip | head :: l => io_queue_sqe head l end)
     (fun _ => queues src (ident k) s) s.
Proof.
  intros Hs Hc [Hl Hf] Hk Hid Hft. destruct (is_linked k) eqn:Hlk.
  - apply wp_set. exists []. split; [|done]. split; [by split; cbn; rewrite ?app_nil_r|done|done| |done|].
    + split; [apply Forall_app; by repeat constructor|]. by apply fail_at_head_snoc.
    + cbn. by rewrite fmap_app, Hid.
  - apply wp_bind, wp_set. destruct (c ++ [k]) as [|h l] eqn:Hck; [by destruct c|].
    eapply wp_mono; [by apply wp_queue|]. intros [] s' [[H1 H2 H3 H4 H5] H6]. exists [Queued (h :: l)].
    split; [split|by repeat constructor; intros []]; rewrite ?H6; try done.
    + constructor; [|done]. exists c, k. rewrite <- Hck. split_and!; try done. by apply fail_at_head_snoc.
    + by constructor.
    + cbn. rewrite !app_nil_r. change (ident <$> h :: l = (ident <$> chain s) ++ [ident k]). by rewrite <- Hck, fmap_app, Hid.
Qed.

Lemma wp_link_req src k s : rings_ok s -> chain_ok (chain s) -> (flagged FAIL k = true -> chain s <> [] -> head_fails (chain s) = true) ->
  (chain s = [] -> fates src [k]) ->
  (chain s <> [] -> negb (flagged FAIL k) && negb (k_prep_async k =? 0)%Z = false -> fates src (chain s ++ [k])) ->
  (chain s <> [] -> negb (flagged FAIL k) && negb (k_prep_async k =? 0)%Z = true ->
     fates src (marked (chain s) ++ [req_fail_link_node k (k_prep_async k)])) ->
  wp (link_req k) (fun _ => queues src (ident k) s) s.
Proof.
  intros Hs Hc Hk F1 F2 F3. unfold link_req. apply wp_bind, wp_get. destruct (chain s) as [|h l] eqn:Hch.
  - specialize (F1 eq_refl). destruct (is_linked k) eqn:Hl.
    + apply wp_set. exists []. split; [|done]. split; [by split; cbn; rewrite ?app_nil_r|done|done| |done|]; cbn; rewrite ?Hch; [|done].
      split; [by constructor|apply fail_at_head_one].
    + eapply wp_mono; [by apply wp_queue|]. intros [] s' [[H1 H2 H3 H4 H5] H6]. exists [Queued [k]].
      split; [split|by repeat constructor; intros []]; rewrite ?H6, ?Hch; try done; [|by constructor].
      constructor; [|done]. exists [], k. split; [done|]. split; [constructor|]. split; [done|apply fail_at_head_one].
  - rewrite <- Hch in *. assert (Hne : chain s <> []) by (by rewrite Hch). specialize (F2 Hne). specialize (F3 Hne).
    apply wp_bind. destruct (negb (flagged FAIL k) && negb (k_prep_async k =? 0)%Z).
    + destruct (marked_ok _ Hc) as (Hc' & Hid & Hm). specialize (Hm Hne) as [Hne' Hh].
      apply wp_bind, wp_fail_head, wp_ret, wp_bind, wp_get. cbn.
      eapply wp_mono; [apply (wp_chain_add src); auto|].
      intros _ s' (gs & [[H1 H2 H3 H4 H5] G1 G2 G3 G4 G5] & Hq). exists gs. split; [split|]; try done.
      rewrite G5. cbn. by rewrite Hid, ident_fail_node.
    + apply wp_ret, wp_bind, wp_get. apply wp_chain_add; auto.
Qed.

(** A request of [q], prepared with result [r]. *)
Lemma fate_fresh src first id q r k : src id = Some q -> init_result q r -> r <> 0%Z -> is_linked k = sqe_linked q -> k_id k = id ->
  fate src first false (req_fail_link_node k r).
Proof.
  intros H1 H2 H3 H4 H5. exists q, r. rewrite id_fail_node, H5, linked_fail_node, has_fail_node. cbv zeta. apply Z.eqb_neq in H3. by rewrite !H3.
Qed.

Lemma wp_submit_sqe src id q s : rings_ok s -> chain_ok (chain s) -> sqe_ok q -> src id = Some q -> fates src (chain s) ->
  wp (io_submit_sqe id q) (fun ret s' => exists gs, added src gs (id, sqe_user_data q) s s' /\
    if (ret =? 0)%Z then Forall (fun g => ~ refused g) gs else chain s' = [] /\ exists k, gs = [Refused k ret]) s.
Proof.
  intros Hs Hc Hq Hsrc Hft. apply wp_bind. eapply wp_mono; [by apply (holds_init id q)|]. intros [k ret] s1 [(Hk & Hpa & Hres) Hh].
  cbn in Hk, Hpa, Hres. destruct Hh as [H1 H2 H3 H4 H5 H6]. pose proof (key_chain_ok _ _ H6 Hc) as Hc1. pose proof (key_ident _ _ H6) as Hid.
  pose proof (fates_key src _ _ H6 Hft) as Hft1.
  assert (Hik : ident k = (id, sqe_user_data q)) by exact (f_equal (fun x => x.1.1.1) Hk).
  assert (Hfk : flagged FAIL k = false) by exact (f_equal (fun x => x.1.2) Hk).
  assert (Hlk : is_linked k = sqe_linked q) by exact (f_equal (fun x => x.1.1.2) Hk).
  assert (Hkid : k_id k = id) by exact (f_equal fst Hik). clear Hk.
  assert (Hpast : forall s' s2, s2 = s1 \/ s2 = s1 <| chain := marked (chain s1) |> ->
    forall k', ident k' = ident k -> queues src (ident k') s2 s' ->
    exists gs, added src gs (id, sqe_user_data q) s s' /\ Forall (fun g => ~ refused g) gs).
  { intros s' s2 Hs2 k' Hk' (gs & [[K1 K2 K3 K4 K5] G1 G2 G3 G4 G5] & Hnr). exists gs. split; [|done].
    assert (ident <$> chain s2 = ident <$> chain s) as Hi2.
    { destruct Hs2 as [->| ->]; [done|]. cbn. rewrite <- Hid. by apply marked_ok. }
    split; try done; [|by rewrite G5, Hk', Hik, Hi2]. destruct Hs2 as [->| ->]; split; cbn in *; congruence. }
  assert (Hnode : forall r, r <> 0%Z -> init_result q r -> forall first, fate src first false (req_fail_link_node k r))
    by (intros; by eapply fate_fresh).
  apply wp_bind, wp_get. destruct (Z.eqb_spec ret 0) as [->|Hret].
  { assert (Hgood : forall first, first = true \/ k_prep_async k = 0%Z -> fate src first false k).
    { intros first Hor. exists q, 0%Z. rewrite Hkid. do 3 (split; [done|]). cbn.
      assert ((if first then 0 else sqe_prep_async q) = 0)%Z as -> by (destruct Hor as [->|Hp]; [done|rewrite <- Hpa, Hp; by destruct first]).
      cbn. by rewrite Hfk. }
    apply wp_bind. eapply wp_mono; [apply (wp_link_req src); try done; try congruence|].
    - intros _. split; [|done]. cbn. apply Hgood. by left.
    - intros Hne Hb. apply fates_snoc; try done. apply Hgood. right. rewrite Hfk in Hb. cbn in Hb.
      by apply negb_false_iff, Z.eqb_eq in Hb.
    - intros Hne Hb. rewrite Hfk in Hb. cbn in Hb. apply negb_true_iff, Z.eqb_neq in Hb.
      apply fates_mark; try done; [|apply has_fail_node]. exists q, 0%Z.
      rewrite id_fail_node, Hkid, linked_fail_node, has_fail_node. cbn. rewrite <- Hpa. apply Z.eqb_neq in Hb. by rewrite Hb.
    - intros [] s' H. apply wp_ret. apply (Hpast s' s1) with (k' := k); auto. }
  destruct (chain s1) as [|h l] eqn:Hch; cbn [nonempty].
  - destruct (is_linked k) eqn:Hl.
    + apply wp_bind. eapply wp_mono; [apply (wp_link_req src); rewrite ?Hch; try done|].
      * intros _. split; [|done]. by apply Hnode.
      * intros [] s' H. apply wp_ret. apply (Hpast s' s1) with (k' := req_fail_link_node k ret); auto using ident_fail_node.
    + apply wp_bind, wp_set, wp_bind, wp_on_ctx; [apply keeps_complete_links|apply frames_complete_links|done|].
      intros [] u Hu Hside. apply wp_ret. exists [Refused k ret]. rewrite (proj2 (Z.eqb_neq _ _) Hret). cbn. split; [|by split; [|exists k]].
      split; cbn; rewrite ?Hch; try done.
      * split; cbn in *; congruence || done.
      * by constructor.
      * constructor; [|done]. exists q. rewrite Hkid. split_and!; congruence || done.
      * rewrite <- Hid. cbn. by rewrite Hik.
  - rewrite <- Hch in *. assert (Hne : chain s1 <> []) by (by rewrite Hch).
    destruct (marked_ok _ Hc1) as (Hcm & _ & Hm). specialize (Hm Hne) as [Hne' Hh].
    apply wp_bind, wp_fail_head, wp_bind. eapply wp_mono; [apply (wp_link_req src); cbn; rewrite ?has_fail_node; try done|].
    + intros _ _. apply fates_mark; [done..| |apply has_fail_node]. by apply Hnode.
    + intros [] s' H. apply wp_ret.
      apply (Hpast s' (s1 <| chain := marked (chain s1) |>)) with (k' := req_fail_link_node k ret); auto using ident_fail_node.
Qed.

(** ** The loop *)

Record submitter_ok s : Prop := {
  so_rings : rings_ok s;
  so_sqes : Z.of_nat (length (sq_sqes s)) = sq_entries;
  so_bytes : Forall sqe_ok (sq_sqes s);
}.

(** The [j]th entry from the kernel's position in the ring. *)
Definition entry s (j : nat) : option sqe :=
  i ← sq_array (ctx s) !! Z.to_nat (Z.land (as_u32 (cached_sq_head (ctx s) + Z.of_nat j)) (sq_entries - 1));
  sq_sqes s !! Z.to_nat i.

(** The application wrote no valid number there. *)
Definition entry_invalid s (j : nat) : Prop :=
  exists i, sq_array (ctx s) !! Z.to_nat (Z.land (as_u32 (cached_sq_head (ctx s) + Z.of_nat j)) (sq_entries - 1)) = Some i /\
    (sq_entries <= i)%Z.

(** The kernel is [n] entries further. *)
Record further (n : nat) s s' : Prop := {
  fu_ok : submitter_ok s';
  fu_array : sq_array (ctx s') = sq_array (ctx s);
  fu_head : cached_sq_head (ctx s') = as_u32 (cached_sq_head (ctx s) + Z.of_nat n);
  fu_sqes : sq_sqes s' = sq_sqes s;
}.
Lemma entry_further n j s s' : further n s s' -> entry s' j = entry s (n + j).
Proof.
  intros [H1 H2 H3 H4]. unfold entry. rewrite H2, H3, H4, as_u32_add. do 4 f_equal. f_equal. lia.
Qed.
Lemma invalid_further n j s s' : further n s s' -> entry_invalid s' j -> entry_invalid s (n + j).
Proof.
  intros [H1 H2 H3 H4]. unfold entry_invalid. rewrite H2, H3, as_u32_add.
  by replace (cached_sq_head (ctx s) + Z.of_nat n + Z.of_nat j)%Z with (cached_sq_head (ctx s) + Z.of_nat (n + j))%Z by lia.
Qed.
Lemma further_trans n m s1 s2 s3 : further n s1 s2 -> further m s2 s3 -> further (n + m) s1 s3.
Proof. intros [H1 H2 H3 H4] [G1 G2 G3 G4]. split; [done|congruence| |congruence]. rewrite G3, H3, as_u32_add. f_equal. lia. Qed.

Lemma wp_get_sqe s : submitter_ok s -> cached_sq_head (ctx s) = as_u32 (cached_sq_head (ctx s)) ->
  wp get_sqe (fun r s' => (match r with Some q => entry s 0 = Some q /\ sqe_ok q | None => entry_invalid s 0 end) /\
    further 1 s s' /\ next_id s' = next_id s /\ log s' = log s /\ chain s' = chain s) s.
Proof.
  intros Hs Hh. pose proof Hs as [Hr Hl Hb]. destruct (keeps_get_sqe true _ Hr) as (i & u & Hrun & Hu).
  apply wp_bind. exists i, (s <| ctx := u |>). split; [unfold on_ctx; by rewrite Hrun|].
  unfold io_get_sqe in Hrun. cbv zeta in Hrun.
  change (sq_array (ctx s <| cached_sq_head := as_u32 (cached_sq_head (ctx s) + 1) |>)) with (sq_array (ctx s)) in Hrun.
  destruct (sq_array (ctx s) !! Z.to_nat (Z.land (cached_sq_head (ctx s)) (sq_entries - 1))) as [h|] eqn:Ha; [|done].
  destruct (h <? sq_entries)%Z eqn:Hlt; injection Hrun as <- <-.
  - apply Z.ltb_lt in Hlt. pose proof (sq_idx_range 0) as Hpos.
    destruct (lookup_lt_is_Some_2 (sq_sqes s) (Z.to_nat h)) as [q Hq]; [lia|].
    apply wp_bind, wp_get. cbn. rewrite Hq. apply wp_ret. split; [|split; [by split|done]].
    split; [|by eapply Forall_lookup_1 in Hb]. unfold entry. rewrite Z.add_0_r, <- Hh, Ha. done.
  - apply Z.ltb_ge in Hlt. apply wp_ret. split; [|split; [by split|done]].
    exists h. by rewrite Z.add_0_r, <- Hh.
Qed.

(** [qs] became requests. *)
Record taken (src : nat -> option sqe) (qs : list sqe) (gs : list submission) s s' : Prop := {
  ta_entries : forall j q, qs !! j = Some q -> entry s j = Some q;
  ta_log : log s' = log s ++ gs;
  ta_closed : Forall closed gs;
  ta_settled : Forall (settled src) gs;
  ta_chain : chain_ok (chain s');
  ta_fates : fates src (chain s');
  ta_ids : ident <$> (concat (members <$> gs) ++ chain s') =
    (ident <$> chain s) ++ zip (seq (next_id s) (length qs)) (sqe_user_data <$> qs);
  ta_ok : submitter_ok s';
}.

(** Where and why the loop ends that may take [bound] entries, when [qs] were
    taken and became [gs] and the open chain [rest]: [head] is the position
    in the ring then.  There was memory for every request.  Unless all are to
    be submitted, a request that is refused is the last.  The loop ends only
    when it has taken [bound] entries, when there is no memory for the next
    request, at a request that is refused, or at an invalid entry, which it
    takes and drops. *)
Record stopped (bound : nat) s (qs : list sqe) (gs : list submission) (rest : list kiocb) (head : Z) : Prop := {
  st_bound : length qs <= bound;
  st_memory : forall j, j < length qs -> req_alloc_ok (next_id s + j) = true;
  st_refused : submit_all = false -> forall i g, gs !! i = Some g -> refused g -> S i = length gs /\ rest = [];
  st_why :
    (head = as_u32 (cached_sq_head (ctx s) + Z.of_nat (length qs)) /\
      (length qs = bound \/ req_alloc_ok (next_id s + length qs) = false \/
       (submit_all = false /\ exists g, last gs = Some g /\ refused g))) \/
    (head = as_u32 (cached_sq_head (ctx s) + Z.of_nat (length qs) + 1) /\ length qs < bound /\
      req_alloc_ok (next_id s + length qs) = true /\ entry_invalid s (length qs));
}.

(** One entry more in front. *)
Lemma stopped_cons bound s s1 q qs gs gs' rest head :
  next_id s1 = S (next_id s) -> cached_sq_head (ctx s1) = as_u32 (cached_sq_head (ctx s) + 1) ->
  further 1 s s1 -> req_alloc_ok (next_id s) = true -> (submit_all = false -> Forall (fun g => ~ refused g) gs) ->
  stopped bound s1 qs gs' rest head -> stopped (S bound) s (q :: qs) (gs ++ gs') rest head.
Proof.
  intros Hn Hh Hfu Ha Hq [S1 S2 S3 S4]. rewrite Hn in S2, S4. rewrite Hh in S4.
  assert (Hid : next_id s + S (length qs) = S (next_id s) + length qs) by lia.
  split; cbn [length]; rewrite ?Hid.
  - lia.
  - intros [|j] Hj; [by rewrite Nat.add_0_r|]. rewrite <- (S2 j) by lia. f_equal. lia.
  - intros Hall i g Hi Hg. rewrite length_app. apply lookup_app_Some in Hi as [Hi|[Hle Hi]].
    + exfalso. by eapply Forall_lookup_1 in Hi; [|by apply Hq].
    + destruct (S3 Hall _ _ Hi Hg) as [Hlen Hr]. split; [lia|done].
  - rewrite !as_u32_add in S4. destruct S4 as [[-> Hw]|(-> & Hlt & Hm & Hinv)].
    + left. split; [f_equal; lia|]. destruct Hw as [->|[Hw|(Hall & g & Hlast & Hg)]]; [by left|by right; left|]. right. right.
      split; [done|]. exists g. by rewrite last_app, Hlast.
    + right. split; [rewrite <- Z.add_assoc, as_u32_add; f_equal; lia|]. split_and!; [lia|done|]. by apply (invalid_further 1 (length qs) s s1).
Qed.

Lemma side_inv (u u' : uring) : submission_side u' = submission_side u -> sq_array u' = sq_array u /\ cached_sq_head u' = cached_sq_head u.
Proof. by intros [= ? ? ?]. Qed.

Lemma wp_submit_loop src n : forall submitted s, (0 <= submitted)%Z -> (n = 0 -> submitted <> 0%Z) ->
  submitter_ok s -> chain_ok (chain s) -> fates src (chain s) -> (forall j, src (next_id s + j) = entry s j) ->
  cached_sq_head (ctx s) = as_u32 (cached_sq_head (ctx s)) ->
  wp (submit_loop n submitted) (fun r s' => exists qs gs, taken src qs gs s s' /\
    stopped n s qs gs (chain s') (cached_sq_head (ctx s')) /\
    r = if req_alloc_ok (next_id s) || negb (submitted =? 0)%Z then (submitted + Z.of_nat (length qs))%Z else (- EAGAIN)%Z) s.
Proof.
  assert (Hnil : forall s s', submitter_ok s' -> chain_ok (chain s) -> fates src (chain s) -> log s' = log s -> chain s' = chain s -> taken src [] [] s s').
  { intros s s' H1 H2 H2' H3 H4. split; rewrite ?H4; try done; [by rewrite app_nil_r|cbn; by rewrite app_nil_r]. }
  induction n as [|n IH]; intros submitted s H0s H0n Hs Hc Hft Hsrc Hh; cbn [submit_loop].
  { apply wp_ret. exists [], []. specialize (H0n eq_refl). apply Z.eqb_neq in H0n. rewrite H0n, orb_true_r, Z.add_0_r.
    split; [by apply Hnil|]. split; [|done]. split; try done; [intros j Hj; cbn in Hj; lia|]. left. rewrite Z.add_0_r. auto. }
  apply wp_bind, wp_get. destruct (req_alloc_ok (next_id s)) eqn:Ha; cbn [negb orb].
  2: { apply wp_ret. exists [], []. split; [by apply Hnil|]. split; [|destruct (submitted =? 0)%Z; cbn; lia].
       split; try done; cbn; [lia|lia|]. left. rewrite Z.add_0_r, Nat.add_0_r. auto. }
  apply wp_bind. eapply wp_mono; [by apply wp_get_sqe|]. intros [q|] s1 (Hq & Hfu & Hn & Hlg & Hch).
  2: { apply wp_ret. exists [], []. split; [apply Hnil; try done; apply Hfu|]. split; [|cbn; lia].
       split; try done; cbn; [lia|lia|]. right. rewrite Z.add_0_r, Nat.add_0_r. split; [by apply Hfu|]. split; [lia|done]. }
  destruct Hq as [Hq Hqb]. apply wp_bind, wp_set, wp_bind.
  set (s2 := s1 <| next_id ::= S |>). pose proof (fu_ok _ _ _ Hfu) as [Hr1 Hl1 Hb1].
  eapply wp_mono; [apply (wp_submit_sqe src (next_id s) q s2); try done; cbn; rewrite ?Hch; try done|].
  { by rewrite <- Hq, <- Hsrc, Nat.add_0_r. }
  intros ret s3 (gs & [[G1 G2 G3 G4 G5] Hcl Hst Hc3 Hf3 Hid] & Hret). apply side_inv in G2 as [G2a G2h].
  assert (Hok3 : submitter_ok s3) by (split; [done|by rewrite G3|by rewrite G3]).
  assert (Hfu3 : further 1 s s3).
  { split; [done|rewrite G2a; apply Hfu|rewrite G2h; apply Hfu|rewrite G3; apply Hfu]. }
  cbn in Hid, G4, G5. rewrite Hch in Hid. rewrite Hn in G4. rewrite Hlg in G5.
  assert (Hone : taken src [q] gs s s3).
  { split; [|done..]. intros [|j] q'; [|done]. by intros [= <-]. }
  pose proof (fu_head _ _ _ Hfu3) as Hh3. change (Z.of_nat 1) with 1%Z in Hh3.
  destruct (negb (ret =? 0)%Z && negb submit_all) eqn:Hstop.
  { apply andb_true_iff in Hstop as [Hr0%negb_true_iff Hall%negb_true_iff]. rewrite Hr0 in Hret. destruct Hret as [Hch3 (k & ->)].
    apply wp_ret. exists [q], [Refused k ret]. split; [done|]. split; [|done]. split; cbn; [lia|intros [|j] Hj; [by rewrite Nat.add_0_r|lia]| |].
    - intros _ [|i] g; [|done]. intros [= <-] _. by rewrite Hch3.
    - left. split; [done|]. right. right. split; [done|]. by exists (Refused k ret). }
  eapply wp_mono; [apply (IH (submitted + 1)%Z s3 ltac:(lia) ltac:(lia) Hok3 Hc3 Hf3)|].
  { intros j. rewrite (entry_further 1 j s s3 Hfu3), <- Hsrc, G4. f_equal. lia. }
  { rewrite Hh3. symmetry. apply as_u32_small, as_u32_range. }
  intros r s4 (qs & gs' & [T1 T2 T3 T3' T4 T4' T5 T6] & Hstopped & Hr). exists (q :: qs), (gs ++ gs'). split; [split|split].
  - intros [|j] q'; [by intros [= <-]|]. cbn. intros Hj. rewrite <- (T1 j q' Hj). symmetry. by apply (entry_further 1).
  - by rewrite T2, G5, app_assoc.
  - by apply Forall_app.
  - by apply Forall_app.
  - done.
  - done.
  - rewrite (fmap_app members), concat_app, <- app_assoc, (fmap_app ident), T5, app_assoc, <- (fmap_app ident), Hid, G4, <- app_assoc. done.
  - done.
  - eapply stopped_cons; try done. intros Hall. rewrite Hall, andb_true_r in Hstop. apply negb_false_iff in Hstop. by rewrite Hstop in Hret.
  - rewrite Hr, (proj2 (Z.eqb_neq (submitted + 1) 0)) by lia. rewrite orb_true_r. cbn [length]. lia.
Qed.

(** C19. Every entry becomes one request, in order.  From rings in order, with
    valid error numbers and with entries to take, [io_submit_sqes] does not
    fail.  It takes the next entries of the ring, up to [nr], the size of the
    ring and what the application submitted, and ends before only at an
    invalid entry, when there is no memory for a request, or, unless all are
    to be submitted, after a request that is refused; it returns how many it
    took, or [-EAGAIN] exactly if there is no memory for the first.  It makes
    one request of each, in order, with its [user_data] and links; each of
    them is refused alone, with the error of its entry, or in exactly one
    chain given to [io_queue_sqe]: a chain goes on while its requests are
    linked, ends with the first that is not, and the last may end with the
    entries.  A request of a chain is marked as failed, with its own error, if
    its entry is wrong or, after the first, [io_req_prep_async] fails; the
    first is marked, as cancelled, if a later one failed; no other is.  Then
    the application sees how far the entries were consumed. *)
Theorem submissions_taken s nr :
  submitter_ok s -> cached_sq_head (ctx s) = as_u32 (cached_sq_head (ctx s)) -> io_sqring_entries (ctx s) <> 0%Z ->
  let bound := Z.max 1 (Z.min nr (Z.min sq_entries (io_sqring_entries (ctx s)))) in
  let src id := entry s (id - next_id s) in
  exists n s' qs gs rest, io_submit_sqes nr s = Ok (n, s') /\ submitter_ok s' /\
  n = (if req_alloc_ok (next_id s) then Z.of_nat (length qs) else (- EAGAIN)%Z) /\
  stopped (Z.to_nat bound) s qs gs rest (cached_sq_head (ctx s')) /\
  (forall j q, qs !! j = Some q -> entry s j = Some q) /\
  log s' = log s ++ gs ++ (if nonempty rest then [Queued rest] else []) /\
  Forall closed gs /\ linked_all rest /\ fail_at_head rest /\
  ident <$> (concat (members <$> gs) ++ rest) = zip (seq (next_id s) (length qs)) (sqe_user_data <$> qs) /\
  Forall (settled src) gs /\ fates src rest /\
  sq_head (ctx s') = cached_sq_head (ctx s').
Proof.
  intros Hs Hh He bound src.
  cut (wp (io_submit_sqes nr) (fun n s' => exists s1 qs gs, taken src qs gs (s <| chain := [] |>) s1 /\
    stopped (Z.to_nat bound) (s <| chain := [] |>) qs gs (chain s1) (cached_sq_head (ctx s')) /\
    n = (if req_alloc_ok (next_id s) then Z.of_nat (length qs) else (- EAGAIN)%Z) /\ submitter_ok s' /\
    log s' = log s1 ++ (if nonempty (chain s1) then [Queued (chain s1)] else []) /\
    sq_head (ctx s') = cached_sq_head (ctx s')) s).
  { intros (n & s' & Hr & s1 & qs & gs & [T1 T2 T3 T3' [T4 T4'] T4'' T5 T6] & [U1 U2 U3 U4] & Hn & Hok & Hlg & Hsq).
    exists n, s', qs, gs, (chain s1). rewrite Hlg, T2, <- app_assoc. split_and!; done. }
  unfold io_submit_sqes. apply wp_bind, wp_get. rewrite (proj2 (Z.eqb_neq _ _) He). apply wp_bind, wp_set, wp_bind.
  fold bound. eapply wp_mono; [apply (wp_submit_loop src _ 0); [lia|unfold bound; lia|by destruct Hs; split|done|done| |done]|].
  { intros j. unfold src. cbn. by replace (next_id s + j - next_id s) with j by lia. }
  intros r s1 (qs & gs & Ht & Hst & Hr). apply wp_bind.
  eapply (wp_mono _ (fun _ s2 => submitter_ok s2 /\ cached_sq_head (ctx s2) = cached_sq_head (ctx s1) /\
    log s2 = log s1 ++ (if nonempty (chain s1) then [Queued (chain s1)] else []))).
  { apply wp_bind, wp_get. pose proof (ta_ok _ _ _ _ _ Ht) as Hok1. destruct (chain s1) as [|k l] eqn:Hc; [apply wp_skip; by rewrite app_nil_r|].
    eapply wp_mono; [by apply wp_queue, Hok1|]. intros _ s2 [[G1 G2 G3 G4 G5] _]. apply side_inv in G2 as [_ G2].
    split; [|done]. destruct Hok1. by split; rewrite ?G3. }
  intros [] s2 (Hok2 & Hcs & Hlg). apply wp_bind. exists tt. eexists. split; [reflexivity|]. apply wp_ret.
  exists s1, qs, gs. split; [done|]. split; [cbn; by rewrite Hcs|]. split; [|split; [|done]].
  - rewrite Hr. cbn. by rewrite orb_false_r.
  - destruct Hok2 as [K1 K2 K3]. split; [|done..]. assert (keeps true io_commit_sqring) as Hk by (unfold io_commit_sqring; auto with keeps).
    destruct (Hk _ K1) as ([] & u & [= <-] & Hu). exact Hu.
Qed.

(** ** Chains that fail *)

Lemma wp_run_ctx {A} (m : U A) (Q : A -> submitter -> Prop) s : wp m (fun a u => Q a (s <| ctx := u |>)) (ctx s) -> wp (on_ctx m) Q s.
Proof. intros (a & u & Hr & HQ). exists a, (s <| ctx := u |>). split; [|done]. unfold on_ctx. by rewrite Hr. Qed.
Lemma wp_and {A} (m : U A) (P Q : A -> uring -> Prop) (u : uring) : wp m P u -> wp m Q u -> wp m (fun a u => P a u /\ Q a u) u.
Proof. intros (a & u' & Hr & HP) (a' & u'' & Hr' & HQ). rewrite Hr in Hr'. injection Hr' as <- <-. by exists a, u'. Qed.
Lemma quiet_ev_posted (u : uring) : off_timeout_used u = false -> drain_active u = false ->
  wp io_cqring_ev_posted (fun _ u' => posted u' = posted u /\ exists e, effects u' = effects u ++ e /\ Forall (fun x => x = Wake \/ x = Eventfd) e) u.
Proof.
  intros Ht Hd. apply wp_bind, wp_get, wp_bind, wp_get. rewrite Ht, Hd. cbn [orb]. apply wp_bind. destruct has_evfd eqn:He; cbn [mwhen].
  - apply wp_bind, wp_get, wp_bind, wp_get. rewrite Ht, Hd, He. apply wp_bind, wp_skip, wp_set, wp_set. split; [done|]. exists [Eventfd; Wake].
    cbn. rewrite <- app_assoc. split; [done|]. apply Forall_cons_2; [by right|]. apply Forall_cons_2; [by left|by apply Forall_nil_2].
  - apply wp_skip, wp_set. split; [done|]. exists [Wake]. split; [done|]. apply Forall_cons_2; [by left|by apply Forall_nil_2].
Qed.

(** The request that [io_req_complete_fail_submit] completes. *)
Definition unlinked k : kiocb := set_fail (flag_on LINK (flag_off HARDLINK k)).
Lemma unlinked_flags k :
  flagged FAIL (unlinked k) = true /\ flagged LINK (unlinked k) = true /\ flagged HARDLINK (unlinked k) = false /\
  flagged CQE_SKIP (unlinked k) = false /\ flagged SKIP_LINK_CQES (unlinked k) = flagged SKIP_LINK_CQES k || flagged CQE_SKIP k /\
  flagged ARM_LTIMEOUT (unlinked k) = flagged ARM_LTIMEOUT k /\ flagged LINK_TIMEOUT (unlinked k) = flagged LINK_TIMEOUT k.
Proof.
  unfold unlinked, set_fail. cbv zeta. rewrite !has_set, has_clear by done. cbn. rewrite andb_true_r.
  destruct (flagged CQE_SKIP k) eqn:Hs; split_and!;
    repeat (rewrite ?has_set, ?has_clear by done); cbn; rewrite ?Hs, ?andb_true_r, ?andb_false_r, ?orb_true_r, ?orb_false_r; done.
Qed.

(** C23. A chain that cannot be submitted is completed at once.  Let the rings
    be in order, no timeout count completions and no request be drained.
    When [io_queue_sqe] gets a chain whose first request is marked as failed,
    then none of its requests is started, and completions are posted in
    order: first that of the first request, with its result; then, for a
    timeout that follows it and was armed for it, its own, as cancelled,
    unless it skips it; then one for each request behind, with its result if
    it is marked as failed and [-ECANCELED] otherwise.  The requests behind
    get theirs even if they skip successful completions, and stay silent if
    the first skips its own or was marked to keep them silent. *)
Theorem failed_chain_completed k l s :
  rings_ok s -> off_timeout_used (ctx s) = false -> drain_active (ctx s) = false -> flagged FAIL k = true ->
  exists s', io_queue_sqe k l s = Ok (tt, s') /\ rings_ok s' /\ log s' = log s ++ [Queued (k :: l)] /\
  posted (ctx s') = posted (ctx s) ++ mkCqe (k_user_data k) (k_result k) 0 ::
    (let '(t, rest) := split_timeout IORING_OP_LINK_TIMEOUT k l in
     timeout_cqes k t ++
     (if flagged SKIP_LINK_CQES k || flagged CQE_SKIP k then []
      else (fun m => mkCqe (k_user_data m) (if flagged FAIL m then k_result m else (- ECANCELED)%Z) 0) <$> rest)) /\
  (exists e, effects (ctx s') = effects (ctx s) ++ e /\ Forall (fun x => x = Wake \/ x = Eventfd) e).
Proof.
  intros Hs Ht Hd Hfail. set (rest := let '(t, rest) := _ in _).
  destruct (unlinked_flags k) as (F1 & F2 & F3 & F4 & F5 & F6 & F7).
  assert (Hlinked : is_linked (unlinked k) = true) by (unfold is_linked; by rewrite F2).
  assert (Hcancel : cancels (unlinked k) = true) by (unfold cancels; by rewrite F1, F3).
  assert (Hrest : chain_cqes IORING_OP_LINK_TIMEOUT (unlinked k) l = rest).
  { unfold rest, chain_cqes, split_timeout. rewrite Hcancel, F6, F7. unfold cancelled_cqes. rewrite F5.
    destruct l as [|t l']; [done|]. destruct (_ && _); unfold timeout_cqes; rewrite ?F6; done. }
  cut (wp (io_queue_sqe k l) (fun _ s' => rings_ok s' /\ log s' = log s ++ [Queued (k :: l)] /\
    posted (ctx s') = posted (ctx s) ++ mkCqe (k_user_data k) (k_result k) 0 :: rest /\
    exists e, effects (ctx s') = effects (ctx s) ++ e /\ Forall (fun x => x = Wake \/ x = Eventfd) e) s).
  { intros ([] & s' & Hr & H). by exists s'. }
  apply wp_bind, wp_set. rewrite Hfail, orb_true_r. cbn [negb]. apply wp_run_ctx. cbn. apply wp_and.
  { eapply wp_mono; [apply (keeps_complete_links IORING_OP_LINK_TIMEOUT true); exact Hs|]. intros [] u Hu. exact Hu. }
  apply wp_bind. eapply wp_mono; [apply wp_complete_post, Hs|]. fold (unlinked k). rewrite Hlinked. cbn [andb].
  intros [] u1 (u & [P1 P2 P3] & ->). apply wp_bind, wp_set.
  eapply wp_mono; [apply quiet_ev_posted; cbn; destruct P3; congruence|]. intros [] u2 (Hp & e & He & Hw). split; [done|]. split.
  - rewrite Hp. cbn. rewrite P2, Hrest. unfold own_cqe. rewrite F4.
    assert (k_user_data (unlinked k) = k_user_data k) as -> by exact (f_equal r_user_data (as_req_set_fail _)). done.
  - exists e. rewrite He. cbn. unfold chain_next. rewrite Hcancel, (sr_effects _ _ P3). cbn. by rewrite app_nil_r.
Qed.
End props.
