(* ===== verification/UringExample.v ===== *)
(** * A ring of four entries, and one of eight

    The theorems at work on small rings: completions and timeouts on the
    first, with runs that show where the counting of completions goes wrong;
    submissions on the second, with a chain in which a request cannot be
    prepared, a request alone, and a chain that the entries do not end. *)

From Stdlib Require Import Sorted.
From stdpp Require Import base numbers list.
From S2P Require Import Prelude StateMonad Uring UringRing UringLinks UringProps UringSubmit.
#[local] Open Scope store_scope.

#[export] Instance example_env : UringEnv := {|
  sq_entries := 4; cq_entries := 4; has_evfd := false; kmalloc_ok n := negb (n =? 2);
  hrtimer_try_to_cancel n := if n =? 99 then (-1)%Z else 1%Z; ENOMEM := 12; ETIME := 62; ECANCELED := 125 |}.
#[export] Instance example_laws : UringLaws.
Proof. split; exists 2%Z; split; done || lia. Qed.

Definition ring0 : uring :=
  mkUring 0 0 0 0 0 0 0 0 0 0 0 (replicate 4 (mkCqe 0 0 0)) (replicate 4 0%Z) false false [] [] [] false false 0 [] [] [] [] 0.
Lemma ring0_new : new_ring ring0.
Proof. by split. Qed.

(** A request without flags. *)
Definition rq (n : nat) : req := mkReq n (Z.of_nat n) false false.
Definition done_ (n : nat) : uring_op := CompletePost (rq n) 0 0.

Lemma completions_accounted_witness :
  exists s, ops_run (map done_ (seq 1 7) ++ [Reap; OverflowFlush; Message 50 7; AddTimeout (rq 9) 1; Reap; OverflowFlush]) ring0 = Ok (tt, s) /\
  reaped s ++ ring s ++ cq_overflow_list s ++ lost s ≡ₚ posted s /\
  (Z.of_nat (length (ring s)) <= cq_entries)%Z /\
  cq_overflow s = as_u32 (Z.of_nat (length (lost s))) /\
  (sq_cq_overflow s = false <-> cq_overflow_list s = []) /\
  ((forall n, kmalloc_ok n = true) -> Forall (fun op => force op = false)
     (map done_ (seq 1 7) ++ [Reap; OverflowFlush; Message 50 7; AddTimeout (rq 9) 1; Reap; OverflowFlush]) -> lost s = []).
Proof. apply (completions_accounted ring0); apply ring0_new. Defined.

(** A ring with a list of two. *)
Definition after (ops : list uring_op) : uring := match ops_run ops ring0 with Ok (_, s) => s | _ => ring0 end.
Definition full6 : uring := Eval vm_compute in after (map done_ (seq 1 6) ++ [Reap]).
Lemma full6_ok : ring_ok full6.
Proof.
  destruct (keeps_ops true (map done_ (seq 1 6) ++ [Reap]) ltac:(done) ring0 (new_in_order true ring0 ring0_new)) as ([] & s & Hs & Ho & _).
  replace full6 with s; [done|]. assert (ops_run (map done_ (seq 1 6) ++ [Reap]) ring0 = Ok (tt, full6)) as H by by vm_compute.
  rewrite H in Hs. by injection Hs.
Qed.

Lemma overflow_flush_fifo_witness :
  exists b s', __io_cqring_overflow_flush false full6 = Ok (b, s') /\
  ring s' = ring full6 ++ take (free full6) (cq_overflow_list full6) /\
  cq_overflow_list s' = drop (free full6) (cq_overflow_list full6) /\
  lost s' = lost full6 ++ [] /\ (b = true <-> cq_overflow_list s' = []) /\ (0 < free full6 -> cq_tail s' = cached_cq_tail s').
Proof. apply (overflow_flush_fifo false full6); [apply full6_ok|done|done]. Defined.


Ltac solve_ordered :=
  repeat (apply SSorted_nil || apply SSorted_cons || apply Forall_nil_2 || apply Forall_cons_2);
  solve [left; by vm_compute | right; split; by vm_compute].

(** Three timeouts, and two completions that have not been flushed. *)
Definition waiting : uring :=
  Eval vm_compute in after [AddTimeout (rq 3) 5; AddTimeout (rq 4) 0; AddTimeout (rq 2) 2; AddTimeout (rq 1) 1].
Definition fill2 : uring :=
  Eval vm_compute in match (io_fill_cqe_req (rq 10) 0 0 ;; io_fill_cqe_req (rq 11) 0 0) waiting with Ok (_, s) => s | _ => waiting end.
Lemma fill2_ok : ring_ok fill2.
Proof.
  pose proof (new_in_order true ring0 ring0_new) as Ho.
  destruct (keeps_ops true [AddTimeout (rq 3) 5; AddTimeout (rq 4) 0; AddTimeout (rq 2) 2; AddTimeout (rq 1) 1] ltac:(done) ring0 Ho) as ([] & s & Hs & Ho1).
  assert (s = waiting) as -> by (vm_compute in Hs; by injection Hs).
  destruct (keeps_bind true _ _ (keeps_fill_req true (rq 10) 0 0) (fun _ => keeps_fill_req true (rq 11) 0 0) waiting Ho1) as ([] & s2 & Hs2 & [Hok _]).
  assert (s2 = fill2) as <- by (vm_compute in Hs2; by injection Hs2). done.
Qed.
Lemma fill2_ordered : timeouts_ordered (cq_last_tm_flush fill2) (timeout_list fill2).
Proof. solve_ordered. Qed.

Lemma io_flush_timeouts_exact_witness :
  exists s', io_flush_timeouts fill2 = Ok (tt, s') /\ ring_ok s' /\ cq_last_tm_flush s' = 2%Z /\
  (forall t, t ∈ timeout_list s' <-> t ∈ timeout_list fill2 /\ (io_is_timeout_noseq t = true \/ (2 < need 0 t)%Z)).
Proof.
  destruct (io_flush_timeouts_exact fill2 fill2_ok fill2_ordered) as (s' & H1 & H2 & H3 & H4 & _).
  - apply (bool_decide_unpack _). by vm_compute.
  - repeat constructor; by vm_compute.
  - exists s'. split_and!; [exact H1|exact H2|exact H3|exact H4].
Defined.

Lemma io_timeout_ordered_witness :
  exists s' t, io_timeout (rq 7) 3 waiting = Ok (tt, s') /\ t_req t = rq 7 /\ io_is_timeout_noseq t = false /\
  need (cq_last_tm_flush s') t = 3%Z /\ cq_last_tm_flush s' = cq_last_tm_flush waiting /\ off_timeout_used s' = true /\
  timeout_list s' ≡ₚ t :: timeout_list waiting /\ timeouts_ordered (cq_last_tm_flush s') (timeout_list s') /\
  effects s' = effects waiting ++ [StartTimer (rq 7)].
Proof.
  apply (io_timeout_ordered waiting (rq 7) 3); [split; by vm_compute|done|].
  solve_ordered.
Defined.

(** ** Where the counting goes wrong *)

Definition ids (s : uring) : list nat := (fun t => r_id (t_req t)) <$> timeout_list s.
Definition user_datas (l : list cqe) : list Z := c_user_data <$> l.

(** A timeout that is missed.  [io_timeout] moves [cq_last_tm_flush] with
    only [timeout_lock] held, although its comment supposes
    [completion_lock].  One processor fills two completions and commits them;
    before it posts the event, another adds a timeout.  The flush then takes
    an earlier timeout, which waits for one completion, for one that needs
    almost [2 ^ 32] more: it is not fired then, nor by the completions that
    follow.  When the event is posted first, it fires. *)
Theorem missed_timeout :
  let fills := io_fill_cqe_req (rq 10) 0 0 ;; io_fill_cqe_req (rq 11) 0 0 ;; io_commit_cqring in
  let before := io_timeout (rq 1) 1 in let other := io_timeout (rq 2) 9 in
  (exists s, (before ;; fills ;; other ;; io_cqring_ev_posted ;; op_run (done_ 12)) ring0 = Ok (tt, s) /\
     ids s = [2; 1] /\ need (cq_last_tm_flush s) <$> timeout_list s = [8; 2 ^ 32 - 2]%Z /\ user_datas (ring s) = [10; 11; 12]%Z) /\
  (exists s, (before ;; fills ;; io_cqring_ev_posted ;; other ;; op_run (done_ 12)) ring0 = Ok (tt, s) /\
     ids s = [2] /\ user_datas (ring s) = [10; 11; 1; 12]%Z).
Proof. split; eexists; (split; [vm_compute; reflexivity|]); by vm_compute. Qed.

(** Timeouts that fire too early, on two runs.  A timeout whose completion does not fit
    into the ring is counted by [cq_timeouts] but not by [cached_cq_tail], so
    the number of completions goes back by one, and the next flush takes the
    difference for [2 ^ 32 - 1] completions: every timeout that counts fires
    ([UringProps.flush_in_full_ring]).
    Here one that waits for a thousand completions fires at the second.  The
    same happens when two timers expire before a completion. *)
Theorem premature_timeout :
  (exists s s', ops_run (map done_ (seq 1 3) ++ [AddTimeout (rq 50) 1; AddTimeout (rq 51) 1000; done_ 4]) ring0 = Ok (tt, s) /\
     ids s = [51] /\ user_datas (posted s) = [1; 2; 3; 4; 50]%Z /\
     op_run (done_ 5) s = Ok (tt, s') /\ ids s' = [] /\ user_datas (posted s') = [1; 2; 3; 4; 50; 5; 51]%Z) /\
  (exists s s', ops_run [AddTimeout (rq 50) 0; AddTimeout (rq 52) 0; AddTimeout (rq 51) 1000; TimerExpires (rq 50) true; TimerExpires (rq 52) true] ring0 = Ok (tt, s) /\
     ids s = [51] /\ op_run (done_ 1) s = Ok (tt, s') /\ ids s' = [] /\ user_datas (posted s') = [1; 51]%Z).
Proof.
  split.
  - exists (after (map done_ (seq 1 3) ++ [AddTimeout (rq 50) 1; AddTimeout (rq 51) 1000; done_ 4])). eexists.
    split; [vm_compute; reflexivity|]. split; [by vm_compute|]. split; [by vm_compute|]. split; [vm_compute; reflexivity|]. by vm_compute.
  - exists (after [AddTimeout (rq 50) 0; AddTimeout (rq 52) 0; AddTimeout (rq 51) 1000; TimerExpires (rq 50) true; TimerExpires (rq 52) true]). eexists.
    split; [vm_compute; reflexivity|]. split; [by vm_compute|]. split; [vm_compute; reflexivity|]. by vm_compute.
Qed.



(** The flush reports that nothing is left in the list, while a timeout that
    it fires is put there. *)
Lemma flush_reports_empty_list :
  exists s s', ops_run (map done_ (seq 1 4) ++ [AddTimeout (rq 50) 1; done_ 5; Reap]) ring0 = Ok (tt, s) /\
  io_cqring_overflow_flush s = Ok (true, s') /\ user_datas (cq_overflow_list s') = [50]%Z /\ sq_cq_overflow s' = true.
Proof.
  exists (after (map done_ (seq 1 4) ++ [AddTimeout (rq 50) 1; done_ 5; Reap])). eexists.
  split; [vm_compute; reflexivity|]. split; [vm_compute; reflexivity|]. by vm_compute.
Qed.

(** * Five submissions, on a ring of eight *)

Definition env8 : UringEnv := {|
  sq_entries := 8; cq_entries := 8; has_evfd := true; kmalloc_ok _ := true;
  hrtimer_try_to_cancel _ := 1%Z; ENOMEM := 12; ETIME := 62; ECANCELED := 125 |}.
#[local] Existing Instance env8.
Lemma laws8 : UringLaws.
Proof. split; exists 3%Z; split; done || lia. Qed.
#[local] Existing Instance laws8.

Definition submit_env : SubmitEnv := {|
  IORING_OP_LAST := 41; IORING_OP_LINK_TIMEOUT := 15; op_buffer_select op := (op =? 1)%Z;
  EINVAL := 22; EOPNOTSUPP := 95; EACCES := 13; EAGAIN := 11; submit_all := true; restricted := None;
  req_alloc_ok _ := true; defer_alloc_ok _ := true |}.
#[local] Existing Instance submit_env.
Lemma submit_laws : SubmitLaws.
Proof. by split. Qed.
#[local] Existing Instance submit_laws.

(** 4 is [IOSQE_IO_LINK], 16 [IOSQE_ASYNC]. *)
Definition entries5 : list sqe :=
  [mkSqe 100 1 4 0 0 0; mkSqe 101 15 4 0 0 0; mkSqe 102 2 0 0 (- 22) 0; mkSqe 103 3 16 0 0 0; mkSqe 104 1 4 0 0 0].
Definition ring8 : uring :=
  mkUring 0 0 0 0 0 0 5 0 0 0 0 (replicate 8 (mkCqe 0 0 0)) [0; 1; 2; 3; 4; 5; 6; 7]%Z false false [] [] [] false false 0 [] [] [] [] 0.
Definition sub8 : submitter := mkSubmitter ring8 (entries5 ++ replicate 3 (mkSqe 0 0 0 0 0 0)) [] false false 0 [].

Lemma ring8_ok : in_order true ring8.
Proof.
  split; [|done]. split; [|by split]. assert (He : __io_cqring_events ring8 = 0%Z) by done.
  split; rewrite ?He; try done; lia.
Qed.
Lemma sub8_ok : submitter_ok sub8.
Proof.
  split; [apply ring8_ok|done|]. apply Forall_forall. intros q Hq.
  assert (H : forallb (fun q => (0 <=? sqe_flags q) && (sqe_flags q <? 2 ^ 8))%Z (sq_sqes sub8) = true) by by vm_compute.
  rewrite forallb_forall in H. apply list_elem_of_In in Hq. specialize (H q Hq). unfold sqe_ok. lia.
Qed.

(** What the run does: the first chain is completed with its errors, the timeout
    in it included, and the others start. *)
Example submit5 : exists s, io_submit_sqes 5 sub8 = Ok (5%Z, s) /\
  (fun g => k_user_data <$> members g) <$> log s = [[100; 101; 102]; [103]; [104]]%Z /\
  posted (ctx s) = [mkCqe 100 (- 125) 0; mkCqe 101 (- 125) 0; mkCqe 102 (- 22) 0] /\
  effects (ctx s) = [Eventfd; Wake; Async (mkReq 3 103 false false); Issue (mkReq 4 104 false false)].
Proof. eexists. split; [vm_compute; reflexivity|]. by vm_compute. Qed.

Lemma submissions_taken_witness :
  let src id := entry sub8 (id - 0) in
  exists n s' qs gs rest, io_submit_sqes 5 sub8 = Ok (n, s') /\ submitter_ok s' /\
  n = Z.of_nat (length qs) /\
  stopped 5 sub8 qs gs rest (cached_sq_head (ctx s')) /\
  (forall j q, qs !! j = Some q -> entry sub8 j = Some q) /\
  log s' = log sub8 ++ gs ++ (if nonempty rest then [Queued rest] else []) /\
  Forall closed gs /\ linked_all rest /\ fail_at_head rest /\
  ident <$> (concat (members <$> gs) ++ rest) = zip (seq 0 (length qs)) (sqe_user_data <$> qs) /\
  Forall (settled src) gs /\ fates src rest /\
  sq_head (ctx s') = cached_sq_head (ctx s').
Proof.
  assert (Hb : Z.to_nat (Z.max 1 (Z.min 5 (Z.min sq_entries (io_sqring_entries (ctx sub8))))) = 5) by by vm_compute.
  pose proof (submissions_taken sub8 5 sub8_ok eq_refl ltac:(done)) as H. cbv zeta in H. rewrite Hb in H. exact H.
Defined.

(** A chain whose second request failed. *)
Definition failed_head : kiocb := mkKiocb 0 100 1 (4 + 2 ^ 8 + 2 ^ 20) (- 125) 0.
Definition failed_rest : list kiocb := [mkKiocb 1 101 15 4 0 0; mkKiocb 2 102 2 (2 ^ 8) (- 22) 0].
Lemma failed_chain_completed_witness :
  exists s', io_queue_sqe failed_head failed_rest sub8 = Ok (tt, s') /\ rings_ok s' /\
  log s' = log sub8 ++ [Queued (failed_head :: failed_rest)] /\
  posted (ctx s') = [mkCqe 100 (- 125) 0; mkCqe 101 (- 125) 0; mkCqe 102 (- 22) 0] /\
  (exists e, effects (ctx s') = effects (ctx sub8) ++ e /\ Forall (fun x => x = Wake \/ x = Eventfd) e).
Proof.
  destruct (failed_chain_completed failed_head failed_rest sub8) as (s' & H1 & H2 & H3 & H4 & H5); [apply ring8_ok|by vm_compute..|].
  exists s'. split_and!; [exact H1|exact H2|exact H3|rewrite H4; by vm_compute|exact H5].
Defined.

(** A request of a chain is done: the next one is queued. *)
Lemma complete_post_chain_witness :
  exists s', __io_req_complete_post 15 (mkKiocb 0 100 1 4 0 0) [mkKiocb 2 102 2 0 0 0] true 7 0 ring8 = Ok (tt, s') /\ ring_ok s' /\
  posted s' = [mkCqe 100 7 0] /\ effects s' = [Queue (mkReq 2 102 false false)] /\ same_rest ring8 (s' <| effects := effects ring8 |>).
Proof. apply (complete_post_chain 15 (mkKiocb 0 100 1 4 0 0) [mkKiocb 2 102 2 0 0 0] true 7 0 ring8), ring8_ok. Defined.
