(* ===== verification/Malloc.v ===== *)
(** * The memory allocator of the example corpus: [src/examples/malloc.c]

    The allocator keeps chunks with boundary tags in the heap, and free
    chunks in 64 bins, circular doubly linked lists through the chunks
    themselves.  Memory is one map from addresses to 64-bit words, so that
    chunk headers, list pointers, the bins and the callers' data live in the
    same memory and an access to an address that is not mapped is a crash.

    A process with one thread is modelled: [libc.threads_minus_1] is 0, so
    that [lock] returns at once and [unlock] finds the lock free.  The loops
    that look at a chunk again after taking its bin's lock have fuel, and a
    fuel of two is shown to be enough.

    The system calls, the atomic operations of [atomic.h] and the page size
    are not part of the repository: they are the fields of [MallocEnv]. *)

From stdpp Require Import base numbers gmap list.
From S2P Require Import Prelude StateMonad.

Local Open Scope Z_scope.

Class MallocEnv := {
  PAGE_SIZE : Z;
  (** the address of [mal.bins] *)
  BINS : Z;
  (** [atomic.h] *)
  a_ctz_64 : Z -> Z;
  a_and_64 : Z -> Z -> Z;
  a_or_64 : Z -> Z -> Z;
  (** the system: the address (and size) it returns and the memory after the
      call, [None] for a failure *)
  expand_os : gmap Z Z -> Z -> option (Z * Z * gmap Z Z);       (* __expand_heap *)
  mmap_os : gmap Z Z -> Z -> option (Z * gmap Z Z);
  mremap_os : gmap Z Z -> Z -> Z -> Z -> option (Z * gmap Z Z);
  munmap_os : gmap Z Z -> Z -> Z -> gmap Z Z;
  madvise_os : gmap Z Z -> Z -> Z -> gmap Z Z;                  (* MADV_DONTNEED *)
}.

(** ** The state *)

Record mem := mkMem {
  words : gmap Z Z;
  binmap : Z;
  heap_end : Z;              (* [end] of [expand_heap] *)
  enomem : bool;             (* [errno] was set to [ENOMEM] *)
}.
#[export] Instance mem_upd : Updatable mem :=
  (rd_pure mkMem <&> words <&> binmap <&> heap_end <&> enomem)%upd.

Abbreviation M := (SM mem).
Open Scope store_scope.

(** Reading and writing the word at an address. *)
Definition load (a : Z) : M Z := fun s =>
  match words s !! a with Some v => Ok (v, s) | None => Panic end.
Definition store (a v : Z) : M unit := fun s =>
  match words s !! a with
  | Some _ => Ok (tt, s <| words ::= <[a := v]> |>)
  | None => Panic
  end.

(** ** Sizes and chunks *)

Definition SIZE_ALIGN : Z := 32.
Definition SIZE_MASK : Z := u64 (- SIZE_ALIGN).
Definition OVERHEAD : Z := 16.
Definition MMAP_THRESHOLD : Z := 0x1c00 * SIZE_ALIGN.
Definition DONTCARE : Z := 16.
Definition RECLAIM : Z := 163840.
Definition C_INUSE : Z := 1.
Definition PTRDIFF_MAX : Z := 2 ^ 63 - 1.

(** The size without the flag bit: [& -2]. *)
Definition untag (t : Z) : Z := Z.land t (u64 (-2)).
Definition inuse (t : Z) : bool := negb (Z.land t C_INUSE =? 0).
Definition tagged (n : Z) : Z := Z.lor n C_INUSE.

(** [struct chunk]: [psize], [csize], [next], [prev]. *)
Definition psize (c : Z) : M Z := load c.
Definition csize (c : Z) : M Z := load (c + 8).
Definition next (c : Z) : M Z := load (c + 16).
Definition prev (c : Z) : M Z := load (c + 24).
Definition set_psize (c v : Z) : M unit := store c v.
Definition set_csize (c v : Z) : M unit := store (c + 8) v.
Definition set_next (c v : Z) : M unit := store (c + 16) v.
Definition set_prev (c v : Z) : M unit := store (c + 24) v.

Definition CHUNK_SIZE (c : Z) : M Z := do! t := csize c in mret (untag t).
Definition PREV_CHUNK (c : Z) : M Z := do! t := psize c in mret (c - untag t).
Definition NEXT_CHUNK (c : Z) : M Z := do! n := CHUNK_SIZE c in mret (c + n).
Definition MEM_TO_CHUNK (p : Z) : Z := p - OVERHEAD.
Definition CHUNK_TO_MEM (c : Z) : Z := c + OVERHEAD.
Definition IS_MMAPPED (c : Z) : M bool := do! t := csize c in mret (negb (inuse t)).

(** ** Bins *)

Section malloc.
Context `{E : MallocEnv}.

(** [&mal.bins[i].head] and [tail]: a bin is a two-word lock and two
    pointers. *)
Definition bin_head (i : Z) : Z := BINS + 24 * i + 8.
Definition bin_tail (i : Z) : Z := BINS + 24 * i + 16.
Definition BIN_TO_CHUNK (i : Z) : Z := MEM_TO_CHUNK (bin_head i).

Definition lock_bin (i : Z) : M unit :=
  do! h := load (bin_head i) in
  mwhen (h =? 0) (store (bin_tail i) (BIN_TO_CHUNK i) ;; store (bin_head i) (BIN_TO_CHUNK i)).

Definition first_set (x : Z) : Z := a_ctz_64 x.

Definition bin_tab : list Z :=
  [32;33;34;35;36;36;37;37;38;38;39;39;
   40;40;40;40;41;41;41;41;42;42;42;42;43;43;43;43;
   44;44;44;44;44;44;44;44;45;45;45;45;45;45;45;45;
   46;46;46;46;46;46;46;46;47;47;47;47;47;47;47;47].

(** [bin_tab[i]]; nothing outside the table. *)
Definition bin_entry (i : Z) : option Z := if 0 <=? i then bin_tab !! Z.to_nat i else None.

Definition bin_index_read (x : Z) : option Z :=
  let x := u64 (x / SIZE_ALIGN - 1) in
  if x <=? 32 then Some x
  else if x <? 512 then bin_entry (x / 8 - 4)
  else if x >? 0x1c00 then Some 63
  else Z.add 16 <$> bin_entry (x / 128 - 4).

Definition bin_index_up_read (x : Z) : option Z :=
  let x := u64 (x / SIZE_ALIGN - 1) in
  if x <=? 32 then Some x
  else
    let x := x - 1 in
    if x <? 512 then Z.add 1 <$> bin_entry (x / 8 - 4)
    else Z.add 17 <$> bin_entry (x / 128 - 4).

(** The bin numbers; that the table is read within its bounds, so that the
    default plays no part, is [MallocArith.bins_sound]. *)
Definition bin_index (x : Z) : Z := default 0 (bin_index_read x).
Definition bin_index_up (x : Z) : Z := default 0 (bin_index_up_read x).

(** ** Growing the heap *)

Definition expand_heap (n : Z) : M Z :=
  let n := u64 (n + SIZE_ALIGN) in
  do! w := mget words in
  match expand_os w n with
  | None => mret 0
  | Some (p, n, w') =>
      mset (fun s => s <| words := w' |>) ;;
      do! e := mget heap_end in
      do! (p, n) := if p =? e then mret (p, n)
                    else
                      let n := u64 (n - SIZE_ALIGN) in
                      let p := p + SIZE_ALIGN in
                      set_psize (MEM_TO_CHUNK p) (tagged 0) ;; mret (p, n) in
      let e := p + n in
      mset (fun s => s <| heap_end := e |>) ;;
      set_psize (MEM_TO_CHUNK e) (tagged n) ;;
      set_csize (MEM_TO_CHUNK e) (tagged 0) ;;
      set_csize (MEM_TO_CHUNK p) (tagged n) ;;
      mret (MEM_TO_CHUNK p)
  end.

(** The chunk size for a request of [n] bytes, [None] if it is too big. *)
Definition adjusted (n : Z) : option Z :=
  if u64 (n - 1) >? u64 (PTRDIFF_MAX - SIZE_ALIGN - PAGE_SIZE) then
    if negb (n =? 0) then None else Some SIZE_ALIGN
  else Some (Z.land (u64 (n + OVERHEAD + SIZE_ALIGN - 1)) SIZE_MASK).

Definition adjust_size (n : Z) : M (option Z) :=
  match adjusted n with
  | None => mset (fun s => s <| enomem := true |>) ;; mret None
  | Some n => mret (Some n)
  end.

(** ** Taking chunks out of bins *)

Definition unbin (c i : Z) : M unit :=
  do! cp := prev c in
  do! cn := next c in
  mwhen (cp =? cn) (mset (fun s => s <| binmap ::= fun b =>
    a_and_64 b (u64 (Z.lnot (Z.shiftl 1 i))) |>)) ;;
  set_next cp cn ;;
  do! cn := next c in
  do! cp := prev c in
  set_prev cn cp ;;
  do! t := csize c in
  set_csize c (tagged t) ;;
  do! n := NEXT_CHUNK c in
  do! t := psize n in
  set_psize n (tagged t).

Fixpoint alloc_fwd (fuel : nat) (c : Z) : M bool :=
  match fuel with
  | O => no_fuel
  | S fuel =>
      do! k := csize c in
      if inuse k then mret false
      else
        let i := bin_index k in
        lock_bin i ;;
        do! k' := csize c in
        if k' =? k then unbin c i ;; mret true
        else alloc_fwd fuel c
  end.

Fixpoint alloc_rev (fuel : nat) (c : Z) : M bool :=
  match fuel with
  | O => no_fuel
  | S fuel =>
      do! k := psize c in
      if inuse k then mret false
      else
        let i := bin_index k in
        lock_bin i ;;
        do! k' := psize c in
        if k' =? k then do! p := PREV_CHUNK c in unbin p i ;; mret true
        else alloc_rev fuel c
  end.

(** ** Freeing *)

(** [size] bytes more make [reclaim] worth while. *)
Definition reclaims (new_size size : Z) : bool :=
  (u64 (new_size + size) >? RECLAIM) && (Z.lxor (u64 (new_size + size)) size >? size).

(** Take the free neighbours of a chunk. *)
Definition merge_neighbours (self nxt final_size new_size : Z) (reclaim : bool) : M (Z * Z * Z * bool) :=
  do! b := alloc_rev 2 self in
  do! (self, final_size, reclaim) :=
    if (b : bool) then
      do! self := PREV_CHUNK self in
      do! size := CHUNK_SIZE self in
      mret (self, u64 (final_size + size), reclaim || reclaims new_size size)
    else mret (self, final_size, reclaim) in
  do! b := alloc_fwd 2 nxt in
  if (b : bool) then
    do! size := CHUNK_SIZE nxt in
    do! nxt := NEXT_CHUNK nxt in
    mret (self, nxt, u64 (final_size + size), reclaim || reclaims new_size size)
  else mret (self, nxt, final_size, reclaim).

(** [self->psize & next->csize & C_INUSE] *)
Definition both_inuse (self nxt : Z) : M bool :=
  do! p := psize self in do! c := csize nxt in mret (inuse (Z.land p c)).

(** The loop of [free] that merges the chunk with its free neighbours. *)
Fixpoint free_merge (fuel : nat) (self nxt final_size new_size : Z) (reclaim : bool)
    : M (Z * Z * Z * bool * Z) :=
  match fuel with
  | O => no_fuel
  | S fuel =>
      let again :=
        do! (self, nxt, final_size, reclaim) := merge_neighbours self nxt final_size new_size reclaim in
        free_merge fuel self nxt final_size new_size reclaim in
      do! both := both_inuse self nxt in
      if (both : bool) then
        set_csize self (tagged final_size) ;;
        set_psize nxt (tagged final_size) ;;
        let i := bin_index final_size in
        lock_bin i ;;
        do! both := both_inuse self nxt in
        if (both : bool) then mret (self, nxt, final_size, reclaim, i) else again
      else again
  end.

(** Append a chunk to the list of its bin. *)
Definition bin_append (self i : Z) : M unit :=
  set_next self (BIN_TO_CHUNK i) ;;
  do! t := load (bin_tail i) in
  set_prev self t ;;
  do! n := next self in
  set_prev n self ;;
  do! p := prev self in
  set_next p self.

Definition reclaim_pages (self nxt : Z) : M unit :=
  let a := Z.land (self + SIZE_ALIGN + PAGE_SIZE - 1) (u64 (- PAGE_SIZE)) in
  let b := Z.land (nxt - SIZE_ALIGN) (u64 (- PAGE_SIZE)) in
  mset (fun s => s <| words ::= fun w => madvise_os w a (u64 (b - a)) |>).

Definition free (p : Z) : M unit :=
  let self := MEM_TO_CHUNK p in
  if p =? 0 then mskip
  else
    do! mmapped := IS_MMAPPED self in
    if mmapped then
      do! extra := psize self in
      let base := self - extra in
      do! n := CHUNK_SIZE self in
      if inuse extra then a_crash
      else mset (fun s => s <| words ::= fun w => munmap_os w base (u64 (n + extra)) |>)
    else
      do! final_size := CHUNK_SIZE self in
      do! nxt := NEXT_CHUNK self in
      do! ps := psize nxt in
      do! cs := csize self in
      if negb (ps =? cs) then a_crash
      else
        do! (self, nxt, final_size, reclaim, i) :=
          free_merge 2 self nxt final_size final_size false in
        do! b := mget binmap in
        mwhen (Z.land b (Z.shiftl 1 i) =? 0)
          (mset (fun s => s <| binmap ::= fun b => a_or_64 b (Z.shiftl 1 i) |>)) ;;
        set_csize self final_size ;;
        set_psize nxt final_size ;;
        bin_append self i ;;
        mwhen reclaim (reclaim_pages self nxt).

(** ** Splitting *)

(** Cut the front of a free chunk off, leaving the rest in its bin. *)
Definition pretrim (self n i j : Z) : M bool :=
  if j <? 40 then mret false
  else if (j <? i + 3) && negb (j =? 63) then mret false
  else
    do! n1 := CHUNK_SIZE self in
    if (j <? i + 3) && (u64 (n1 - n) <=? MMAP_THRESHOLD) then mret false
    else if negb (bin_index (u64 (n1 - n)) =? j) then mret false
    else
      do! nx := NEXT_CHUNK self in
      let split := self + n in
      do! p := prev self in
      set_prev split p ;;
      do! q := next self in
      set_next split q ;;
      do! p := prev split in
      set_next p split ;;
      do! q := next split in
      set_prev q split ;;
      set_psize split (tagged n) ;;
      set_csize split (u64 (n1 - n)) ;;
      set_psize nx (u64 (n1 - n)) ;;
      set_csize self (tagged n) ;;
      mret true.

(** Give the end of an allocated chunk back. *)
Definition trim (self n : Z) : M unit :=
  do! n1 := CHUNK_SIZE self in
  if n >=? u64 (n1 - DONTCARE) then mskip
  else
    do! nx := NEXT_CHUNK self in
    let split := self + n in
    set_psize split (tagged n) ;;
    set_csize split (tagged (u64 (n1 - n))) ;;
    set_psize nx (tagged (u64 (n1 - n))) ;;
    set_csize self (tagged n) ;;
    free (CHUNK_TO_MEM split).

(** ** Allocating *)

(** A chunk of at least [n] bytes from the bins or a grown heap; 0 if there
    is none. *)
Fixpoint find_chunk (fuel : nat) (n i : Z) : M Z :=
  match fuel with
  | O => no_fuel
  | S fuel =>
      do! b := mget binmap in
      let mask := Z.land b (u64 (- Z.shiftl 1 i)) in
      if mask =? 0 then
        do! c := expand_heap n in
        if c =? 0 then mret 0
        else
          do! merged := alloc_rev 2 c in
          if (merged : bool) then
            do! c' := PREV_CHUNK c in
            do! xs := csize c in
            do! n' := CHUNK_SIZE c' in
            do! nx := NEXT_CHUNK c in
            set_csize c' (u64 (xs + n')) ;;
            set_psize nx (u64 (xs + n')) ;;
            mret c'
          else mret c
      else
        let j := first_set mask in
        lock_bin j ;;
        do! c := load (bin_head j) in
        if negb (c =? BIN_TO_CHUNK j) then
          do! done := pretrim c n i j in
          mwhen (negb done) (unbin c j) ;;
          mret c
        else find_chunk fuel n i
  end.

Definition malloc_mmap (n : Z) : M Z :=
  let len := Z.land (u64 (n + OVERHEAD + PAGE_SIZE - 1)) (u64 (- PAGE_SIZE)) in
  do! w := mget words in
  match mmap_os w len with
  | None => mret 0
  | Some (base, w') =>
      mset (fun s => s <| words := w' |>) ;;
      let c := base + SIZE_ALIGN - OVERHEAD in
      set_csize c (u64 (len - (SIZE_ALIGN - OVERHEAD))) ;;
      set_psize c (SIZE_ALIGN - OVERHEAD) ;;
      mret (CHUNK_TO_MEM c)
  end.

Definition malloc (n : Z) : M Z :=
  do! adj := adjust_size n in
  match adj with
  | None => mret 0
  | Some n =>
      if n >? MMAP_THRESHOLD then malloc_mmap n
      else
        do! c := find_chunk 2 n (bin_index_up n) in
        if c =? 0 then mret 0
        else trim c n ;; mret (CHUNK_TO_MEM c)
  end.

(** Write zeros over [k] words, sparing those that are zero. *)
Fixpoint clear_words (z : Z) (k : nat) : M unit :=
  match k with
  | O => mskip
  | S k => do! v := load z in mwhen (negb (v =? 0)) (store z 0) ;; clear_words (z + 8) k
  end.

Definition malloc0 (n : Z) : M Z :=
  do! p := malloc n in
  if p =? 0 then mret p
  else
    do! mmapped := IS_MMAPPED (MEM_TO_CHUNK p) in
    mwhen (negb mmapped) (clear_words p (Z.to_nat (u64 (n + 8 - 1) / 8))) ;;
    mret p.

(** [memcpy] of whole words. *)
Fixpoint memcpy_words (dst src : Z) (k : nat) : M unit :=
  match k with
  | O => mskip
  | S k => do! v := load src in store dst v ;; memcpy_words (dst + 8) (src + 8) k
  end.
Definition memcpy (dst src len : Z) : M unit := memcpy_words dst src (Z.to_nat (len / 8)).

(** The last resort of [realloc]: a new block and a copy of [n0] bytes. *)
Definition copy_realloc (p n n0 self : Z) : M Z :=
  do! new := malloc (u64 (n - OVERHEAD)) in
  if new =? 0 then mret 0
  else
    memcpy new p (u64 (n0 - OVERHEAD)) ;;
    free (CHUNK_TO_MEM self) ;;
    mret new.

Definition realloc_mmapped (p n n0 self : Z) : M Z :=
  do! extra := psize self in
  let base := self - extra in
  let oldlen := u64 (n0 + extra) in
  let newlen := u64 (n + extra) in
  if inuse extra then a_crash
  else
    do! new := if newlen <? PAGE_SIZE then malloc n else mret 0 in
    if negb (new =? 0) then
      memcpy new p (u64 (n - OVERHEAD)) ;;
      free p ;;
      mret new
    else
      let newlen := Z.land (u64 (newlen + PAGE_SIZE - 1)) (u64 (- PAGE_SIZE)) in
      if oldlen =? newlen then mret p
      else
        do! w := mget words in
        match mremap_os w base oldlen newlen with
        | None => copy_realloc p n n0 self
        | Some (base, w') =>
            mset (fun s => s <| words := w' |>) ;;
            set_csize (base + extra) (u64 (newlen - extra)) ;;
            mret (CHUNK_TO_MEM (base + extra))
        end.

Definition realloc (p n : Z) : M Z :=
  if p =? 0 then malloc n
  else
    do! adj := adjust_size n in
    match adj with
    | None => mret 0
    | Some n =>
        let self := MEM_TO_CHUNK p in
        do! n0 := CHUNK_SIZE self in
        do! mmapped := IS_MMAPPED self in
        if mmapped then realloc_mmapped p n n0 self
        else
          do! nxt := NEXT_CHUNK self in
          do! ps := psize nxt in
          do! cs := csize self in
          if negb (ps =? cs) then a_crash
          else
            do! grown := if n >? n0 then alloc_fwd 2 nxt else mret false in
            do! (n1, nxt) := if (grown : bool) then
                               do! size := CHUNK_SIZE nxt in
                               do! nxt' := NEXT_CHUNK nxt in
                               mret (u64 (n0 + size), nxt')
                             else mret (n0, nxt) in
            set_csize self (tagged n1) ;;
            set_psize nxt (tagged n1) ;;
            if n <=? n1 then trim self n ;; mret (CHUNK_TO_MEM self)
            else copy_realloc p n n0 self
    end.
End malloc.
