(* ===== verification/MallocArith.v ===== *)
(** * Sizes, tags and bin numbers of the allocator

    Chunk sizes are multiples of 32 below [2^63]; a tag is a size with the
    in-use flag in bit 0.  The functions that number the bins are checked
    against the order of sizes: a bin that [bin_index_up] selects for a
    request holds no chunk that is too small for it. *)

From Stdlib Require Import ZifyBool.
From stdpp Require Import base numbers gmap list.
From S2P Require Import Prelude Word StateMonad Malloc.

Local Open Scope Z_scope.

(** [lia] with division and remainder by constants. *)
Ltac Zify.zify_post_hook ::= Z.to_euclidean_division_equations.

(** ** Tags *)

(** The sizes the allocator handles. *)
Definition sized (n : Z) : Prop := 0 <= n < 2 ^ 63 /\ n mod 32 = 0.

Definition tag (n : Z) (u : bool) : Z := if u then tagged n else n.

Lemma tagged_even n : n mod 2 = 0 -> tagged n = n + 1.
Proof.
  intros Hn. unfold tagged, C_INUSE. rewrite <- (Z.add_lor_land n 1).
  enough (Z.land n 1 = 0) by lia. change 1 with (Z.ones 1). by rewrite Z.land_ones.
Qed.

Lemma inuse_odd t : inuse t = negb (t mod 2 =? 0).
Proof. unfold inuse, C_INUSE. change 1 with (Z.ones 1). by rewrite Z.land_ones. Qed.

Lemma untag_even t : 0 <= t < 2 ^ 64 -> untag t = t - t mod 2.
Proof.
  intros Ht. unfold untag.
  change (u64 (-2)) with (Z.ldiff (Z.ones 64) (Z.ones 1)).
  replace (Z.land t (Z.ldiff (Z.ones 64) (Z.ones 1))) with (Z.ldiff t (Z.ones 1)).
  - rewrite Z.ldiff_ones_r by lia. rewrite Z.shiftr_div_pow2, Z.shiftl_mul_pow2 by lia.
    pose proof (Z.div_mod t 2). change (2 ^ 1) with 2. lia.
  - apply Z.bits_inj'. intros k Hk. rewrite Z.land_spec, !Z.ldiff_spec.
    destruct (Z.ltb_spec k 64).
    + rewrite (Z.ones_spec_low 64) by lia. cbn. done.
    + by rewrite (testbit_high t) by lia.
Qed.

Section tags.
Context (n : Z) (Hn : sized n).

Lemma sized_even : n mod 2 = 0.
Proof. destruct Hn. lia. Qed.
Lemma tag_eq u : tag n u = n + Z.b2z u.
Proof. destruct u; cbn; [by rewrite tagged_even by apply sized_even|lia]. Qed.
Lemma tag_inuse u : inuse (tag n u) = u.
Proof. rewrite inuse_odd, tag_eq. destruct Hn, u; cbn [Z.b2z]; lia. Qed.
Lemma tag_untag u : untag (tag n u) = n.
Proof. rewrite tag_eq, untag_even; destruct Hn, u; cbn [Z.b2z]; lia. Qed.
Lemma tag_tagged u : tagged (tag n u) = tag n true.
Proof.
  destruct u; [|done]. unfold tag, tagged. by rewrite <- Z.lor_assoc, Z.lor_diag.
Qed.
End tags.

Lemma inuse_land a b : inuse (Z.land a b) = inuse a && inuse b.
Proof.
  assert (Ho : forall x, inuse x = Z.odd x).
  { intros x. rewrite inuse_odd, Zmod_odd. by destruct (Z.odd x). }
  rewrite !Ho, <- !Z.bit0_odd. apply Z.land_spec.
Qed.

Lemma sized_add n m : sized n -> sized m -> n + m < 2 ^ 63 -> sized (n + m).
Proof. intros [] []. split; lia. Qed.
Lemma sized_sub n m : sized n -> sized m -> m <= n -> sized (n - m).
Proof. intros [] [] Hle. split; lia. Qed.

(** ** Bin numbers *)

Section bins.
Context `{E : MallocEnv}.

(** A property of all multiples of 32 up to the largest tabulated size. *)
Definition upto (k : nat) (f : Z -> bool) : bool := forallb (fun i => f (32 * Z.of_nat i)) (seq 1 k).

Lemma upto_spec k f n :
  upto k f = true -> sized n -> 0 < n <= 32 * Z.of_nat k -> f n = true.
Proof.
  unfold upto. rewrite forallb_forall. intros Hall [Hn Hm] Hk.
  specialize (Hall (Z.to_nat (n / 32))). rewrite in_seq in Hall.
  replace n with (32 * Z.of_nat (Z.to_nat (n / 32))) by lia. apply Hall. lia.
Qed.

Lemma bin_index_large n : sized n -> 32 * 7169 < n -> bin_index n = 63.
Proof.
  intros Hn Hl. destruct Hn as [Hn Hm]. unfold bin_index, bin_index_read, SIZE_ALIGN. rewrite u64_small by lia.
  destruct (Z.leb_spec (n / 32 - 1) 32); [lia|].
  destruct (Z.ltb_spec (n / 32 - 1) 512); [lia|].
  rewrite (proj2 (Z.gtb_lt _ _)) by lia. done.
Qed.

Lemma bin_index_range n : sized n -> 0 < n -> 0 <= bin_index n <= 63.
Proof.
  intros Hn Hp. destruct (Z.le_gt_cases n (32 * 7169)).
  - assert (Hb0 : (0 <=? bin_index n) && (bin_index n <=? 63) = true).
    { apply (upto_spec (Z.to_nat 7169) (fun n => (0 <=? bin_index n) && (bin_index n <=? 63))); [|done|lia].
      vm_compute. reflexivity. }
    lia.
  - rewrite bin_index_large by done. lia.
Qed.

Lemma bin_index_mono n m : sized n -> sized m -> 0 < n <= m -> bin_index n <= bin_index m.
Proof.
  intros Hn Hm Hnm.
  assert (Hstep : forall n, sized n -> 0 < n -> bin_index n <= bin_index (n + 32)).
  { intros k Hk Hp. destruct (Z.le_gt_cases k (32 * 7169)).
    - apply Z.leb_le. apply (upto_spec (Z.to_nat 7169) (fun n => bin_index n <=? bin_index (n + 32))); [|done|lia].
      vm_compute. reflexivity.
    - destruct (decide (k + 32 < 2 ^ 63)).
      + rewrite !bin_index_large; [lia|destruct Hk; split; lia|lia|done|done].
      + destruct Hk. rewrite bin_index_large by (try split; lia).
        unfold bin_index, bin_index_read, SIZE_ALIGN. rewrite u64_small by lia.
        destruct (Z.leb_spec ((k + 32) / 32 - 1) 32); [lia|].
        destruct (Z.ltb_spec ((k + 32) / 32 - 1) 512); [lia|].
        by rewrite (proj2 (Z.gtb_lt _ _)) by lia. }
  assert (Hall : forall d : nat, sized (n + 32 * Z.of_nat d) -> bin_index n <= bin_index (n + 32 * Z.of_nat d)).
  { intros d. induction d as [|d IH]; intros Hd; [by rewrite Z.add_0_r|].
    assert (Hd' : sized (n + 32 * Z.of_nat d)) by (destruct Hn, Hd; split; lia).
    etrans; [by apply IH|]. replace (n + 32 * Z.of_nat (S d)) with (n + 32 * Z.of_nat d + 32) by lia.
    apply Hstep; [done|lia]. }
  replace m with (n + 32 * Z.of_nat (Z.to_nat ((m - n) / 32))) by (destruct Hn, Hm; lia).
  apply Hall. destruct Hn, Hm. split; lia.
Qed.

Lemma bin_index_up_range n : sized n -> 0 < n <= MMAP_THRESHOLD ->
  bin_index n <= bin_index_up n <= 63.
Proof.
  intros Hn Hp.
  assert (Hb0 : (bin_index n <=? bin_index_up n) && (bin_index_up n <=? 63) = true).
  { apply (upto_spec (Z.to_nat 7168) (fun n => (bin_index n <=? bin_index_up n) && (bin_index_up n <=? 63)));
      [vm_compute; reflexivity|done|unfold MMAP_THRESHOLD, SIZE_ALIGN in Hp; lia]. }
  lia.
Qed.

Lemma bin_index_lt_up n : sized n -> 32 < n <= MMAP_THRESHOLD -> bin_index (n - 32) < bin_index_up n.
Proof.
  intros Hn Hp. apply Z.ltb_lt. destruct Hn.
  assert (Hb0 : (n =? 32) || (bin_index (n - 32) <? bin_index_up n) = true).
  { apply (upto_spec (Z.to_nat 7168) (fun n => (n =? 32) || (bin_index (n - 32) <? bin_index_up n)));
      [vm_compute; reflexivity|done|unfold MMAP_THRESHOLD, SIZE_ALIGN in Hp; lia]. }
  destruct (Z.eqb_spec n 32); [lia|done].
Qed.

(** The chunks of a bin that a request looks into are large enough. *)
Lemma bin_fits n m :
  sized n -> sized m -> 0 < m -> 0 < n <= MMAP_THRESHOLD -> bin_index_up n <= bin_index m -> n <= m.
Proof.
  intros Hn Hm Hp Hr Hle. destruct (Z.le_gt_cases n m) as [|Hlt]; [done|exfalso].
  assert (Hb : bin_index (n - 32) < bin_index_up n) by (apply bin_index_lt_up; [done|destruct Hn, Hm; lia]).
  enough (bin_index m <= bin_index (n - 32)) by lia.
  apply bin_index_mono; destruct Hn, Hm; try split; lia.
Qed.

Definition present (o : option Z) : bool := match o with Some _ => true | None => false end.
Lemma present_Some o : present o = true -> is_Some o.
Proof. destruct o; [by eexists|done]. Qed.

(** The table is read within its bounds. *)
Lemma bin_index_reads n : sized n -> 0 < n -> bin_index_read n = Some (bin_index n).
Proof.
  intros Hn Hp. unfold bin_index. enough (is_Some (bin_index_read n)) as [b ->] by done.
  destruct (Z.le_gt_cases n (32 * 7169)).
  - apply present_Some.
    apply (upto_spec (Z.to_nat 7169) (fun n => present (bin_index_read n))); [|done|lia].
    vm_compute. reflexivity.
  - pose proof Hn as [Hlo Hm]. unfold bin_index_read, SIZE_ALIGN. rewrite u64_small by lia.
    destruct (Z.leb_spec (n / 32 - 1) 32); [lia|].
    destruct (Z.ltb_spec (n / 32 - 1) 512); [lia|].
    by rewrite (proj2 (Z.gtb_lt _ _)) by lia.
Qed.

Lemma bin_index_up_reads n : sized n -> 0 < n <= MMAP_THRESHOLD ->
  bin_index_up_read n = Some (bin_index_up n).
Proof.
  intros Hn Hp. unfold bin_index_up. enough (is_Some (bin_index_up_read n)) as [b ->] by done.
  apply present_Some.
  apply (upto_spec (Z.to_nat 7168) (fun n => present (bin_index_up_read n)));
    [vm_compute; reflexivity|done|unfold MMAP_THRESHOLD, SIZE_ALIGN in Hp; lia].
Qed.

(** The first bin a request looks into is the one after the bin of the next
    smaller size. *)
Lemma bin_index_up_next n : sized n -> 0 < n <= MMAP_THRESHOLD ->
  bin_index_up n = if n =? SIZE_ALIGN then 0 else bin_index (n - SIZE_ALIGN) + 1.
Proof.
  intros Hn Hp. apply Z.eqb_eq.
  apply (upto_spec (Z.to_nat 7168)
    (fun n => bin_index_up n =? if n =? SIZE_ALIGN then 0 else bin_index (n - SIZE_ALIGN) + 1));
    [vm_compute; reflexivity|done|unfold MMAP_THRESHOLD, SIZE_ALIGN in Hp; lia].
Qed.

Lemma bin_index_up_near n : sized n -> 0 < n <= MMAP_THRESHOLD -> bin_index_up n <= bin_index n + 1.
Proof.
  intros Hn Hp. rewrite bin_index_up_next by done. destruct (Z.eqb_spec n SIZE_ALIGN) as [->|Hne]; [done|].
  assert (32 < n) by (unfold SIZE_ALIGN in Hne; destruct Hn; lia).
  assert (bin_index (n - SIZE_ALIGN) <= bin_index n); [|lia].
  unfold SIZE_ALIGN. apply bin_index_mono; destruct Hn; try split; lia.
Qed.

(** C35. The bins.  For chunk sizes (multiples of 32 below [2^63]) and
    requests up to the mmap threshold: every chunk size has a bin below 64,
    and larger chunks are in no lower bins; a request of [n] bytes looks into
    the bins from [bin_index_up n] on, which hold chunks of at least [n]
    bytes only, so that the first chunk of the first such bin serves it;
    that bin is as low as can be: it comes right after the bin of the next
    smaller size (and is 0 for the smallest request), so a chunk of exactly
    [n] bytes is in it or in the bin just below; and both functions read
    [bin_tab] within its 60 entries. *)
Theorem bins_sound n m :
  sized n -> sized m -> 0 < m -> 0 < n <= MMAP_THRESHOLD ->
  0 <= bin_index m < 64 /\ (n <= m -> bin_index n <= bin_index m) /\
  (bin_index_up n <= bin_index m -> n <= m) /\
  bin_index_up n = (if n =? SIZE_ALIGN then 0 else bin_index (n - SIZE_ALIGN) + 1) /\
  (bin_index n = bin_index_up n \/ bin_index n = bin_index_up n - 1) /\ bin_index_up n < 64 /\
  bin_index_read m = Some (bin_index m) /\ bin_index_up_read n = Some (bin_index_up n).
Proof.
  intros Hn Hm Hp Hr. pose proof (bin_index_range m Hm Hp). pose proof (bin_index_up_range n Hn Hr).
  pose proof (bin_index_up_near n Hn Hr).
  split_and!; [lia|lia| |by apply bin_fits|by apply bin_index_up_next|lia|lia|..].
  - intros Hle. by apply bin_index_mono; [done|done|lia].
  - by apply bin_index_reads.
  - by apply bin_index_up_reads.
Qed.

Lemma bins_sound_witness : bin_index_up 2080 <= bin_index 4064 /\ 2080 <= 4064.
Proof.
  assert (Hle : bin_index_up 2080 <= bin_index 4064) by (vm_compute; discriminate).
  split; [done|]. apply (bins_sound 2080 4064); [done|done|lia|done|done].
Defined.
End bins.

(** ** Requests *)

Section adjust.
Context `{E : MallocEnv}.

Lemma adjusted_spec n sz :
  0 < PAGE_SIZE < 2 ^ 32 -> PAGE_SIZE mod 32 = 0 -> 0 <= n < 2 ^ 64 -> adjusted n = Some sz ->
  sized sz /\ n + OVERHEAD <= sz < n + OVERHEAD + SIZE_ALIGN /\ SIZE_ALIGN <= sz <= 2 ^ 63 - PAGE_SIZE /\
  n <= PTRDIFF_MAX.
Proof.
  unfold adjusted, PTRDIFF_MAX, SIZE_ALIGN, OVERHEAD. intros Hpg Hpm Hn.
  rewrite (u64_small (2 ^ 63 - 1 - 32 - PAGE_SIZE)) by lia.
  destruct (decide (n = 0)) as [->|Hnz].
  { replace (u64 (0 - 1)) with (2 ^ 64 - 1) by reflexivity.
    rewrite (proj2 (Z.gtb_lt _ _)) by lia. intros [= <-]. repeat split; lia || done. }
  rewrite (u64_small (n - 1)) by lia. destruct (n - 1 >? 2 ^ 63 - 1 - 32 - PAGE_SIZE) eqn:Hgt.
  { apply Z.gtb_lt in Hgt. by rewrite (proj2 (Z.eqb_neq n 0)). }
  rewrite Z.gtb_ltb, Z.ltb_ge in Hgt. intros [= <-]. rewrite u64_small by lia.
  unfold SIZE_MASK. change SIZE_ALIGN with (2 ^ 5). rewrite land_mask by lia. change (2 ^ 5) with 32.
  repeat split; lia.
Qed.

Lemma adjusted_none n :
  0 < PAGE_SIZE < 2 ^ 32 -> 0 <= n < 2 ^ 64 ->
  adjusted n = None <-> PTRDIFF_MAX - SIZE_ALIGN - PAGE_SIZE + 1 < n.
Proof.
  unfold adjusted, PTRDIFF_MAX, SIZE_ALIGN. intros Hpg Hn.
  rewrite (u64_small (2 ^ 63 - 1 - 32 - PAGE_SIZE)) by lia.
  destruct (decide (n = 0)) as [->|Hnz].
  { replace (u64 (0 - 1)) with (2 ^ 64 - 1) by reflexivity.
    rewrite (proj2 (Z.gtb_lt _ _)) by lia. split; [done|lia]. }
  rewrite (u64_small (n - 1)) by lia. rewrite (proj2 (Z.eqb_neq n 0)) by done.
  destruct (n - 1 >? 2 ^ 63 - 1 - 32 - PAGE_SIZE) eqn:Hgt.
  - apply Z.gtb_lt in Hgt. split; [lia|done].
  - rewrite Z.gtb_ltb, Z.ltb_ge in Hgt. split; [done|lia].
Qed.
End adjust.
