(* ===== verification/MallocInv.v ===== *)
(** * What the allocator's memory looks like

    An abstract heap [H] gives each chunk address its size and whether it is
    in use, [N] the size of each chunk with a mapping of its own.  [heap_ok]
    relates them to memory: boundary tags, circular lists of the bins,
    bitmap, and mappings that do not overlap. *)

From Stdlib Require Import ZifyBool.
From stdpp Require Import base numbers gmap list.
From S2P Require Import Prelude Word StateMonad Malloc MallocArith.

Local Open Scope Z_scope.
Ltac Zify.zify_post_hook ::= Z.to_euclidean_division_equations.

(** ** What the system documents *)

(** Words in a range of addresses: none, all, and those outside as before. *)
Definition fresh (w : gmap Z Z) (p n : Z) : Prop := forall a, p <= a < p + n -> w !! a = None.
Definition mapped (w : gmap Z Z) (p n : Z) : Prop :=
  forall a, p <= a < p + n -> a mod 8 = 0 -> is_Some (w !! a).
Definition kept (w w' : gmap Z Z) (p n : Z) : Prop :=
  forall a, ~ p <= a < p + n -> w' !! a = w !! a.

(** New memory at page boundaries below [2^63]. *)
Record provides `{E : MallocEnv} (w w' : gmap Z Z) (p n : Z) : Prop := {
  pv_page : p mod PAGE_SIZE = 0;
  pv_size : n mod PAGE_SIZE = 0;
  pv_range : 0 < p /\ p + n < 2 ^ 63;
  pv_fresh : fresh w p n;
  pv_mapped : mapped w' p n;
  pv_kept : kept w w' p n;
}.

Class MallocLaws (E : MallocEnv) : Prop := {
  page_size : exists k, 12 <= k <= 16 /\ PAGE_SIZE = 2 ^ k;
  bins_address : 16 <= BINS /\ BINS mod 8 = 0;
  ctz_spec : forall x, 0 < x < 2 ^ 64 -> 0 <= a_ctz_64 x < 64 /\ Z.testbit x (a_ctz_64 x) = true;
  and_spec : forall x y, a_and_64 x y = Z.land x y;
  or_spec : forall x y, a_or_64 x y = Z.lor x y;
  expand_law : forall w n p n' w',
    expand_os w n = Some (p, n', w') -> n <= n' /\ provides w w' p n';
  mmap_law : forall w n p w',
    mmap_os w n = Some (p, w') -> provides w w' p n;
  munmap_law : forall w p n, kept w (munmap_os w p n) p n /\ fresh (munmap_os w p n) p n;
  madvise_law : forall w p n, kept w (madvise_os w p n) p n /\
    forall a, is_Some (w !! a) -> is_Some (madvise_os w p n !! a);
}.

Lemma page_facts `{E : MallocEnv} `{!MallocLaws E} :
  4096 <= PAGE_SIZE <= 65536 /\ forall x, x mod PAGE_SIZE = 0 -> x mod 4096 = 0.
Proof.
  destruct page_size as (k & Hk & ->). split.
  - split; [change 4096 with (2 ^ 12)|change 65536 with (2 ^ 16)]; apply Z.pow_le_mono_r; lia.
  - intros x Hx. change 4096 with (2 ^ 12).
    apply Z.mod_divide in Hx; [|apply Z.pow_nonzero; lia]. apply Z.mod_divide; [lia|].
    etrans; [|exact Hx]. exists (2 ^ (k - 12)). rewrite <- Z.pow_add_r by lia. f_equal. lia.
Qed.

(** ** Accesses to memory *)

Lemma wp_load a v (Q : Z -> mem -> Prop) s : words s !! a = Some v -> Q v s -> wp (load a) Q s.
Proof. intros Hv H. exists v, s. unfold load. by rewrite Hv. Qed.
Lemma wp_store a v (Q : unit -> mem -> Prop) s :
  is_Some (words s !! a) -> Q tt (s <| words ::= <[a := v]> |>) -> wp (store a v) Q s.
Proof. intros [x Hx] H. eexists tt, _. unfold store. by rewrite Hx. Qed.

(** Memory keeps every word it has. *)
Definition dom_le (w w' : gmap Z Z) : Prop := forall a, is_Some (w !! a) -> is_Some (w' !! a).

Lemma dom_le_insert w a v : dom_le w (<[a := v]> w).
Proof. intros b Hb. destruct (decide (a = b)) as [->|]; [rewrite lookup_insert_eq|rewrite lookup_insert_ne]; done. Qed.
#[export] Instance dom_le_preorder : PreOrder dom_le.
Proof. split; [by intros w a|]. intros u v w H1 H2 a Ha. auto. Qed.

(** ** Stepping through the code *)

(** Lookups through a chain of writes; addresses are compared by [lia] or by
    the hypotheses. *)
Ltac look :=
  repeat first
    [ rewrite lookup_insert_eq
    | rewrite lookup_insert_ne by (first [lia | assumption | apply not_eq_sym; assumption | auto 2 with nocore]) ];
  try first [eassumption | reflexivity].

Ltac chunk_unfold :=
  unfold NEXT_CHUNK, PREV_CHUNK, CHUNK_SIZE, IS_MMAPPED, psize, csize, next, prev,
    set_psize, set_csize, set_next, set_prev.

Ltac look_some :=
  repeat (first [assumption | eexists; eassumption | apply dom_le_insert | rewrite lookup_insert_eq; by eexists]).

Lemma wp_load_at a v (Q : Z -> mem -> Prop) w b e n :
  w !! a = Some v -> Q v (mkMem w b e n) -> wp (load a) Q (mkMem w b e n).
Proof. intros Hv HQ. by apply (wp_load a v). Qed.
Lemma wp_store_at a v (Q : unit -> mem -> Prop) w b e n :
  is_Some (w !! a) -> Q tt (mkMem (<[a := v]> w) b e n) -> wp (store a v) Q (mkMem w b e n).
Proof. intros Hv HQ. by apply (wp_store a v). Qed.

(** One step on a state [mkMem w b e n]; it fails if an access cannot be
    resolved. *)
Ltac wp_step :=
  cbn beta iota;
  lazymatch goal with
  | |- wp (mbind_ _ _) _ _ => apply wp_bind
  | |- wp (mret _) _ _ => apply wp_ret
  | |- wp (mget _) _ _ => apply wp_get; cbn [words binmap heap_end]
  | |- wp mskip _ _ => apply wp_skip
  | |- wp (load _) _ _ => eapply wp_load_at; [solve [look]|]
  | |- wp (store _ _) _ _ => eapply wp_store_at; [solve [look_some]|]
  | |- wp (mwhen _ _) _ _ => unfold mwhen
  end.

(** ** Chunks and their tags *)

Abbreviation chunks := (gmap Z (Z * bool)).

(** Where the tags of chunks are, and the memory that chunks occupy. *)
Definition tag_at (H : chunks) (a : Z) : Prop := is_Some (H !! a) \/ is_Some (H !! (a - 8)).
Definition territory (H : chunks) (a : Z) : Prop :=
  exists c sz u, H !! c = Some (sz, u) /\ c <= a < c + sz + 16.

Record chunk_ok (c sz : Z) (u : bool) : Prop := {
  ck_sized : sized sz;
  ck_align : c mod 32 = 16;
  ck_range : 0 < c /\ c + sz < 2 ^ 63;
  ck_last : sz = 0 -> u = true;
}.

Record tags_ok (w : gmap Z Z) (H : chunks) : Prop := {
  tg_chunk : forall c sz u, H !! c = Some (sz, u) -> chunk_ok c sz u;
  tg_csize : forall c sz u, H !! c = Some (sz, u) -> w !! (c + 8) = Some (tag sz u);
  tg_next : forall c sz u, H !! c = Some (sz, u) -> 0 < sz ->
    is_Some (H !! (c + sz)) /\ w !! (c + sz) = Some (tag sz u);
  tg_prev : forall c sz u, H !! c = Some (sz, u) ->
    w !! c = Some (tagged 0) \/ exists sz' u', H !! (c - sz') = Some (sz', u') /\ 0 < sz';
  tg_apart : forall c sz u c' sz' u', H !! c = Some (sz, u) -> H !! c' = Some (sz', u') ->
    c < c' -> c + sz <= c';
  tg_mapped : forall c sz u, H !! c = Some (sz, u) -> mapped w c sz;
}.

Lemma mapped_le w w' p n : dom_le w w' -> mapped w p n -> mapped w' p n.
Proof. intros Hd Hm a Ha H8. apply Hd. by apply Hm. Qed.

Section tags.
Context (w : gmap Z Z) (H : chunks) (T : tags_ok w H).

Lemma tag_at_mod a : tag_at H a -> a mod 32 = 16 \/ a mod 32 = 24.
Proof.
  intros [[[sz u] Hc]|[[sz u] Hc]]; destruct (tg_chunk _ _ T _ _ _ Hc) as [_ Ha _ _]; lia.
Qed.

Lemma tag_at_territory a : tag_at H a -> territory H a.
Proof.
  intros [[[sz u] Hc]|[[sz u] Hc]]; destruct (tg_chunk _ _ T _ _ _ Hc) as [[] _ _ _];
    [exists a|exists (a - 8)]; exists sz, u; split; [done|lia|done|lia].
Qed.

(** The chunk before one whose [psize] is not in use. *)
Lemma tg_before c sz u k :
  H !! c = Some (sz, u) -> w !! c = Some k -> inuse k = false ->
  H !! (c - k) = Some (k, false) /\ 0 < k /\ k = untag k.
Proof.
  intros Hc Hk Hu. destruct (tg_prev _ _ T _ _ _ Hc) as [H1|(k' & u' & Hp & Hpos)].
  { rewrite H1 in Hk. injection Hk as <-. by vm_compute in Hu. }
  destruct (tg_next _ _ T _ _ _ Hp Hpos) as [_ H1]. replace (c - k' + k') with c in H1 by lia.
  rewrite H1 in Hk. injection Hk as <-. destruct (tg_chunk _ _ T _ _ _ Hp) as [Hsz _ _ _].
  rewrite tag_inuse in Hu by done. subst u'. cbn [tag]. split_and!; [done|done|].
  by rewrite <- (tag_untag k' Hsz false) at 1.
Qed.

(** The chunk after a chunk, and the next tag's flag. *)
Lemma tg_after c sz u :
  H !! c = Some (sz, u) -> 0 < sz ->
  exists sz' u', H !! (c + sz) = Some (sz', u') /\ w !! (c + sz) = Some (tag sz u) /\
    w !! (c + sz + 8) = Some (tag sz' u').
Proof.
  intros Hc Hp. destruct (tg_next _ _ T _ _ _ Hc Hp) as [[[sz' u'] Hn] Hw].
  exists sz', u'. split_and!; [done..|]. by eapply tg_csize.
Qed.

Lemma psize_mapped c sz u : H !! c = Some (sz, u) -> is_Some (w !! c).
Proof.
  intros Hc. destruct (tg_prev _ _ T _ _ _ Hc) as [H1|(k' & u' & Hp & Hpos)]; [by eexists|].
  destruct (tg_next _ _ T _ _ _ Hp Hpos) as [_ H1]. replace (c - k' + k') with c in H1 by lia. by eexists.
Qed.

Lemma chunk_size_min c sz u : H !! c = Some (sz, u) -> 0 < sz -> 32 <= sz.
Proof. intros Hc Hp. destruct (tg_chunk _ _ T _ _ _ Hc) as [[] _ _ _]. lia. Qed.

(** Writes elsewhere leave the tags alone. *)
Lemma tags_frame w' :
  (forall a, tag_at H a -> w' !! a = w !! a) -> dom_le w w' -> tags_ok w' H.
Proof.
  intros Hf Hd. split.
  - apply T.
  - intros c sz u Hc. rewrite Hf by (right; replace (c + 8 - 8) with c by lia; eauto). by eapply tg_csize.
  - intros c sz u Hc Hp. destruct (tg_next _ _ T _ _ _ Hc Hp) as [Hn Hw]. split; [done|].
    by rewrite Hf by (by left).
  - intros c sz u Hc. rewrite Hf by (left; eauto). by eapply tg_prev.
  - apply T.
  - intros c sz u Hc. by eapply mapped_le, tg_mapped.
Qed.
End tags.

(** ** Changing tags *)

(** [w'] has the tag [n], [u] around the chunk at [c], and otherwise the tags
    of [w]. *)
Record retagged (w w' : gmap Z Z) (H : chunks) (c n : Z) (u : bool) : Prop := {
  rt_csize : w' !! (c + 8) = Some (tag n u);
  rt_psize : w' !! (c + n) = Some (tag n u);
  rt_kept : forall a, tag_at H a -> a <> c + 8 -> a <> c + n -> w' !! a = w !! a;
  rt_dom : dom_le w w';
}.

Section retag.
Context (w w' : gmap Z Z) (H : chunks) (T : tags_ok w H).
Context (c sz : Z) (u : bool) (Hc : H !! c = Some (sz, u)) (Hpos : 0 < sz).

Lemma territory_retag u' a : territory (<[c := (sz, u')]> H) a <-> territory H a.
Proof.
  split; intros (d & n & v & Hd & Ha).
  - apply lookup_insert_Some in Hd as [[-> [= <- <-]]|[_ Hd]]; repeat eexists; eauto; lia.
  - destruct (decide (c = d)) as [->|Hne].
    + rewrite Hc in Hd. injection Hd as <- <-. repeat eexists; [by rewrite lookup_insert_eq|lia|lia].
    + repeat eexists; [by rewrite lookup_insert_ne|lia|lia].
Qed.

Lemma tag_at_ne d : is_Some (H !! d) -> c <> d -> d + 8 <> c + 8 /\ d + 8 <> c + sz /\ d <> c + 8.
Proof.
  intros [[n v] Hd] Hne. destruct (tg_chunk _ _ T _ _ _ Hc) as [[] ? _ _].
  destruct (tg_chunk _ _ T _ _ _ Hd) as [_ ? _ _]. lia.
Qed.

Lemma tags_retag u' :
  retagged w w' H c sz u' -> tags_ok w' (<[c := (sz, u')]> H).
Proof.
  intros [R1 R2 Rk Rd]. pose proof (tg_chunk _ _ T _ _ _ Hc) as Hck.
  assert (Hin : forall d, is_Some (H !! d) -> is_Some (<[c := (sz, u')]> H !! d)).
  { intros d Hd. destruct (decide (c = d)) as [->|]; [rewrite lookup_insert_eq|rewrite lookup_insert_ne]; done. }
  split.
  - intros d n v Hd. apply lookup_insert_Some in Hd as [[-> [= <- <-]]|[_ Hd]]; [|by eapply tg_chunk].
    destruct Hck as [Hs ? ? ?]. split; [done..|lia].
  - intros d n v Hd. apply lookup_insert_Some in Hd as [[-> [= <- <-]]|[Hne Hd]]; [done|].
    destruct (tag_at_ne d) as (? & ? & ?); [eauto|done|].
    rewrite Rk by (done || right; replace (d + 8 - 8) with d by lia; eauto). by eapply tg_csize.
  - intros d n v Hd Hp. apply lookup_insert_Some in Hd as [[-> [= <- <-]]|[Hne Hd]].
    { destruct (tg_next _ _ T _ _ _ Hc Hpos) as [Hn _]. auto. }
    destruct (tg_next _ _ T _ _ _ Hd Hp) as [Hn Hw]. split; [auto|].
    rewrite Rk; [done|by left| |].
    + destruct (tg_chunk _ _ T _ _ _ Hd) as [[] ? _ _], Hck as [[] ? _ _]. lia.
    + intros Heq. destruct (Z.lt_trichotomy c d) as [Hlt|[->|Hlt]]; [|done|].
      * pose proof (tg_apart _ _ T _ _ _ _ _ _ Hc Hd Hlt). lia.
      * pose proof (tg_apart _ _ T _ _ _ _ _ _ Hd Hc Hlt). lia.
  - intros d n v Hd.
    assert (Hd' : exists n v, H !! d = Some (n, v)).
    { apply lookup_insert_Some in Hd as [[<- _]|[_ Hd]]; eauto. }
    clear n v Hd. destruct Hd' as (n & v & Hd).
    destruct (decide (d = c + sz)) as [->|Hne].
    { right. exists sz, u'. replace (c + sz - sz) with c by lia. by rewrite lookup_insert_eq. }
    destruct (tg_prev _ _ T _ _ _ Hd) as [H1|(n' & v' & Hp & Hpos')].
    + left. rewrite Rk; [done|left; eauto| |done].
      destruct (tg_chunk _ _ T _ _ _ Hd) as [_ ? _ _], Hck as [_ ? _ _]. lia.
    + right. destruct (decide (c = d - n')) as [Heq|]; [|exists n', v'; by rewrite lookup_insert_ne].
      exists n', u'. rewrite <- Heq, lookup_insert_eq. rewrite Heq in Hc. rewrite Hc in Hp. by injection Hp as -> _.
  - intros d n v d' n' v' Hd Hd' Hlt.
    apply lookup_insert_Some in Hd as [[<- [= <- <-]]|[_ Hd]];
      apply lookup_insert_Some in Hd' as [[<- [= <- <-]]|[_ Hd']]; try lia; by eapply (tg_apart _ _ T).
  - intros d n v Hd. eapply mapped_le; [exact Rd|].
    apply lookup_insert_Some in Hd as [[<- [= <- <-]]|[_ Hd]]; by eapply tg_mapped.
Qed.
End retag.

(** A chunk cut in two. *)
Section split.
Context (w w' : gmap Z Z) (H : chunks) (T : tags_ok w H).
Context (c sz n : Z) (u v : bool) (Hc : H !! c = Some (sz, u)) (Hn : sized n) (Hlt : 0 < n < sz).

Definition split_at : chunks := <[c + n := (sz - n, v)]> (<[c := (n, true)]> H).

Lemma split_free : H !! (c + n) = None.
Proof.
  destruct (H !! (c + n)) as [[k x]|] eqn:He; [|done].
  pose proof (tg_apart _ _ T _ _ _ _ _ _ Hc He). lia.
Qed.

Lemma split_lookup d k x :
  split_at !! d = Some (k, x) ->
  d = c /\ k = n /\ x = true \/ d = c + n /\ k = sz - n /\ x = v \/ d <> c /\ d <> c + n /\ H !! d = Some (k, x).
Proof.
  unfold split_at. intros Hd. apply lookup_insert_Some in Hd as [[<- [= <- <-]]|[? Hd]]; [naive_solver|].
  apply lookup_insert_Some in Hd as [[<- [= <- <-]]|[? Hd]]; naive_solver.
Qed.

Lemma split_old d : is_Some (H !! d) -> is_Some (split_at !! d).
Proof.
  intros Hd. unfold split_at. destruct (decide (c + n = d)) as [->|]; [by rewrite lookup_insert_eq|].
  rewrite lookup_insert_ne by done.
  destruct (decide (c = d)) as [->|]; [by rewrite lookup_insert_eq|by rewrite lookup_insert_ne].
Qed.

Lemma split_new : split_at !! (c + n) = Some (sz - n, v) /\ split_at !! c = Some (n, true).
Proof.
  unfold split_at. rewrite lookup_insert_eq, lookup_insert_ne, lookup_insert_eq by lia. done.
Qed.

Lemma territory_split a : territory split_at a -> territory H a.
Proof.
  intros (d & k & x & Hd & Ha). apply split_lookup in Hd as [(-> & -> & ->)|[(-> & -> & ->)|(_ & _ & Hd)]];
    [exists c, sz, u|exists c, sz, u|exists d, k, x]; (split; [done|]); destruct Hn; lia.
Qed.

Context (R1 : w' !! (c + 8) = Some (tag n true)) (R2 : w' !! (c + n) = Some (tag n true)).
Context (R3 : w' !! (c + n + 8) = Some (tag (sz - n) v)) (R4 : w' !! (c + sz) = Some (tag (sz - n) v)).
Context (Rk : forall a, tag_at H a -> a <> c + 8 -> a <> c + sz -> w' !! a = w !! a) (Rd : dom_le w w').

Lemma tags_split : tags_ok w' split_at.
Proof.
  pose proof (tg_chunk _ _ T _ _ _ Hc) as [Hs Ha Hr Hl].
  assert (Hsn : sized (sz - n)) by (apply sized_sub; [done..|lia]). pose proof split_free as Hfree.
  assert (Hout : forall d k x, H !! d = Some (k, x) -> d <> c -> d < c /\ d + k <= c \/ c + sz <= d).
  { intros d k x Hd Hne. destruct (Z.lt_trichotomy c d) as [Hlt'|[->|Hlt']]; [|done|].
    - pose proof (tg_apart _ _ T _ _ _ _ _ _ Hc Hd Hlt'). lia.
    - pose proof (tg_apart _ _ T _ _ _ _ _ _ Hd Hc Hlt'). lia. }
  split.
  - intros d k x [(-> & -> & ->)|[(-> & -> & ->)|(_ & _ & Hd)]]%split_lookup; [| |by eapply tg_chunk].
    + split; [done|done|lia|lia].
    + destruct Hn. split; [done|lia|lia|lia].
  - intros d k x [(-> & -> & ->)|[(-> & -> & ->)|(Hn1 & Hn2 & Hd)]]%split_lookup; [done|done|].
    destruct (tg_chunk _ _ T _ _ _ Hd) as [_ ? _ _].
    rewrite Rk; [by eapply tg_csize|right; replace (d + 8 - 8) with d by lia; eauto|lia|destruct Hs; lia].
  - intros d k x [(-> & -> & ->)|[(-> & -> & ->)|(Hn1 & Hn2 & Hd)]]%split_lookup Hp.
    + split; [|done]. destruct split_new as [-> _]. by eexists.
    + replace (c + n + (sz - n)) with (c + sz) by lia. split; [|done]. apply split_old.
      by apply (tg_next _ _ T _ _ _ Hc); lia.
    + destruct (tg_next _ _ T _ _ _ Hd Hp) as [Hnx Hw]. split; [by apply split_old|].
      destruct (tg_chunk _ _ T _ _ _ Hd) as [[] ? _ _]. destruct (Hout _ _ _ Hd Hn1);
        (rewrite Rk; [done|by left|lia|lia]).
  - intros d k x [(-> & -> & ->)|[(-> & -> & ->)|(Hn1 & Hn2 & Hd)]]%split_lookup.
    + destruct (tg_prev _ _ T _ _ _ Hc) as [Hpv|(k & x & Hp & Hpos)].
      * left. rewrite Rk; [done|left; eauto|lia|lia].
      * right. exists k, x. split; [|done]. unfold split_at.
        destruct (tg_chunk _ _ T _ _ _ Hp) as [[] ? _ _].
        by rewrite !lookup_insert_ne by (destruct Hn; lia).
    + right. exists n, true. replace (c + n - n) with c by lia. split; [apply split_new|lia].
    + destruct (decide (d = c + sz)) as [->|Hne].
      { right. exists (sz - n), v. replace (c + sz - (sz - n)) with (c + n) by lia. split; [apply split_new|lia]. }
      destruct (tg_chunk _ _ T _ _ _ Hd) as [[] ? _ _].
      destruct (tg_prev _ _ T _ _ _ Hd) as [Hpv|(k' & x' & Hp & Hpos)].
      * left. rewrite Rk; [done|left; eauto|lia|lia].
      * right. exists k', x'. split; [|done]. unfold split_at.
        rewrite !lookup_insert_ne; [done| |].
        -- intros He. rewrite <- He in Hp. rewrite Hc in Hp. injection Hp as <- <-. lia.
        -- intros He. rewrite <- He in Hp. congruence.
  - intros d k x d' k' x' Hd Hd' Hdd.
    apply split_lookup in Hd as [(-> & -> & ->)|[(-> & -> & ->)|(Hn1 & Hn2 & Hd)]];
      apply split_lookup in Hd' as [(-> & -> & ->)|[(-> & -> & ->)|(Hn1' & Hn2' & Hd')]]; try lia;
      try (pose proof (Hout _ _ _ Hd Hn1)); try (pose proof (Hout _ _ _ Hd' Hn1')); try lia.
    by eapply (tg_apart _ _ T).
  - intros d k x [(-> & -> & ->)|[(-> & -> & ->)|(Hn1 & Hn2 & Hd)]]%split_lookup; eapply mapped_le; try exact Rd.
    + intros a Ha'. apply (tg_mapped _ _ T _ _ _ Hc). lia.
    + intros a Ha'. apply (tg_mapped _ _ T _ _ _ Hc). lia.
    + by eapply tg_mapped.
Qed.
End split.

(** A chunk joined with the one after it. *)
Section join.
Context (w w' : gmap Z Z) (H : chunks) (T : tags_ok w H).
Context (c sz m : Z) (u x v : bool) (Hc : H !! c = Some (sz, u)) (Hm : H !! (c + sz) = Some (m, x)).
Context (Hsz : 0 < sz) (Hmp : 0 < m).

Definition join_at : chunks := <[c := (sz + m, v)]> (delete (c + sz) H).

Lemma join_lookup d k y :
  join_at !! d = Some (k, y) ->
  d = c /\ k = sz + m /\ y = v \/ d <> c /\ d <> c + sz /\ H !! d = Some (k, y).
Proof.
  unfold join_at. intros Hd. apply lookup_insert_Some in Hd as [[<- [= <- <-]]|[? Hd]]; [naive_solver|].
  apply lookup_delete_Some in Hd. naive_solver.
Qed.

Lemma join_old d : is_Some (H !! d) -> d <> c + sz -> is_Some (join_at !! d).
Proof.
  intros Hd Hne. unfold join_at. destruct (decide (c = d)) as [->|]; [by rewrite lookup_insert_eq|].
  by rewrite lookup_insert_ne, lookup_delete_ne by done.
Qed.

Lemma territory_join a : territory join_at a <-> territory H a.
Proof.
  split; intros (d & k & y & Hd & Ha).
  - apply join_lookup in Hd as [(-> & -> & ->)|(_ & _ & Hd)]; [|by exists d, k, y].
    destruct (decide (a < c + sz)); [exists c, sz, u|exists (c + sz), m, x]; (split; [done|]); lia.
  - assert (Hnew : join_at !! c = Some (sz + m, v)) by (unfold join_at; by rewrite lookup_insert_eq).
    destruct (decide (d = c)) as [->|H1].
    { rewrite Hc in Hd. injection Hd as <- <-. exists c, (sz + m), v. split; [done|lia]. }
    destruct (decide (d = c + sz)) as [->|H2].
    { rewrite Hm in Hd. injection Hd as <- <-. exists c, (sz + m), v. split; [done|lia]. }
    exists d, k, y. split; [|done]. unfold join_at. by rewrite lookup_insert_ne, lookup_delete_ne.
Qed.

Lemma join_tag_at a : tag_at join_at a -> tag_at H a.
Proof.
  intros [[[k y] Ha]|[[k y] Ha]]; apply join_lookup in Ha; destruct Ha as [(He & _)|(_ & _ & Ha)];
    [left; rewrite He|left|right; rewrite He|right]; by eexists.
Qed.

(** The tags between the two chunks are no longer tags. *)
Lemma join_stale : ~ tag_at join_at (c + sz) /\ ~ tag_at join_at (c + sz + 8).
Proof.
  destruct (tg_chunk _ _ T _ _ _ Hc) as [[] Ha _ _].
  split; intros [[[k y] [(? & _)|(? & Hne & Hd)]%join_lookup]|[[k y] [(? & _)|(? & Hne & Hd)]%join_lookup]];
    try lia; destruct (tg_chunk _ _ T _ _ _ Hd) as [_ Hd' _ _]; lia.
Qed.

Context (R1 : w' !! (c + 8) = Some (tag (sz + m) v)) (R2 : w' !! (c + sz + m) = Some (tag (sz + m) v)).
Context (Rk : forall a, tag_at join_at a -> a <> c + 8 -> a <> c + sz + m -> w' !! a = w !! a) (Rd : dom_le w w').

Lemma tags_join : tags_ok w' join_at.
Proof.
  pose proof (tg_chunk _ _ T _ _ _ Hc) as [Hs Ha Hr Hl]. pose proof (tg_chunk _ _ T _ _ _ Hm) as [Hs' Ha' Hr' Hl'].
  assert (Hsum : sized (sz + m)) by (apply sized_add; [done..|lia]).
  assert (Hout : forall d k y, H !! d = Some (k, y) -> d <> c -> d <> c + sz ->
    d < c /\ d + k <= c \/ c + sz + m <= d).
  { intros d k y Hd Hne Hne'. destruct (Z.lt_trichotomy c d) as [Hlt'|[->|Hlt']]; [|done|].
    - pose proof (tg_apart _ _ T _ _ _ _ _ _ Hc Hd Hlt').
      pose proof (tg_apart _ _ T _ _ _ _ _ _ Hm Hd). lia.
    - pose proof (tg_apart _ _ T _ _ _ _ _ _ Hd Hc Hlt'). lia. }
  split.
  - intros d k y [(-> & -> & ->)|(_ & _ & Hd)]%join_lookup; [split; [done|done|lia|lia]|by eapply tg_chunk].
  - intros d k y [(-> & -> & ->)|(Hn1 & Hn2 & Hd)]%join_lookup; [done|].
    destruct (tg_chunk _ _ T _ _ _ Hd) as [_ ? _ _].
    rewrite Rk; [by eapply tg_csize| |lia|destruct Hs, Hs'; lia].
    right. replace (d + 8 - 8) with d by lia. apply join_old; eauto.
  - intros d k y [(-> & -> & ->)|(Hn1 & Hn2 & Hd)]%join_lookup Hp.
    + replace (c + (sz + m)) with (c + sz + m) by lia. split; [|done].
      apply join_old; [|lia]. by apply (tg_next _ _ T _ _ _ Hm).
    + destruct (tg_next _ _ T _ _ _ Hd Hp) as [Hnx Hw].
      destruct (tg_chunk _ _ T _ _ _ Hd) as [[] ? _ _]. pose proof (Hout _ _ _ Hd Hn1 Hn2).
      assert (is_Some (join_at !! (d + k))) by (apply join_old; [done|lia]).
      split; [done|]. rewrite Rk; [done|by left|lia|lia].
  - intros d k y [(-> & -> & ->)|(Hn1 & Hn2 & Hd)]%join_lookup.
    + destruct (tg_prev _ _ T _ _ _ Hc) as [Hpv|(k & y & Hp & Hpos)].
      * left. rewrite Rk; [done|left; apply join_old; [eauto|lia]|lia|lia].
      * right. exists k, y. split; [|done]. unfold join_at.
        rewrite lookup_insert_ne, lookup_delete_ne by lia. done.
    + destruct (decide (d = c + sz + m)) as [->|Hne].
      { right. exists (sz + m), v. replace (c + sz + m - (sz + m)) with c by lia. unfold join_at.
        rewrite lookup_insert_eq. split; [done|lia]. }
      destruct (tg_chunk _ _ T _ _ _ Hd) as [[] ? _ _].
      destruct (tg_prev _ _ T _ _ _ Hd) as [Hpv|(k' & y' & Hp & Hpos)].
      * left. rewrite Rk; [done|left; apply join_old; [eauto|lia]|lia|lia].
      * right. exists k', y'. split; [|done]. unfold join_at.
        rewrite lookup_insert_ne, lookup_delete_ne; [done| |].
        -- intros He. rewrite <- He in Hp. rewrite Hm in Hp. injection Hp as <- <-. lia.
        -- intros He. rewrite <- He in Hp. rewrite Hc in Hp. injection Hp as <- <-. lia.
  - intros d k y d' k' y' Hd Hd' Hdd.
    apply join_lookup in Hd as [(-> & -> & ->)|(Hn1 & Hn2 & Hd)];
      apply join_lookup in Hd' as [(-> & -> & ->)|(Hn1' & Hn2' & Hd')]; try lia;
      try (pose proof (Hout _ _ _ Hd Hn1 Hn2)); try (pose proof (Hout _ _ _ Hd' Hn1' Hn2')); try lia.
    by eapply (tg_apart _ _ T).
  - intros d k y [(-> & -> & ->)|(Hn1 & Hn2 & Hd)]%join_lookup; eapply mapped_le; try exact Rd.
    + intros a Ha1 Ha2. destruct (decide (a < c + sz)).
      * apply (tg_mapped _ _ T _ _ _ Hc); [lia|done].
      * apply (tg_mapped _ _ T _ _ _ Hm); [lia|done].
    + by eapply tg_mapped.
Qed.
End join.

(** A chunk in new memory, or in place of the last, empty chunk before it. *)
Section extend.
Context (w w' : gmap Z Z) (H : chunks) (T : tags_ok w H).
Context (c m : Z) (Hpos : 0 < m).

Definition extended : chunks := <[c + m := (0, true)]> (<[c := (m, true)]> H).

Lemma extended_lookup d k y :
  extended !! d = Some (k, y) ->
  d = c /\ k = m /\ y = true \/ d = c + m /\ k = 0 /\ y = true \/ d <> c /\ d <> c + m /\ H !! d = Some (k, y).
Proof.
  unfold extended. intros Hd. apply lookup_insert_Some in Hd as [[<- [= <- <-]]|[? Hd]]; [naive_solver|].
  apply lookup_insert_Some in Hd as [[<- [= <- <-]]|[? Hd]]; naive_solver.
Qed.

Lemma extended_new : extended !! c = Some (m, true) /\ extended !! (c + m) = Some (0, true).
Proof. unfold extended. rewrite lookup_insert_eq, lookup_insert_ne, lookup_insert_eq by lia. done. Qed.

Lemma territory_extended a : territory extended a -> territory H a \/ c <= a < c + m + 16.
Proof.
  intros (d & k & y & Hd & Hda). apply extended_lookup in Hd as [(-> & -> & ->)|[(-> & -> & ->)|(_ & _ & Hd)]];
    [right; lia|right; lia|left; by exists d, k, y].
Qed.

Context (Hm : sized m) (Ha : c mod 32 = 16) (Hr : 0 < c /\ c + m < 2 ^ 63).
Context (Hc : H !! c = Some (0, true) \/ H !! c = None /\ w' !! c = Some (tagged 0)).
Context (Hout : forall d k y, H !! d = Some (k, y) -> d <> c -> d < c /\ d + k <= c \/ c + m < d).

Lemma extended_old d k y : H !! d = Some (k, y) -> d <> c -> extended !! d = Some (k, y).
Proof. intros Hd Hne. unfold extended. pose proof (Hout _ _ _ Hd Hne). by rewrite !lookup_insert_ne by lia. Qed.

Context (R1 : w' !! (c + 8) = Some (tag m true)) (R2 : w' !! (c + m) = Some (tag m true)).
Context (R3 : w' !! (c + m + 8) = Some (tag 0 true)) (Hmap : mapped w' c m).
Context (Rk : forall a, tag_at H a -> a <> c + 8 -> w' !! a = w !! a) (Rd : dom_le w w').

Lemma tags_extend : tags_ok w' extended.
Proof.
  split.
  - intros d k y [(-> & -> & ->)|[(-> & -> & ->)|(_ & _ & Hd)]]%extended_lookup; [split; [done|done|lia|lia]| |by eapply tg_chunk].
    destruct Hm. split; [split; done|lia|lia|done].
  - intros d k y [(-> & -> & ->)|[(-> & -> & ->)|(Hn1 & Hn2 & Hd)]]%extended_lookup; [done|done|].
    rewrite Rk; [by eapply tg_csize|right; replace (d + 8 - 8) with d by lia; eauto|lia].
  - intros d k y [(-> & -> & ->)|[(-> & -> & ->)|(Hn1 & Hn2 & Hd)]]%extended_lookup Hp; [|lia|].
    + split; [|done]. destruct extended_new as [_ ->]. by eexists.
    + destruct (tg_next _ _ T _ _ _ Hd Hp) as [[[k' y'] Hnx] Hw].
      assert (is_Some (extended !! (d + k))).
      { destruct (decide (d + k = c)) as [->|Hne]; [destruct extended_new as [-> _]; by eexists|].
        eexists. by apply extended_old. }
      split; [done|]. rewrite Rk; [done|left; eauto|].
      destruct (tg_chunk _ _ T _ _ _ Hnx) as [_ ? _ _]. lia.
  - intros d k y [(-> & -> & ->)|[(-> & -> & ->)|(Hn1 & Hn2 & Hd)]]%extended_lookup.
    + destruct Hc as [Hs|[_ Hw]]; [|by left].
      destruct (tg_prev _ _ T _ _ _ Hs) as [Hpv|(k & y & Hp & Hk)].
      * left. rewrite Rk; [done|left; eauto|lia].
      * right. exists k, y. split; [|done]. apply extended_old; [done|lia].
    + right. exists m, true. replace (c + m - m) with c by lia. split; [apply extended_new|done].
    + destruct (tg_prev _ _ T _ _ _ Hd) as [Hpv|(k' & y' & Hp & Hk)].
      * left. rewrite Rk; [done|left; eauto|]. destruct (tg_chunk _ _ T _ _ _ Hd) as [_ ? _ _]. lia.
      * right. exists k', y'. split; [|done]. apply extended_old; [done|]. intros He. rewrite He in Hp.
        destruct Hc as [Hs|[Hs _]]; rewrite Hs in Hp; [|done]. injection Hp as <- <-. lia.
  - intros d k y d' k' y' Hd Hd' Hdd.
    apply extended_lookup in Hd as [(-> & -> & ->)|[(-> & -> & ->)|(Hn1 & Hn2 & Hd)]];
      apply extended_lookup in Hd' as [(-> & -> & ->)|[(-> & -> & ->)|(Hn1' & Hn2' & Hd')]]; try lia;
      try (pose proof (Hout _ _ _ Hd Hn1)); try (pose proof (Hout _ _ _ Hd' Hn1')); try lia.
    by eapply (tg_apart _ _ T).
  - intros d k y [(-> & -> & ->)|[(-> & -> & ->)|(Hn1 & Hn2 & Hd)]]%extended_lookup; [done|intros a; lia|].
    eapply mapped_le; [exact Rd|]. by eapply tg_mapped.
Qed.
End extend.

(** ** Linked lists *)

(** From node [x] over the nodes [l] to node [z], in both directions. *)
Fixpoint linked (w : gmap Z Z) (x : Z) (l : list Z) (z : Z) : Prop :=
  match l with
  | [] => w !! (x + 16) = Some z /\ w !! (z + 24) = Some x
  | y :: l => w !! (x + 16) = Some y /\ w !! (y + 24) = Some x /\ linked w y l z
  end.

Lemma linked_app w x l1 y l2 z : linked w x (l1 ++ y :: l2) z <-> linked w x l1 y /\ linked w y l2 z.
Proof. revert x. induction l1 as [|a l1 IH]; intros x; cbn; [tauto|]. rewrite IH. tauto. Qed.

Lemma linked_frame w w' x l z :
  linked w x l z ->
  (forall y, y ∈ x :: l -> w' !! (y + 16) = w !! (y + 16)) ->
  (forall y, y ∈ l ++ [z] -> w' !! (y + 24) = w !! (y + 24)) -> linked w' x l z.
Proof.
  revert x. induction l as [|a l IH]; intros x; cbn.
  - intros [H1 H2] Hn Hp. rewrite Hn, Hp by (by left). done.
  - intros (H1 & H2 & H3) Hn Hp. rewrite Hn, Hp by (by left). split_and!; [done..|].
    apply IH; [done|intros; apply Hn; by right|intros; apply Hp; by right].
Qed.

(** The last node before the end. *)
Definition last_node (x : Z) (l : list Z) : Z := List.last l x.

Lemma last_node_cons x a l : last_node x (a :: l) = last_node a l.
Proof. revert x a. induction l as [|b l IH]; intros x a; [done|]. unfold last_node in *. cbn in *. by rewrite (IH a). Qed.
#[global] Arguments last_node : simpl never.
Lemma last_node_in x l : last_node x l ∈ x :: l.
Proof.
  revert x. induction l as [|a l IH]; intros x; [by left|]. rewrite last_node_cons. right. apply IH.
Qed.

Lemma linked_last w x l z : linked w x l z -> w !! (z + 24) = Some (last_node x l) /\ w !! (last_node x l + 16) = Some z.
Proof.
  revert x. induction l as [|a l IH]; intros x; cbn; [tauto|]. intros (_ & _ & H3).
  rewrite last_node_cons. by apply IH.
Qed.

Definition first_node (l : list Z) (z : Z) : Z := match l with [] => z | y :: _ => y end.
Lemma first_node_in l z : first_node l z ∈ l ++ [z].
Proof. destruct l; by left. Qed.
Lemma linked_first w x l z : linked w x l z -> w !! (x + 16) = Some (first_node l z) /\ w !! (first_node l z + 24) = Some x.
Proof. destruct l; cbn; tauto. Qed.

(** Redirect the end of a list. *)
Lemma linked_retarget w w' x l c z :
  linked w x l c -> NoDup (x :: l) ->
  w' !! (last_node x l + 16) = Some z -> w' !! (z + 24) = Some (last_node x l) ->
  (forall y, y ∈ x :: l -> y <> last_node x l -> w' !! (y + 16) = w !! (y + 16)) ->
  (forall y, y ∈ l -> w' !! (y + 24) = w !! (y + 24)) -> linked w' x l z.
Proof.
  revert x. induction l as [|a l IH]; intros x; cbn; [intros _ _ ? ?; done|].
  rewrite last_node_cons. intros (H1 & H2 & H3) [Hx Hnd]%NoDup_cons Hl Hz Hn Hp.
  rewrite Hp by (by left). rewrite Hn; [|by left|].
  - split_and!; [done..|]. apply IH; [done..| |]; intros; [apply Hn|apply Hp]; [by right|done|by right].
  - intros ->. apply Hx. apply last_node_in.
Qed.

(** Start a list from another node. *)
Lemma linked_resource w w' x c l z :
  linked w x l z ->
  w' !! (c + 16) = Some (first_node l z) -> w' !! (first_node l z + 24) = Some c ->
  (forall y, y ∈ l -> w' !! (y + 16) = w !! (y + 16)) ->
  (forall y, y ∈ l ++ [z] -> y <> first_node l z -> w' !! (y + 24) = w !! (y + 24)) ->
  NoDup (l ++ [z]) -> linked w' c l z.
Proof.
  destruct l as [|a l]; cbn; [done|]. intros (H1 & H2 & H3) Hc Ha Hn Hp [Hal Hnd]%NoDup_cons.
  split_and!; [done..|]. eapply linked_frame; [exact H3|done|].
  intros y Hy. apply Hp; [by right|]. by intros ->.
Qed.

(** ** The bins *)

Section bins.
Context `{E : MallocEnv} `{!MallocLaws E}.

(** The bin's list [l]; a bin that was never locked may still be all zero. *)
Definition bin_ok (w : gmap Z Z) (i : Z) (l : list Z) : Prop :=
  l = [] /\ w !! bin_head i = Some 0 /\ is_Some (w !! bin_tail i) \/
  linked w (BIN_TO_CHUNK i) l (BIN_TO_CHUNK i).

Definition in_bins (a : Z) : Prop := BINS <= a < BINS + 24 * 64.

Record bins_ok (w : gmap Z Z) (b : Z) (H : chunks) (L : Z -> list Z) : Prop := {
  bn_list : forall i, 0 <= i < 64 -> bin_ok w i (L i);
  bn_mem : forall i c, 0 <= i < 64 -> c ∈ L i <-> exists sz, H !! c = Some (sz, false) /\ bin_index sz = i;
  bn_nodup : forall i, 0 <= i < 64 -> NoDup (L i);
  bn_range : 0 <= b < 2 ^ 64;
  bn_map : forall i, 0 <= i < 64 -> Z.testbit b i = true <-> L i <> [];
}.

(** The words of the lists. *)
Definition link_at (H : chunks) (a : Z) : Prop :=
  (exists i, 0 <= i < 64 /\ (a = bin_head i \/ a = bin_tail i)) \/
  exists c sz, H !! c = Some (sz, false) /\ (a = c + 16 \/ a = c + 24).

Definition same_free (H H' : chunks) : Prop := forall c sz, H !! c = Some (sz, false) <-> H' !! c = Some (sz, false).

Lemma bins_same_free w b H H' L : same_free H H' -> bins_ok w b H L -> bins_ok w b H' L.
Proof.
  intros Hs [B1 B2 B3 B4 B5]. split; [done| |done..]. intros i c Hi. rewrite B2 by done.
  split; intros (sz & Hc & Hi'); exists sz; (split; [by apply Hs|done]).
Qed.

Lemma bin_chunk_links i : BIN_TO_CHUNK i + 16 = bin_head i /\ BIN_TO_CHUNK i + 24 = bin_tail i.
Proof. unfold BIN_TO_CHUNK, MEM_TO_CHUNK, OVERHEAD, bin_head, bin_tail. lia. Qed.

Lemma bin_words i : 0 <= i < 64 -> in_bins (bin_head i) /\ in_bins (bin_tail i).
Proof. unfold in_bins, bin_head, bin_tail. lia. Qed.

Section one.
Context (w w0 : gmap Z Z) (b : Z) (H : chunks) (L : Z -> list Z).
Context (T : tags_ok w0 H) (B : bins_ok w b H L) (Hlay : forall a, in_bins a -> ~ territory H a).

(** The nodes of a bin's list. *)
Definition nodes_of (i : Z) : list Z := BIN_TO_CHUNK i :: L i.

Lemma free_chunk c sz : H !! c = Some (sz, false) -> c mod 32 = 16 /\ 32 <= sz /\ sized sz /\ 0 <= bin_index sz < 64.
Proof.
  intros Hc. destruct (tg_chunk _ _ T _ _ _ Hc) as [Hs Ha _ Hl].
  assert (0 < sz) by (destruct Hs; destruct (decide (sz = 0)); [naive_solver|lia]).
  pose proof (bin_index_range sz Hs). split_and!; [done|destruct Hs; lia|done|lia|lia].
Qed.

Lemma member i c : 0 <= i < 64 -> c ∈ L i -> exists sz, H !! c = Some (sz, false) /\ bin_index sz = i.
Proof. intros Hi. by apply B. Qed.

Lemma link_territory c sz : H !! c = Some (sz, false) -> territory H (c + 16) /\ territory H (c + 24).
Proof.
  intros Hc. destruct (free_chunk _ _ Hc) as (_ & Hs & _). split; exists c, sz, false; (split; [done|lia]).
Qed.

Lemma node_chunk i x : 0 <= i < 64 -> x ∈ nodes_of i ->
  x = BIN_TO_CHUNK i \/ exists sz, H !! x = Some (sz, false) /\ bin_index sz = i.
Proof. intros Hi [->|Hx]%elem_of_cons; [by left|right]. by apply member. Qed.

Lemma node_links i j x y :
  0 <= i < 64 -> 0 <= j < 64 -> x ∈ nodes_of i -> y ∈ nodes_of j -> x + 16 <> y + 24.
Proof.
  intros Hi Hj Hx Hy He. destruct (bin_words _ Hi), (bin_words _ Hj).
  destruct (bin_chunk_links i), (bin_chunk_links j).
  destruct (node_chunk i x Hi Hx) as [->|(sz & Hx' & _)], (node_chunk j y Hj Hy) as [->|(sz' & Hy' & _)].
  - unfold BIN_TO_CHUNK, MEM_TO_CHUNK, bin_head in *. lia.
  - destruct (link_territory _ _ Hy') as [_ Ht]. apply (Hlay (y + 24)); [congruence|done].
  - destruct (link_territory _ _ Hx') as [Ht _]. apply (Hlay (x + 16)); [congruence|done].
  - destruct (free_chunk _ _ Hx') as [? _], (free_chunk _ _ Hy') as [? _]. lia.
Qed.

Lemma nodes_apart i j x : 0 <= i < 64 -> 0 <= j < 64 -> x ∈ nodes_of i -> x ∈ nodes_of j -> i = j.
Proof.
  intros Hi Hj Hx Hy. destruct (bin_words _ Hi) as [Hbi _], (bin_words _ Hj) as [Hbj _].
  destruct (bin_chunk_links i) as [Hli _], (bin_chunk_links j) as [Hlj _].
  destruct (node_chunk i x Hi Hx) as [->|(sz & Hx' & Hi')], (node_chunk j _ Hj Hy) as [He|(sz' & Hy' & Hj')].
  - unfold BIN_TO_CHUNK, MEM_TO_CHUNK, bin_head in *. lia.
  - destruct (link_territory _ _ Hy') as [Ht _]. exfalso. apply (Hlay _ Hbi). by rewrite <- Hli.
  - subst x. destruct (link_territory _ _ Hx') as [Ht _]. exfalso. apply (Hlay _ Hbj). by rewrite <- Hlj.
  - congruence.
Qed.

Lemma nodes_nodup i : 0 <= i < 64 -> NoDup (nodes_of i).
Proof.
  intros Hi. constructor; [|by apply B]. intros Hin. destruct (member _ _ Hi Hin) as (sz & Hc & _).
  destruct (link_territory _ _ Hc) as [Ht _]. destruct (bin_chunk_links i) as [He _]. rewrite He in Ht.
  by apply (Hlay (bin_head i)); [apply bin_words|].
Qed.

Lemma node_link_at i x : 0 <= i < 64 -> x ∈ nodes_of i -> link_at H (x + 16) /\ link_at H (x + 24).
Proof.
  intros Hi Hx. destruct (node_chunk i x Hi Hx) as [->|(sz & Hc & _)].
  - destruct (bin_chunk_links i) as [-> ->]. split; left; exists i; auto.
  - split; right; exists x, sz; auto.
Qed.

(** A bin whose nodes' links are unchanged. *)
Lemma bin_frame w' i :
  0 <= i < 64 ->
  (forall x, x ∈ nodes_of i -> w' !! (x + 16) = w !! (x + 16) /\ w' !! (x + 24) = w !! (x + 24)) ->
  bin_ok w' i (L i).
Proof.
  intros Hi Hf. destruct (bn_list _ _ _ _ B i Hi) as [(Hl & H1 & H2)|Hl].
  - left. destruct (Hf (BIN_TO_CHUNK i)) as [F1 F2]; [by left|].
    destruct (bin_chunk_links i) as [He1 He2]. rewrite He1 in F1. rewrite He2 in F2. by rewrite F1, F2.
  - right. eapply linked_frame; [exact Hl|..]; intros y Hy; apply Hf; [done|].
    apply elem_of_app in Hy as [Hy|Hy]; [by right|]. apply list_elem_of_singleton in Hy as ->. by left.
Qed.

Lemma bins_frame w' : (forall a, link_at H a -> w' !! a = w !! a) -> bins_ok w' b H L.
Proof.
  intros Hf. destruct B as [B1 B2 B3 B4 B5]. split; [|done..]. intros i Hi. apply bin_frame; [done|].
  intros x Hx. destruct (node_link_at _ _ Hi Hx). split; by apply Hf.
Qed.

(** The bin of a free chunk is linked. *)
Lemma bin_linked i c : 0 <= i < 64 -> c ∈ L i -> linked w (BIN_TO_CHUNK i) (L i) (BIN_TO_CHUNK i).
Proof.
  intros Hi Hc. destruct (bn_list _ _ _ _ B i Hi) as [(Hl & _ & _)|Hl]; [|done].
  rewrite Hl in Hc. by apply not_elem_of_nil in Hc.
Qed.

(** ** Changing a bin *)

Lemma split_nodup (x c : Z) l1 l2 :
  NoDup (x :: l1 ++ c :: l2) ->
  x ∉ l1 /\ x ∉ l2 /\ x <> c /\ c ∉ l1 /\ c ∉ l2 /\ (forall y, y ∈ l1 -> y ∈ l2 -> False) /\ NoDup l1 /\ NoDup l2.
Proof.
  intros [H1 H2]%NoDup_cons. apply NoDup_app in H2 as (H2 & H3 & [H4 H5]%NoDup_cons).
  rewrite elem_of_app, elem_of_cons in H1. split_and!; try tauto.
  - intros Hc. apply (H3 c Hc). by left.
  - intros y Hy Hy2. apply (H3 y Hy). by right.
Qed.

Definition with_bin (i : Z) (l : list Z) : Z -> list Z := fun j => if decide (j = i) then l else L j.

Section change.
Context (w' : gmap Z Z) (i : Z) (Hi : 0 <= i < 64).

(** Links of the bin's own nodes are not links of another bin. *)
Lemma other_bin p q j :
  p ∈ nodes_of i -> q ∈ nodes_of i ->
  (forall a, link_at H a -> a <> p + 16 -> a <> q + 24 -> w' !! a = w !! a) ->
  0 <= j < 64 -> j <> i -> bin_ok w' j (L j).
Proof.
  intros Hp Hq Hf Hj Hne. apply bin_frame; [done|]. intros x Hx.
  destruct (node_link_at _ _ Hj Hx) as [H1 H2].
  assert (Hxp : x <> p) by (intros ->; by apply Hne, (nodes_apart j i p)).
  assert (Hxq : x <> q) by (intros ->; by apply Hne, (nodes_apart j i q)).
  pose proof (node_links _ _ _ _ Hj Hi Hx Hq). pose proof (node_links _ _ _ _ Hi Hj Hp Hx).
  split; apply Hf; (done || lia).
Qed.

Lemma bins_remove c l1 l2 H' b' :
  let p := last_node (BIN_TO_CHUNK i) l1 in let q := first_node l2 (BIN_TO_CHUNK i) in
  L i = l1 ++ c :: l2 ->
  w' !! (p + 16) = Some q -> w' !! (q + 24) = Some p ->
  (forall a, link_at H a -> a <> p + 16 -> a <> q + 24 -> w' !! a = w !! a) ->
  (forall d sz, H' !! d = Some (sz, false) <-> H !! d = Some (sz, false) /\ d <> c) ->
  0 <= b' < 2 ^ 64 ->
  (forall j, 0 <= j < 64 -> Z.testbit b' j = if decide (j = i) then bool_decide (l1 ++ l2 <> []) else Z.testbit b j) ->
  bins_ok w' b' H' (with_bin i (l1 ++ l2)).
Proof.
  intros p q Hl Hp Hq Hf HH Hb' Hbit.
  assert (Hnd : NoDup (nodes_of i)) by by apply nodes_nodup.
  unfold nodes_of in Hnd. rewrite Hl in Hnd.
  destruct (split_nodup _ _ _ _ Hnd) as (Hb1 & Hb2 & Hbc & Hc1 & Hc2 & H12 & Hnd1 & Hnd2).
  assert (Hpin : p ∈ BIN_TO_CHUNK i :: l1) by apply last_node_in.
  assert (Hqin : q ∈ l2 ++ [BIN_TO_CHUNK i]) by apply first_node_in.
  assert (Hin : forall x, x ∈ nodes_of i <-> x = BIN_TO_CHUNK i \/ x ∈ l1 \/ x = c \/ x ∈ l2).
  { intros x. unfold nodes_of. rewrite Hl, elem_of_cons, elem_of_app, elem_of_cons. done. }
  assert (Hpn : p ∈ nodes_of i) by (apply Hin; apply elem_of_cons in Hpin; tauto).
  assert (Hqn : q ∈ nodes_of i).
  { apply Hin. apply elem_of_app in Hqin as [?|Hx]; [tauto|]. apply list_elem_of_singleton in Hx. tauto. }
  assert (Hql1 : q ∉ l1).
  { intros Hx. apply elem_of_app in Hqin as [Hq2|Hq2]; [by eapply H12|].
    apply list_elem_of_singleton in Hq2. congruence. }
  assert (Hcl : linked w (BIN_TO_CHUNK i) (L i) (BIN_TO_CHUNK i)).
  { apply (bin_linked i c Hi). rewrite Hl. apply elem_of_app. right. by left. }
  rewrite Hl, linked_app in Hcl. destruct Hcl as [Hcl1 Hcl2].
  assert (Hn16 : forall x, x ∈ nodes_of i -> x <> p -> w' !! (x + 16) = w !! (x + 16)).
  { intros x Hx Hne. apply Hf; [by apply (node_link_at i)|lia|]. by apply (node_links i i). }
  assert (Hn24 : forall x, x ∈ nodes_of i -> x <> q -> w' !! (x + 24) = w !! (x + 24)).
  { intros x Hx Hne. apply Hf; [by apply (node_link_at i)| |lia].
    by apply not_eq_sym, (node_links i i). }
  assert (Hlinked : linked w' (BIN_TO_CHUNK i) (l1 ++ l2) (BIN_TO_CHUNK i)).
  { assert (Hr : linked w' (BIN_TO_CHUNK i) l1 q).
    { eapply linked_retarget; [exact Hcl1|by constructor|done..| |].
      - intros y Hy Hne. apply Hn16; [|done]. apply Hin. apply elem_of_cons in Hy. tauto.
      - intros y Hy. apply Hn24; [apply Hin; tauto|]. by intros ->. }
    destruct l2 as [|q' l3]; [by rewrite app_nil_r|]. cbn in q. subst q. apply linked_app. split; [done|].
    cbn in Hcl2. destruct Hcl2 as (_ & _ & Hcl2).
    eapply linked_frame; [exact Hcl2|..].
    - intros y Hy. apply Hn16; [apply Hin; tauto|]. intros ->.
      apply elem_of_cons in Hpin as [Hpe|Hpl]; [congruence|]. by eapply H12.
    - intros y Hy. apply elem_of_app in Hy as [Hy|Hy].
      + apply Hn24; [apply Hin; rewrite elem_of_cons; tauto|]. intros ->. by apply NoDup_cons in Hnd2 as [? _].
      + apply list_elem_of_singleton in Hy as ->. apply Hn24; [apply Hin; tauto|]. intros <-. apply Hb2. by left. }
  split.
  - intros j Hj. unfold with_bin. destruct (decide (j = i)) as [->|Hne]; [by right|].
    by apply (other_bin p q).
  - intros j d Hj. unfold with_bin.
    transitivity (d ∈ L j /\ d <> c).
    + destruct (decide (j = i)) as [->|Hne].
      * rewrite Hl, !elem_of_app, elem_of_cons. split; [|tauto].
        intros [Hd|Hd]; (split; [tauto|]); by intros ->.
      * split; [|tauto]. intros Hd. split; [done|]. intros ->. apply Hne.
        apply (nodes_apart j i c); [done|done|by right|apply Hin; tauto].
    + rewrite (bn_mem _ _ _ _ B) by done. split.
      * intros [(sz & H1 & H2) H3]. exists sz. by rewrite HH.
      * intros (sz & [H1 H3]%HH & H2). split; [by exists sz|done].
  - intros j Hj. unfold with_bin. destruct (decide (j = i)) as [->|Hne]; [|by apply B].
    apply NoDup_app. split_and!; [done|intros x Hx Hx2; by eapply H12|done].
  - done.
  - intros j Hj. rewrite Hbit by done. unfold with_bin. destruct (decide (j = i)) as [->|Hne]; [|by apply B].
    by rewrite bool_decide_eq_true.
Qed.

Lemma bins_append c sz H' b' :
  let p := last_node (BIN_TO_CHUNK i) (L i) in
  linked w (BIN_TO_CHUNK i) (L i) (BIN_TO_CHUNK i) ->
  bin_index sz = i -> (forall j, 0 <= j < 64 -> c ∉ L j) ->
  w' !! (c + 16) = Some (BIN_TO_CHUNK i) -> w' !! (c + 24) = Some p ->
  w' !! (p + 16) = Some c -> w' !! bin_tail i = Some c ->
  (forall a, link_at H a -> a <> p + 16 -> a <> bin_tail i -> w' !! a = w !! a) ->
  (forall d n, H' !! d = Some (n, false) <-> H !! d = Some (n, false) \/ d = c /\ n = sz) ->
  0 <= b' < 2 ^ 64 ->
  (forall j, 0 <= j < 64 -> Z.testbit b' j = if decide (j = i) then true else Z.testbit b j) ->
  bins_ok w' b' H' (with_bin i (L i ++ [c])).
Proof.
  intros p Hcl Hsz Hnew Hc1 Hc2 Hp Hz Hf HH Hb' Hbit.
  destruct (bin_chunk_links i) as [Hz16 Hz24]. rewrite <- Hz24 in Hz, Hf.
  assert (Hpn : p ∈ nodes_of i) by apply last_node_in.
  assert (Hzn : BIN_TO_CHUNK i ∈ nodes_of i) by by left.
  pose proof (nodes_nodup i Hi) as Hnd.
  split.
  - intros j Hj. unfold with_bin. destruct (decide (j = i)) as [->|Hne].
    + right. apply linked_app. split; [|done]. eapply linked_retarget; [exact Hcl|done..| |].
      * intros y Hy Hne. apply Hf; [by apply (node_link_at i)|fold p in Hne; lia|].
        by apply (node_links i i).
      * intros y Hy. apply Hf; [apply (node_link_at i); [done|by right]| |].
        -- apply not_eq_sym, (node_links i i); [done..|by right].
        -- apply NoDup_cons in Hnd as [Hnd _]. assert (y <> BIN_TO_CHUNK i) by congruence. lia.
    + by apply (other_bin p (BIN_TO_CHUNK i)).
  - intros j d Hj. unfold with_bin.
    transitivity (d ∈ L j \/ d = c /\ j = i).
    + destruct (decide (j = i)) as [->|Hne]; [rewrite elem_of_app, list_elem_of_singleton|]; tauto.
    + rewrite (bn_mem _ _ _ _ B) by done. split.
      * intros [(n & H1 & H2)|[-> ->]]; [exists n|exists sz]; rewrite HH; auto.
      * intros (n & [H1|[-> ->]]%HH & H2); [left; by exists n|right; by subst].
  - intros j Hj. unfold with_bin. destruct (decide (j = i)) as [->|Hne]; [|by apply B].
    apply NoDup_app. split_and!; [by apply B| |apply NoDup_singleton].
    intros x Hx Hx2. apply list_elem_of_singleton in Hx2 as ->. by apply (Hnew i).
  - done.
  - intros j Hj. rewrite Hbit by done. unfold with_bin. destruct (decide (j = i)) as [->|Hne]; [|by apply B].
    split; [|done]. intros _. by destruct (L i).
Qed.

Lemma bins_replace c c' l2 sz H' :
  let q := first_node l2 (BIN_TO_CHUNK i) in
  L i = c :: l2 -> bin_index sz = i -> (forall j, 0 <= j < 64 -> c' ∉ L j) ->
  w' !! bin_head i = Some c' -> w' !! (q + 24) = Some c' ->
  w' !! (c' + 16) = Some q -> w' !! (c' + 24) = Some (BIN_TO_CHUNK i) ->
  (forall a, link_at H a -> a <> bin_head i -> a <> q + 24 -> w' !! a = w !! a) ->
  (forall d n, H' !! d = Some (n, false) <-> H !! d = Some (n, false) /\ d <> c \/ d = c' /\ n = sz) ->
  bins_ok w' b H' (with_bin i (c' :: l2)).
Proof.
  intros q Hl Hsz Hnew Hh Hq H16 H24 Hf HH.
  destruct (bin_chunk_links i) as [Hz16 Hz24]. rewrite <- Hz16 in Hh, Hf.
  pose proof (nodes_nodup i Hi) as Hnd. unfold nodes_of in Hnd. rewrite Hl in Hnd.
  destruct (split_nodup _ _ [] l2 Hnd) as (_ & Hb2 & Hbc & _ & Hc2 & _ & _ & Hnd2).
  assert (Hin : forall x, x ∈ nodes_of i <-> x = BIN_TO_CHUNK i \/ x = c \/ x ∈ l2).
  { intros x. unfold nodes_of. rewrite Hl, !elem_of_cons. done. }
  assert (Hzn : BIN_TO_CHUNK i ∈ nodes_of i) by by left.
  assert (Hqn : q ∈ nodes_of i).
  { apply Hin. pose proof (first_node_in l2 (BIN_TO_CHUNK i)) as [?|Hx]%elem_of_app; [tauto|].
    apply list_elem_of_singleton in Hx. tauto. }
  assert (Hcl : linked w (BIN_TO_CHUNK i) (L i) (BIN_TO_CHUNK i)).
  { apply (bin_linked i c Hi). rewrite Hl. by left. }
  rewrite Hl in Hcl. cbn in Hcl. destruct Hcl as (_ & _ & Hcl2).
  split.
  - intros j Hj. unfold with_bin. destruct (decide (j = i)) as [->|Hne].
    2: { by apply (other_bin (BIN_TO_CHUNK i) q). }
    right. cbn. split_and!; [done..|]. eapply linked_resource; [exact Hcl2|done..| | |].
    + intros y Hy. assert (y ∈ nodes_of i) by (apply Hin; tauto).
      apply Hf; [by apply (node_link_at i)| |by apply (node_links i i)].
      assert (y <> BIN_TO_CHUNK i) by congruence. lia.
    + intros y Hy Hne. assert (y ∈ nodes_of i).
      { apply Hin. apply elem_of_app in Hy as [?|Hy]; [tauto|]. apply list_elem_of_singleton in Hy. tauto. }
      apply Hf; [by apply (node_link_at i)|by apply not_eq_sym, (node_links i i)|]. fold q in Hne. lia.
    + apply NoDup_app. split_and!; [done| |apply NoDup_singleton]. intros x Hx Hx2.
      apply list_elem_of_singleton in Hx2 as ->. done.
  - intros j d Hj. unfold with_bin.
    transitivity (d ∈ L j /\ d <> c \/ d = c' /\ j = i).
    + destruct (decide (j = i)) as [->|Hne].
      * rewrite Hl, !elem_of_cons. split; [|tauto]. intros [->|Hd]; [tauto|]. left. split; [tauto|]. by intros ->.
      * split; [|tauto]. intros Hd. left. split; [done|]. intros ->. apply Hne.
        apply (nodes_apart j i c); [done|done|by right|apply Hin; tauto].
    + rewrite (bn_mem _ _ _ _ B) by done. split.
      * intros [[(n & H1 & H2) H3]|[-> ->]]; [exists n|exists sz]; rewrite HH; auto.
      * intros (n & [[H1 H3]|[-> ->]]%HH & H2); [left; split; [by exists n|done]|right; by subst].
  - intros j Hj. unfold with_bin. destruct (decide (j = i)) as [->|Hne]; [|by apply B].
    constructor; [|done]. intros Hx. apply (Hnew i Hi). rewrite Hl. by right.
  - apply B.
  - intros j Hj. unfold with_bin. destruct (decide (j = i)) as [->|Hne]; [|by apply B].
    rewrite (bn_map _ _ _ _ B) by done. rewrite Hl. done.
Qed.
End change.
End one.
End bins.
