(* ===== verification/MallocOps.v ===== *)
(** * The steps of the allocator on a well-formed heap

    [heap_ok] puts the pieces of the invariant together; the operations that
    take chunks out of bins, split, merge and grow are given their effect on
    the abstract heap, with the guarantee that no word of a live block
    changes. *)

From Stdlib Require Import ZifyBool.
From stdpp Require Import base numbers gmap list.
From S2P Require Import Prelude Word StateMonad Malloc MallocArith MallocInv.

Local Open Scope Z_scope.
Ltac Zify.zify_post_hook ::= Z.to_euclidean_division_equations.

(** ** The invariant *)

Section heap.
Context `{E : MallocEnv} `{!MallocLaws E}.

(** A chunk with a mapping of its own: 16 bytes of padding before it, sizes
    in whole pages, away from the heap and the bins. *)
Record mapping_ok (w : gmap Z Z) (H : chunks) (c sz : Z) : Prop := {
  mp_pages : (c - 16) mod PAGE_SIZE = 0 /\ (sz + 16) mod PAGE_SIZE = 0;
  mp_range : 16 < c /\ 0 < sz /\ c + sz < 2 ^ 63;
  mp_psize : w !! c = Some 16;
  mp_csize : w !! (c + 8) = Some sz;
  mp_mapped : mapped w (c - 16) (sz + 16);
  mp_apart : forall a, c - 16 <= a < c + sz -> ~ territory H a /\ ~ in_bins a;
}.

Record maps_ok (w : gmap Z Z) (H : chunks) (N : gmap Z Z) : Prop := {
  ms_each : forall c sz, N !! c = Some sz -> mapping_ok w H c sz;
  ms_apart : forall c sz c' sz', N !! c = Some sz -> N !! c' = Some sz' -> c < c' -> c + sz <= c' - 16;
}.

Record heap_ok (s : mem) (H : chunks) (N : gmap Z Z) : Prop := {
  hp_tags : tags_ok (words s) H;
  hp_bins : exists L, bins_ok (words s) (binmap s) H L;
  hp_layout : forall a, in_bins a -> ~ territory H a;
  hp_maps : maps_ok (words s) H N;
  hp_end : heap_end s = 0 \/ H !! (heap_end s - 16) = Some (0, true);
  hp_static : mapped (words s) BINS (24 * 64);
}.

(** The words that belong to the callers. *)
Definition heap_data (H : chunks) (a : Z) : Prop :=
  exists c sz, H !! c = Some (sz, true) /\ c + 16 <= a < c + sz.
Definition map_data (N : gmap Z Z) (a : Z) : Prop := exists c sz, N !! c = Some sz /\ c + 16 <= a < c + sz.
Definition user_at (H : chunks) (N : gmap Z Z) (a : Z) : Prop := heap_data H a \/ map_data N a.

(** [w'] has the callers' words of [w]. *)
Definition data_kept (H : chunks) (N : gmap Z Z) (w w' : gmap Z Z) : Prop :=
  forall a, user_at H N a -> w' !! a = w !! a.

(** Outside the heap and the bins nothing changes. *)
Definition outside_kept (H : chunks) (w w' : gmap Z Z) : Prop :=
  forall a, ~ territory H a -> ~ in_bins a -> w' !! a = w !! a.

Lemma maps_frame w w' H H' N :
  maps_ok w H N -> outside_kept H w w' -> (forall a, territory H' a -> territory H a) -> maps_ok w' H' N.
Proof.
  intros [M1 M2] Ho Ht. split; [|done]. intros c sz Hc. destruct (M1 c sz Hc) as [P1 P2 P3 P4 P5 P6].
  assert (Hk : forall a, c - 16 <= a < c + sz -> w' !! a = w !! a).
  { intros a Ha. destruct (P6 a Ha). by apply Ho. }
  destruct page_facts as [Hp Hm]. destruct P1 as [H1 H2]. apply Hm in H2 as H3. split; try done.
  - rewrite Hk; [done|lia].
  - rewrite Hk; [done|lia].
  - intros a Ha H8. rewrite Hk by lia. by apply P5.
  - intros a Ha. destruct (P6 a Ha) as [H4 H5]. split; [|done]. by intros ?%Ht.
Qed.

Section facts.
Context (s : mem) (H : chunks) (N : gmap Z Z) (Hok : heap_ok s H N).

Lemma link_tag a b : link_at H a -> tag_at H b -> a <> b.
Proof.
  destruct Hok as [T _ Hlay _ _ _]. intros [(i & Hi & Ha)|(c & sz & Hc & Ha)] Hb ->.
  - destruct (bin_words i Hi). apply (Hlay b); [destruct Ha as [-> | ->]; done|].
    by eapply tag_at_territory.
  - pose proof (tag_at_mod _ _ T _ Hb). destruct (tg_chunk _ _ T _ _ _ Hc) as [_ ? _ _]. lia.
Qed.

Lemma user_tag a b : user_at H N a -> tag_at H b -> a <> b.
Proof.
  destruct Hok as [T _ _ Hm _ _]. intros [(c & sz & Hc & Ha)|(c & sz & Hc & Ha)] Hb ->.
  - assert (Hd : exists d k u, H !! d = Some (k, u) /\ (b = d \/ b = d + 8)).
    { destruct Hb as [[[k u] Hb]|[[k u] Hb]]; [exists b|exists (b - 8)]; exists k, u; (split; [done|lia]). }
    destruct Hd as (d & k & u & Hd & Hbd). destruct (tg_chunk _ _ T _ _ _ Hc) as [[] ? _ _].
    destruct (tg_chunk _ _ T _ _ _ Hd) as [[] ? _ _].
    destruct (Z.lt_trichotomy c d) as [Hlt|[->|Hlt]]; [|lia|].
    + pose proof (tg_apart _ _ T _ _ _ _ _ _ Hc Hd Hlt). lia.
    + lia.
  - destruct (mp_apart _ _ _ _ (ms_each _ _ _ Hm _ _ Hc) b) as [Ht _]; [lia|].
    by eapply Ht, tag_at_territory.
Qed.

Lemma user_link a b : user_at H N a -> link_at H b -> a <> b.
Proof.
  destruct Hok as [T _ Hlay Hm _ _]. intros Ha Hb ->.
  assert (Hbt : in_bins b \/ exists d k, H !! d = Some (k, false) /\ d + 16 <= b < d + k).
  { destruct Hb as [(i & Hi & Hb)|(d & k & Hd & Hb)].
    - left. destruct (bin_words i Hi), Hb as [-> | ->]; done.
    - right. exists d, k. destruct (free_chunk _ _ T _ _ Hd). split; [done|lia]. }
  destruct Ha as [(c & sz & Hc & Ha)|(c & sz & Hc & Ha)].
  - destruct Hbt as [Hbt|(d & k & Hd & Hbd)].
    + apply (Hlay _ Hbt). exists c, sz, true. split; [done|lia].
    + destruct (Z.lt_trichotomy c d) as [Hlt|[->|Hlt]]; [|congruence|].
      * pose proof (tg_apart _ _ T _ _ _ _ _ _ Hc Hd Hlt). lia.
      * pose proof (tg_apart _ _ T _ _ _ _ _ _ Hd Hc Hlt). lia.
  - destruct (mp_apart _ _ _ _ (ms_each _ _ _ Hm _ _ Hc) b) as [H1 H2]; [lia|].
    destruct Hbt as [Hbt|(d & k & Hd & Hbd)]; [done|]. apply H1. exists d, k, false. split; [done|lia].
Qed.

Lemma user_not_bin a : user_at H N a -> ~ in_bins a.
Proof.
  destruct Hok as [_ _ Hlay Hm _ _]. intros [(c & sz & Hc & Ha)|(c & sz & Hc & Ha)] Hb.
  - apply (Hlay a Hb). exists c, sz, true. split; [done|lia].
  - destruct (mp_apart _ _ _ _ (ms_each _ _ _ Hm _ _ Hc) a) as [_ H2]; [lia|done].
Qed.

Lemma link_inside a : link_at H a -> territory H a \/ in_bins a.
Proof.
  destruct Hok as [T _ _ _ _ _]. intros [(i & Hi & Ha)|(c & sz & Hc & Ha)].
  - right. destruct (bin_words i Hi), Ha as [-> | ->]; done.
  - left. destruct (free_chunk _ _ T _ _ Hc). exists c, sz, false. split; [done|lia].
Qed.

(** Both tags of a chunk are tag words. *)
Lemma chunk_tag_at c sz u : H !! c = Some (sz, u) -> tag_at H (c + 8) /\ (0 < sz -> tag_at H (c + sz)).
Proof.
  destruct Hok as [T _ _ _ _ _]. intros Hc. split.
  - right. replace (c + 8 - 8) with c by lia. eauto.
  - intros Hp. left. by apply (tg_next _ _ T _ _ _ Hc).
Qed.
End facts.

(** ** Taking a chunk out of its bin *)

Lemma clear_bit b i j : 0 <= b < 2 ^ 64 -> 0 <= i < 64 -> 0 <= j < 64 ->
  Z.testbit (a_and_64 b (u64 (Z.lnot (Z.shiftl 1 i)))) j = if decide (j = i) then false else Z.testbit b j.
Proof.
  intros Hb Hi Hj. rewrite and_spec, Z.land_spec. unfold u64. rewrite Z.mod_pow2_bits_low by lia.
  rewrite Z.lnot_spec by lia. rewrite Z.shiftl_1_l, Z.pow2_bits_eqb by lia.
  destruct (decide (j = i)) as [->|Hne]; [by rewrite Z.eqb_refl, andb_false_r|].
  rewrite (proj2 (Z.eqb_neq i j)) by done. by rewrite andb_true_r.
Qed.

Lemma and_range b v : 0 <= b < 2 ^ 64 -> 0 <= v -> 0 <= a_and_64 b v < 2 ^ 64.
Proof.
  intros Hb Hv. rewrite and_spec, <- (Z.mod_small b (2 ^ 64)), <- Z.land_ones by lia.
  rewrite <- Z.land_assoc, (Z.land_comm _ v), Z.land_assoc, Z.land_ones by lia. lia.
Qed.

Lemma ends_equal x l1 l2 :
  x ∉ l1 -> x ∉ l2 -> (forall y, y ∈ l1 -> y ∈ l2 -> False) ->
  (last_node x l1 =? first_node l2 x) = bool_decide (l1 ++ l2 = []).
Proof.
  intros H1 H2 H12. pose proof (last_node_in x l1) as Hl. pose proof (first_node_in l2 x) as Hf.
  destruct l1 as [|a l1], l2 as [|b l2]; cbn [app first_node].
  - by rewrite Z.eqb_refl.
  - apply Z.eqb_neq. intros <-. apply H2. by left.
  - apply Z.eqb_neq. rewrite last_node_cons in *. intros He. rewrite He in Hl.
    pose proof (last_node_in a l1) as Hl'. rewrite He in Hl'. done.
  - apply Z.eqb_neq. rewrite last_node_cons in *. intros He.
    pose proof (last_node_in a l1) as Hl'. rewrite He in Hl'. apply (H12 b Hl'). by left.
Qed.

Lemma wp_when_binmap (d : bool) f (Q : unit -> mem -> Prop) w b e n :
  Q tt (mkMem w (if d then f b else b) e n) ->
  wp (mwhen d (mset (fun s => s <| binmap ::= f |>))) Q (mkMem w b e n).
Proof. destruct d; cbn; intros H; [by apply wp_set|by apply wp_skip]. Qed.

Lemma unbin_spec s H N c sz :
  heap_ok s H N -> H !! c = Some (sz, false) ->
  wp (unbin c (bin_index sz)) (fun _ s' =>
    heap_ok s' (<[c := (sz, true)]> H) N /\ heap_end s' = heap_end s /\
    data_kept H N (words s) (words s')) s.
Proof.
  intros Hok Hc. destruct (id Hok) as [T [L B] Hlay Hm He Hst]. destruct s as [w b e n]. cbn [words binmap heap_end] in *.
  destruct (free_chunk _ _ T _ _ Hc) as (Hcm & Hsz & Hsized & Hi).
  set (i := bin_index sz) in *.
  assert (Hin : c ∈ L i) by (apply (bn_mem _ _ _ _ B); eauto).
  pose proof (bin_linked _ _ _ _ B i c Hi Hin) as Hl.
  pose proof (nodes_nodup _ _ _ _ _ T B Hlay i Hi) as Hnd.
  apply list_elem_of_split in Hin as (l1 & l2 & HL). rewrite HL in Hl. apply linked_app in Hl as [Hl1 Hl2].
  unfold nodes_of in Hnd. rewrite HL in Hnd.
  destruct (split_nodup _ _ _ _ Hnd) as (Hb1 & Hb2 & Hbc & Hc1 & Hc2 & H12 & Hnd1 & Hnd2).
  destruct (linked_last _ _ _ _ Hl1) as [Hprev Hpn]. destruct (linked_first _ _ _ _ Hl2) as [Hnext Hqp].
  set (p := last_node (BIN_TO_CHUNK i) l1) in *. set (q := first_node l2 (BIN_TO_CHUNK i)) in *.
  assert (Hp : p ∈ BIN_TO_CHUNK i :: l1) by apply last_node_in.
  assert (Hq : q ∈ l2 ++ [BIN_TO_CHUNK i]) by apply first_node_in.
  assert (Hin : forall x, x ∈ BIN_TO_CHUNK i :: l1 \/ x ∈ l2 ++ [BIN_TO_CHUNK i] \/ x = c -> x ∈ nodes_of L i).
  { intros x. unfold nodes_of. rewrite HL, !elem_of_cons, !elem_of_app, list_elem_of_singleton, elem_of_cons. tauto. }
  assert (Hpc : p <> c) by (intros ->; apply elem_of_cons in Hp as [?|?]; [congruence|done]).
  assert (Hqc : q <> c).
  { intros ->. apply elem_of_app in Hq as [?|Hq]; [done|]. apply list_elem_of_singleton in Hq. congruence. }
  assert (Hcn : c ∈ nodes_of L i) by (apply Hin; tauto).
  assert (Hpn' : p ∈ nodes_of L i) by (apply Hin; tauto).
  assert (Hqn' : q ∈ nodes_of L i) by (apply Hin; tauto).
  pose proof (node_links _ _ _ _ _ T B Hlay i i p q Hi Hi Hpn' Hqn') as Hpq.
  pose proof (node_links _ _ _ _ _ T B Hlay i i c q Hi Hi Hcn Hqn') as Hcq.
  pose proof (node_links _ _ _ _ _ T B Hlay i i p c Hi Hi Hpn' Hcn) as Hpc'.
  destruct (node_link_at _ _ _ _ B i p Hi Hpn') as [Lp16 _], (node_link_at _ _ _ _ B i q Hi Hqn') as [_ Lq24].
  assert (Heq : (p =? q) = bool_decide (l1 ++ l2 = [])) by by apply ends_equal.
  destruct (tg_after _ _ T c sz false Hc) as (n2 & u2 & Hc2' & Hpsz & _); [lia|].
  destruct (chunk_tag_at _ H N Hok c sz false Hc) as [Tc8 Tcsz]. specialize (Tcsz ltac:(lia)).
  pose proof (link_tag _ H N Hok _ _ Lp16 Tc8). pose proof (link_tag _ H N Hok _ _ Lp16 Tcsz).
  pose proof (link_tag _ H N Hok _ _ Lq24 Tc8). pose proof (link_tag _ H N Hok _ _ Lq24 Tcsz).
  pose proof (tg_csize _ _ T _ _ _ Hc) as Hcsz.
  unfold unbin. chunk_unfold. repeat wp_step. apply wp_when_binmap. rewrite Heq. repeat wp_step.
  rewrite tag_tagged, tag_untag by done. repeat wp_step. rewrite tag_tagged by done.
  set (b' := if bool_decide _ then _ else _).
  set (w' := <[c + sz := _]> _).
  assert (W1 : w' !! (c + sz) = Some (tag sz true)) by (unfold w'; look).
  assert (W2 : w' !! (c + 8) = Some (tag sz true)) by (unfold w'; look).
  assert (W3 : w' !! (p + 16) = Some q) by (unfold w'; look).
  assert (W4 : w' !! (q + 24) = Some p) by (unfold w'; look).
  assert (Wk : forall a, a <> c + sz -> a <> c + 8 -> a <> p + 16 -> a <> q + 24 -> w' !! a = w !! a).
  { intros a H4 H5 H6 H7. unfold w'. look. }
  assert (Wd : dom_le w w').
  { unfold w'. repeat (etrans; [|apply dom_le_insert]). done. }
  clearbody w'.
  assert (Hf : forall a, tag_at H a -> a <> c + 8 -> a <> c + sz -> w' !! a = w !! a).
  { intros a Ha H4 H5. apply Wk; [done|done|..]; apply not_eq_sym; by eapply link_tag. }
  split_and!; [|done|].
  - split; cbn [words binmap heap_end].
    + apply (tags_retag w w' H T c sz false Hc); [lia|]. by split.
    + eexists. eapply (bins_remove w w b H L T B Hlay w' i Hi c l1 l2 _ b'); [done|exact W3|exact W4| | | |].
      * intros a Ha H4 H5. apply Wk; [by eapply link_tag..|done|done].
      * intros d k. destruct (decide (c = d)) as [->|Hne].
        -- rewrite lookup_insert_eq. naive_solver.
        -- rewrite lookup_insert_ne by done. naive_solver.
      * unfold b'. destruct (bool_decide _); [|apply B]. apply and_range; [apply B|]. unfold u64. lia.
      * intros j Hj. unfold b'. case_bool_decide as Hnil.
        -- rewrite clear_bit by (done || apply B). destruct (decide (j = i)) as [->|]; [|done].
           by rewrite Hnil.
        -- destruct (decide (j = i)) as [->|]; [|done]. rewrite bool_decide_true by done.
           apply (bn_map _ _ _ _ B i Hi). rewrite HL. by destruct l1.
    + intros a Ha (d & k & u & Hd & Hda). apply (Hlay a Ha).
      apply (territory_retag H c sz false Hc true). by exists d, k, u.
    + eapply maps_frame; [done| |].
      * intros a Ht Hb. apply Wk.
        -- intros ->. apply Ht. by eapply tag_at_territory.
        -- intros ->. apply Ht. by eapply tag_at_territory.
        -- intros ->. by destruct (link_inside _ H N Hok _ Lp16).
        -- intros ->. by destruct (link_inside _ H N Hok _ Lq24).
      * intros a Ha. by apply (territory_retag H c sz false Hc true).
    + destruct He as [?|He]; [by left|right]. rewrite lookup_insert_ne; [done|]. intros ->. congruence.
    + by eapply mapped_le.
  - intros a Ha. apply Wk.
    + by apply (user_tag _ H N Hok).
    + by apply (user_tag _ H N Hok).
    + by apply (user_link _ H N Hok).
    + by apply (user_link _ H N Hok).
Qed.

(** ** Locking a bin *)

Lemma lock_bin_spec s H N i :
  heap_ok s H N -> 0 <= i < 64 ->
  wp (lock_bin i) (fun _ s' =>
    heap_ok s' H N /\ heap_end s' = heap_end s /\ binmap s' = binmap s /\ dom_le (words s) (words s') /\
    (forall a, ~ in_bins a -> words s' !! a = words s !! a) /\
    exists L, bins_ok (words s') (binmap s') H L /\
      linked (words s') (BIN_TO_CHUNK i) (L i) (BIN_TO_CHUNK i)) s.
Proof.
  intros Hok Hi. destruct (id Hok) as [T [L B] Hlay Hm He Hst]. destruct s as [w b e n]. cbn [words binmap heap_end] in *.
  destruct (bin_words i Hi) as [Wh Wt]. destruct (bin_chunk_links i) as [Hz16 Hz24].
  assert (Hbin : 0 < BIN_TO_CHUNK i).
  { pose proof bins_address. unfold BIN_TO_CHUNK, MEM_TO_CHUNK, OVERHEAD, bin_head. lia. }
  unfold lock_bin. apply wp_bind.
  destruct (bn_list _ _ _ _ B i Hi) as [(Hnil & Hh & [t Ht])|Hl].
  - wp_step. cbn [mwhen Z.eqb]. wp_step. wp_step.
    assert (Hne : bin_head i <> bin_tail i) by (unfold bin_head, bin_tail; lia).
    wp_step. cbn [words binmap heap_end].
    set (w' := <[bin_head i := _]> _).
    assert (W1 : w' !! bin_head i = Some (BIN_TO_CHUNK i)) by (unfold w'; look).
    assert (W2 : w' !! bin_tail i = Some (BIN_TO_CHUNK i)) by (unfold w'; look).
    assert (Wk : forall a, a <> bin_head i -> a <> bin_tail i -> w' !! a = w !! a).
    { intros a H1 H2. unfold w'. look. }
    assert (Wd : dom_le w w') by (unfold w'; repeat (etrans; [|apply dom_le_insert]); done).
    clearbody w'.
    assert (Wo : forall a, ~ in_bins a -> w' !! a = w !! a) by (intros a Ha; apply Wk; by intros ->).
    assert (Hl' : linked w' (BIN_TO_CHUNK i) (L i) (BIN_TO_CHUNK i)).
    { rewrite Hnil. cbn. by rewrite Hz16, Hz24. }
    assert (B' : bins_ok w' b H L).
    { split; [|apply B|apply B|apply B|apply B]. intros j Hj.
      destruct (decide (j = i)) as [->|Hne']; [by right|].
      eapply bin_frame; [exact B|done|]. intros x Hx.
      assert (Hx1 : BIN_TO_CHUNK i ∈ nodes_of L i) by by left.
      pose proof (node_links _ _ _ _ _ T B Hlay j i x _ Hj Hi Hx Hx1).
      pose proof (node_links _ _ _ _ _ T B Hlay i j _ x Hi Hj Hx1 Hx).
      assert (x <> BIN_TO_CHUNK i).
      { intros ->. by apply Hne', (nodes_apart _ _ _ _ _ T B Hlay j i (BIN_TO_CHUNK i)). }
      split; apply Wk; lia. }
    split_and!; [|done|done|done|done|by exists L]. split; [|by exists L|done| |done|by eapply mapped_le].
    + apply (tags_frame w); [done| |done]. intros a Ha. apply Wo. intros Hb. eapply Hlay; [done|].
      by eapply tag_at_territory.
    + eapply maps_frame; [done| |done]. intros a _ Ha. by apply Wo.
  - pose proof (linked_first _ _ _ _ Hl) as [Hh _]. rewrite Hz16 in Hh. wp_step.
    assert (Hnz : first_node (L i) (BIN_TO_CHUNK i) <> 0).
    { destruct (L i) as [|y l] eqn:HL; cbn; [lia|].
      assert (Hin : y ∈ L i) by (rewrite HL; by left).
      apply (bn_mem _ _ _ _ B) in Hin as (sz & Hy & _); [|done].
      destruct (tg_chunk _ _ T _ _ _ Hy). lia. }
    rewrite (proj2 (Z.eqb_neq _ 0)) by done. cbn [mwhen]. wp_step. cbn [words binmap heap_end].
    split_and!; try done. by exists L.
Qed.

(** ** Neighbours that are free *)

Lemma alloc_fwd_spec s H N c sz u fuel :
  heap_ok s H N -> H !! c = Some (sz, u) ->
  wp (alloc_fwd (S fuel) c) (fun r s' =>
    r = negb u /\ heap_ok s' (if u then H else <[c := (sz, true)]> H) N /\
    heap_end s' = heap_end s /\ data_kept H N (words s) (words s')) s.
Proof.
  intros Hok Hc. destruct (id Hok) as [T _ _ _ _ _]. pose proof (tg_csize _ _ T _ _ _ Hc) as Hw.
  destruct (tg_chunk _ _ T _ _ _ Hc) as [Hs _ _ _].
  cbn [alloc_fwd]. apply wp_bind. eapply wp_load; [exact Hw|]. rewrite tag_inuse by done.
  destruct u; [by apply wp_ret|]. cbn [tag].
  destruct (free_chunk _ _ T _ _ Hc) as (Hcm & Hsz & _ & Hi).
  apply wp_bind. eapply wp_mono; [by apply (lock_bin_spec s H N)|].
  intros [] s1 (Hok1 & He1 & Hb1 & Hd1 & Hw1 & _).
  apply wp_bind. eapply wp_load; [by eapply tg_csize; [apply Hok1|]|].
  cbn [tag]. rewrite Z.eqb_refl. apply wp_bind. eapply wp_mono; [by apply (unbin_spec s1 H N)|].
  intros [] s2 (Hok2 & He2 & Hk2). apply wp_ret. split_and!; [done|done|congruence|].
  intros a Ha. rewrite Hk2 by done. apply Hw1. by apply (user_not_bin s H N).
Qed.

Lemma alloc_rev_spec s H N c sz u fuel :
  heap_ok s H N -> H !! c = Some (sz, u) ->
  wp (alloc_rev (S fuel) c) (fun r s' =>
    heap_end s' = heap_end s /\ data_kept H N (words s) (words s') /\
    if r then exists k, H !! (c - k) = Some (k, false) /\ 0 < k /\ heap_ok s' (<[c - k := (k, true)]> H) N
    else s' = s /\ exists t, words s !! c = Some t /\ inuse t = true) s.
Proof.
  intros Hok Hc. destruct (id Hok) as [T _ _ _ _ _]. destruct (psize_mapped _ _ T _ _ _ Hc) as [t Ht].
  cbn [alloc_rev]. unfold psize, PREV_CHUNK. apply wp_bind. eapply wp_load; [exact Ht|]. destruct (inuse t) eqn:Hu.
  { apply wp_ret. split_and!; [done|done|done|by exists t]. }
  destruct (tg_before _ _ T _ _ _ _ Hc Ht Hu) as (Hp & Hpos & Hun).
  destruct (free_chunk _ _ T _ _ Hp) as (_ & _ & _ & Hi).
  apply wp_bind. eapply wp_mono; [by apply (lock_bin_spec s H N)|].
  intros [] s1 (Hok1 & He1 & Hb1 & Hd1 & Hw1 & _).
  assert (Ht1 : words s1 !! c = Some t).
  { rewrite Hw1; [done|]. intros Hb. apply (hp_layout _ _ _ Hok c Hb). exists c, sz, u. split; [done|].
    destruct (tg_chunk _ _ T _ _ _ Hc) as [[] _ _ _]. lia. }
  apply wp_bind. eapply wp_load; [exact Ht1|]. rewrite Z.eqb_refl.
  apply wp_bind, wp_bind. eapply wp_load; [exact Ht1|]. apply wp_ret. rewrite <- Hun.
  apply wp_bind. eapply wp_mono; [by apply (unbin_spec s1 H N)|].
  intros [] s2 (Hok2 & He2 & Hk2). apply wp_ret. split_and!; [congruence| |by exists t].
  intros a Ha. rewrite Hk2 by done. apply Hw1. by apply (user_not_bin s H N).
Qed.

(** ** Blocks in use *)

Definition inuse_of (H : chunks) (c sz : Z) : Prop := H !! c = Some (sz, true) /\ 0 < sz.

(** No two free chunks are neighbours. *)
Definition coalesced (H : chunks) : Prop :=
  forall c sz m v, H !! c = Some (sz, false) -> H !! (c + sz) = Some (m, v) -> v = true.

Lemma data_kept_trans H N w w1 w2 : data_kept H N w w1 -> data_kept H N w1 w2 -> data_kept H N w w2.
Proof. intros H1 H2 a Ha. rewrite H2 by done. by apply H1. Qed.

(** Two chunks in use, joined in memory by writing the outer tags. *)
Lemma join_ok s s' H N c sz m :
  heap_ok s H N -> H !! c = Some (sz, true) -> H !! (c + sz) = Some (m, true) -> 0 < sz -> 0 < m ->
  words s' !! (c + 8) = Some (tag (sz + m) true) -> words s' !! (c + sz + m) = Some (tag (sz + m) true) ->
  (forall a, a <> c + 8 -> a <> c + sz -> a <> c + sz + 8 -> a <> c + sz + m -> words s' !! a = words s !! a) ->
  dom_le (words s) (words s') -> binmap s' = binmap s -> heap_end s' = heap_end s ->
  heap_ok s' (join_at H c sz m true) N.
Proof.
  intros Hok Hc Hm Hp Hmp R1 R2 Rk Rd Hb He. destruct (id Hok) as [T [L B] Hlay Hms Hend Hst].
  destruct (chunk_tag_at s H N Hok _ _ _ Hc) as [Tc8 Tcsz]. specialize (Tcsz Hp).
  destruct (chunk_tag_at s H N Hok _ _ _ Hm) as [Tm8 Tmsz]. specialize (Tmsz Hmp).
  destruct (tg_chunk _ _ T _ _ _ Hc) as [Hs1 Hc1 Hr1 _], (tg_chunk _ _ T _ _ _ Hm) as [Hs2 Hc2 Hr2 _].
  split.
  - apply (tags_join (words s) (words s') H T c sz m true true true Hc Hm Hp Hmp R1 R2); [|done].
    intros a Ha H1 H2. apply Rk; [done| | |done].
    + intros ->. by apply (proj1 (join_stale (words s) H T c sz m true true Hc Hp)).
    + intros ->. by apply (proj2 (join_stale (words s) H T c sz m true true Hc Hp)).
  - exists L. rewrite Hb. apply (bins_same_free _ _ H).
    + intros d k. unfold join_at. destruct (decide (c = d)) as [->|Hne]; [rewrite lookup_insert_eq; split; congruence|].
      rewrite lookup_insert_ne by done. destruct (decide (c + sz = d)) as [<-|Hne'].
      * rewrite lookup_delete_eq. split; [congruence|done].
      * by rewrite lookup_delete_ne.
    + eapply bins_frame; [exact B|]. intros a Ha.
      apply Rk; by eapply link_tag.
  - intros a Ha Ht. apply (Hlay a Ha). exact (proj1 (territory_join H c sz m true true true Hc Hm Hp Hmp a) Ht).
  - eapply maps_frame; [done| |].
    + intros a Ht Hbn. apply Rk; intros ->; apply Ht; by eapply tag_at_territory.
    + intros a. apply (territory_join H c sz m true true true Hc Hm Hp Hmp).
  - rewrite He. destruct Hend as [?|Hend]; [by left|right].
    unfold join_at. rewrite lookup_insert_ne, lookup_delete_ne; [done| |].
    + intros Heq. rewrite <- Heq, Hm in Hend. injection Hend as ->. lia.
    + intros Heq. rewrite <- Heq, Hc in Hend. injection Hend as ->. lia.
  - by eapply mapped_le.
Qed.

(** Changes to words that are neither tags nor links of the heap. *)
Lemma heap_frame s s' H N :
  heap_ok s H N ->
  (forall a, tag_at H a \/ link_at H a \/ ~ territory H a -> words s' !! a = words s !! a) ->
  dom_le (words s) (words s') -> binmap s' = binmap s -> heap_end s' = heap_end s ->
  heap_ok s' H N.
Proof.
  intros [T [L B] Hlay Hm He] Hf Hd Hb Hh. split.
  - apply (tags_frame (words s)); [done| |done]. auto.
  - exists L. rewrite Hb. eapply bins_frame; [exact B|]. auto.
  - done.
  - eapply maps_frame; [done| |done]. intros a Ht _. auto.
  - by rewrite Hh.
  - by eapply mapped_le.
Qed.

(** [s] needs only the outer tags of the chunk [self] to be [H'] in memory. *)
Definition ready (s : mem) (H' : chunks) (N : gmap Z Z) (self final : Z) : Prop :=
  H' !! self = Some (final, true) /\ 0 < final /\
  exists sv, heap_ok sv H' N /\ binmap sv = binmap s /\ heap_end sv = heap_end s /\ dom_le (words sv) (words s) /\
    forall a, tag_at H' a \/ link_at H' a \/ ~ territory H' a ->
      a <> self + 8 -> a <> self + final -> words s !! a = words sv !! a.

Lemma ready_self s H N c sz : heap_ok s H N -> inuse_of H c sz -> ready s H N c sz.
Proof. intros Hok [Hc Hp]. split_and!; [done|done|]. by exists s. Qed.

(** The state with the outer tags of a chunk written. *)
Definition with_tags (s : mem) (c sz : Z) : mem :=
  s <| words ::= fun w => <[c + sz := tag sz true]> (<[c + 8 := tag sz true]> w) |>.

Lemma write_tags s H' N self final :
  ready s H' N self final -> heap_ok (with_tags s self final) H' N.
Proof.
  intros (Hc & Hp & sv & Hok & Hb & He & Hd & Hf). destruct (id Hok) as [T _ _ _ _ _].
  pose proof (tg_csize _ _ T _ _ _ Hc) as W1. destruct (tg_next _ _ T _ _ _ Hc Hp) as [_ W2].
  apply (heap_frame sv); [done| |..]; cbn.
  - intros a Ha. destruct (decide (a = self + final)) as [->|H1]; [by rewrite lookup_insert_eq|].
    rewrite lookup_insert_ne by done. destruct (decide (a = self + 8)) as [->|H2]; [by rewrite lookup_insert_eq|].
    rewrite lookup_insert_ne by done. by apply Hf.
  - do 2 (etrans; [|apply dom_le_insert]). done.
  - done.
  - done.
Qed.

Lemma ready_join s H N c sz m :
  ready s H N c sz -> H !! (c + sz) = Some (m, true) -> 0 < m -> ready s (join_at H c sz m true) N c (sz + m).
Proof.
  intros (Hc & Hp & sv & Hok & Hb & He & Hd & Hf) Hm Hmp. destruct (id Hok) as [T _ _ _ _ _].
  split_and!; [by unfold join_at; rewrite lookup_insert_eq|lia|].
  destruct (tg_chunk _ _ T _ _ _ Hc) as [[] Ha Hr _], (tg_chunk _ _ T _ _ _ Hm) as [[] Ha' Hr' _].
  exists (with_tags sv c (sz + m)). replace (c + (sz + m)) with (c + sz + m) by lia. split_and!; [|done|done|..].
  - eapply (join_ok sv); try done; cbn; replace (c + (sz + m)) with (c + sz + m) by lia.
    + by rewrite lookup_insert_ne, lookup_insert_eq by lia.
    + by rewrite lookup_insert_eq.
    + intros a H1' H2' H3' H4'. by rewrite !lookup_insert_ne by done.
    + do 2 (etrans; [|apply dom_le_insert]). done.
  - cbn. intros a [v Hv]. destruct (decide (a = c + sz + m)) as [->|Hn1]; [|destruct (decide (a = c + 8)) as [->|Hn2]].
    + apply Hd. destruct (tg_next _ _ T _ _ _ Hm Hmp) as [_ ?]. by eexists.
    + apply Hd. eexists. by eapply tg_csize.
    + apply Hd. replace (c + (sz + m)) with (c + sz + m) in Hv by lia.
      rewrite !lookup_insert_ne in Hv by done. by eexists.
  - cbn. replace (c + (sz + m)) with (c + sz + m) by lia. intros a Ht Hn1 Hn2.
    rewrite !lookup_insert_ne by done.
    pose proof (join_stale (words sv) H T c sz m true true Hc Hp) as [Hst _].
    pose proof (fun a => territory_join H c sz m true true true Hc Hm Hp Hmp a) as Hterr.
    destruct (chunk_tag_at sv H N Hok _ _ _ Hc) as [_ Tcsz]. specialize (Tcsz Hp).
    assert (Hlink : forall a, link_at (join_at H c sz m true) a -> link_at H a).
    { intros a' [Hl|(d & k & Hdk & Hl)]; [by left|right]. apply join_lookup in Hdk as [(_ & _ & ?)|(_ & _ & Hdk)]; [done|].
      by exists d, k. }
    apply Hf; [|done|].
    + destruct Ht as [Ht|[Ht|Ht]]; [left; exact (join_tag_at H c sz m true true Hc a Ht)|right; left; auto|right; right].
      by rewrite <- Hterr.
    + intros ->. destruct Ht as [Ht|[Ht|Ht]]; [done| |].
      * apply (link_tag sv H N Hok (c + sz) (c + sz)); [by apply Hlink|done|done].
      * apply Ht, Hterr. by eapply tag_at_territory.
Qed.

Lemma user_delete H N c a : user_at (delete c H) N a -> user_at H N a.
Proof. intros [(d & k & [_ Hd]%lookup_delete_Some & Ha)|Ha]; [left; by exists d, k|by right]. Qed.

(** The last round of the loop of [free]: both neighbours are in use. *)
Lemma merge_finish s N H' self final new_size reclaim fuel t m :
  ready s H' N self final -> words s !! self = Some t -> inuse t = true -> H' !! (self + final) = Some (m, true) ->
  wp (free_merge (S fuel) self (self + final) final new_size reclaim) (fun r s' =>
    r = (self, self + final, final, reclaim, bin_index final) /\
    heap_ok s' H' N /\ heap_end s' = heap_end s /\ words s' !! self = Some t /\
    (forall a, user_at (delete self H') N a -> words s' !! a = words s !! a) /\
    exists L, bins_ok (words s') (binmap s') H' L /\
      linked (words s') (BIN_TO_CHUNK (bin_index final)) (L (bin_index final)) (BIN_TO_CHUNK (bin_index final))) s.
Proof.
  intros Hr Ht Hu Hm. pose proof (write_tags _ _ _ _ _ Hr) as Hw.
  destruct Hr as (Hc & Hp & sv & Hok & Hb & He & Hd & Hf). destruct (id Hok) as [T _ _ _ _ _].
  destruct (tg_chunk _ _ T _ _ _ Hc) as [Hsz Ha Hrg _], (tg_chunk _ _ T _ _ _ Hm) as [Hszm Ham _ _].
  assert (Hn8 : words s !! (self + final + 8) = Some (tag m true)).
  { rewrite Hf; [by eapply tg_csize|left|lia|lia]. apply (chunk_tag_at sv H' N Hok _ _ _ Hm). }
  assert (D1 : is_Some (words s !! (self + 8))) by (apply Hd; eexists; by eapply tg_csize).
  assert (D2 : is_Some (words s !! (self + final))).
  { apply Hd. destruct (tg_next _ _ T _ _ _ Hc Hp) as [_ ?]. by eexists. }
  assert (Hboth : forall s1 (Q : bool -> mem -> Prop), words s1 !! self = Some t ->
    words s1 !! (self + final + 8) = Some (tag m true) -> Q true s1 ->
    wp (both_inuse self (self + final)) Q s1).
  { intros s1 Q H1 H2 HQ. apply wp_bind. eapply wp_load; [exact H1|]. apply wp_bind. eapply wp_load; [exact H2|].
    apply wp_ret. by rewrite inuse_land, Hu, tag_inuse. }
  cbn [free_merge]. apply wp_bind, Hboth; [done|done|]. cbn beta iota.
  apply wp_bind. eapply wp_store; [done|]. apply wp_bind. eapply wp_store; [cbn; by apply dom_le_insert|].
  change (s <| words ::= _ |> <| words ::= _ |>) with (with_tags s self final).
  destruct (bin_index_range final Hsz Hp) as [Hi1 Hi2].
  apply wp_bind. eapply wp_mono; [apply (lock_bin_spec _ H' N _ Hw); lia|].
  intros [] s1 (Hok1 & He1 & Hb1 & Hd1 & Hw1 & HL).
  assert (Hterr : forall a, self <= a < self + final + 16 -> ~ in_bins a).
  { intros a Hin Hbn. apply (hp_layout _ _ _ Hok a Hbn). by exists self, final, true. }
  assert (Hs1 : words s1 !! self = Some t).
  { rewrite Hw1 by (apply Hterr; lia). cbn. by rewrite !lookup_insert_ne by lia. }
  apply wp_bind, Hboth; [done| |].
  { rewrite Hw1 by (apply Hterr; lia). cbn. by rewrite !lookup_insert_ne by lia. }
  cbn beta iota. apply wp_ret. split_and!; [done|done|done|done| |done].
  intros a Ha'. apply user_delete in Ha'. rewrite Hw1 by by apply (user_not_bin _ H' N Hw).
  destruct (chunk_tag_at _ H' N Hw _ _ _ Hc) as [T1 T2]. specialize (T2 Hp).
  cbn. rewrite !lookup_insert_ne; [done| |]; apply not_eq_sym; by apply (user_tag _ H' N Hw).
Qed.

(** ** Merging with the neighbours *)

(** [H'] is [H] with the chunk [c] grown into [self] by taking free
    neighbours. *)
Record absorbed (H : chunks) (c : Z) (H' : chunks) (self final : Z) : Prop := {
  ab_new : H' !! self = Some (final, true);
  ab_pos : 0 < final;
  ab_free : forall d k, H' !! d = Some (k, false) -> H !! d = Some (k, false);
  ab_used : forall d k, H' !! d = Some (k, true) /\ d <> self <-> H !! d = Some (k, true) /\ d <> c;
}.

Lemma absorbed_refl H c sz : inuse_of H c sz -> absorbed H c H c sz.
Proof. intros [H1 H2]. split; [done|done|done|tauto]. Qed.

Lemma join_insert H c sz m v d x :
  d <> c -> d <> c + sz -> join_at (<[d := x]> H) c sz m v = <[d := x]> (join_at H c sz m v).
Proof. intros H1 H2. unfold join_at. rewrite delete_insert_ne, insert_insert_ne by done. done. Qed.

(** Taking the next chunk, or the previous one. *)
Lemma absorb_next H c H1 self final m :
  absorbed H c H1 self final -> H1 !! (self + final) = Some (m, false) -> 0 < m ->
  absorbed H c (join_at (<[self + final := (m, true)]> H1) self final m true) self (final + m).
Proof.
  intros [A1 A2 A3 A4] Hm Hp.
  assert (Hl : forall d k y, d <> self -> join_at (<[self + final := (m, true)]> H1) self final m true !! d = Some (k, y) <->
    H1 !! d = Some (k, y) /\ d <> self + final).
  { intros d k y Hd. unfold join_at. rewrite lookup_insert_ne by done. rewrite lookup_delete_Some.
    split; [intros [? Hx]; rewrite lookup_insert_ne in Hx by done; auto|].
    intros [Hx ?]. by rewrite lookup_insert_ne. }
  split; [unfold join_at; by rewrite lookup_insert_eq|lia| |].
  - intros d k Hd. apply A3. destruct (decide (d = self)) as [->|Hne].
    { unfold join_at in Hd. by rewrite lookup_insert_eq in Hd. }
    by apply Hl in Hd as [? _].
  - intros d k. rewrite <- A4. split; intros [Hd Hne]; (split; [|done]).
    + by apply Hl in Hd as [? _].
    + apply Hl; [done|]. split; [done|]. intros ->. congruence.
Qed.

Lemma absorb_prev H c H1 self final k :
  absorbed H c H1 self final -> H1 !! (self - k) = Some (k, false) -> 0 < k ->
  absorbed H c (join_at (<[self - k := (k, true)]> H1) (self - k) k final true) (self - k) (k + final).
Proof.
  intros [A1 A2 A3 A4] Hk Hp. replace self with (self - k + k) in A1, A4 by lia.
  assert (Hl : forall d n y, d <> self - k -> join_at (<[self - k := (k, true)]> H1) (self - k) k final true !! d = Some (n, y) <->
    H1 !! d = Some (n, y) /\ d <> self - k + k).
  { intros d n y Hd. unfold join_at. rewrite lookup_insert_ne by done. rewrite lookup_delete_Some.
    rewrite lookup_insert_ne by done. split; intros [? ?]; split; congruence. }
  split; [unfold join_at; by rewrite lookup_insert_eq|lia| |].
  - intros d n Hd. apply A3. destruct (decide (d = self - k)) as [->|Hne].
    { unfold join_at in Hd. by rewrite lookup_insert_eq in Hd. }
    by apply Hl in Hd as [? _].
  - intros d n. rewrite <- A4. split.
    + intros [Hd Hne]. by apply Hl in Hd as [? ?].
    + intros [Hd Hne]. assert (d <> self - k) by (intros ->; congruence).
      split; [|done]. by apply Hl.
Qed.

Lemma absorbed_coalesced H c H' self final : absorbed H c H' self final -> coalesced H -> coalesced H'.
Proof.
  intros [_ _ A3 _] Hco d k m v Hd Hn. destruct v; [done|]. apply A3 in Hd, Hn. exact (Hco _ _ _ _ Hd Hn).
Qed.

Lemma absorbed_data H c H' self final N a :
  absorbed H c H' self final -> user_at (delete c H) N a -> user_at (delete self H') N a.
Proof.
  intros [_ _ _ A4] [(d & k & [Hne Hd]%lookup_delete_Some & Ha)|Ha]; [left|by right].
  destruct (proj2 (A4 d k)) as [Hd' Hne']; [done|].
  exists d, k. split; [by rewrite lookup_delete_ne|done].
Qed.

(** No free chunk before a chunk: its [psize] is marked in use. *)
Lemma psize_inuse w H c sz u :
  tags_ok w H -> H !! c = Some (sz, u) -> (forall k, H !! (c - k) = Some (k, false) -> False) ->
  exists t, w !! c = Some t /\ inuse t = true.
Proof.
  intros T Hc Hno. destruct (psize_mapped _ _ T _ _ _ Hc) as [t Ht]. exists t. split; [done|].
  destruct (inuse t) eqn:Hu; [done|]. exfalso. destruct (tg_before _ _ T _ _ _ _ Hc Ht Hu) as [Hb _]. by eapply Hno.
Qed.

Definition merged_into (H : chunks) (N : gmap Z Z) (s : mem) (c : Z) (r : Z * Z * Z * bool * Z) (s' : mem) : Prop :=
  let '(self, nxt, final, reclaim, i) := r in
  exists H', absorbed H c H' self final /\ nxt = self + final /\ i = bin_index final /\
    (reclaim = true -> RECLAIM < final) /\ heap_ok s' H' N /\ heap_end s' = heap_end s /\
    (exists m, H' !! nxt = Some (m, true)) /\ (forall k, H' !! (self - k) = Some (k, false) -> False) /\
    (forall a, user_at (delete c H) N a -> words s' !! a = words s !! a) /\
    exists L, bins_ok (words s') (binmap s') H' L /\ linked (words s') (BIN_TO_CHUNK i) (L i) (BIN_TO_CHUNK i).

(** From the state before the last round. *)
Lemma merge_last s s1 N H c H' self final new_size reclaim fuel m :
  ready s1 H' N self final -> absorbed H c H' self final ->
  (forall k, H' !! (self - k) = Some (k, false) -> False) -> H' !! (self + final) = Some (m, true) ->
  (reclaim = true -> RECLAIM < final) -> heap_end s1 = heap_end s ->
  (forall a, user_at (delete c H) N a -> words s1 !! a = words s !! a) ->
  wp (free_merge (S fuel) self (self + final) final new_size reclaim) (merged_into H N s c) s1.
Proof.
  intros Hr Hab Hno Hm Hrec He Hd. pose proof (write_tags _ _ _ _ _ Hr) as Hw.
  destruct (psize_inuse _ _ self final true (hp_tags _ _ _ Hw) (ab_new _ _ _ _ _ Hab) Hno) as (t & Ht & Hu).
  pose proof (ab_pos _ _ _ _ _ Hab) as Hpos. cbn in Ht. rewrite !lookup_insert_ne in Ht by lia.
  eapply wp_mono; [by eapply (merge_finish s1 N H' self final new_size reclaim fuel t m)|].
  intros r s' (-> & Hok & He' & _ & Hk & HL). exists H'. split_and!; [done..|congruence|by eexists|done| |done].
  intros a Ha. rewrite Hk by by eapply absorbed_data. by apply Hd.
Qed.

(** A free neighbour becomes a chunk in use, and is then joined. *)
Lemma taken_free (H : chunks) d k y n : <[d := (k, true)]> H !! y = Some (n, false) -> H !! y = Some (n, false).
Proof.
  intros Hy. destruct (decide (d = y)) as [->|Hne]; [by rewrite lookup_insert_eq in Hy|by rewrite lookup_insert_ne in Hy].
Qed.

Lemma join_at_free H c sz m y n : join_at H c sz m true !! y = Some (n, false) -> H !! y = Some (n, false).
Proof. intros [(_ & _ & ?)|(_ & _ & ?)]%join_lookup; done. Qed.

(** A chunk that is free keeps its neighbours in use. *)
Lemma free_before w H c k :
  tags_ok w H -> coalesced H -> H !! c = Some (k, false) -> forall j, H !! (c - j) = Some (j, false) -> False.
Proof.
  intros T Hco Hc j Hj. assert (false = true); [|done]. eapply Hco; [exact Hj|].
  replace (c - j + j) with c by lia. exact Hc.
Qed.

Lemma free_after w H c k :
  tags_ok w H -> coalesced H -> H !! c = Some (k, false) -> 0 < k /\ exists m, H !! (c + k) = Some (m, true).
Proof.
  intros T Hco Hc. destruct (tg_chunk _ _ T _ _ _ Hc) as [[] _ _ Hl].
  assert (0 < k) by (destruct (decide (k = 0)); [naive_solver|lia]). split; [done|].
  destruct (tg_next _ _ T _ _ _ Hc) as [[[m v] Hm] _]; [done|]. exists m. by rewrite (Hco _ _ _ _ Hc Hm) in Hm.
Qed.

Lemma reclaims_large new_size size :
  0 <= new_size + size < 2 ^ 64 -> reclaims new_size size = true -> RECLAIM < new_size + size.
Proof. unfold reclaims. intros Hr [H1 _]%andb_prop. rewrite u64_small in H1 by done. lia. Qed.


Definition neighbours_merged (H : chunks) (N : gmap Z Z) (s : mem) (c : Z) (r : Z * Z * Z * bool) (s' : mem) : Prop :=
  let '(self, nxt, final, reclaim) := r in
  exists H', absorbed H c H' self final /\ nxt = self + final /\ (reclaim = true -> RECLAIM < final) /\
    ready s' H' N self final /\ heap_end s' = heap_end s /\
    (exists m, H' !! nxt = Some (m, true)) /\ (forall k, H' !! (self - k) = Some (k, false) -> False) /\
    (forall a, user_at (delete c H) N a -> words s' !! a = words s !! a).

(** The second half: from the heap [H1] in memory, of which [Hj] is the
    merged view so far. *)
Lemma merge_forward s (H : chunks) N c sz s1 (H1 Hj : chunks) self final (reclaim : bool) (m : Z) (v : bool) :
  heap_ok s H N -> coalesced H -> inuse_of H c sz -> H !! (c + sz) = Some (m, v) ->
  heap_ok s1 H1 N -> H1 !! (c + sz) = Some (m, v) ->
  absorbed H c Hj self final -> self + final = c + sz -> Hj !! (c + sz) = Some (m, v) -> sz <= final ->
  (reclaim = true -> RECLAIM < final) ->
  (forall k, Hj !! (self - k) = Some (k, false) -> False) ->
  (forall s2, heap_ok s2 (if v then H1 else <[c + sz := (m, true)]> H1 : chunks) N ->
     ready s2 (if v then Hj else <[c + sz := (m, true)]> Hj : chunks) N self final) ->
  heap_end s1 = heap_end s -> data_kept H N (words s) (words s1) ->
  (forall a, user_at (delete c H) N a -> user_at H1 N a) ->
  wp (do! b := alloc_fwd 2 (c + sz) in
      if (b : bool) then
        do! size := CHUNK_SIZE (c + sz) in
        do! nxt := NEXT_CHUNK (c + sz) in
        mret (self, nxt, u64 (final + size), reclaim || reclaims sz size)
      else mret (self, c + sz, final, reclaim)) (neighbours_merged H N s c) s1.
Proof.
  intros Hok Hco [Hc Hp] Hm Hok1 Hm1 Hab Hsf Hmj Hle Hrec Hno Hready He Hd Hu.
  destruct (id Hok) as [T _ _ _ _ _].
  apply wp_bind. eapply wp_mono; [by apply (alloc_fwd_spec s1 H1 N _ m v 1)|].
  intros r s2 (-> & Hok2 & He2 & Hd2). specialize (Hready s2 Hok2).
  assert (Hdata : forall a, user_at (delete c H) N a -> words s2 !! a = words s !! a).
  { intros a Ha. rewrite Hd2 by auto. apply Hd. by eapply user_delete. }
  destruct v; cbn [negb].
  - apply wp_ret. exists Hj. split_and!; [done|lia|done|done|congruence| |done|done].
    exists m. by rewrite <- Hsf in Hmj |- *.
  - destruct (free_after _ _ _ _ T Hco Hm) as [Hmp [m2 Hm2]].
    assert (Hm2' : <[c + sz := (m, true)]> H1 !! (c + sz) = Some (m, true)) by by rewrite lookup_insert_eq.
    pose proof (tg_csize _ _ (hp_tags _ _ _ Hok2) _ _ _ Hm2') as Hw.
    destruct (tg_chunk _ _ T _ _ _ Hm) as [Hszm _ Hmr _], (tg_chunk _ _ T _ _ _ Hc) as [Hszc _ Hcr _].
    unfold NEXT_CHUNK, CHUNK_SIZE, csize. apply wp_bind, wp_bind. eapply wp_load; [exact Hw|]. apply wp_ret.
    apply wp_bind, wp_bind, wp_bind. eapply wp_load; [exact Hw|]. apply wp_ret. apply wp_ret. apply wp_ret.
    rewrite tag_untag by done. pose proof (ab_pos _ _ _ _ _ Hab) as Hpos.
    destruct (tg_chunk _ _ (hp_tags _ _ _ (write_tags _ _ _ _ _ Hready)) self final true) as [Hszf _ Hfr _]; [apply Hready|].
    rewrite <- Hsf in *. destruct Hszm as [Hszm _], Hszf as [Hszf _].
    exists (join_at (<[self + final := (m, true)]> Hj) self final m true).
    rewrite u64_small by lia. split_and!.
    + by apply absorb_next.
    + lia.
    + intros [Hr|Hr]%orb_prop; [specialize (Hrec Hr); lia|]. apply reclaims_large in Hr; lia.
    + apply ready_join; [done|by rewrite lookup_insert_eq|done].
    + congruence.
    + exists m2. unfold join_at. rewrite lookup_insert_ne, lookup_delete_ne, lookup_insert_ne by lia.
      apply Hab. split; [done|lia].
    + intros k Hk. apply join_at_free, taken_free in Hk. by eapply Hno.
    + done.
Qed.

Lemma merge_neighbours_spec s H N c sz :
  heap_ok s H N -> coalesced H -> inuse_of H c sz ->
  wp (merge_neighbours c (c + sz) sz sz false) (neighbours_merged H N s c) s.
Proof.
  intros Hok Hco Hin. destruct (id Hin) as [Hc Hp]. destruct (id Hok) as [T _ _ _ _ _].
  destruct (tg_after _ _ T _ _ _ Hc Hp) as (m & v & Hm & _).
  destruct (tg_chunk _ _ T _ _ _ Hc) as [Hsz Hca Hcr _].
  unfold merge_neighbours. apply wp_bind. eapply wp_mono; [by apply (alloc_rev_spec s H N c sz true 1)|].
  intros r s1 (He1 & Hk1 & Hr1). destruct r.
  - destruct Hr1 as (k & Hk & Hkp & Hok1). destruct (tg_chunk _ _ T _ _ _ Hk) as [Hszk _ Hkr _].
    set (H1 := <[c - k := (k, true)]> H) in *.
    assert (Hk1' : H1 !! (c - k) = Some (k, true)) by (unfold H1; by rewrite lookup_insert_eq).
    assert (Hother : forall d, d <> c - k -> H1 !! d = H !! d) by (intros d Hd; unfold H1; by rewrite lookup_insert_ne).
    pose proof (tg_csize _ _ (hp_tags _ _ _ Hok1) _ _ _ Hk1') as W1.
    destruct (tg_next _ _ (hp_tags _ _ _ Hok1) _ _ _ Hk1' Hkp) as [_ W2]. replace (c - k + k) with c in W2 by lia.
    unfold PREV_CHUNK, CHUNK_SIZE, psize at 1, csize at 1. apply wp_bind, wp_bind, wp_bind. eapply wp_load; [exact W2|].
    apply wp_ret. rewrite tag_untag by done. apply wp_bind, wp_bind. eapply wp_load; [exact W1|]. apply wp_ret. apply wp_ret.
    rewrite tag_untag by done. destruct Hsz as [Hsz Hsz'], Hszk as [Hszk Hszk']. rewrite u64_small by lia.
    assert (Hab : absorbed H c (join_at H1 (c - k) k sz true) (c - k) (k + sz)).
    { apply (absorb_prev H c H c sz k); [by apply absorbed_refl|done|done]. }
    apply (merge_forward s H N c sz s1 H1 (join_at H1 (c - k) k sz true) (c - k) (sz + k) _ m v); try done.
    + rewrite Hother by lia. done.
    + by rewrite Z.add_comm in Hab.
    + lia.
    + unfold join_at. rewrite lookup_insert_ne, lookup_delete_ne by lia. by rewrite Hother by lia.
    + lia.
    + intros Hr. apply reclaims_large in Hr; lia.
    + intros j Hj. apply join_at_free, taken_free in Hj. by eapply (free_before _ _ _ _ T Hco Hk).
    + intros s2 Hok2. rewrite (Z.add_comm sz). destruct v.
      * apply ready_join; [by apply ready_self|by rewrite Z.sub_add, Hother by lia|done].
      * rewrite <- join_insert by lia. apply ready_join; [apply ready_self; [done|]| |done].
        -- split; [by rewrite lookup_insert_ne by lia|done].
        -- rewrite Z.sub_add, lookup_insert_ne, Hother by lia. done.
    + intros a [(d & n & [Hne Hd]%lookup_delete_Some & Ha)|Ha]; [left|by right].
      exists d, n. split; [|done]. rewrite Hother; [done|]. intros ->. congruence.
  - destruct Hr1 as (-> & t & Ht & Hu). apply wp_bind, wp_ret.
    apply (merge_forward s H N c sz s H H c sz false m v); try done.
    + intros k Hk. destruct (free_after _ _ _ _ T Hco Hk) as [Hkp _].
      destruct (tg_next _ _ T _ _ _ Hk Hkp) as [_ Hw]. replace (c - k + k) with c in Hw by lia.
      assert (t = tag k false) as -> by congruence. rewrite tag_inuse in Hu; [done|apply (tg_chunk _ _ T _ _ _ Hk)].
    + intros s2 Hok2. apply ready_self; [by destruct v|]. destruct v; [done|].
      split; [by rewrite lookup_insert_ne by lia|done].
    + apply user_delete.
Qed.

(** One round that finds a free neighbour. *)
Lemma free_merge_again fuel self nxt final new_size reclaim (Q : _ -> mem -> Prop) s :
  wp (both_inuse self nxt) (fun b s' => b = false /\ s' = s) s ->
  wp (merge_neighbours self nxt final new_size reclaim) (fun r s' =>
    let '(self, nxt, final, reclaim) := r in wp (free_merge fuel self nxt final new_size reclaim) Q s') s ->
  wp (free_merge (S fuel) self nxt final new_size reclaim) Q s.
Proof.
  intros Hb Hm. apply wp_bind. eapply wp_mono; [exact Hb|]. intros b s' [-> ->]. apply wp_bind.
  eapply wp_mono; [exact Hm|]. by intros [[[? ?] ?] ?] s'.
Qed.

Lemma free_merge_spec s H N c sz :
  heap_ok s H N -> coalesced H -> inuse_of H c sz ->
  wp (free_merge 2 c (c + sz) sz sz false) (merged_into H N s c) s.
Proof.
  intros Hok Hco Hin. destruct (id Hin) as [Hc Hp]. destruct (id Hok) as [T _ _ _ _ _].
  destruct (psize_mapped _ _ T _ _ _ Hc) as [t Ht].
  destruct (tg_after _ _ T _ _ _ Hc Hp) as (m & v & Hm & _ & Hmw).
  destruct (inuse t && v) eqn:Hboth.
  - apply andb_prop in Hboth as [Hu ->].
    eapply (merge_last s s N H c H); [by apply ready_self|by apply absorbed_refl| |done|done|done|done].
    intros k Hk. destruct (free_after _ _ _ _ T Hco Hk) as [Hkp _].
    destruct (tg_next _ _ T _ _ _ Hk Hkp) as [_ Hw]. replace (c - k + k) with c in Hw by lia.
    assert (t = tag k false) as -> by congruence. rewrite tag_inuse in Hu; [done|apply (tg_chunk _ _ T _ _ _ Hk)].
  - apply free_merge_again.
    { apply wp_bind. eapply wp_load; [exact Ht|]. apply wp_bind. eapply wp_load; [exact Hmw|]. apply wp_ret.
      by rewrite inuse_land, tag_inuse, Hboth by apply (tg_chunk _ _ T _ _ _ Hm). }
    eapply wp_mono; [by apply merge_neighbours_spec|].
    intros [[[self nxt] final] reclaim] s1 (H' & Hab & -> & Hrec & Hr & He & [m' Hm'] & Hno & Hd).
    exact (merge_last s s1 N H c H' self final sz reclaim 0 m' Hr Hab Hno Hm' Hrec He Hd).
Qed.
End heap.
