(* ===== verification/MallocFree.v ===== *)
(** * [free] on a well-formed heap

    What freeing a chunk does to the abstract heap and to the callers' data,
    and that it returns. *)

From Stdlib Require Import ZifyBool.
From stdpp Require Import base numbers gmap list.
From S2P Require Import Prelude Word StateMonad Malloc MallocArith MallocInv MallocOps.

Local Open Scope Z_scope.
Ltac Zify.zify_post_hook ::= Z.to_euclidean_division_equations.

Section free.
Context `{E : MallocEnv} `{!MallocLaws E}.

(** ** Into the bin *)

Lemma set_bit b i j : 0 <= b < 2 ^ 64 -> 0 <= i < 64 -> 0 <= j ->
  Z.testbit (if Z.land b (Z.shiftl 1 i) =? 0 then a_or_64 b (Z.shiftl 1 i) else b) j =
  if decide (j = i) then true else Z.testbit b j.
Proof.
  intros Hb Hi Hj.
  assert (Hz : Z.land b (Z.shiftl 1 i) = 0 <-> Z.testbit b i = false).
  { rewrite Z.shiftl_1_l. split; intros H.
    - apply (f_equal (fun x => Z.testbit x i)) in H. rewrite Z.land_spec, Z.pow2_bits_true, andb_true_r in H by lia.
      by rewrite Z.bits_0 in H.
    - apply Z.bits_inj'. intros k Hk. rewrite Z.land_spec, Z.pow2_bits_eqb, Z.bits_0 by lia.
      destruct (Z.eqb_spec i k) as [<-|]; [by rewrite H|by rewrite andb_false_r]. }
  destruct (Z.eqb_spec (Z.land b (Z.shiftl 1 i)) 0) as [H0|H0].
  - rewrite or_spec, Z.lor_spec, Z.shiftl_1_l, Z.pow2_bits_eqb by lia.
    destruct (decide (j = i)) as [->|Hne]; [by rewrite Z.eqb_refl, orb_true_r|].
    rewrite (proj2 (Z.eqb_neq i j)) by done. by rewrite orb_false_r.
  - destruct (decide (j = i)) as [->|Hne]; [|done]. apply not_false_iff_true. intros Ht. by apply H0, Hz.
Qed.

Lemma set_bit_range b i : 0 <= b < 2 ^ 64 -> 0 <= i < 64 ->
  0 <= (if Z.land b (Z.shiftl 1 i) =? 0 then a_or_64 b (Z.shiftl 1 i) else b) < 2 ^ 64.
Proof.
  intros Hb Hi. destruct (_ =? _); [|done]. rewrite or_spec, Z.shiftl_1_l.
  assert (0 < 2 ^ i < 2 ^ 64) by (split; [lia|apply Z.pow_lt_mono_r; lia]).
  split; [apply Z.lor_nonneg; lia|]. rewrite <- (Z.mod_small b (2 ^ 64)), <- (Z.mod_small (2 ^ i) (2 ^ 64)) by lia.
  rewrite <- !Z.land_ones, <- Z.land_lor_distr_l, Z.land_ones by lia. lia.
Qed.

(** The end of [free]: the chunk [self] leaves the blocks in use and becomes
    the last of its bin. *)
Lemma bin_insert s H N self final m L :
  let i := bin_index final in
  heap_ok s H N -> H !! self = Some (final, true) -> 0 < final -> H !! (self + final) = Some (m, true) ->
  bins_ok (words s) (binmap s) H L -> linked (words s) (BIN_TO_CHUNK i) (L i) (BIN_TO_CHUNK i) ->
  wp (do! b := mget binmap in
      mwhen (Z.land b (Z.shiftl 1 i) =? 0) (mset (fun s => s <| binmap ::= fun b => a_or_64 b (Z.shiftl 1 i) |>)) ;;
      set_csize self final ;; set_psize (self + final) final ;; bin_append self i)
    (fun _ s' => heap_ok s' (<[self := (final, false)]> H) N /\ heap_end s' = heap_end s /\
      data_kept (delete self H) N (words s) (words s')) s.
Proof.
  intros i Hok Hc Hp Hm B Hl. destruct (id Hok) as [T _ Hlay Hms He Hst].
  destruct s as [w b e n]. cbn [words binmap heap_end] in *.
  destruct (tg_chunk _ _ T _ _ _ Hc) as [Hsz Hca Hcr _].
  pose proof (chunk_size_min _ _ T _ _ _ Hc Hp) as H32.
  destruct (bin_index_range final Hsz Hp) as [Hi1 Hi2]. assert (Hi : 0 <= i < 64) by (unfold i; lia).
  destruct (bin_chunk_links i) as [Hz16 Hz24]. destruct (bin_words i Hi) as [Wh Wt].
  destruct (linked_last _ _ _ _ Hl) as [Hlast Hpn]. rewrite Hz24 in Hlast.
  set (p := last_node (BIN_TO_CHUNK i) (L i)) in *.
  assert (Hpin : p ∈ nodes_of L i) by apply last_node_in.
  assert (Hfree : forall j, 0 <= j < 64 -> self ∉ L j).
  { intros j Hj Hin. apply (bn_mem _ _ _ _ B) in Hin as (k & Hk & _); [|done]. congruence. }
  assert (Hterr : forall a, self <= a < self + final + 16 -> ~ in_bins a).
  { intros a Ha Hb. apply (Hlay a Hb). exists self, final, true. done. }
  destruct (node_link_at _ _ _ _ B i p Hi Hpin) as [Lp16 _].
  assert (Ltail : link_at H (bin_tail i)) by (left; exists i; auto).
  destruct (chunk_tag_at _ H N Hok _ _ _ Hc) as [Tc8 Tcsz]. specialize (Tcsz Hp).
  pose proof (link_tag _ H N Hok _ _ Lp16 Tc8). pose proof (link_tag _ H N Hok _ _ Lp16 Tcsz).
  pose proof (link_tag _ H N Hok _ _ Ltail Tc8). pose proof (link_tag _ H N Hok _ _ Ltail Tcsz).
  assert (bin_tail i <> self + 16) by (intros Heq; apply (Hterr (bin_tail i)); [lia|done]).
  assert (bin_tail i <> self + 24) by (intros Heq; apply (Hterr (bin_tail i)); [lia|done]).
  assert (Hps : p <> self).
  { intros Heq. apply elem_of_cons in Hpin as [Hx|Hx]; [|by apply (Hfree i); [|rewrite <- Heq]].
    apply (Hterr (self + 16)); [lia|]. by rewrite <- Heq, Hx, Hz16. }
  assert (p + 16 <> self + 24).
  { apply elem_of_cons in Hpin as [Hx|Hx].
    - intros Heq. apply (Hterr (self + 24)); [lia|]. by rewrite <- Heq, Hx, Hz16.
    - apply (bn_mem _ _ _ _ B) in Hx as (k & Hk & _); [|done]. destruct (tg_chunk _ _ T _ _ _ Hk) as [_ ? _ _]. lia. }
  assert (p + 16 <> bin_tail i).
  { rewrite <- Hz24. apply (node_links _ _ _ _ _ T B Hlay i i); [done|done|done|by left]. }
  assert (D16 : is_Some (w !! (self + 16))) by (apply (tg_mapped _ _ T _ _ _ Hc); lia).
  assert (D24 : is_Some (w !! (self + 24))) by (apply (tg_mapped _ _ T _ _ _ Hc); lia).
  destruct (tg_next _ _ T _ _ _ Hc Hp) as [_ Wn]. pose proof (tg_csize _ _ T _ _ _ Hc) as Wc.
  unfold bin_append. chunk_unfold. repeat wp_step. apply wp_when_binmap.
  set (b' := if _ =? 0 then _ else _). repeat wp_step. rewrite Hz24. repeat wp_step.
  cbn [words heap_end]. set (w' := <[p + 16 := self]> _).
  assert (W1 : w' !! (self + 8) = Some final) by (unfold w'; look).
  assert (W2 : w' !! (self + final) = Some final) by (unfold w'; look).
  assert (W3 : w' !! (self + 16) = Some (BIN_TO_CHUNK i)) by (unfold w'; look).
  assert (W4 : w' !! (self + 24) = Some p) by (unfold w'; look).
  assert (W5 : w' !! bin_tail i = Some self) by (unfold w'; look).
  assert (W6 : w' !! (p + 16) = Some self) by (unfold w'; look).
  assert (Wk : forall a, a <> self + 8 -> a <> self + final -> a <> self + 16 -> a <> self + 24 ->
    a <> bin_tail i -> a <> p + 16 -> w' !! a = w !! a).
  { intros a ? ? ? ? ? ?. unfold w'. look. }
  assert (Wd : dom_le w w') by (unfold w'; repeat (etrans; [|apply dom_le_insert]); done).
  clearbody w'.
  assert (Hnl : forall a, link_at H a -> a <> self + 16 /\ a <> self + 24).
  { intros a [(j & Hj & Ha)|(c & k & Hk & Ha)].
    - destruct (bin_words j Hj). split; intros ->; [apply (Hterr (self + 16))|apply (Hterr (self + 24))];
        try lia; destruct Ha as [-> | ->]; done.
    - assert (c <> self) by congruence. destruct (tg_chunk _ _ T _ _ _ Hk) as [_ ? _ _]. lia. }
  assert (Hok' : heap_ok (mkMem w' b' e n) (<[self := (final, false)]> H) N).
  { split; cbn [words binmap heap_end].
    - apply (tags_retag w w' H T self final true Hc Hp). split; [done|done| |done].
      intros a Ha H1' H2'. pose proof (tag_at_mod _ _ T _ Ha).
      apply Wk; [done|done|lia|lia|..]; apply not_eq_sym; by apply (link_tag _ H N Hok).
    - eexists. eapply (bins_append w w b H L T B Hlay w' i Hi self final); try done.
      + intros a Ha H1' H2'. destruct (Hnl a Ha). apply Wk; try done; by apply (link_tag _ H N Hok).
      + intros d k. destruct (decide (self = d)) as [->|Hne].
        * rewrite lookup_insert_eq. split; [intros [= ->]; auto|]. intros [?|[_ ->]]; [congruence|done].
        * rewrite lookup_insert_ne by done. split; [auto|]. intros [?|[-> _]]; done.
      + apply set_bit_range; [apply B|done].
      + intros j Hj. apply set_bit; [apply B|done|lia].
    - intros a Ha Ht. apply (Hlay a Ha). by apply (territory_retag H self final true Hc) in Ht.
    - eapply maps_frame; [done| |intros a Ha; by apply (territory_retag H self final true Hc) in Ha].
      intros a Ht Hb. apply Wk; intros ->.
      + apply Ht. by eapply tag_at_territory.
      + apply Ht. by eapply tag_at_territory.
      + apply Ht. exists self, final, true. split; [done|lia].
      + apply Ht. exists self, final, true. split; [done|lia].
      + done.
      + by destruct (link_inside _ H N Hok _ Lp16).
    - destruct He as [?|He]; [by left|right]. rewrite lookup_insert_ne; [done|].
      intros Heq. rewrite <- Heq, Hc in He. injection He as ->. lia.
    - by eapply mapped_le. }
  split_and!; [done|done|].
  intros a Ha.
  assert (Ha1 : user_at H N a) by by eapply user_delete.
  assert (Ha2 : a <> self + 16 /\ a <> self + 24).
  { destruct Ha as [(d & k & Hd & Ha)|(d & k & Hd & Ha)].
    - apply lookup_delete_Some in Hd as [Hne Hd]. destruct (Z.lt_trichotomy self d) as [Hlt|[->|Hlt]]; [|done|].
      + pose proof (tg_apart _ _ T _ _ _ _ _ _ Hc Hd Hlt). lia.
      + pose proof (tg_apart _ _ T _ _ _ _ _ _ Hd Hc Hlt). lia.
    - destruct (mp_apart _ _ _ _ (ms_each _ _ _ Hms _ _ Hd) a) as [Ht _]; [lia|].
      split; intros ->; apply Ht; exists self, final, true; (split; [done|lia]). }
  destruct Ha2. apply Wk; try done; first [by apply (user_tag _ H N Hok)|by apply (user_link _ H N Hok)].
Qed.

(** ** Giving pages back *)

(** The inside of a chunk, away from its header and its end. *)
Lemma inside_free s H N c sz a :
  heap_ok s H N -> H !! c = Some (sz, false) -> c + 32 <= a < c + sz ->
  ~ tag_at H a /\ ~ link_at H a /\ territory H a.
Proof.
  intros Hok Hc Ha. destruct (id Hok) as [T _ Hlay _ _ _]. destruct (tg_chunk _ _ T _ _ _ Hc) as [[] Hca _ _].
  assert (Hout : forall d k u, H !! d = Some (k, u) -> d <> c -> d + k <= c /\ d < c \/ c + sz <= d).
  { intros d k u Hd Hne. destruct (Z.lt_trichotomy c d) as [Hlt|[->|Hlt]]; [|done|].
    - pose proof (tg_apart _ _ T _ _ _ _ _ _ Hc Hd Hlt). lia.
    - pose proof (tg_apart _ _ T _ _ _ _ _ _ Hd Hc Hlt). lia. }
  assert (Ht : territory H a) by (exists c, sz, false; split; [done|lia]).
  split_and!; [| |done].
  - intros Hta. assert (Hd : exists d k u, H !! d = Some (k, u) /\ (a = d \/ a = d + 8)).
    { destruct Hta as [[[k u] Hd]|[[k u] Hd]]; [exists a|exists (a - 8)]; exists k, u; (split; [done|lia]). }
    destruct Hd as (d & k & u & Hd & Had). destruct (decide (d = c)) as [->|Hne]; [lia|].
    destruct (tg_chunk _ _ T _ _ _ Hd) as [[] ? _ _]. destruct (Hout _ _ _ Hd Hne); lia.
  - intros [(j & Hj & Hla)|(d & k & Hd & Hla)].
    + destruct (bin_words j Hj). apply (Hlay a); [destruct Hla as [-> | ->]; done|done].
    + destruct (decide (d = c)) as [->|Hne]; [lia|]. destruct (free_chunk _ _ T _ _ Hd) as (? & ? & _).
      destruct (Hout _ _ _ Hd Hne); lia.
Qed.

Lemma reclaim_spec s H N self final :
  heap_ok s H N -> H !! self = Some (final, false) -> RECLAIM < final ->
  wp (reclaim_pages self (self + final)) (fun _ s' => heap_ok s' H N /\ heap_end s' = heap_end s /\
    data_kept (delete self H) N (words s) (words s')) s.
Proof.
  intros Hok Hc Hl. destruct (id Hok) as [T _ _ Hms _ _]. destruct (tg_chunk _ _ T _ _ _ Hc) as [Hsz Hca Hr _].
  destruct page_facts as [Hpg _]. destruct page_size as (k & Hk & Hpk).
  unfold reclaim_pages, RECLAIM, SIZE_ALIGN in *. rewrite Hpk in *.
  rewrite !land_mask by lia.
  set (a := self + 32 + 2 ^ k - 1 - (self + 32 + 2 ^ k - 1) mod 2 ^ k).
  set (b := self + final - 32 - (self + final - 32) mod 2 ^ k).
  assert (Ha : self + 32 <= a <= self + 32 + 2 ^ k) by (unfold a; pose proof (Z.mod_pos_bound (self + 32 + 2 ^ k - 1) (2 ^ k)); lia).
  assert (Hb : self + final - 32 - 2 ^ k <= b <= self + final - 32) by (unfold b; pose proof (Z.mod_pos_bound (self + final - 32) (2 ^ k)); lia).
  clearbody a b. rewrite u64_small by lia. apply wp_set.
  destruct (madvise_law (words s) a (b - a)) as [Hkept Hdom].
  assert (Hin : forall x, madvise_os (words s) a (b - a) !! x <> words s !! x -> self + 32 <= x < self + final).
  { intros x Hx. destruct (decide (a <= x < a + (b - a))); [lia|]. by rewrite Hkept in Hx. }
  split_and!; [|done|].
  - apply (heap_frame s); [done| |exact Hdom|done|done]. cbn. intros x Hx.
    destruct (decide (madvise_os (words s) a (b - a) !! x = words s !! x)) as [|Hne]; [done|].
    apply Hin in Hne. destruct (inside_free _ _ _ _ _ _ Hok Hc Hne). tauto.
  - cbn. intros x Hx. destruct (decide (madvise_os (words s) a (b - a) !! x = words s !! x)) as [|Hne]; [done|].
    apply Hin in Hne. exfalso. destruct Hx as [(d & n & Hd & Hx)|(d & n & Hd & Hx)].
    + apply lookup_delete_Some in Hd as [Hd1 Hd]. destruct (Z.lt_trichotomy self d) as [Hlt|[->|Hlt]]; [|done|].
      * pose proof (tg_apart _ _ T _ _ _ _ _ _ Hc Hd Hlt). lia.
      * pose proof (tg_apart _ _ T _ _ _ _ _ _ Hd Hc Hlt). lia.
    + destruct (mp_apart _ _ _ _ (ms_each _ _ _ Hms _ _ Hd) x) as [Ht _]; [lia|].
      apply Ht. exists self, final, false. split; [done|lia].
Qed.

(** ** The whole of [free], for a chunk of the heap *)

Definition freed (H : chunks) (N : gmap Z Z) (s : mem) (c : Z) (s' : mem) : Prop :=
  exists H', heap_ok s' H' N /\ coalesced H' /\ heap_end s' = heap_end s /\
    (forall d k, inuse_of H' d k <-> inuse_of H d k /\ d <> c) /\
    (forall a, user_at (delete c H) N a -> words s' !! a = words s !! a).

Lemma free_chunk_spec s H N c sz :
  heap_ok s H N -> coalesced H -> inuse_of H c sz ->
  wp (free (CHUNK_TO_MEM c)) (fun _ s' => freed H N s c s') s.
Proof.
  intros Hok Hco Hin. destruct (id Hin) as [Hc Hp]. destruct (id Hok) as [T _ _ _ _ _].
  destruct (tg_chunk _ _ T _ _ _ Hc) as [Hsz Hca Hcr _].
  destruct (tg_next _ _ T _ _ _ Hc Hp) as [_ Wn]. pose proof (tg_csize _ _ T _ _ _ Hc) as Wc.
  unfold free. replace (MEM_TO_CHUNK (CHUNK_TO_MEM c)) with c by (unfold MEM_TO_CHUNK, CHUNK_TO_MEM; lia).
  rewrite (proj2 (Z.eqb_neq (CHUNK_TO_MEM c) 0)) by (unfold CHUNK_TO_MEM, OVERHEAD; lia).
  unfold IS_MMAPPED, NEXT_CHUNK, CHUNK_SIZE, psize, csize.
  do 2 apply wp_bind. eapply wp_load; [exact Wc|]. apply wp_ret. rewrite tag_inuse by done. cbn [negb].
  do 2 apply wp_bind. eapply wp_load; [exact Wc|]. apply wp_ret. rewrite tag_untag by done.
  do 3 apply wp_bind. eapply wp_load; [exact Wc|]. apply wp_ret, wp_ret. rewrite tag_untag by done.
  apply wp_bind. eapply wp_load; [exact Wn|]. apply wp_bind. eapply wp_load; [exact Wc|].
  rewrite Z.eqb_refl. cbn [negb]. apply wp_bind.
  eapply wp_mono; [by apply (free_merge_spec s H N c sz)|].
  intros [[[[self nxt] final] reclaim] i] s1 (H' & Hab & -> & -> & Hrec & Hok1 & He1 & [m Hm] & Hno & Hd1 & L & B & Hl).
  pose proof (ab_pos _ _ _ _ _ Hab) as Hfp. pose proof (ab_new _ _ _ _ _ Hab) as Hnew.
  pose proof (bin_insert s1 H' N self final m L Hok1 Hnew Hfp Hm B Hl) as Hbi.
  do 4 (apply wp_bind_inv in Hbi; apply wp_bind; eapply wp_mono; [exact Hbi|]; clear Hbi; intros ? ? Hbi).
  apply wp_bind. eapply wp_mono; [exact Hbi|]. clear Hbi. intros [] s2 (Hok2 & He2 & Hd2).
  set (H2 := <[self := (final, false)]> H') in *.
  assert (Hco2 : coalesced H2).
  { intros d k m' v Hd Hn. destruct v; [done|]. unfold H2 in Hd, Hn.
    destruct (decide (self = d)) as [<-|Hne].
    - rewrite lookup_insert_eq in Hd. injection Hd as <-. rewrite lookup_insert_ne in Hn by lia. congruence.
    - rewrite lookup_insert_ne in Hd by done. destruct (decide (self = d + k)) as [Heq|Hne'].
      + exfalso. apply (Hno k). by replace (self - k) with d by lia.
      + rewrite lookup_insert_ne in Hn by done. exact (absorbed_coalesced _ _ _ _ _ Hab Hco _ _ _ _ Hd Hn). }
  assert (Hused : forall d k, inuse_of H2 d k <-> inuse_of H d k /\ d <> c).
  { intros d k. unfold inuse_of, H2. pose proof (ab_used _ _ _ _ _ Hab d k) as Hu. destruct (decide (self = d)) as [<-|Hne].
    - rewrite lookup_insert_eq. split; [intros [? _]; done|]. intros [[Hd Hk] Hne]. tauto.
    - rewrite lookup_insert_ne by done. assert (d <> self) by done. tauto. }
  assert (Hdata : forall a, user_at (delete c H) N a -> words s2 !! a = words s !! a).
  { intros x Hx. rewrite Hd2 by by eapply absorbed_data. by apply Hd1. }
  destruct reclaim; cbn [mwhen].
  - eapply wp_mono; [apply (reclaim_spec s2 H2 N); [done|by unfold H2; rewrite lookup_insert_eq|auto]|].
    intros [] s3 (Hok3 & He3 & Hd3). exists H2. split_and!; [done|done|congruence|done|].
    intros x Hx. rewrite Hd3; [by apply Hdata|]. unfold H2. rewrite delete_insert_eq. by eapply absorbed_data.
  - apply wp_skip. exists H2. split_and!; [done|done|congruence|done|done].
Qed.
End free.
