(* ===== verification/MallocCut.v ===== *)
(** * Cutting chunks

    The steps that split a chunk: [trim] gives the end of a chunk in use back,
    [pretrim] takes the front of a free one. *)

From Stdlib Require Import ZifyBool.
From stdpp Require Import base numbers gmap list.
From S2P Require Import Prelude Word StateMonad Malloc MallocArith MallocInv MallocOps MallocFree.

Local Open Scope Z_scope.
Ltac Zify.zify_post_hook ::= Z.to_euclidean_division_equations.

Section cut.
Context `{E : MallocEnv} `{!MallocLaws E}.

(** ** Cutting a chunk in use *)

Lemma split_ok s s' H N c sz n :
  heap_ok s H N -> H !! c = Some (sz, true) -> sized n -> 0 < n < sz ->
  words s' !! (c + 8) = Some (tag n true) -> words s' !! (c + n) = Some (tag n true) ->
  words s' !! (c + n + 8) = Some (tag (sz - n) true) -> words s' !! (c + sz) = Some (tag (sz - n) true) ->
  (forall a, a <> c + 8 -> a <> c + n -> a <> c + n + 8 -> a <> c + sz -> words s' !! a = words s !! a) ->
  dom_le (words s) (words s') -> binmap s' = binmap s -> heap_end s' = heap_end s ->
  heap_ok s' (split_at H c sz n true) N.
Proof.
  intros Hok Hc Hn Hlt R1 R2 R3 R4 Rk Rd Hb He. destruct (id Hok) as [T [L B] Hlay Hms Hend Hst].
  destruct (chunk_tag_at s H N Hok _ _ _ Hc) as [Tc8 Tcsz]. specialize (Tcsz ltac:(lia)).
  destruct (tg_chunk _ _ T _ _ _ Hc) as [[] Hca Hr _]. destruct (id Hn) as [_ Hn32].
  pose proof (territory_split H c sz n true true Hc Hn Hlt) as Hterr.
  assert (Hin : forall a, c <= a < c + sz + 16 -> territory H a) by (intros a Ha; by exists c, sz, true).
  assert (Hmid : forall a, tag_at H a -> a <> c + n /\ a <> c + n + 8).
  { intros a Ha. assert (Hd : exists d k u, H !! d = Some (k, u) /\ (a = d \/ a = d + 8)).
    { destruct Ha as [[[k u] Hd]|[[k u] Hd]]; [exists a|exists (a - 8)]; exists k, u; (split; [done|lia]). }
    destruct Hd as (d & k & u & Hd & Had). destruct (tg_chunk _ _ T _ _ _ Hd) as [_ Hda _ _].
    destruct (Z.lt_trichotomy c d) as [Hcd|[->|Hcd]]; [|lia|].
    - pose proof (tg_apart _ _ T _ _ _ _ _ _ Hc Hd Hcd). lia.
    - lia. }
  split.
  - apply (tags_split (words s) (words s') H T c sz n true true Hc Hn Hlt R1 R2 R3 R4); [|done].
    intros a Ha Hn1 Hn2. destruct (Hmid a Ha). by apply Rk.
  - exists L. rewrite Hb. apply (bins_same_free _ _ H).
    + intros d k. split.
      * intros Hd. unfold split_at. rewrite !lookup_insert_ne; [done| |].
        -- intros ->. congruence.
        -- intros Heq. pose proof (split_free (words s) H T c sz n true Hc Hlt) as Hf. rewrite Heq in Hf. congruence.
      * intros Hd. apply (split_lookup H c sz n true Hlt) in Hd as [(_ & _ & ?)|[(_ & _ & ?)|(_ & _ & ?)]]; done.
    + eapply bins_frame; [exact B|]. intros a Ha.
      apply Rk; [by eapply link_tag| | |by eapply link_tag].
      * intros ->. destruct Ha as [(i & Hi & Ha)|(d & k & Hd & Ha)].
        -- destruct (bin_words i Hi). apply (Hlay (c + n)); [destruct Ha as [-> | ->]; done|apply Hin; lia].
        -- destruct (tg_chunk _ _ T _ _ _ Hd) as [_ ? _ _]. lia.
      * intros ->. destruct Ha as [(i & Hi & Ha)|(d & k & Hd & Ha)].
        -- destruct (bin_words i Hi). apply (Hlay (c + n + 8)); [destruct Ha as [-> | ->]; done|apply Hin; lia].
        -- destruct (tg_chunk _ _ T _ _ _ Hd) as [_ ? _ _]. lia.
  - intros a Ha Ht. by apply (Hlay a Ha), Hterr.
  - eapply maps_frame; [done| |exact Hterr].
    intros a Ht Hbn. apply Rk; intros ->; apply Ht, Hin; lia.
  - rewrite He. destruct Hend as [?|Hend]; [by left|right].
    unfold split_at. rewrite !lookup_insert_ne; [done| |].
    + intros Heq. rewrite <- Heq, Hc in Hend. injection Hend as ->. lia.
    + intros Heq. pose proof (split_free (words s) H T c sz n true Hc Hlt) as Hf. rewrite Heq in Hf. congruence.
  - by eapply mapped_le.
Qed.

(** What [trim] and the search for a chunk do to a chunk taken: it is cut to
    [n] bytes. *)
Definition cut_to (H : chunks) (N : gmap Z Z) (s : mem) (c n : Z) (s' : mem) : Prop :=
  exists H', heap_ok s' H' N /\ coalesced H' /\ heap_end s' = heap_end s /\
    (forall d k, inuse_of H' d k <-> inuse_of H d k /\ d <> c \/ d = c /\ k = n) /\
    (forall a, user_at (delete c H) N a \/ c + 16 <= a < c + n -> words s' !! a = words s !! a).

Lemma trim_spec s H N c sz n :
  heap_ok s H N -> coalesced H -> inuse_of H c sz -> sized n -> 0 < n <= sz ->
  wp (trim c n) (fun _ s' => cut_to H N s c n s') s.
Proof.
  intros Hok Hco [Hc Hp] Hn Hle. destruct (id Hok) as [T _ Hlay Hms _ _].
  destruct (tg_chunk _ _ T _ _ _ Hc) as [Hsz Hca Hr _]. pose proof (tg_csize _ _ T _ _ _ Hc) as Wc.
  pose proof (chunk_size_min _ _ T _ _ _ Hc Hp) as H32.
  unfold trim. unfold CHUNK_SIZE at 1, csize. do 2 apply wp_bind. eapply wp_load; [exact Wc|]. apply wp_ret.
  rewrite tag_untag by done. unfold DONTCARE. destruct (id Hsz) as [Hs1 Hs2], (id Hn) as [Hn1 Hn2]. rewrite (u64_small (sz - 16)) by lia.
  destruct (n >=? sz - 16) eqn:Hge.
  { assert (n = sz) as -> by lia. apply wp_skip. exists H. split_and!; [done|done|done| |done].
    intros d k. unfold inuse_of. destruct (decide (d = c)) as [->|Hne]; [|naive_solver].
    split; [intros [Hd _]; right; split; congruence|]. intros [[_ ?]|[_ ->]]; done. }
  assert (Hlt : 0 < n < sz) by lia. unfold NEXT_CHUNK, CHUNK_SIZE, csize. do 3 apply wp_bind.
  eapply wp_load; [exact Wc|]. do 2 apply wp_ret. rewrite tag_untag by done.
  destruct s as [w b e en]. cbn [words binmap heap_end] in *.
  destruct (tg_next _ _ T _ _ _ Hc Hp) as [_ Wn].
  assert (D1 : is_Some (w !! (c + n))) by (apply (tg_mapped _ _ T _ _ _ Hc); lia).
  assert (D2 : is_Some (w !! (c + n + 8))) by (apply (tg_mapped _ _ T _ _ _ Hc); lia).
  rewrite u64_small by lia. unfold set_psize, set_csize. repeat wp_step.
  set (w' := <[c + 8 := _]> _).
  change (tagged n) with (tag n true) in w'. change (tagged (sz - n)) with (tag (sz - n) true) in w'.
  assert (W1 : w' !! (c + 8) = Some (tag n true)) by (unfold w'; look).
  assert (W2 : w' !! (c + n) = Some (tag n true)) by (unfold w'; look).
  assert (W3 : w' !! (c + n + 8) = Some (tag (sz - n) true)) by (unfold w'; look).
  assert (W4 : w' !! (c + sz) = Some (tag (sz - n) true)) by (unfold w'; look).
  assert (Wk : forall a, a <> c + 8 -> a <> c + n -> a <> c + n + 8 -> a <> c + sz -> w' !! a = w !! a).
  { intros a ? ? ? ?. unfold w'. look. }
  assert (Wd : dom_le w w') by (unfold w'; repeat (etrans; [|apply dom_le_insert]); done).
  clearbody w'.
  pose proof (split_ok _ (mkMem w' b e en) H N c sz n Hok Hc Hn Hlt W1 W2 W3 W4 Wk Wd eq_refl eq_refl) as Hok'.
  destruct (split_new H c sz n true Hlt) as [Hnew1 Hnew2].
  assert (Hco' : coalesced (split_at H c sz n true)).
  { intros d k m v Hd Hnx. apply (split_lookup H c sz n true Hlt) in Hd as [(_ & _ & ?)|[(_ & _ & ?)|(Hd1 & Hd2 & Hd)]]; [done..|].
    apply (split_lookup H c sz n true Hlt) in Hnx as [(_ & _ & ?)|[(_ & _ & ?)|(_ & _ & Hnx)]]; [done..|]. by eapply Hco. }
  eapply wp_mono; [apply (free_chunk_spec _ _ N (c + n) (sz - n) Hok' Hco'); split; [done|lia]|].
  intros [] s2 (H2 & Hok2 & Hco2 & He2 & Hu2 & Hd2). exists H2. split_and!; [done|done|done| |].
  - intros d k. rewrite Hu2. unfold inuse_of. split.
    + intros [[Hd Hk] Hne]. apply (split_lookup H c sz n true Hlt) in Hd as [(-> & -> & _)|[(-> & _)|(Hd1 & Hd2' & Hd)]];
        [by right|done|by left].
    + intros [[[Hd Hk] Hne]|[-> ->]]; [|split; [split; [done|lia]|lia]].
      assert (d <> c + n).
      { intros ->. pose proof (split_free w H T c sz n true Hc Hlt). congruence. }
      split; [|done]. split; [|done]. unfold split_at. by rewrite !lookup_insert_ne by done.
  - intros a Ha. rewrite Hd2.
    + cbn. destruct Ha as [Ha|Ha]; [|apply Wk; lia].
      assert (Ha1 : user_at H N a) by by eapply user_delete.
      destruct (chunk_tag_at _ H N Hok _ _ _ Hc) as [Tc8 Tcsz]. specialize (Tcsz Hp).
      assert (~ c <= a < c + sz).
      { destruct Ha as [(d & k & Hd & Ha)|(d & k & Hd & Ha)].
        - apply lookup_delete_Some in Hd as [Hne Hd]. destruct (Z.lt_trichotomy c d) as [Hcd|[->|Hcd]]; [|done|].
          + pose proof (tg_apart _ _ T _ _ _ _ _ _ Hc Hd Hcd). lia.
          + pose proof (tg_apart _ _ T _ _ _ _ _ _ Hd Hc Hcd). lia.
        - destruct (mp_apart _ _ _ _ (ms_each _ _ _ Hms _ _ Hd) a) as [Ht _]; [lia|].
          intros Hin. apply Ht. exists c, sz, true. split; [done|lia]. }
      apply Wk; [lia|lia|lia|by apply (user_tag _ H N Hok)].
    + destruct Ha as [[(d & k & [Hne Hd]%lookup_delete_Some & Ha)|Ha]|Ha]; [left|by right|left].
      * exists d, k. split; [|done].
        assert (d <> c + n) by (intros ->; pose proof (split_free w H T c sz n true Hc Hlt); congruence).
        unfold split_at. by rewrite lookup_delete_ne, !lookup_insert_ne by done.
      * exists c, n. split; [|done]. rewrite lookup_delete_ne by lia. done.
Qed.

(** ** Cutting a free chunk *)

(** When [pretrim] goes ahead, the rest is not empty. *)
Lemma pretrim_sizes n n1 :
  sized n -> sized n1 -> 0 < n <= MMAP_THRESHOLD -> 0 < n1 -> bin_index_up n <= bin_index n1 ->
  (bin_index n1 <? bin_index_up n + 3) && (u64 (n1 - n) <=? MMAP_THRESHOLD) = false ->
  bin_index (u64 (n1 - n)) = bin_index n1 -> 0 < n < n1 /\ u64 (n1 - n) = n1 - n /\ sized (n1 - n).
Proof.
  intros Hn Hn1 Hr Hp Hle Hg Hb. pose proof (bin_fits n n1 Hn Hn1 Hp Hr Hle) as Hfit.
  destruct (bin_index_up_range n Hn Hr). destruct (id Hn) as [Hn' _], (id Hn1) as [Hn1' _].
  rewrite u64_small in Hg, Hb |- * by lia. destruct (decide (n1 = n)) as [->|Hne].
  - exfalso. rewrite Z.sub_diag in Hg. apply andb_false_iff in Hg as [Hg|Hg]; unfold MMAP_THRESHOLD, SIZE_ALIGN in Hg; lia.
  - split_and!; [lia|lia|done|]. apply sized_sub; [done..|lia].
Qed.

(** The guards of [pretrim], and the memory after the cut: the tags of both
    parts, and the links of the rest in the place of the whole. *)
Definition pretrim_skips (n n1 i j : Z) : bool :=
  (j <? 40) || (j <? i + 3) && negb (j =? 63) || (j <? i + 3) && (u64 (n1 - n) <=? MMAP_THRESHOLD) ||
  negb (bin_index (u64 (n1 - n)) =? j).

Record pretrimmed (w w' : gmap Z Z) (c n n1 j q : Z) : Prop := {
  pt_csize : w' !! (c + 8) = Some (tag n true);
  pt_split : w' !! (c + n) = Some (tag n true) /\ w' !! (c + n + 8) = Some (n1 - n);
  pt_next : w' !! (c + n1) = Some (n1 - n);
  pt_links : w' !! (c + n + 16) = Some q /\ w' !! (c + n + 24) = Some (BIN_TO_CHUNK j);
  pt_ends : w' !! bin_head j = Some (c + n) /\ w' !! (q + 24) = Some (c + n);
  pt_kept : forall a, a <> c + 8 -> ~ c + n <= a < c + n + 32 -> a <> c + n1 -> a <> bin_head j -> a <> q + 24 -> w' !! a = w !! a;
  pt_dom : dom_le w w';
}.

Lemma pretrim_skip s c n n1 i j (Q : bool -> mem -> Prop) :
  words s !! (c + 8) = Some n1 -> sized n1 -> pretrim_skips n n1 i j = true -> Q false s -> wp (pretrim c n i j) Q s.
Proof.
  intros Wc Hn1 Hg HQ. pose proof (tag_untag n1 Hn1 false : untag n1 = n1) as Hun. unfold pretrim. unfold pretrim_skips in Hg.
  destruct (j <? 40); [by apply wp_ret|]. destruct (_ && negb _); [by apply wp_ret|].
  unfold CHUNK_SIZE at 1, csize. do 2 apply wp_bind. eapply wp_load; [exact Wc|]. apply wp_ret.
  rewrite Hun. cbn [orb] in Hg. apply orb_prop in Hg as [-> | ->]; [by apply wp_ret|].
  destruct (_ && _); by apply wp_ret.
Qed.

Lemma pretrim_writes w b e en c n n1 i j q :
  32 <= n -> n + 32 <= n1 -> sized n1 -> u64 (n1 - n) = n1 - n -> pretrim_skips n n1 i j = false ->
  w !! (c + 8) = Some n1 -> w !! (c + 16) = Some q -> w !! (c + 24) = Some (BIN_TO_CHUNK j) ->
  (forall a, a ∈ [c + n; c + n + 8; c + n + 16; c + n + 24; c + n1; bin_head j; q + 24] -> is_Some (w !! a)) ->
  (forall a, c <= a < c + n1 + 16 -> bin_head j <> a) ->
  (forall a, a ∈ [c + 8; c + n; c + n + 8; c + n + 16; c + n + 24; c + n1; bin_head j] -> q + 24 <> a) ->
  wp (pretrim c n i j) (fun r s' => r = true /\ exists w', s' = mkMem w' b e en /\ pretrimmed w w' c n n1 j q) (mkMem w b e en).
Proof.
  intros Hn Hle Hn1 Hu Hg Wc Wq Wb HD Hh Hq. pose proof (tag_untag n1 Hn1 false : untag n1 = n1) as Hun. destruct (bin_chunk_links j) as [Hz16 _].
  apply orb_false_elim in Hg as [Hg1 Hg4]. apply orb_false_elim in Hg1 as [Hg1 Hg3]. apply orb_false_elim in Hg1 as [Hg1 Hg2].
  assert (D : forall P : Z -> Prop, (forall a, a ∈ [c + n; c + n + 8; c + n + 16; c + n + 24; c + n1; bin_head j; q + 24] -> P a) ->
    P (c + n) /\ P (c + n + 8) /\ P (c + n + 16) /\ P (c + n + 24) /\ P (c + n1) /\ P (bin_head j) /\ P (q + 24)).
  { intros P HP. split_and!; apply HP; rewrite !elem_of_cons; tauto. }
  apply D in HD as (D1 & D2 & D3 & D4 & D5 & D6 & D7). clear D.
  assert (Hq8 : q + 24 <> c + 8) by (apply Hq; rewrite !elem_of_cons; tauto).
  assert (Hqn : q + 24 <> c + n) by (apply Hq; rewrite !elem_of_cons; tauto).
  assert (Hqn8 : q + 24 <> c + n + 8) by (apply Hq; rewrite !elem_of_cons; tauto).
  assert (Hqn16 : q + 24 <> c + n + 16) by (apply Hq; rewrite !elem_of_cons; tauto).
  assert (Hqn24 : q + 24 <> c + n + 24) by (apply Hq; rewrite !elem_of_cons; tauto).
  assert (Hqn1 : q + 24 <> c + n1) by (apply Hq; rewrite !elem_of_cons; tauto).
  assert (Hqb : q + 24 <> bin_head j) by (apply Hq; rewrite !elem_of_cons; tauto). clear Hq.
  pose proof (Hh (c + 8) ltac:(lia)) as Hb0. pose proof (Hh (c + n) ltac:(lia)) as Hb1. pose proof (Hh (c + n + 8) ltac:(lia)) as Hb2. pose proof (Hh (c + n + 16) ltac:(lia)) as Hb3.
  pose proof (Hh (c + n + 24) ltac:(lia)) as Hb4. pose proof (Hh (c + n1) ltac:(lia)) as Hb5. clear Hh.
  unfold pretrim. rewrite Hg1, Hg2. chunk_unfold. repeat wp_step. rewrite Hun, Hg3, Hg4, Hu.
  repeat wp_step. rewrite Hun. repeat wp_step. rewrite Hz16. repeat wp_step.
  split; [done|]. eexists. split; [done|]. clear - Hn Hle Hq8 Hqn Hqn8 Hqn16 Hqn24 Hqn1 Hqb Hb0 Hb1 Hb2 Hb3 Hb4 Hb5.
  split; [look|split; look|look|split; look|split; look| |].
  - intros a H1 H2 H3 H4 H5.
    assert (a <> c + n /\ a <> c + n + 8 /\ a <> c + n + 16 /\ a <> c + n + 24) as (H6 & H7 & H8 & H9) by (clear - H2; lia).
    clear - H1 H3 H4 H5 H6 H7 H8 H9. rewrite !lookup_insert_ne by (apply not_eq_sym; assumption). done.
  - repeat (etrans; [|apply dom_le_insert]). done.
Qed.
Lemma pretrim_spec s H N L c l2 n n1 :
  let j := bin_index n1 in
  heap_ok s H N -> bins_ok (words s) (binmap s) H L -> L j = c :: l2 -> H !! c = Some (n1, false) ->
  sized n -> 0 < n <= MMAP_THRESHOLD -> bin_index_up n <= j ->
  wp (pretrim c n (bin_index_up n) j) (fun r s' =>
    if r then 0 < n < n1 /\ heap_ok s' (split_at H c n1 n false) N /\ heap_end s' = heap_end s /\
              data_kept H N (words s) (words s')
    else s' = s) s.
Proof.
  intros j Hok B HL Hc Hn Hr Hj. destruct (id Hok) as [T _ Hlay Hms Hend Hst].
  destruct (free_chunk _ _ T _ _ Hc) as (Hca & H32 & Hn1 & Hjr). fold j in Hjr.
  destruct (tg_chunk _ _ T _ _ _ Hc) as [_ _ Hcr _]. pose proof (tg_csize _ _ T _ _ _ Hc) as Wc.
  destruct (pretrim_skips n n1 (bin_index_up n) j) eqn:Hg; [by eapply pretrim_skip|].
  destruct (pretrim_sizes n n1 Hn Hn1 Hr ltac:(lia) Hj) as (Hlt & Hu & Hrest).
  { by apply orb_false_elim in Hg as [[_ Hg]%orb_false_elim _]. }
  { apply orb_false_elim in Hg as [_ Hg]. apply negb_false_iff in Hg. lia. }
  assert (n + 32 <= n1) by (destruct Hrest; lia).
  destruct (id Hn) as [Hn' Hn32]. destruct (bin_chunk_links j) as [Hz16 Hz24]. destruct (bin_words j Hjr) as [Wh Wt].
  assert (Hcin : c ∈ L j) by (rewrite HL; by left).
  pose proof (bin_linked _ _ _ _ B j c Hjr Hcin) as Hl. rewrite HL in Hl. cbn [linked] in Hl.
  destruct Hl as (Hhead & Hprev & Hl). destruct (linked_first _ _ _ _ Hl) as [Hnext Hqp].
  set (q := first_node l2 (BIN_TO_CHUNK j)) in *.
  assert (Hq : q = BIN_TO_CHUNK j \/ q ∈ l2).
  { pose proof (first_node_in l2 (BIN_TO_CHUNK j)) as [?|Hx]%elem_of_app; [by right|left]. by apply list_elem_of_singleton in Hx. }
  assert (Hqn : q ∈ nodes_of L j).
  { unfold nodes_of. rewrite HL. destruct Hq as [->|Hq]; [by left|]. right. by right. }
  destruct (node_link_at _ _ _ _ B j q Hjr Hqn) as [_ Lq24].
  assert (Lhead : link_at H (bin_head j)) by (left; exists j; auto).
  assert (Hfree : forall u, H !! (c + n) <> Some u).
  { intros u. rewrite (split_free (words s) H T c n1 n false Hc Hlt). done. }
  assert (Hterr : forall a, c <= a < c + n1 + 16 -> ~ in_bins a).
  { intros a Ha Hb'. apply (Hlay a Hb'). by exists c, n1, false. }
  assert (Hq24 : q + 24 = bin_tail j \/ (q + 24) mod 32 = 8 /\ q <> c + n).
  { destruct Hq as [->|Hq]; [by left|right]. assert (Hq' : q ∈ L j) by (rewrite HL; by right).
    apply (bn_mem _ _ _ _ B) in Hq' as (k & Hk & _); [|done]. destruct (tg_chunk _ _ T _ _ _ Hk) as [_ ? _ _].
    split; [lia|]. intros He. rewrite He in Hk. by eapply Hfree. }
  assert (Hin24 : forall a, c + n <= a < c + n + 32 -> a <> c + n + 24 -> q + 24 <> a).
  { intros a Ha Hne Heq. destruct Hq24 as [He|[He _]]; [|lia]. apply (Hterr a); [lia|]. by rewrite <- Heq, He. }
  assert (Hq1 : q + 24 <> c + n + 24) by (destruct Hq24 as [He|[_ He]]; [intros Hx; apply (Hterr (bin_tail j)); [lia|done]|lia]).
  assert (Hh : forall a, c <= a < c + n1 + 16 -> bin_head j <> a) by (intros a Ha Heq; apply (Hterr _ Ha); by rewrite <- Heq).
  destruct (chunk_tag_at _ H N Hok _ _ _ Hc) as [Tc8 Tcsz]. specialize (Tcsz ltac:(lia)).
  pose proof (link_tag _ H N Hok _ _ Lq24 Tc8). pose proof (link_tag _ H N Hok _ _ Lq24 Tcsz).
  assert (bin_head j <> q + 24).
  { rewrite <- Hz16. apply (node_links _ _ _ _ _ T B Hlay j j); [done|done|by left|done]. }
  destruct (tg_next _ _ T _ _ _ Hc) as [_ Wn]; [lia|].
  assert (D : forall x, c <= x < c + n1 -> x mod 8 = 0 -> is_Some (words s !! x)) by apply (tg_mapped _ _ T _ _ _ Hc).
  destruct s as [w b e en]. cbn [words binmap heap_end] in *. rewrite Hz16 in Hhead.
  eapply wp_mono; [eapply (pretrim_writes w b e en c n n1 (bin_index_up n) j q); try done|].
  { destruct Hn; lia. }
  { intros a. rewrite !elem_of_cons, elem_of_nil.
    intros [->|[->|[->|[->|[->|[->|[->|[]]]]]]]]; [apply D; lia..|by eexists|by eexists|by eexists]. }
  { intros a. rewrite !elem_of_cons, elem_of_nil.
    intros [->|[->|[->|[->|[->|[->|[->|[]]]]]]]]; try done; apply Hin24; lia. }
  intros r s' (-> & w' & -> & [P1 [P2 P3] P4 [P5 P6] [P7 P8] Pk Pd]).
  destruct (split_new H c n1 n false Hlt) as [Hnew1 Hnew2].
  pose proof (territory_split H c n1 n false false Hc Hn Hlt) as Hterr'.
  assert (Htag : forall a, tag_at H a -> ~ c + n <= a < c + n + 32 /\ a <> bin_head j /\ a <> q + 24).
  { intros a Ha. split_and!; [|by apply not_eq_sym, (link_tag _ H N Hok)..]. intros Hran.
    assert (Hd : exists d k u, H !! d = Some (k, u) /\ (a = d \/ a = d + 8)).
    { destruct Ha as [[[k u] Hd]|[[k u] Hd]]; [exists a|exists (a - 8)]; exists k, u; (split; [done|lia]). }
    destruct Hd as (d & k & u & Hd & Had). destruct (decide (d = c)) as [->|Hne]; [lia|].
    destruct (tg_chunk _ _ T _ _ _ Hd) as [[] Hda _ _]. destruct (Z.lt_trichotomy c d) as [Hcd|[->|Hcd]]; [|done|].
    - pose proof (tg_apart _ _ T _ _ _ _ _ _ Hc Hd Hcd). lia.
    - pose proof (tg_apart _ _ T _ _ _ _ _ _ Hd Hc Hcd). lia. }
  assert (Hlink : forall a, link_at H a -> ~ c + n <= a < c + n + 32).
  { intros a Ha Hran. destruct Ha as [(i & Hi & Ha)|(d & k & Hd & Ha)].
    - destruct (bin_words i Hi). apply (Hterr a); [lia|]. destruct Ha as [-> | ->]; done.
    - destruct (decide (d = c)) as [->|Hne]; [lia|]. destruct (free_chunk _ _ T _ _ Hd) as (? & ? & _).
      destruct (Z.lt_trichotomy c d) as [Hcd|[->|Hcd]]; [|done|].
      + pose proof (tg_apart _ _ T _ _ _ _ _ _ Hc Hd Hcd). lia.
      + pose proof (tg_apart _ _ T _ _ _ _ _ _ Hd Hc Hcd). lia. }
  split_and!; [lia|lia| |done|].
  - split; cbn [words binmap heap_end].
    + apply (tags_split w w' H T c n1 n false false Hc Hn Hlt P1 P2 P3 P4); [|done].
      intros a Ha Hx1 Hx2. destruct (Htag a Ha) as (? & ? & ?). by apply Pk.
    + eexists. eapply (bins_replace w w b H L T B Hlay w' j Hjr c (c + n) l2 (n1 - n)); try done.
      * apply orb_false_elim in Hg as [_ Hg]. apply negb_false_iff, Z.eqb_eq in Hg. by rewrite Hu in Hg.
      * intros i Hi Hin. apply (bn_mem _ _ _ _ B) in Hin as (k & Hk & _); [|done]. by eapply Hfree.
      * intros a Ha Hx1 Hx2. apply Pk; [by apply (link_tag _ H N Hok)|by apply Hlink|by apply (link_tag _ H N Hok)|done|done].
      * intros d k. split.
        -- intros Hd. apply (split_lookup H c n1 n false Hlt) in Hd as [(_ & _ & ?)|[(-> & -> & _)|(? & ? & ?)]];
             [done|by right|by left].
        -- intros [[Hd Hne]|[-> ->]]; [|done]. unfold split_at. rewrite !lookup_insert_ne; [done|by apply not_eq_sym|].
           intros Heq. rewrite <- Heq in Hd. by eapply Hfree.
    + intros a Ha Ht. by apply (Hlay a Ha), Hterr'.
    + eapply maps_frame; [done| |exact Hterr'].
      intros a Ht Hbn. apply Pk.
      * intros ->. by eapply Ht, tag_at_territory.
      * intros Ha. apply Ht. exists c, n1, false. split; [done|lia].
      * intros ->. by eapply Ht, tag_at_territory.
      * intros ->. done.
      * intros ->. by destruct (link_inside _ H N Hok _ Lq24).
    + destruct Hend as [?|Hend]; [by left|right].
      unfold split_at. rewrite !lookup_insert_ne; [done| |].
      * intros Heq. rewrite <- Heq, Hc in Hend. congruence.
      * intros Heq. rewrite <- Heq in Hend. by eapply Hfree.
    + by eapply mapped_le.
  - intros a Ha. cbn. apply Pk.
    + by apply (user_tag _ H N Hok).
    + intros Hran. destruct Ha as [(d & k & Hd & Ha)|(d & k & Hd & Ha)].
      * destruct (Z.lt_trichotomy c d) as [Hcd|[->|Hcd]]; [|congruence|].
        -- pose proof (tg_apart _ _ T _ _ _ _ _ _ Hc Hd Hcd). lia.
        -- pose proof (tg_apart _ _ T _ _ _ _ _ _ Hd Hc Hcd). lia.
      * destruct (mp_apart _ _ _ _ (ms_each _ _ _ Hms _ _ Hd) a) as [Ht _]; [lia|].
        apply Ht. exists c, n1, false. split; [done|lia].
    + by apply (user_tag _ H N Hok).
    + by apply (user_link _ H N Hok).
    + by apply (user_link _ H N Hok).
Qed.
End cut.
