(* ===== verification/MallocGrow.v ===== *)
(** * Growing the heap and finding a chunk *)

From Stdlib Require Import ZifyBool.
From stdpp Require Import base numbers gmap list.
From S2P Require Import Prelude Word StateMonad Malloc MallocArith MallocInv MallocOps MallocFree MallocCut.

Local Open Scope Z_scope.
Ltac Zify.zify_post_hook ::= Z.to_euclidean_division_equations.

Section grow.
Context `{E : MallocEnv} `{!MallocLaws E}.

(** ** New memory lies apart from everything known *)

Lemma page_divides x : x mod PAGE_SIZE = 0 -> x mod 32 = 0.
Proof. intros Hx. destruct page_facts as [_ Hm]. apply Hm in Hx. lia. Qed.

Lemma mapped_apart w w1 p n x k a :
  provides w w1 p n -> x mod 8 = 0 -> mapped w x k -> x <= a < x + k -> ~ p <= a < p + n.
Proof.
  intros [V1 V2 _ Vf _ _] Hx Hm Ha Hp. apply page_divides in V1.
  destruct (Hm (a - a mod 8)) as [v Hv]; [lia|lia|]. rewrite Vf in Hv by lia. done.
Qed.

Lemma provides_dom w w1 p n : provides w w1 p n -> dom_le w w1.
Proof.
  intros [_ _ _ Vf _ Vk] a [v Hv]. destruct (decide (p <= a < p + n)); [|rewrite Vk by done; eauto].
  rewrite Vf in Hv by done. done.
Qed.

Section new.
Context (s : mem) (H : chunks) (N : gmap Z Z) (Hok : heap_ok s H N).
Context (w1 : gmap Z Z) (p n : Z) (V : provides (words s) w1 p n).

Lemma bins_not_new a : in_bins a -> ~ p <= a < p + n.
Proof.
  intros Ha. destruct bins_address as [_ Hb]. eapply mapped_apart; [exact V| |exact (hp_static _ _ _ Hok)|exact Ha]. lia.
Qed.

Lemma mapping_not_new c sz a : N !! c = Some sz -> c - 16 <= a < c + sz -> ~ p <= a < p + n.
Proof.
  intros Hc Ha. destruct (ms_each _ _ _ (hp_maps _ _ _ Hok) _ _ Hc) as [[P1 _] _ _ _ Pm _].
  apply page_divides in P1. eapply mapped_apart; [exact V| |exact Pm|]; lia.
Qed.

Lemma chunk_not_new c sz u a : H !! c = Some (sz, u) -> c <= a < c + sz \/ a = c \/ a = c + 8 -> ~ p <= a < p + n.
Proof.
  intros Hc Ha Hp. destruct Hok as [T _ _ _ _ _]. destruct (tg_chunk _ _ T _ _ _ Hc) as [_ Hca _ _].
  destruct Ha as [Ha|[->| ->]].
  - eapply mapped_apart; [exact V| |apply (tg_mapped _ _ T _ _ _ Hc)|exact Ha|exact Hp]. lia.
  - destruct (psize_mapped _ _ T _ _ _ Hc) as [v Hv]. rewrite (pv_fresh _ _ _ _ V) in Hv by done. done.
  - pose proof (tg_csize _ _ T _ _ _ Hc) as Hv. rewrite (pv_fresh _ _ _ _ V) in Hv by done. done.
Qed.

Lemma territory_not_new a : territory H a -> ~ p <= a < p + n.
Proof.
  intros (c & sz & u & Hc & Ha) Hp. destruct (id Hok) as [T _ _ _ _ _]. destruct (tg_chunk _ _ T _ _ _ Hc) as [[] Hca _ _].
  destruct (decide (a < c + sz)); [by apply (chunk_not_new _ _ _ a Hc); [lia|]|].
  assert (Hd : exists d k v, H !! d = Some (k, v) /\ d <= a < d + 16).
  { destruct (decide (sz = 0)) as [->|]; [exists c, 0, u; split; [done|lia]|].
    destruct (tg_next _ _ T _ _ _ Hc) as [[[k v] Hd] _]; [lia|]. exists (c + sz), k, v. split; [done|lia]. }
  destruct Hd as (d & k & v & Hd & Had). destruct (tg_chunk _ _ T _ _ _ Hd) as [_ Hda _ _].
  destruct V as [V1 _ _ _ _ _]. apply page_divides in V1.
  apply (chunk_not_new _ _ _ (a - a mod 8) Hd); lia.
Qed.

Lemma tag_not_new a : tag_at H a -> ~ p <= a < p + n.
Proof. intros [[[k u] Ha]|[[k u] Ha]]; eapply chunk_not_new; [exact Ha|lia|exact Ha|lia]. Qed.

Lemma link_not_new a : link_at H a -> ~ p <= a < p + n.
Proof.
  intros [(i & Hi & Ha)|(c & sz & Hc & Ha)].
  - destruct (bin_words i Hi). apply bins_not_new. destruct Ha as [-> | ->]; done.
  - destruct (free_chunk _ _ (hp_tags _ _ _ Hok) _ _ Hc) as (_ & ? & _). eapply chunk_not_new; [exact Hc|lia].
Qed.

Lemma user_not_new a : user_at H N a -> ~ p <= a < p + n.
Proof.
  intros [(c & sz & Hc & Ha)|(c & sz & Hc & Ha)]; [eapply chunk_not_new|eapply mapping_not_new]; try exact Hc; lia.
Qed.

(** The heap with the new memory: a chunk of its own, or the last, empty
    chunk of the heap grown. *)
Definition grown_chunk (s' : mem) (c m : Z) : Prop :=
  H !! c = Some (0, true) /\ c = p - 16 /\ m = n \/
  c = p + 16 /\ m = n - 32 /\ words s' !! c = Some (tagged 0).

Lemma grown_new s' c m : grown_chunk s' c m -> 0 < m -> H !! c = Some (0, true) \/ H !! c = None.
Proof.
  intros [[? _]|(-> & -> & _)] Hm; [by left|right]. destruct (H !! (p + 16)) as [[k u]|] eqn:He; [|done].
  exfalso. eapply chunk_not_new; [exact He|right; by left|lia].
Qed.

Lemma grown_apart s' c m : grown_chunk s' c m -> 0 < m ->
  forall d k y, H !! d = Some (k, y) -> d <> c -> d < c /\ d + k <= c \/ c + m < d.
Proof.
  intros Hg Hm d k y Hd Hne. pose proof (chunk_not_new d k y d Hd ltac:(lia)). destruct (id Hok) as [T _ _ _ _ _].
  destruct (id V) as [V1 V2 _ _ _ _]. apply page_divides in V1, V2. destruct (tg_chunk _ _ T _ _ _ Hd) as [[] Hda _ _].
  destruct (decide (c < d)); [right; destruct Hg as [(_ & ? & ?)|(? & ? & _)]; lia|left; split; [lia|]].
  destruct Hg as [(Hc & _)|(-> & ? & _)].
  - apply (tg_apart _ _ T _ _ _ _ _ _ Hd Hc). lia.
  - destruct (decide (d + k <= p + 16)); [done|]. destruct (chunk_not_new d k y (p + 16) Hd ltac:(lia)). lia.
Qed.

Lemma extend_ok s' c m :
  grown_chunk s' c m -> 0 < m ->
  words s' !! (c + 8) = Some (tag m true) -> words s' !! (c + m) = Some (tag m true) ->
  words s' !! (c + m + 8) = Some (tag 0 true) ->
  (forall a, a <> c + 8 -> ~ p <= a < p + n -> words s' !! a = words s !! a) ->
  dom_le w1 (words s') -> binmap s' = binmap s -> heap_end s' = c + m + 16 ->
  heap_ok s' (extended H c m) N /\ data_kept H N (words s) (words s').
Proof.
  intros Hg Hm R1 R2 R3 Rk Rd Hb He. destruct (id Hok) as [T [L B] Hlay Hms Hend Hst]. destruct (id V) as [V1 V2 V3 Vf Vm Vk].
  apply page_divides in V1 as V1', V2 as V2'.
  assert (Hreg : c + 16 = p /\ c + m + 16 = p + n \/ c = p + 16 /\ c + m + 16 = p + n) by (destruct Hg as [?|?]; lia).
  assert (Hsized : sized m /\ c mod 32 = 16 /\ 0 < c /\ c + m < 2 ^ 63).
  { unfold sized. destruct Hg as [(Hc & -> & ->)|(-> & -> & _)]; [|lia].
    destruct (tg_chunk _ _ T _ _ _ Hc) as [_ ? ? _]. lia. }
  destruct Hsized as (Hs & Hca & Hr).
  pose proof (grown_apart s' c m Hg Hm) as Hnew.
  assert (Hc8 : forall a, a = c + 8 -> tag_at H a \/ p <= a < p + n).
  { intros a ->. destruct Hg as [(Hc & _)|?]; [left; right|right; lia]. replace (c + 8 - 8) with c by lia. eauto. }
  assert (Hkt : forall a, tag_at H a -> a <> c + 8 -> words s' !! a = words s !! a).
  { intros a Ha Hne. apply Rk; [done|]. by apply tag_not_new. }
  assert (Hko : forall a, ~ tag_at H a -> ~ p <= a < p + n -> words s' !! a = words s !! a).
  { intros a Ha Hne. apply Rk; [|done]. intros Heq. by destruct (Hc8 a Heq). }
  assert (Hterr : forall a, territory (extended H c m) a -> territory H a \/ p <= a < p + n).
  { intros a Ha. apply (territory_extended H c m Hm) in Ha as [Ha|Ha]; [by left|]. destruct Hg as [(Hc & -> & ->)|(-> & -> & _)]; [|right; lia].
    destruct (decide (p <= a)); [right; lia|left]. exists (p - 16), 0, true. split; [done|lia]. }
  assert (Hhc : H !! c = Some (0, true) \/ H !! c = None /\ words s' !! c = Some (tagged 0)).
  { destruct (grown_new s' c m Hg Hm); [by left|]. destruct Hg as [(Hc & _)|(_ & _ & Hc)]; auto. }
  split; [split|].
  - apply (tags_extend (words s) (words s') H T c m Hm Hs Hca Hr Hhc Hnew R1 R2 R3); [|exact Hkt|].
    + intros a Ha Ha8. destruct (decide (p <= a < p + n)); [apply Rd, Vm; [done|done]|].
      destruct Hg as [(Hc & -> & ->)|(-> & -> & _)]; [|lia].
      assert (a = p - 16 \/ a = p - 16 + 8) as [-> | ->] by lia; [|by eexists].
      rewrite Hkt; [by eapply (psize_mapped _ _ T)|left; eauto|lia].
    + etrans; [|exact Rd]. by eapply provides_dom.
  - exists L. rewrite Hb. apply (bins_same_free _ _ H).
    + intros d k. split; [intros Hd; apply (extended_old H c m Hm Hnew); [done|]; intros ->; destruct Hhc as [?|[? _]]; congruence|].
      intros [(_ & _ & ?)|[(_ & _ & ?)|(_ & _ & ?)]]%extended_lookup; done.
    + eapply bins_frame; [exact B|]. intros a Ha. apply Hko; [|by apply link_not_new].
      intros Ht. by apply (link_tag _ H N Hok a a).
  - intros a Ha [Ht|Ht]%Hterr; [by apply (Hlay a)|by apply (bins_not_new a)].
  - split; [|apply Hms]. intros d k Hd. destruct (ms_each _ _ _ Hms d k Hd) as [P1 P2 P3 P4 P5 P6].
    assert (Hk : forall a, d - 16 <= a < d + k -> words s' !! a = words s !! a).
    { intros a Ha. apply Hko; [|by eapply mapping_not_new]. intros Ht. destruct (P6 a Ha) as [Hx _].
      by eapply Hx, tag_at_territory. }
    destruct P1 as [P1 P1']. apply page_divides in P1' as P1s. destruct page_facts as [Hpg Hpg'].
    apply Hpg' in P1' as P4096. split; try done.
    + by rewrite Hk by lia.
    + by rewrite Hk by lia.
    + intros a Ha Ha8. rewrite Hk by lia. by apply P5.
    + intros a Ha. destruct (P6 a Ha). split; [|done]. intros [?|?]%Hterr; [done|]. by eapply mapping_not_new.
  - right. rewrite He. replace (c + m + 16 - 16) with (c + m) by lia. by apply extended_new.
  - intros a Ha Ha8. rewrite Hko; [by apply Hst| |by apply bins_not_new].
    intros Ht. apply (Hlay a Ha). by eapply tag_at_territory.
  - intros a Ha. apply Hko; [|by apply user_not_new]. intros Ht. by apply (user_tag _ H N Hok a a).
Qed.
End new.

(** ** Growing the heap *)

Definition grown (H : chunks) (N : gmap Z Z) (s : mem) (n c : Z) (s' : mem) : Prop :=
  exists m, n <= m /\ 0 < m /\ (H !! c = Some (0, true) \/ H !! c = None) /\
    (forall d k y, H !! d = Some (k, y) -> d <> c -> d < c /\ d + k <= c \/ c + m < d) /\
    heap_ok s' (extended H c m) N /\ data_kept H N (words s) (words s').

Lemma expand_heap_spec s H N n :
  heap_ok s H N -> 0 < n <= MMAP_THRESHOLD ->
  wp (expand_heap n) (fun c s' => c = 0 /\ s' = s \/ c <> 0 /\ grown H N s n c s') s.
Proof.
  intros Hok Hn. unfold MMAP_THRESHOLD, SIZE_ALIGN in Hn. destruct (id Hok) as [T _ _ _ Hend _].
  unfold expand_heap, SIZE_ALIGN. rewrite u64_small by lia.
  destruct s as [w b e en]. cbn [words binmap heap_end] in *. wp_step. wp_step.
  destruct (expand_os w (n + 32)) as [[[p n'] w1]|] eqn:Hx; [|apply wp_ret; by left].
  apply expand_law in Hx as [Hle V]. pose proof (provides_dom _ _ _ _ V) as Hd1. destruct (id V) as [V1 V2 V3 Vf Vm Vk].
  apply page_divides in V1, V2. unfold MEM_TO_CHUNK, OVERHEAD. chunk_unfold.
  apply wp_bind, wp_set. change (mkMem w b e en <| words := w1 |>) with (mkMem w1 b e en).
  wp_step. wp_step. apply wp_bind.
  assert (Hin : forall x, p <= x < p + n' -> x mod 8 = 0 -> is_Some (w1 !! x)) by exact Vm.
  destruct (Z.eqb_spec p e) as [->|Hpe].
  - apply wp_ret, wp_bind, wp_set. cbn [heap_end].
    change (mkMem w1 b e en <| heap_end := e + n' |>) with (mkMem w1 b (e + n') en).
    destruct Hend as [->|Hend]; [lia|]. pose proof (tg_csize _ _ T _ _ _ Hend) as We.
    assert (D1 : is_Some (w1 !! (e + n' - 16))) by (apply Hin; lia).
    assert (D2 : is_Some (w1 !! (e + n' - 16 + 8))) by (apply Hin; lia).
    assert (D3 : is_Some (w1 !! (e - 16 + 8))) by (apply Hd1; eauto).
    repeat wp_step. right. split; [lia|]. exists n'. do 2 (split; [lia|]). split; [by left|].
    assert (Hg : forall w', grown_chunk H e n' (mkMem w' b (e + n') en) (e - 16) n') by (intros w'; by left).
    split; [eapply (grown_apart _ H N Hok w1 e n' V); [apply (Hg w1)|lia]|].
    apply (extend_ok _ H N Hok w1 e n' V); cbn [words binmap heap_end].
    + apply Hg.
    + lia.
    + look.
    + replace (e - 16 + n') with (e + n' - 16) by lia. look.
    + replace (e - 16 + n' + 8) with (e + n' - 16 + 8) by lia. look.
    + intros a Ha Hr. look. by apply Vk.
    + repeat (etrans; [|apply dom_le_insert]). done.
    + done.
    + lia.
  - rewrite u64_small by lia. replace (p + 32 - 16) with (p + 16) by lia.
    assert (D0 : is_Some (w1 !! (p + 16))) by (apply Hin; lia).
    wp_step. wp_step. apply wp_ret, wp_bind, wp_set. cbn [heap_end].
    replace (p + 32 + (n' - 32)) with (p + n') by lia.
    change (mkMem (<[p + 16 := tagged 0]> w1) b e en <| heap_end := p + n' |>)
      with (mkMem (<[p + 16 := tagged 0]> w1) b (p + n') en).
    assert (D1 : is_Some (w1 !! (p + n' - 16))) by (apply Hin; lia).
    assert (D2 : is_Some (w1 !! (p + n' - 16 + 8))) by (apply Hin; lia).
    assert (D3 : is_Some (w1 !! (p + 32 - 16 + 8))) by (apply Hin; lia).
    repeat wp_step. right. replace (p + 32 - 16) with (p + 16) by lia. split; [lia|]. exists (n' - 32).
    assert (Hg : forall w', w' !! (p + 16) = Some (tagged 0) ->
      grown_chunk H p n' (mkMem w' b (p + n') en) (p + 16) (n' - 32)) by (intros w' Hw; right; auto).
    do 2 (split; [lia|]). split; [|split].
    + eapply (grown_new _ H N Hok w1 p n' V); [apply (Hg (<[p + 16 := tagged 0]> w1)); look|lia].
    + eapply (grown_apart _ H N Hok w1 p n' V); [apply (Hg (<[p + 16 := tagged 0]> w1)); look|lia].
    + apply (extend_ok _ H N Hok w1 p n' V); cbn [words binmap heap_end].
      * apply Hg. look.
      * lia.
      * look.
      * replace (p + 16 + (n' - 32)) with (p + n' - 16) by lia. look.
      * replace (p + 16 + (n' - 32) + 8) with (p + n' - 16 + 8) by lia. look.
      * intros a Ha Hr. look. by apply Vk.
      * repeat (etrans; [|apply dom_le_insert]). done.
      * done.
      * lia.
Qed.

(** ** The search *)

(** A chunk taken from the bins or the new memory: at least [n] bytes, not in
    use before. *)
Definition found (H : chunks) (N : gmap Z Z) (s : mem) (n c : Z) (s' : mem) : Prop :=
  exists H' k, heap_ok s' H' N /\ coalesced H' /\ H' !! c = Some (k, true) /\ n <= k /\ 0 < k /\
    (forall d j, d <> c -> inuse_of H' d j <-> inuse_of H d j) /\ (forall j, ~ inuse_of H c j) /\
    data_kept H N (words s) (words s').

Lemma coalesced_free (H H' : chunks) :
  coalesced H -> (forall d k, H' !! d = Some (k, false) -> H !! d = Some (k, false)) -> coalesced H'.
Proof. intros Hco Hf d k m v Hd Hn. destruct v; [done|]. apply Hf in Hd, Hn. exact (Hco _ _ _ _ Hd Hn). Qed.

Lemma find_grown s H N n :
  heap_ok s H N -> coalesced H -> 0 < n <= MMAP_THRESHOLD ->
  wp (do! c := expand_heap n in
      if c =? 0 then mret 0
      else
        do! merged := alloc_rev 2 c in
        if (merged : bool) then
          do! c' := PREV_CHUNK c in
          do! xs := csize c in
          do! n' := CHUNK_SIZE c' in
          do! nx := NEXT_CHUNK c in
          set_csize c' (u64 (xs + n')) ;;
          set_psize nx (u64 (xs + n')) ;;
          mret c'
        else mret c) (fun c s' => c = 0 /\ s' = s \/ c <> 0 /\ found H N s n c s') s.
Proof.
  intros Hok Hco Hn. apply wp_bind. eapply wp_mono; [by apply expand_heap_spec|].
  intros c s1 [[-> ->]|(Hc0 & m & Hle & Hm & Hnew & Hout & Hok1 & Hd1)]; [apply wp_ret; by left|].
  rewrite (proj2 (Z.eqb_neq c 0)) by done. destruct (extended_new H c m Hm) as [Hc1 Hcm1].
  assert (Hco1 : coalesced (extended H c m)).
  { apply (coalesced_free H); [done|]. intros d k Hd.
    apply extended_lookup in Hd as [(_ & _ & ?)|[(_ & _ & ?)|(_ & _ & Hd)]]; done. }
  assert (Hu1 : forall d j, d <> c -> inuse_of (extended H c m) d j <-> inuse_of H d j).
  { intros d j Hne. unfold inuse_of. split; intros [Hd Hp]; (split; [|done]).
    - apply extended_lookup in Hd as [(? & _)|[(_ & ? & _)|(_ & _ & Hd)]]; [done|lia|done].
    - by apply (extended_old H c m Hm Hout). }
  assert (Hcn : forall j, ~ inuse_of H c j).
  { intros j [Hj Hp]. destruct Hnew; [|congruence]. assert (j = 0) by congruence. lia. }
  apply wp_bind. eapply wp_mono; [by apply (alloc_rev_spec s1 (extended H c m) N c m true 1)|].
  intros r s2 (He2 & Hd2 & Hr). destruct r.
  - destruct Hr as (k & Hk & Hkp & Hok2). set (H2 := <[c - k := (k, true)]> (extended H c m)) in *.
    assert (Hk2 : H2 !! (c - k) = Some (k, true)) by (unfold H2; by rewrite lookup_insert_eq).
    assert (Hc2 : H2 !! (c - k + k) = Some (m, true)).
    { unfold H2. rewrite lookup_insert_ne by lia. by replace (c - k + k) with c by lia. }
    destruct (id Hok2) as [T2 _ _ _ _ _]. destruct (tg_chunk _ _ T2 _ _ _ Hk2) as [Hks _ Hkr _], (tg_chunk _ _ T2 _ _ _ Hc2) as [Hms _ Hcr _].
    destruct (tg_next _ _ T2 _ _ _ Hk2 Hkp) as [_ Wc]. pose proof (tg_csize _ _ T2 _ _ _ Hk2) as Wk.
    pose proof (tg_csize _ _ T2 _ _ _ Hc2) as Wm. destruct (tg_next _ _ T2 _ _ _ Hc2 Hm) as [_ Wn].
    replace (c - k + k) with c in Wc, Wm, Wn by lia.
    assert (Hu : u64 (tag m true + k) = tag (k + m) true).
    { assert (sized (k + m)) by (apply sized_add; [done|done|lia]). rewrite !tag_eq by done. cbn [Z.b2z].
      rewrite u64_small; lia. }
    destruct s2 as [w b e en]. cbn [words] in *. chunk_unfold. repeat wp_step. rewrite (tag_untag k Hks true).
    repeat wp_step. rewrite (tag_untag k Hks true), (tag_untag m Hms true), Hu. repeat wp_step.
    right. split; [lia|]. exists (join_at H2 (c - k) k m true), (k + m).
    assert (Hfree : forall d j, join_at H2 (c - k) k m true !! d = Some (j, false) -> extended H c m !! d = Some (j, false)).
    { intros d j Hd. by eapply taken_free, join_at_free. }
    assert (Hk0 : H !! (c - k) = Some (k, false)).
    { apply extended_lookup in Hk as [(_ & _ & ?)|[(_ & _ & ?)|(_ & _ & Hk)]]; done. }
    assert (Huse : forall a, user_at H N a -> user_at (extended H c m) N a /\ user_at H2 N a).
    { intros a [(d & j & Hd & Ha)|Ha]; [|split; by right].
      assert (Hdc : d <> c) by (intros ->; by apply (Hcn j); split; [|lia]).
      apply (extended_old H c m Hm Hout _ _ _) in Hd as Hd'; [|done].
      split; left; exists d, j; (split; [|done]); [done|]. unfold H2. rewrite lookup_insert_ne; [done|congruence]. }
    assert (Hhk : heap_ok (mkMem (<[c + m := tag (k + m) true]> (<[c - k + 8 := tag (k + m) true]> w)) b e en)
      (join_at H2 (c - k) k m true) N).
    { pose proof (chunk_size_min _ _ T2 _ _ _ Hk2 Hkp). apply (join_ok (mkMem w b e en) _ H2 N (c - k) k m Hok2 Hk2 Hc2 Hkp Hm); cbn [words]; [look|..|done|done].
      - replace (c - k + k + m) with (c + m) by lia. look.
      - intros a Ha1 Ha2 Ha3 Ha4. look.
      - repeat (etrans; [|apply dom_le_insert]). done. }
    split_and!; [|by eapply coalesced_free|unfold join_at; by rewrite lookup_insert_eq|lia|lia|..].
    + done.
    + intros d j Hne. destruct (decide (d = c)) as [->|Hdc].
      * split; [|intros Hx; by apply Hcn in Hx]. intros [Hd _].
        apply join_lookup in Hd as [(? & _)|(_ & ? & _)]; [lia|]. exfalso. lia.
      * rewrite <- Hu1 by done. unfold inuse_of, join_at, H2.
        by rewrite lookup_insert_ne, lookup_delete_ne, lookup_insert_ne by lia.
    + intros j [Hj _]. congruence.
    + intros a Ha. destruct (Huse a Ha) as [Ha1 Ha2]. cbn [words].
      destruct (chunk_tag_at _ H2 N Hok2 _ _ _ Hk2) as [Tk8 _], (chunk_tag_at _ H2 N Hok2 _ _ _ Hc2) as [_ Tcm].
      specialize (Tcm Hm). replace (c - k + k + m) with (c + m) in Tcm by lia.
      rewrite !lookup_insert_ne by (apply not_eq_sym; by apply (user_tag _ H2 N Hok2)).
      rewrite <- Hd1 by done. by apply Hd2.
  - destruct Hr as [-> _]. apply wp_ret. right. split; [done|]. exists (extended H c m), m. split_and!; done.
Qed.

(** The bins that may serve a request. *)
Lemma mask_bit b i j : 0 <= b < 2 ^ 64 -> 0 <= i < 64 ->
  Z.land b (u64 (- Z.shiftl 1 i)) <> 0 -> j = first_set (Z.land b (u64 (- Z.shiftl 1 i))) ->
  i <= j < 64 /\ Z.testbit b j = true.
Proof.
  intros Hb Hi Hne ->. assert (Hu : 0 <= u64 (- Z.shiftl 1 i) < 2 ^ 64) by (apply Z.mod_pos_bound; lia).
  assert (Hm : 0 < Z.land b (u64 (- Z.shiftl 1 i)) < 2 ^ 64).
  { pose proof (and_range b (u64 (- Z.shiftl 1 i)) Hb ltac:(lia)) as Hr. rewrite and_spec in Hr. lia. }
  destruct (ctz_spec _ Hm) as [Hj Ht]. change (a_ctz_64 ?x) with (first_set x) in *.
  set (j := first_set _) in *. rewrite Z.land_spec in Ht. apply andb_prop in Ht as [Hb' Ht]. split; [|done].
  unfold u64 in Ht. rewrite Z.mod_pow2_bits_low in Ht by lia. rewrite Z.shiftl_1_l in Ht.
  destruct (decide (i <= j)); [lia|]. exfalso.
  replace (- 2 ^ i) with (Z.lnot (Z.ones i)) in Ht by (rewrite Z.ones_equiv; unfold Z.lnot; lia).
  rewrite Z.lnot_spec, Z.ones_spec_low in Ht by lia. done.
Qed.

Lemma coalesced_split w (H : chunks) c sz n :
  tags_ok w H -> coalesced H -> H !! c = Some (sz, false) -> 0 < n < sz -> coalesced (split_at H c sz n false).
Proof.
  intros T Hco Hc Hlt d k m v Hd Hn.
  apply (split_lookup H c sz n false Hlt) in Hn as [(_ & _ & ->)|[(Hdk & -> & ->)|(Hn1 & Hn2 & Hn)]]; [done|exfalso|].
  - apply (split_lookup H c sz n false Hlt) in Hd as [(_ & _ & ?)|[(-> & -> & _)|(Hd1 & Hd2 & Hd)]]; [done|lia|].
    destruct (Z.lt_trichotomy c d) as [Hcd|[->|Hcd]]; [|done|].
    + pose proof (tg_apart _ _ T _ _ _ _ _ _ Hc Hd Hcd). destruct (tg_chunk _ _ T _ _ _ Hd) as [[] _ _ _]. lia.
    + pose proof (tg_apart _ _ T _ _ _ _ _ _ Hd Hc Hcd). lia.
  - apply (split_lookup H c sz n false Hlt) in Hd as [(_ & _ & ?)|[(-> & -> & _)|(Hd1 & Hd2 & Hd)]]; [done| |by eapply Hco].
    eapply Hco; [exact Hc|]. by replace (c + n + (sz - n)) with (c + sz) in Hn by lia.
Qed.

Lemma find_binned s H N n (K : M Z) :
  let i := bin_index_up n in let mask := Z.land (binmap s) (u64 (- Z.shiftl 1 i)) in let j := first_set mask in
  heap_ok s H N -> coalesced H -> sized n -> 0 < n <= MMAP_THRESHOLD -> mask <> 0 ->
  wp (lock_bin j ;;
      do! c := load (bin_head j) in
      if negb (c =? BIN_TO_CHUNK j) then
        do! done := pretrim c n i j in
        mwhen (negb done) (unbin c j) ;;
        mret c
      else K) (fun c s' => c <> 0 /\ found H N s n c s') s.
Proof.
  intros i mask j Hok Hco Hn Hr Hmask. destruct (bin_index_up_range n Hn Hr) as [Hi1 Hi2].
  pose proof (bin_index_range n Hn ltac:(lia)) as Hi0.
  assert (Hb : 0 <= binmap s < 2 ^ 64) by (destruct (hp_bins _ _ _ Hok) as [L B]; apply B).
  destruct (mask_bit (binmap s) i j Hb ltac:(unfold i; lia) Hmask eq_refl) as [Hj Hbit]. clearbody j.
  apply wp_bind. eapply wp_mono; [apply (lock_bin_spec s H N j Hok); lia|].
  intros [] s1 (Hok1 & He1 & Hb1 & Hd1 & Hk1 & L & B & Hl).
  assert (HL : L j <> []) by (apply (bn_map _ _ _ _ B); [lia|by rewrite Hb1]).
  destruct (L j) as [|c l2] eqn:Hlj; [done|]. destruct (id Hok1) as [T _ Hlay _ _ _].
  assert (Hcin : c ∈ L j) by (rewrite Hlj; by left).
  apply (bn_mem _ _ _ _ B) in Hcin as (n1 & Hc & Hjn); [|lia]. destruct (free_chunk _ _ T _ _ Hc) as (Hca & H32 & Hn1 & _).
  destruct (tg_chunk _ _ T _ _ _ Hc) as [_ _ Hcr _]. cbn [linked] in Hl. destruct Hl as (Hhead & _ & _).
  destruct (bin_chunk_links j) as [Hz16 _]. rewrite Hz16 in Hhead.
  assert (Hcb : c <> BIN_TO_CHUNK j).
  { intros ->. destruct (bin_words j ltac:(lia)) as [Wh _]. apply (Hlay _ Wh). rewrite <- Hz16. exists (BIN_TO_CHUNK j), n1, false. split; [done|lia]. }
  apply wp_bind. eapply wp_load; [exact Hhead|]. rewrite (proj2 (Z.eqb_neq _ _) Hcb). cbn [negb].
  assert (Hdata : data_kept H N (words s) (words s1)).
  { intros a Ha. apply Hk1. by apply (user_not_bin s H N Hok). }
  assert (Hcn : forall k, ~ inuse_of H c k) by (intros k [? _]; congruence).
  apply wp_bind. subst j. eapply wp_mono; [apply (pretrim_spec s1 H N L c l2 n n1 Hok1 B Hlj Hc Hn Hr); apply Hj|].
  intros r s2 Hr2. destruct r; cbn [negb mwhen].
  - destruct Hr2 as (Hlt & Hok2 & He2 & Hd2). apply wp_bind, wp_skip, wp_ret. split; [lia|].
    destruct (split_new H c n1 n false Hlt) as [Hnew1 Hnew2].
    exists (split_at H c n1 n false), n. split_and!; [done|by eapply coalesced_split|done|lia|lia| |done|].
    + intros d k Hne. unfold inuse_of. split; intros [Hd Hp]; (split; [|done]).
      * by apply (split_lookup H c n1 n false Hlt) in Hd as [(? & _)|[(_ & _ & ?)|(_ & _ & ?)]].
      * unfold split_at. rewrite !lookup_insert_ne; [done|done|]. intros Heq. rewrite <- Heq in Hd.
        by rewrite (split_free (words s1) H T c n1 n false Hc Hlt) in Hd.
    + by eapply data_kept_trans.
  - subst s2. apply wp_bind. eapply wp_mono; [by apply (unbin_spec s1 H N c n1)|].
    intros [] s3 (Hok3 & He3 & Hd3). apply wp_ret. split; [lia|].
    exists (<[c := (n1, true)]> H), n1. split_and!; [done|..].
    + apply (coalesced_free H); [done|]. intros d k Hd. by eapply taken_free.
    + by rewrite lookup_insert_eq.
    + apply (bin_fits n n1 Hn Hn1); [lia|done|apply Hj].
    + lia.
    + intros d k Hne. unfold inuse_of. by rewrite lookup_insert_ne.
    + done.
    + by eapply data_kept_trans.
Qed.

Lemma find_chunk_spec fuel s H N n :
  heap_ok s H N -> coalesced H -> sized n -> 0 < n <= MMAP_THRESHOLD ->
  wp (find_chunk (S fuel) n (bin_index_up n)) (fun c s' => c = 0 /\ s' = s \/ c <> 0 /\ found H N s n c s') s.
Proof.
  intros Hok Hco Hn Hr. cbn [find_chunk]. apply wp_bind, wp_get. destruct (Z.eqb_spec (Z.land (binmap s) (u64 (- Z.shiftl 1 (bin_index_up n)))) 0).
  - by apply find_grown.
  - eapply wp_mono; [by apply find_binned|]. auto.
Qed.
End grow.
