(* ===== verification/MallocSpec.v ===== *)
(** * [malloc] and [free]

    The allocator as its callers see it: blocks of at least the size asked
    for, apart from each other, whose words nobody but the caller changes. *)

From Stdlib Require Import ZifyBool.
From stdpp Require Import base numbers gmap list.
From S2P Require Import Prelude Word StateMonad Malloc MallocArith MallocInv MallocOps MallocFree MallocCut MallocGrow.

Local Open Scope Z_scope.
Ltac Zify.zify_post_hook ::= Z.to_euclidean_division_equations.

Section spec.
Context `{E : MallocEnv} `{!MallocLaws E}.

(** A block of [k] bytes at [p]: in a chunk of the heap, or in a mapping of
    its own. *)
Definition block (H : chunks) (N : gmap Z Z) (p k : Z) : Prop :=
  inuse_of H (p - 16) (k + 16) \/ N !! (p - 16) = Some (k + 16).

Lemma block_user H N p k a : block H N p k -> p <= a < p + k -> user_at H N a.
Proof.
  intros [[Hc _]|Hc] Ha; [left|right]; exists (p - 16), (k + 16); (split; [done|lia]).
Qed.

(** ** Requests served from the heap *)

Definition allocated (H : chunks) (N : gmap Z Z) (s : mem) (c n : Z) (s' : mem) : Prop :=
  exists H', heap_ok s' H' N /\ coalesced H' /\
    (forall d k, inuse_of H' d k <-> inuse_of H d k \/ d = c /\ k = n) /\
    (forall k, ~ inuse_of H c k) /\ data_kept H N (words s) (words s').

Lemma malloc_heap_spec s H N n :
  heap_ok s H N -> coalesced H -> sized n -> 0 < n <= MMAP_THRESHOLD ->
  wp (do! c := find_chunk 2 n (bin_index_up n) in
      if c =? 0 then mret 0
      else trim c n ;; mret (CHUNK_TO_MEM c))
    (fun p s' => p = 0 /\ s' = s \/ p <> 0 /\ allocated H N s (MEM_TO_CHUNK p) n s') s.
Proof.
  intros Hok Hco Hn Hr. apply wp_bind. eapply wp_mono; [by apply find_chunk_spec|].
  intros c s1 [[-> ->]|(Hc0 & H1 & k & Hok1 & Hco1 & Hc & Hle & Hk & Hu1 & Hno & Hd1)]; [apply wp_ret; by left|].
  rewrite (proj2 (Z.eqb_neq _ _) Hc0). apply wp_bind.
  eapply wp_mono; [apply (trim_spec s1 H1 N c k n Hok1 Hco1); [done|done|lia]|].
  intros [] s2 (H2 & Hok2 & Hco2 & _ & Hu2 & Hd2). apply wp_ret. right.
  destruct (tg_chunk _ _ (hp_tags _ _ _ Hok1) _ _ _ Hc) as [_ _ Hcr _].
  unfold CHUNK_TO_MEM, MEM_TO_CHUNK, OVERHEAD. replace (c + 16 - 16) with c by lia.
  split; [lia|]. exists H2. split_and!; [done|done| |done|].
  - intros d j. rewrite Hu2. split.
    + intros [[Hd Hne]|?]; [left; by apply Hu1|by right].
    + intros [Hd|?]; [|by right]. left. assert (d <> c) by (intros ->; by apply Hno in Hd). split; [by apply Hu1|done].
  - intros a Ha. rewrite Hd2; [by apply Hd1|left].
    destruct Ha as [(d & j & Hd & Ha)|Ha]; [left|by right].
    assert (Hin : inuse_of H d j) by (split; [done|lia]).
    assert (d <> c) by (intros ->; by apply Hno in Hin). exists d, j. rewrite lookup_delete_ne by done.
    split; [by apply Hu1|done].
Qed.

(** ** Mappings *)

(** A change away from the heap and the bins. *)
Lemma heap_away s s' H N N' :
  heap_ok s H N -> (forall a, territory H a \/ in_bins a -> words s' !! a = words s !! a) ->
  binmap s' = binmap s -> heap_end s' = heap_end s -> maps_ok (words s') H N' -> heap_ok s' H N'.
Proof.
  intros Hok Hk Hb He Hm. destruct (id Hok) as [T [L B] Hlay _ Hend Hst].
  assert (Hkt : forall a, tag_at H a -> words s' !! a = words s !! a).
  { intros a Ha. apply Hk. left. by eapply tag_at_territory. }
  split; [|exists L|done|done|by rewrite He|].
  - split.
    + apply T.
    + intros c sz u Hc. rewrite Hkt by (right; replace (c + 8 - 8) with c by lia; eauto). by eapply tg_csize.
    + intros c sz u Hc Hp. destruct (tg_next _ _ T _ _ _ Hc Hp) as [Hn Hw]. split; [done|]. by rewrite Hkt by (by left).
    + intros c sz u Hc. rewrite Hkt by (left; eauto). by eapply tg_prev.
    + apply T.
    + intros c sz u Hc a Ha Ha8. rewrite Hk by (left; exists c, sz, u; split; [done|lia]). by eapply (tg_mapped _ _ T).
  - rewrite Hb. eapply bins_frame; [exact B|]. intros a Ha. apply Hk. by apply (link_inside s H N Hok).
  - intros a Ha Ha8. rewrite Hk by (by right). by apply Hst.
Qed.

Lemma mapping_away w w' H c sz :
  mapping_ok w H c sz -> (forall a, c - 16 <= a < c + sz -> w' !! a = w !! a) -> mapping_ok w' H c sz.
Proof.
  intros [P1 P2 P3 P4 P5 P6] Hk. destruct P1 as [P1 P1']. destruct page_facts as [Hpg Hpg'].
  apply Hpg' in P1' as P4096. split; [done|done| | | |done].
  - by rewrite Hk by lia.
  - by rewrite Hk by lia.
  - intros a Ha Ha8. rewrite Hk by lia. by apply P5.
Qed.

Lemma page_round n : 0 <= n < 2 ^ 63 + 2 ^ 32 ->
  let len := Z.land (u64 (n + PAGE_SIZE - 1)) (u64 (- PAGE_SIZE)) in n <= len < n + PAGE_SIZE /\ len mod PAGE_SIZE = 0.
Proof.
  intros Hn. destruct page_facts as [Hpg _]. destruct page_size as (k & Hk & Hpk). rewrite Hpk in *.
  rewrite u64_small, land_mask by lia. cbn zeta.
  pose proof (Z.div_mod (n + 2 ^ k - 1) (2 ^ k)) as Hd. pose proof (Z.mod_pos_bound (n + 2 ^ k - 1) (2 ^ k)) as Hm.
  split; [lia|]. replace (_ - _) with ((n + 2 ^ k - 1) / 2 ^ k * 2 ^ k) by lia. apply Z.mod_mul. lia.
Qed.

(** The room in the mapping for a chunk of [n] bytes. *)
Definition mmap_room (n : Z) : Z :=
  Z.land (u64 (n + OVERHEAD + PAGE_SIZE - 1)) (u64 (- PAGE_SIZE)) - 32.

Lemma malloc_mmap_spec s H N n :
  heap_ok s H N -> sized n -> 32 <= n <= 2 ^ 63 - PAGE_SIZE ->
  wp (malloc_mmap n) (fun p s' => p = 0 /\ s' = s \/ p <> 0 /\ exists k, k = mmap_room n /\ n - 16 <= k /\
    heap_ok s' H (<[p - 16 := k + 16]> N) /\ N !! (p - 16) = None /\ ~ territory H p /\
    data_kept H N (words s) (words s')) s.
Proof.
  intros Hok Hn Hr. destruct page_facts as [Hpg Hpg']. unfold malloc_mmap, mmap_room, OVERHEAD, SIZE_ALIGN.
  destruct (page_round (n + 16)) as [Hlen Hlm]; [lia|]. set (len := Z.land _ _) in *. clearbody len.
  apply wp_bind, wp_get. destruct (mmap_os (words s) len) as [[base w1]|] eqn:Hx; [|apply wp_ret; by left].
  apply mmap_law in Hx as V. destruct (id V) as [V1 V2 V3 Vf Vm Vk]. apply wp_bind, wp_set.
  assert (V32 : base mod 32 = 0) by by apply page_divides.
  destruct s as [w b e en]. cbn [words binmap heap_end] in *.
  change (mkMem w b e en <| words := w1 |>) with (mkMem w1 b e en).
  assert (Hin : forall x, base <= x < base + len -> x mod 8 = 0 -> is_Some (w1 !! x)) by exact Vm.
  replace (base + 32 - 16) with (base + 16) by lia.
  assert (D1 : is_Some (w1 !! (base + 16))) by (apply Hin; lia).
  assert (D2 : is_Some (w1 !! (base + 16 + 8))) by (apply Hin; lia).
  rewrite u64_small by lia. chunk_unfold. repeat wp_step. right. unfold CHUNK_TO_MEM, OVERHEAD.
  replace (base + 16 + 16 - 16) with (base + 16) by lia. split; [lia|]. exists (len - 32).
  replace (len - 32 + 16) with (len - 16) by lia. replace (len - (32 - 16)) with (len - 16) by lia.
  set (w' := <[base + 16 := _]> _).
  assert (Hk : forall a, ~ base <= a < base + len -> w' !! a = w !! a).
  { intros a Ha. unfold w'. look. by apply Vk. }
  assert (Hm1 : w' !! (base + 16) = Some 16) by (unfold w'; look).
  assert (Hm2 : w' !! (base + 16 + 8) = Some (len - 16)) by (unfold w'; look).
  assert (Hd : dom_le w1 w') by (unfold w'; repeat (etrans; [|apply dom_le_insert]); done). clearbody w'.
  assert (Hterr : forall a, base <= a < base + len -> ~ territory H a).
  { intros a Ha Ht. by apply (territory_not_new _ H N Hok _ _ _ V a). }
  split_and!; [done|lia| | | |].
  - apply (heap_away (mkMem w b e en) _ H N); cbn [words]; [done| |done|done|].
    + intros a Ha. apply Hk. intros Hin'. destruct Ha as [Ha|Ha]; [by eapply Hterr|].
      by apply (bins_not_new _ H N Hok _ _ _ V a).
    + split.
      * intros c sz Hc. apply lookup_insert_Some in Hc as [[<- <-]|[Hne Hc]].
        -- split; try done.
           ++ replace (base + 16 - 16) with base by lia. by replace (len - 16 + 16) with len by lia.
           ++ lia.
           ++ replace (base + 16 - 16) with base by lia. replace (len - 16 + 16) with len by lia.
              eapply mapped_le; [exact Hd|done].
           ++ intros a Ha. split; [apply Hterr; lia|]. intros Hb. eapply (bins_not_new _ H N Hok _ _ _ V a Hb). lia.
        -- apply (mapping_away w); [by apply (ms_each _ _ _ (hp_maps _ _ _ Hok))|].
           intros a Ha. apply Hk. by apply (mapping_not_new _ H N Hok _ _ _ V c sz).
      * intros c sz d k Hc Hd2 Hcd. apply lookup_insert_Some in Hc as [[<- <-]|[Hne Hc]];
          apply lookup_insert_Some in Hd2 as [[<- <-]|[Hne' Hd2]]; [lia| | |by eapply (ms_apart _ _ _ (hp_maps _ _ _ Hok))].
        -- destruct (ms_each _ _ _ (hp_maps _ _ _ Hok) _ _ Hd2) as [_ ? _ _ _ _].
           pose proof (mapping_not_new _ H N Hok _ _ _ V d k (d - 16) Hd2 ltac:(lia)). lia.
        -- destruct (decide (c + sz <= base)); [lia|].
           destruct (ms_each _ _ _ (hp_maps _ _ _ Hok) _ _ Hc) as [_ ? _ _ _ _].
           destruct (mapping_not_new _ H N Hok _ _ _ V c sz base Hc); lia.
  - destruct (N !! (base + 16)) as [k|] eqn:Hc; [exfalso|done].
    destruct (ms_each _ _ _ (hp_maps _ _ _ Hok) _ _ Hc) as [_ ? _ _ _ _].
    apply (mapping_not_new _ H N Hok _ _ _ V (base + 16) k base Hc); lia.
  - apply Hterr. lia.
  - intros a Ha. cbn [words]. apply Hk. by apply (user_not_new _ H N Hok _ _ _ V).
Qed.

Lemma free_mapped_spec s H N c sz :
  heap_ok s H N -> N !! c = Some sz ->
  wp (free (CHUNK_TO_MEM c)) (fun _ s' => heap_ok s' H (delete c N) /\
    forall a, user_at H (delete c N) a -> words s' !! a = words s !! a) s.
Proof.
  intros Hok Hc. destruct (id Hok) as [T _ _ Hms _ _].
  destruct (ms_each _ _ _ Hms _ _ Hc) as [[P1 P1'] P2 P3 P4 P5 P6].
  destruct page_facts as [Hpg Hpg']. apply Hpg' in P1' as P4096.
  assert (Hapart : forall d k, N !! d = Some k -> d <> c -> d + k <= c - 16 \/ c + sz <= d - 16).
  { intros d k Hd Hne. destruct (Z.lt_trichotomy c d) as [Hcd|[->|Hcd]]; [right|done|left].
    - exact (ms_apart _ _ _ Hms _ _ _ _ Hc Hd Hcd).
    - exact (ms_apart _ _ _ Hms _ _ _ _ Hd Hc Hcd). }
  assert (Hsz : sized sz \/ sz mod 32 = 16) by lia.
  assert (Hev : inuse sz = false /\ untag sz = sz).
  { rewrite inuse_odd. rewrite untag_even by lia. destruct (Z.eqb_spec (sz mod 2) 0); split; [done|lia|lia|lia]. }
  destruct Hev as [Hev1 Hev2].
  unfold free. replace (MEM_TO_CHUNK (CHUNK_TO_MEM c)) with c by (unfold MEM_TO_CHUNK, CHUNK_TO_MEM; lia).
  rewrite (proj2 (Z.eqb_neq (CHUNK_TO_MEM c) 0)) by (unfold CHUNK_TO_MEM, OVERHEAD; lia).
  unfold IS_MMAPPED, NEXT_CHUNK, CHUNK_SIZE, psize, csize.
  do 2 apply wp_bind. eapply wp_load; [exact P4|]. apply wp_ret. rewrite Hev1. cbn [negb].
  apply wp_bind. eapply wp_load; [exact P3|].
  do 2 apply wp_bind. eapply wp_load; [exact P4|]. apply wp_ret. rewrite Hev2.
  change (inuse 16) with false. cbn iota. apply wp_set. rewrite u64_small by lia.
  destruct (munmap_law (words s) (c - 16) (sz + 16)) as [Hk _].
  assert (Hk' : forall a, ~ c - 16 <= a < c + sz -> munmap_os (words s) (c - 16) (sz + 16) !! a = words s !! a).
  { intros a Ha. apply Hk. lia. }
  split.
  - apply (heap_away s _ H N); [done| |done|done|]; cbn.
    + intros a Ha. apply Hk'. intros Hin. destruct (P6 a Hin). by destruct Ha.
    + split.
      * intros d k [Hne Hd]%lookup_delete_Some. apply (mapping_away (words s)); [by apply (ms_each _ _ _ Hms)|].
        intros a Ha. apply Hk'. destruct (Hapart d k Hd); [done|lia|lia].
      * intros d k d' k' [_ Hd]%lookup_delete_Some [_ Hd']%lookup_delete_Some Hdd.
        exact (ms_apart _ _ _ Hms _ _ _ _ Hd Hd' Hdd).
  - intros a Ha. cbn. apply Hk'. intros Hin. destruct Ha as [(d & k & Hd & Ha)|(d & k & [Hne Hd]%lookup_delete_Some & Ha)].
    + destruct (P6 a Hin) as [Ht _]. apply Ht. exists d, k, true. split; [done|lia].
    + destruct (Hapart d k Hd); [done|lia|lia].
Qed.

(** The chunk size for a request: 16 bytes of overhead and rounding up to
    a multiple of 32 never wrap around; a request is refused, with [ENOMEM],
    exactly when it is larger than [PTRDIFF_MAX] less a page and a chunk. *)
Theorem request_size n s :
  0 <= n < 2 ^ 64 ->
  exists r s', adjust_size n s = Ok (r, s') /\ words s' = words s /\
  match r with
  | Some sz => s' = s /\ sized sz /\ n + OVERHEAD <= sz < n + OVERHEAD + SIZE_ALIGN /\ SIZE_ALIGN <= sz <= 2 ^ 63 - PAGE_SIZE
  | None => enomem s' = true /\ PTRDIFF_MAX - SIZE_ALIGN - PAGE_SIZE + 1 < n
  end.
Proof.
  intros Hn. destruct page_facts as [Hpg _]. unfold adjust_size. destruct (adjusted n) as [sz|] eqn:Had.
  - exists (Some sz), s. split_and!; [done|done|done|..];
      destruct (adjusted_spec n sz) as (Hs & Hle & Hmax & _); try done; try lia; apply page_divides, Z.mod_same; lia.
  - exists None, (s <| enomem := true |>). split_and!; [done|done|done|]. by apply adjusted_none; [lia| |].
Qed.

(** ** The callers' writes *)

Lemma user_writes s H N w :
  heap_ok s H N -> (forall a, ~ user_at H N a -> w !! a = words s !! a) -> dom_le (words s) w ->
  heap_ok (s <| words := w |>) H N.
Proof.
  intros Hok Hk Hd. destruct (id Hok) as [T [L B] Hlay [M1 M2] Hend Hst].
  split; cbn; [| |done|split; [|done]|done|by eapply mapped_le].
  - apply (tags_frame (words s)); [done| |done].
    intros b Hb. apply Hk. intros Ha. by apply (user_tag s H N Hok b b).
  - exists L. eapply bins_frame; [exact B|]. intros b Hb. apply Hk. intros Ha. by apply (user_link s H N Hok b b).
  - intros c sz Hc. destruct (M1 c sz Hc) as [P1 P2 P3 P4 P5 P6].
    destruct P1 as [P1 P1']. destruct page_facts as [Hpg Hpg']. apply Hpg' in P1' as P4096.
    assert (Hne : forall a, user_at H N a -> a <> c /\ a <> c + 8).
    { intros a [(d & k & Hd' & Ha)|(d & k & Hd' & Ha)].
      - assert (Ht : territory H a) by (exists d, k, true; split; [done|lia]).
        assert (Hin : ~ c - 16 <= a < c + sz) by (intros Hin; by destruct (P6 a Hin)). lia.
      - destruct (Z.lt_trichotomy c d) as [Hcd|[->|Hcd]]; [|lia|].
        + pose proof (M2 _ _ _ _ Hc Hd' Hcd). lia.
        + pose proof (M2 _ _ _ _ Hd' Hc Hcd). lia. }
    split; [done|done|rewrite Hk; [done|]|rewrite Hk; [done|]|by eapply mapped_le|done]; intros Ha; by destruct (Hne _ Ha).
Qed.

(** ** The contract *)

(** The blocks of a heap. *)
Lemma block_apart s H N p k q j :
  heap_ok s H N -> block H N p k -> block H N q j -> p <> q -> p + k <= q \/ q + j <= p.
Proof.
  intros Hok Hp Hq Hne. destruct Hok as [T _ _ [M1 M2] _ _].
  assert (Hmix : forall p k q j, inuse_of H (p - 16) (k + 16) -> N !! (q - 16) = Some (j + 16) -> p + k <= q \/ q + j <= p).
  { intros p' k' q' j' [Hc Hz] Hn. destruct (M1 _ _ Hn) as [[_ P1] P2 _ _ _ P6].
    destruct page_facts as [_ Hpg]. apply Hpg in P1. pose proof (chunk_size_min _ _ T _ _ _ Hc Hz).
    destruct (decide (p' + k' <= q')); [by left|]. destruct (decide (q' + j' <= p')); [by right|].
    assert (Ht : territory H (Z.max p' q')).
    { exists (p' - 16), (k' + 16), true. split; [done|lia]. }
    exfalso. destruct (P6 (Z.max p' q')) as [Hx _]; [lia|done]. }
  destruct Hp as [[Hp Hpz]|Hp], Hq as [[Hq Hqz]|Hq].
  - destruct (Z.lt_trichotomy p q) as [Hlt|[?|Hlt]]; [left|done|right].
    + pose proof (tg_apart _ _ T _ _ _ _ _ _ Hp Hq). lia.
    + pose proof (tg_apart _ _ T _ _ _ _ _ _ Hq Hp). lia.
  - apply Hmix; [by split|done].
  - destruct (Hmix q j p k); [by split|done|by right|by left].
  - destruct (Z.lt_trichotomy p q) as [Hlt|[?|Hlt]]; [left|done|right].
    + pose proof (M2 _ _ _ _ Hp Hq). lia.
    + pose proof (M2 _ _ _ _ Hq Hp). lia.
Qed.

Lemma block_mapped s H N p k : heap_ok s H N -> block H N p k -> mapped (words s) p k /\ 0 < p /\ p mod 16 = 0.
Proof.
  intros Hok [[Hc _]|Hc].
  - pose proof (tg_mapped _ _ (hp_tags _ _ _ Hok) _ _ _ Hc) as Hm. destruct (tg_chunk _ _ (hp_tags _ _ _ Hok) _ _ _ Hc) as [_ ? ? _].
    split; [|lia]. intros a Ha. apply Hm. lia.
  - destruct (ms_each _ _ _ (hp_maps _ _ _ Hok) _ _ Hc) as [[P1 _] P2 _ _ P5 _]. apply page_divides in P1.
    split; [|lia]. intros a Ha. apply P5. lia.
Qed.

Lemma exclusive s H N c k j : heap_ok s H N -> inuse_of H c k -> N !! c = Some j -> False.
Proof.
  intros Hok [Hc Hk] Hn. destruct (ms_each _ _ _ (hp_maps _ _ _ Hok) _ _ Hn) as [_ P2 _ _ _ P6].
  destruct (P6 c) as [Ht _]; [lia|]. apply Ht. exists c, k, true. split; [done|lia].
Qed.

(** The live blocks of a state of the allocator, by their address. *)
Definition represents (A : gmap Z Z) (s : mem) : Prop :=
  exists H N, heap_ok s H N /\ coalesced H /\ forall p k, A !! p = Some k <-> block H N p k.

Inductive request := Rmalloc (n : Z) | Rfree (p : Z) | Rwrite (a v : Z).

Definition serve (r : request) : M Z :=
  match r with
  | Rmalloc n => malloc n
  | Rfree p => free p ;; mret 0
  | Rwrite a v => store a v ;; mret 0
  end.

(** What a caller may ask for. *)
Definition legal (A : gmap Z Z) (r : request) : Prop :=
  match r with
  | Rmalloc n => 0 <= n < 2 ^ 64
  | Rfree p => p = 0 \/ is_Some (A !! p)
  | Rwrite a v => exists p k, A !! p = Some k /\ p <= a < p + k /\ a mod 8 = 0
  end.

(** The room of the block for a request of [n] bytes. *)
Definition usable (n : Z) : Z :=
  match adjusted n with
  | None => 0
  | Some sz => if sz >? MMAP_THRESHOLD then mmap_room sz else sz - 16
  end.

(** The blocks after a request that returned [x]. *)
Definition answers (A : gmap Z Z) (r : request) (x : Z) (A' : gmap Z Z) : Prop :=
  match r with
  | Rmalloc n => x = 0 /\ A' = A \/ x <> 0 /\ A !! x = None /\ n <= usable n /\ A' = <[x := usable n]> A
  | Rfree p => A' = delete p A
  | Rwrite a v => A' = A
  end.

(** The words of blocks that stay live are as before, but for the word
    written. *)
Definition contents_kept (A A' : gmap Z Z) (r : request) (w w' : gmap Z Z) : Prop :=
  forall p k a, A !! p = Some k -> A' !! p = Some k -> p <= a < p + k ->
    w' !! a = match r with Rwrite b v => if decide (a = b) then Some v else w !! a | _ => w !! a end.

Lemma heap_same s s' H N :
  heap_ok s H N -> words s' = words s -> binmap s' = binmap s -> heap_end s' = heap_end s -> heap_ok s' H N.
Proof. intros [T [L B] Hlay Hm He Hst] Hw Hb Hh. split; rewrite ?Hw, ?Hb, ?Hh; [done|by exists L|done..]. Qed.

(** [malloc] on a heap that represents [A]. *)
Lemma malloc_serves A s n :
  represents A s -> 0 <= n < 2 ^ 64 ->
  wp (malloc n) (fun x s' => exists A', answers A (Rmalloc n) x A' /\ represents A' s' /\
    contents_kept A A' (Rmalloc n) (words s) (words s')) s.
Proof.
  intros (H & N & Hok & Hco & HA) Hn. destruct page_facts as [Hpg Hpg'].
  assert (Hfail : forall s', heap_ok s' H N -> words s' = words s ->
    exists A', answers A (Rmalloc n) 0 A' /\ represents A' s' /\ contents_kept A A' (Rmalloc n) (words s) (words s')).
  { intros s' Hok' Hw. exists A. split; [by left|]. split; [by exists H, N|]. intros p k a _ _ _. by rewrite Hw. }
  assert (Hold : forall a p k, A !! p = Some k -> p <= a < p + k -> user_at H N a).
  { intros a p k Hp Ha. apply HA in Hp. by eapply block_user. }
  assert (Hnone' : forall p, (forall j, ~ block H N p j) -> A !! p = None).
  { intros p Hp. destruct (A !! p) as [j|] eqn:Hj; [|done]. apply HA in Hj. by apply Hp in Hj. }
  unfold malloc, adjust_size. destruct (adjusted n) as [sz|] eqn:Had.
  - destruct (adjusted_spec n sz) as (Hsz & Hle & Hmax & _); [lia|apply page_divides, Z.mod_same; lia|done|done|].
    unfold OVERHEAD, SIZE_ALIGN in Hle, Hmax. apply wp_bind, wp_ret. destruct (sz >? MMAP_THRESHOLD) eqn:Hbig.
    + assert (Hus : usable n = mmap_room sz) by (unfold usable; by rewrite Had, Hbig).
      eapply wp_mono; [apply (malloc_mmap_spec s H N sz Hok Hsz); lia|].
      intros p s' [[-> ->]|(Hp0 & k & Hku & Hk & Hok' & Hnone & Hterr & Hd)]; [by apply Hfail|].
      assert (Hfresh : forall j, ~ block H N p j).
      { intros j [[Hp Hpos]|Hp]; [|congruence]. pose proof (chunk_size_min _ _ (hp_tags _ _ _ Hok) _ _ _ Hp Hpos).
        apply Hterr. exists (p - 16), (j + 16), true. split; [done|lia]. }
      exists (<[p := k]> A). split_and!.
      * right. split_and!; [done|by apply Hnone'|lia|by rewrite Hus, <- Hku].
      * exists H, (<[p - 16 := k + 16]> N). split_and!; [done|done|]. intros q j. unfold block.
        destruct (decide (p = q)) as [<-|Hne].
        -- rewrite !lookup_insert_eq. split; [intros [= ->]; by right|].
           intros [Hp|[= Hp]]; [|f_equal; lia]. by destruct (Hfresh j (or_introl Hp)).
        -- rewrite !lookup_insert_ne by lia. apply HA.
      * intros q j a Hq _ Ha. apply Hd. by eapply Hold.
    + assert (Hus : usable n = sz - 16) by (unfold usable; by rewrite Had, Hbig).
      eapply wp_mono; [apply (malloc_heap_spec s H N sz Hok Hco Hsz); lia|].
      intros p s' [[-> ->]|(Hp0 & H' & Hok' & Hco' & Hu & Hno & Hd)]; [by apply Hfail|].
      unfold MEM_TO_CHUNK, OVERHEAD in Hu, Hno.
      assert (Hnew : inuse_of H' (p - 16) sz) by (apply Hu; by right).
      assert (Hfresh : forall j, ~ block H N p j).
      { intros j [Hp|Hp]; [by apply Hno in Hp|].
        by eapply exclusive. }
      exists (<[p := sz - 16]> A). split_and!.
      * right. split_and!; [done|by apply Hnone'|lia|by rewrite Hus].
      * exists H', N. split_and!; [done|done|]. intros q j. unfold block. rewrite Hu. destruct (decide (p = q)) as [<-|Hne].
        -- rewrite lookup_insert_eq. split; [intros [= <-]; left; right; split; [done|lia]|].
           intros [[Hp|[_ Hp]]|Hp]; [|f_equal; lia|]; [by destruct (Hfresh j (or_introl Hp))|by destruct (Hfresh j (or_intror Hp))].
        -- rewrite lookup_insert_ne by done. rewrite HA. unfold block. split; [tauto|].
           intros [[?|[? _]]|?]; [by left|lia|by right].
      * intros q j a Hq _ Ha. apply Hd. by eapply Hold.
  - do 2 apply wp_bind. apply wp_set, wp_ret, wp_ret. apply Hfail; [|done]. by apply (heap_same s).
Qed.

Lemma free_serves A s p :
  represents A s -> legal A (Rfree p) ->
  wp (serve (Rfree p)) (fun x s' => exists A', answers A (Rfree p) x A' /\ represents A' s' /\
    contents_kept A A' (Rfree p) (words s) (words s')) s.
Proof.
  intros (H & N & Hok & Hco & HA) Hp. cbn [serve answers]. apply wp_bind.
  destruct (decide (p = 0)) as [->|Hp0].
  { apply wp_skip, wp_ret. exists (delete 0 A). split; [done|].
    rewrite delete_id by (destruct (A !! 0) as [k|] eqn:Hk; [|done]; apply HA in Hk; destruct (block_mapped s H N 0 k Hok Hk); lia).
    split; [by exists H, N|]. by intros q j a _ _ _. }
  destruct Hp as [?|[k Hk]]; [done|]. apply HA in Hk as Hb.
  replace p with (CHUNK_TO_MEM (p - 16)) at 1 by (unfold CHUNK_TO_MEM, OVERHEAD; lia).
  assert (Hother : forall q j, delete p A !! q = Some j <-> p <> q /\ block H N q j) by (intros q j; by rewrite lookup_delete_Some, HA).
  destruct (decide (inuse_of H (p - 16) (k + 16))) as [Hc|Hc].
  - eapply wp_mono; [by apply (free_chunk_spec s H N (p - 16) (k + 16))|]. intros [] s' (H' & Hok' & Hco' & _ & Hu & Hd). apply wp_ret.
    exists (delete p A). split_and!; [done| |].
    + exists H', N. split_and!; [done|done|]. intros q j. rewrite Hother. unfold block. rewrite Hu.
      split; [intros [Hne [Hq|Hq]]; [left; split; [done|lia]|by right]|].
      intros [[Hq Hne]|Hq]; (split; [|auto]); intros <-; [done|]. by apply (exclusive s H N (p - 16) (k + 16) (j + 16)).
    + intros q j a _ [Hne [Hq|Hq]]%Hother Ha; apply Hd.
      * left. exists (q - 16), (j + 16). rewrite lookup_delete_ne by lia. destruct Hq. split; [done|lia].
      * right. exists (q - 16), (j + 16). split; [done|lia].
  - destruct Hb as [?|Hn]; [done|].
    eapply wp_mono; [by apply (free_mapped_spec s H N (p - 16) (k + 16))|]. intros [] s' (Hok' & Hd). apply wp_ret.
    exists (delete p A). split_and!; [done| |].
    + exists H, (delete (p - 16) N). split_and!; [done|done|]. intros q j. rewrite Hother. unfold block.
      rewrite lookup_delete_Some. split; [intros [Hne [Hq|Hq]]; [by left|right; split; [lia|done]]|].
      intros [Hq|[Hne Hq]]; (split; [|auto]); intros <-; [|done]. by apply (exclusive s H N (p - 16) (j + 16) (k + 16)).
    + intros q j a _ [Hne [Hq|Hq]]%Hother Ha; apply Hd.
      * left. exists (q - 16), (j + 16). destruct Hq. split; [done|lia].
      * right. exists (q - 16), (j + 16). rewrite lookup_delete_ne by lia. split; [done|lia].
Qed.

Lemma write_serves A s a v :
  represents A s -> legal A (Rwrite a v) ->
  wp (serve (Rwrite a v)) (fun x s' => exists A', answers A (Rwrite a v) x A' /\ represents A' s' /\
    contents_kept A A' (Rwrite a v) (words s) (words s')) s.
Proof.
  intros (H & N & Hok & Hco & HA) (p & k & Hp & Ha & Ha8). apply HA in Hp as Hb.
  pose proof (block_user H N p k a Hb Ha) as Hu. destruct (block_mapped s H N p k Hok Hb) as [Hm _].
  apply wp_bind, wp_store; [by apply Hm|]. apply wp_ret. exists A. split; [done|]. split.
  - exists H, N. split_and!; [|done|done]. apply (user_writes s); [done| |apply dom_le_insert].
    intros b Hnb. apply lookup_insert_ne. by intros ->.
  - intros q j b _ _ _. cbn. destruct (decide (b = a)) as [->|Hne]; [by rewrite lookup_insert_eq|by rewrite lookup_insert_ne].
Qed.

Lemma malloc_step A s r :
  represents A s -> legal A r ->
  exists x s' A', serve r s = Ok (x, s') /\ answers A r x A' /\ represents A' s' /\
    contents_kept A A' r (words s) (words s').
Proof.
  intros HA Hr.
  assert (Hwp : wp (serve r) (fun x s' => exists A', answers A r x A' /\ represents A' s' /\
    contents_kept A A' r (words s) (words s')) s).
  { destruct r; [by apply malloc_serves|by apply free_serves|by apply write_serves]. }
  destruct Hwp as (x & s' & Hs & A' & ? & ? & ?). by exists x, s', A'.
Qed.

(** C4. The allocator refines the abstract one, in which a state is the set
    of live blocks: on a well-formed heap every legal request returns (no
    access outside the mapped memory, no assertion, and the fuel of the loops
    is enough); [malloc] gives 0 or a new block of at least the size asked
    for, [free] ends the block's life, and no word of a block that stays live
    changes, whatever the allocator writes into its own chunks. *)
Theorem malloc_refines A s r :
  represents A s -> legal A r ->
  exists x s' A', serve r s = Ok (x, s') /\ answers A r x A' /\ represents A' s' /\
    contents_kept A A' r (words s) (words s').
Proof. apply malloc_step. Qed.


(** ** Sessions *)

(** Memory at the start of the process: the bins are zero, nothing is known
    of the heap. *)
Definition pristine (s : mem) : Prop :=
  (forall a, in_bins a -> a mod 8 = 0 -> words s !! a = Some 0) /\ binmap s = 0 /\ heap_end s = 0.

Inductive session : gmap Z Z -> mem -> Prop :=
| session_start s : pristine s -> session ∅ s
| session_step A s r x s' A' :
    session A s -> legal A r -> serve r s = Ok (x, s') -> answers A r x A' -> session A' s'.

Lemma answers_unique A r x A1 A2 : answers A r x A1 -> answers A r x A2 -> A1 = A2.
Proof. destruct r; cbn; [|congruence|congruence]. intros [[? ->]|(? & ? & ? & ->)] [[? ->]|(? & ? & ? & ->)]; done. Qed.

Lemma pristine_represents s : pristine s -> represents ∅ s.
Proof.
  intros (Hz & Hb & He). destruct bins_address as [_ Hb8]. exists ∅, ∅.
  assert (Ht : forall a, ~ territory ∅ a) by (intros a (c & sz & u & Hc & _); done).
  split_and!; [|intros c sz m v Hc; done|].
  - split.
    + split; intros c sz u Hc; done.
    + exists (fun _ => []). rewrite Hb. split.
      * intros i Hi. left. destruct (bin_words i Hi). unfold bin_head, bin_tail in *.
        split; [done|]. split; [apply Hz; [done|lia]|]. rewrite Hz; [eauto|done|lia].
      * intros i c Hi. split; [intros Hc; by apply not_elem_of_nil in Hc|intros (sz & Hc & _); done].
      * intros i Hi. constructor.
      * lia.
      * intros i Hi. rewrite Z.bits_0. split; [done|intros Hx; by destruct Hx].
    + intros a _. apply Ht.
    + split; [intros c sz Hc; done|intros c sz c' sz' Hc; done].
    + by left.
    + intros a Ha Ha8. rewrite Hz by done. eauto.
  - intros p k. unfold block, inuse_of. rewrite !lookup_empty. split; [done|intros [[? _]|?]; done].
Qed.

Lemma session_represents A s : session A s -> represents A s.
Proof.
  induction 1 as [s Hs|A s r x s' A' _ IH Hr Hs Ha]; [by apply pristine_represents|].
  destruct (malloc_step A s r IH Hr) as (x' & s'' & A'' & Hs' & Ha' & HA & _).
  rewrite Hs in Hs'. injection Hs' as <- <-. by rewrite (answers_unique _ _ _ _ _ Ha Ha').
Qed.

(** C9. In every state a session reaches, from the zeroed memory of a fresh
    process, whatever its requests and whatever the system gave: live blocks
    are at multiples of 16, do not overlap, and have all their words mapped;
    and the next legal request is answered. *)
Theorem session_safe A s :
  session A s ->
  (forall p k q j, A !! p = Some k -> A !! q = Some j -> p <> q -> p + k <= q \/ q + j <= p) /\
  (forall p k, A !! p = Some k -> 0 < p /\ p mod 16 = 0 /\ mapped (words s) p k) /\
  (forall r, legal A r -> exists x s' A', serve r s = Ok (x, s') /\ answers A r x A' /\ session A' s').
Proof.
  intros Hses. destruct (session_represents A s Hses) as (H & N & Hok & Hco & HA). split_and!.
  - intros p k q j Hp Hq. apply HA in Hp, Hq. by apply (block_apart s H N).
  - intros p k Hp. apply HA in Hp. by destruct (block_mapped s H N p k Hok Hp) as (? & ? & ?).
  - intros r Hr. destruct (malloc_step A s r (session_represents A s Hses) Hr) as (x & s' & A' & Hs & Ha & _).
    exists x, s', A'. split_and!; [done|done|]. by eapply session_step.
Qed.

(** What [free] notices: a chunk that is free already (and so has no free
    chunk before it), and a block in use whose end was overwritten, so that
    the sizes in its header and after its end differ. *)
Theorem free_detects s H N c sz :
  heap_ok s H N -> coalesced H ->
  (H !! c = Some (sz, false) -> free (CHUNK_TO_MEM c) s = Panic) /\
  (forall t v, H !! c = Some (sz, true) -> 0 < sz -> t <> tagged sz -> words s !! (c + sz) = Some v ->
     free (CHUNK_TO_MEM c) (s <| words ::= <[c + sz := t]> |>) = Panic).
Proof.
  intros Hok Hco. destruct (id Hok) as [T _ _ _ _ _].
  assert (Hsz : forall u, H !! c = Some (sz, u) -> sized sz /\ 0 < c).
  { intros u Hc. by destruct (tg_chunk _ _ T _ _ _ Hc) as [? _ [? _] _]. }
  assert (Hcm : MEM_TO_CHUNK (CHUNK_TO_MEM c) = c) by (unfold MEM_TO_CHUNK, CHUNK_TO_MEM; lia).
  unfold free. rewrite Hcm. split.
  - intros Hc. destruct (Hsz _ Hc) as [Hs Hc0]. rewrite (proj2 (Z.eqb_neq (CHUNK_TO_MEM c) 0)) by (unfold CHUNK_TO_MEM, OVERHEAD; lia).
    destruct (psize_inuse _ _ c sz false T Hc (free_before _ _ _ _ T Hco Hc)) as (t & Ht & Hu).
    unfold IS_MMAPPED, NEXT_CHUNK, CHUNK_SIZE, psize, csize, mbind_, load.
    rewrite (tg_csize _ _ T _ _ _ Hc). cbn [res_bind mret]. rewrite tag_inuse by done. cbn [negb]. rewrite Ht. cbn [res_bind].
    rewrite (tg_csize _ _ T _ _ _ Hc). cbn [res_bind mret]. by rewrite Hu.
  - intros t v Hc Hp Hne Hv. destruct (Hsz _ Hc) as [Hs Hc0]. rewrite (proj2 (Z.eqb_neq (CHUNK_TO_MEM c) 0)) by (unfold CHUNK_TO_MEM, OVERHEAD; lia).
    pose proof (chunk_size_min _ _ T _ _ _ Hc Hp).
    set (s' := s <| words ::= <[c + sz := t]> |>).
    assert (Wn : words s' !! (c + sz) = Some t) by (cbn; by rewrite lookup_insert_eq).
    assert (Wc : words s' !! (c + 8) = Some (tag sz true)).
    { cbn. rewrite lookup_insert_ne by lia. by apply (tg_csize _ _ T _ _ _ Hc). }
    clearbody s'. unfold IS_MMAPPED, NEXT_CHUNK, CHUNK_SIZE, psize, csize, mbind_, load.
    rewrite Wc. cbn [res_bind mret]. rewrite tag_inuse by done. cbn [negb].
    do 2 (rewrite Wc; cbn [res_bind mret]; rewrite tag_untag by done).
    rewrite Wn. cbn [res_bind]. rewrite Wc. cbn [res_bind]. change (tag sz true) with (tagged sz). by rewrite (proj2 (Z.eqb_neq _ _) Hne).
Qed.
End spec.
