(* ===== verification/MallocRealloc.v ===== *)
(** * [realloc] of a block of the heap

    Shrinking and growing in place, or a copy into a new block. *)

From Stdlib Require Import ZifyBool.
From stdpp Require Import base numbers gmap list.
From S2P Require Import Prelude Word StateMonad Malloc MallocArith MallocInv MallocOps MallocFree MallocCut MallocGrow MallocSpec.

Local Open Scope Z_scope.
Ltac Zify.zify_post_hook ::= Z.to_euclidean_division_equations.

Section realloc.
Context `{E : MallocEnv} `{!MallocLaws E}.

(** ** Copying words *)

Lemma memcpy_words_spec k dst src s :
  (forall i, 0 <= i < Z.of_nat k -> is_Some (words s !! (src + 8 * i)) /\ is_Some (words s !! (dst + 8 * i))) ->
  (forall i j, 0 <= i < Z.of_nat k -> 0 <= j < Z.of_nat k -> src + 8 * i <> dst + 8 * j) ->
  wp (memcpy_words dst src k) (fun _ s' => exists w, s' = s <| words := w |> /\ dom_le (words s) w /\
    (forall i, 0 <= i < Z.of_nat k -> w !! (dst + 8 * i) = words s !! (src + 8 * i)) /\
    (forall a, (forall i, 0 <= i < Z.of_nat k -> a <> dst + 8 * i) -> w !! a = words s !! a)) s.
Proof.
  revert dst src s. induction k as [|k IH]; intros dst src s Hm Hd; cbn [memcpy_words].
  { apply wp_skip. exists (words s). split; [by destruct s|]. split; [done|]. split; [lia|done]. }
  destruct (Hm 0 ltac:(lia)) as [[v Hv] Hdst]. rewrite Z.mul_0_r, Z.add_0_r in Hv, Hdst.
  apply wp_bind. eapply wp_load; [exact Hv|]. apply wp_bind, wp_store; [done|].
  set (s1 := s <| words ::= <[dst := v]> |>).
  assert (Hs1 : forall a, a <> dst -> words s1 !! a = words s !! a) by (intros a Ha; cbn; by rewrite lookup_insert_ne).
  assert (Hd1 : dom_le (words s) (words s1)) by apply dom_le_insert.
  assert (Hsv : words s1 !! dst = Some v) by (cbn; by rewrite lookup_insert_eq).
  eapply wp_mono; [apply (IH (dst + 8) (src + 8) s1)|].
  - intros i Hi. replace (src + 8 + 8 * i) with (src + 8 * (i + 1)) by lia. replace (dst + 8 + 8 * i) with (dst + 8 * (i + 1)) by lia.
    destruct (Hm (i + 1) ltac:(lia)). split; by apply Hd1.
  - intros i j Hi Hj. pose proof (Hd (i + 1) (j + 1) ltac:(lia) ltac:(lia)). lia.
  - intros [] s' (w & -> & Hdom & Hcp & Hk). exists w. split; [by destruct s|]. split; [by etrans|]. split.
    + intros i Hi. destruct (decide (i = 0)) as [->|Hne].
      * rewrite Hk by lia. by rewrite Z.mul_0_r, !Z.add_0_r, Hsv, Hv.
      * replace (dst + 8 * i) with (dst + 8 + 8 * (i - 1)) by lia. rewrite Hcp by lia.
        replace (src + 8 + 8 * (i - 1)) with (src + 8 * i) by lia. apply Hs1.
        pose proof (Hd i 0 ltac:(lia) ltac:(lia)). lia.
    + intros a Ha. rewrite Hk; [apply Hs1|].
      * specialize (Ha 0 ltac:(lia)). lia.
      * intros i Hi. specialize (Ha (i + 1) ltac:(lia)). lia.
Qed.

(** ** Growing in place *)

Definition regrown (H : chunks) (N : gmap Z Z) (s : mem) (c n0 n1 : Z) (s' : mem) : Prop :=
  exists H', heap_ok s' H' N /\ coalesced H' /\ H' !! c = Some (n1, true) /\ n0 <= n1 /\
    (forall d k, d <> c -> inuse_of H' d k <-> inuse_of H d k) /\ data_kept H N (words s) (words s').

Lemma realloc_grow s H N c n0 n (K : Z -> M Z) (Q : Z -> mem -> Prop) :
  heap_ok s H N -> coalesced H -> inuse_of H c n0 ->
  (forall n1 s', regrown H N s c n0 n1 s' -> wp (K n1) Q s') ->
  wp (do! grown := if n >? n0 then alloc_fwd 2 (c + n0) else mret false in
      do! (n1, nxt) := if (grown : bool) then
                         do! size := CHUNK_SIZE (c + n0) in
                         do! nxt' := NEXT_CHUNK (c + n0) in
                         mret (u64 (n0 + size), nxt')
                       else mret (n0, c + n0) in
      set_csize c (tagged n1) ;;
      set_psize nxt (tagged n1) ;; K n1) Q s.
Proof.
  intros Hok Hco [Hc Hp] HK. destruct (id Hok) as [T _ _ _ _ _]. destruct (tg_after _ _ T _ _ _ Hc Hp) as (m & v & Hm & Wn & Wm).
  destruct (tg_chunk _ _ T _ _ _ Hc) as [Hsz _ Hcr _], (tg_chunk _ _ T _ _ _ Hm) as [Hms _ Hmr _].
  pose proof (tg_csize _ _ T _ _ _ Hc) as Wc. pose proof (chunk_size_min _ _ T _ _ _ Hc Hp) as H32.
  assert (Hsame : forall s1, heap_ok s1 H N -> data_kept H N (words s) (words s1) ->
    wp (set_csize c (tagged n0) ;; set_psize (c + n0) (tagged n0) ;; K n0) Q s1).
  { intros s1 Hok1 Hd1. destruct (id Hok1) as [T1 _ _ _ _ _]. destruct (tg_next _ _ T1 _ _ _ Hc Hp) as [_ Wn1].
    pose proof (tg_csize _ _ T1 _ _ _ Hc) as Wc1. destruct s1 as [w b e en]. cbn [words] in *. chunk_unfold. repeat wp_step.
    apply HK. exists H. change (tagged n0) with (tag n0 true).
    assert (Hw : <[c + n0 := tag n0 true]> (<[c + 8 := tag n0 true]> w) = w).
    { rewrite (insert_id w (c + 8)) by done. by rewrite insert_id. }
    rewrite Hw. split_and!; done. }
  apply wp_bind. destruct (n >? n0); [|apply wp_ret; apply wp_bind, wp_ret; by apply Hsame].
  eapply wp_mono; [by apply (alloc_fwd_spec s H N (c + n0) m v 1)|].
  intros r s1 (-> & Hok1 & _ & Hd1). destruct v; cbn [negb]; [apply wp_bind, wp_ret; by apply Hsame|].
  set (H1 := <[c + n0 := (m, true)]> H) in *.
  assert (Hmp : 0 < m) by (destruct (free_chunk _ _ T _ _ Hm) as (_ & ? & _); lia).
  assert (Hc1 : H1 !! c = Some (n0, true)) by (unfold H1; by rewrite lookup_insert_ne by lia).
  assert (Hm1 : H1 !! (c + n0) = Some (m, true)) by (unfold H1; by rewrite lookup_insert_eq).
  destruct (id Hok1) as [T1 _ _ _ _ _]. pose proof (tg_csize _ _ T1 _ _ _ Hc1) as Wc1.
  destruct (tg_next _ _ T1 _ _ _ Hc1 Hp) as [_ Wn1]. pose proof (tg_csize _ _ T1 _ _ _ Hm1) as Wm1.
  destruct (tg_next _ _ T1 _ _ _ Hm1 Hmp) as [_ Wmn1].
  destruct s1 as [w b e en]. cbn [words] in *. chunk_unfold. repeat wp_step. rewrite !(tag_untag m Hms true).
  repeat wp_step. rewrite u64_small by lia. apply HK.
  exists (join_at H1 c n0 m true). change (tagged (n0 + m)) with (tag (n0 + m) true).
  split_and!; [| |unfold join_at; by rewrite lookup_insert_eq|lia| |].
  - apply (join_ok (mkMem w b e en) _ H1 N c n0 m Hok1 Hc1 Hm1 Hp Hmp); cbn [words]; [look|look| | |done|done].
    + intros a Ha1 Ha2 Ha3 Ha4. look.
    + repeat (etrans; [|apply dom_le_insert]). done.
  - apply (coalesced_free H); [done|]. intros d k Hd. by eapply taken_free, join_at_free.
  - intros d k Hne. unfold inuse_of, join_at, H1. rewrite lookup_insert_ne by done.
    destruct (decide (d = c + n0)) as [->|Hne']; [rewrite lookup_delete_eq, Hm; split; intros [? _]; done|].
    by rewrite lookup_delete_ne, lookup_insert_ne.
  - intros a Ha. cbn [words].
    assert (Ha1 : user_at H1 N a).
    { destruct Ha as [(d & k & Hd & Ha)|Ha]; [left; exists d, k; split; [|done]|by right].
      unfold H1. rewrite lookup_insert_ne; [done|congruence]. }
    destruct (chunk_tag_at _ H1 N Hok1 _ _ _ Hc1) as [Tc8 _], (chunk_tag_at _ H1 N Hok1 _ _ _ Hm1) as [_ Tm].
    specialize (Tm Hmp). rewrite !lookup_insert_ne by (apply not_eq_sym; by apply (user_tag _ H1 N Hok1)). by apply Hd1.
Qed.

(** ** The result, for the caller *)

(** The blocks after a block changed its size in place. *)
Lemma represents_resize A s s' H N H' c n0 n1 :
  heap_ok s H N -> (forall p k, A !! p = Some k <-> block H N p k) -> inuse_of H c n0 ->
  heap_ok s' H' N -> coalesced H' -> inuse_of H' c n1 ->
  (forall d k, d <> c -> inuse_of H' d k <-> inuse_of H d k) ->
  represents (<[c + 16 := n1 - 16]> A) s'.
Proof.
  intros Hok HA Hc Hok' Hco' Hc' Hu. exists H', N. split_and!; [done|done|]. intros q j. unfold block.
  destruct (decide (q = c + 16)) as [->|Hne].
  - rewrite lookup_insert_eq. replace (c + 16 - 16) with c by lia. split.
    + intros [= <-]. left. by replace (n1 - 16 + 16) with n1 by lia.
    + intros [[Hj _]|Hj]; [|by destruct (exclusive s' H' N c n1 (j + 16) Hok' Hc' Hj)].
      destruct Hc' as [Hc' _]. rewrite Hc' in Hj. injection Hj as ->. f_equal. lia.
  - rewrite lookup_insert_ne by done. rewrite HA. unfold block. rewrite Hu by lia. done.
Qed.

Definition others_kept (A : gmap Z Z) (p : Z) (w w' : gmap Z Z) : Prop :=
  forall q j a, q <> p -> A !! q = Some j -> q <= a < q + j -> w' !! a = w !! a.
Definition copied (p x len : Z) (w w' : gmap Z Z) : Prop :=
  forall i, 0 <= i < len -> i mod 8 = 0 -> w' !! (x + i) = w !! (p + i).

(** What [realloc] of the block [p] of [k] bytes to [n] may give. *)
Definition reallocated (A : gmap Z Z) (s : mem) (p k n x : Z) (s' : mem) : Prop :=
  exists A', represents A' s' /\ others_kept A p (words s) (words s') /\
    (x = 0 /\ (exists k', k <= k' /\ A' = <[p := k']> A) /\ copied p p k (words s) (words s') \/
     x <> 0 /\ (exists k', n <= k' /\ A' = <[x := k']> (delete p A)) /\ (x = p \/ A !! x = None) /\
       copied p x (k `min` n) (words s) (words s')).

Lemma others_user A H N p k w w' :
  (forall p k, A !! p = Some k <-> block H N p k) -> inuse_of H (p - 16) k ->
  (forall a, user_at (delete (p - 16) H) N a -> w' !! a = w !! a) -> others_kept A p w w'.
Proof.
  intros HA Hp Hk q j a Hne Hq Ha. apply Hk. apply HA in Hq as [[Hq _]|Hq].
  - left. exists (q - 16), (j + 16). rewrite lookup_delete_ne by lia. split; [done|lia].
  - right. exists (q - 16), (j + 16). split; [done|lia].
Qed.

(** ** The copy *)

Lemma copy_realloc_spec A s p k n n0 :
  represents A s -> A !! p = Some k -> 16 <= n0 <= n -> n0 mod 16 = 0 -> n0 - 16 <= k -> n < 2 ^ 63 ->
  wp (copy_realloc p n n0 (p - 16)) (fun x s' => exists A', represents A' s' /\ others_kept A p (words s) (words s') /\
    (x = 0 /\ A' = A /\ copied p p k (words s) (words s') \/
     x <> 0 /\ (exists k', n - 16 <= k' /\ A' = <[x := k']> (delete p A)) /\ A !! x = None /\
       copied p x (n0 - 16) (words s) (words s'))) s.
Proof.
  intros HA Hp Hn0 Hmod Hk Hn. unfold copy_realloc, OVERHEAD. rewrite !u64_small by lia.
  apply wp_bind. eapply wp_mono; [by apply malloc_serves; [|lia]|].
  intros x s1 (A1 & [[-> ->]|(Hx & Hnone & Hus & ->)] & HA1 & Hc1).
  { apply wp_ret. exists A. split_and!; [done| |left; split_and!; [done|done|]].
    - intros q j a Hne Hq Ha. by apply (Hc1 q j).
    - intros i Hi _. apply (Hc1 p k); [done|done|lia]. }
  rewrite (proj2 (Z.eqb_neq _ _) Hx). set (us := usable (n - 16)) in *.
  assert (Hpx : p <> x) by congruence.
  assert (Hp1 : <[x := us]> A !! p = Some k) by by rewrite lookup_insert_ne by done.
  destruct (id HA1) as (H & N & Hok & Hco & HB). apply HB in Hp1 as Bp. assert (Bx : block H N x us) by (apply HB; by rewrite lookup_insert_eq).
  pose proof (block_apart s1 H N p k x us Hok Bp Bx Hpx) as Hap.
  destruct (block_mapped s1 H N p k Hok Bp) as (Mp & _ & Pm), (block_mapped s1 H N x us Hok Bx) as (Mx & _ & Xm).
  unfold memcpy. apply wp_bind. eapply wp_mono; [apply (memcpy_words_spec (Z.to_nat ((n0 - 16) / 8)) x p s1)|].
  { intros i Hi. split; [apply Mp|apply Mx]; lia. }
  { intros i j Hi Hj. lia. }
  intros [] s2 (w & -> & Hdw & Hcp & Hkw).
  assert (HA2 : represents (<[x := us]> A) (s1 <| words := w |>)).
  { exists H, N. split_and!; [|done|done]. apply user_writes; [done| |done].
    intros a Ha. apply Hkw. intros i Hi ->. apply Ha. eapply block_user; [exact Bx|lia]. }
  assert (Hf : legal (<[x := us]> A) (Rfree p)) by (right; by eexists).
  pose proof (free_serves _ _ p HA2 Hf) as Hfs. cbn [serve] in Hfs. apply wp_bind_inv in Hfs.
  replace (CHUNK_TO_MEM (p - 16)) with p by (unfold CHUNK_TO_MEM, OVERHEAD; lia).
  apply wp_bind. eapply wp_mono; [exact Hfs|]. intros [] s3 (x' & s3' & Hret & A3 & HA3 & HR3 & Hc3).
  unfold mret in Hret. injection Hret as <- <-. cbn [answers] in HA3. subst A3. apply wp_ret.
  cbn in Hc3. exists (<[x := us]> (delete p A)). split_and!.
  - by rewrite <- delete_insert_ne by done.
  - intros q j a Hne Hq Ha. assert (Hqx : q <> x) by congruence.
    assert (Hq1 : <[x := us]> A !! q = Some j) by by rewrite lookup_insert_ne by done.
    rewrite (Hc3 q j); [|done|by rewrite lookup_delete_ne by done|done]. rewrite Hkw; [by apply (Hc1 q j)|].
    intros i Hi ->. apply HB in Hq1. pose proof (block_apart s1 H N q j x us Hok Hq1 Bx Hqx). lia.
  - right. split_and!; [done|exists us; split; [lia|done]|done|].
    intros i Hi Hi8. rewrite (Hc3 x us); [|by rewrite lookup_insert_eq|by rewrite lookup_delete_ne, lookup_insert_eq by done|lia].
    specialize (Hcp (i / 8) ltac:(lia)). replace (8 * (i / 8)) with i in Hcp by lia. rewrite Hcp.
    apply (Hc1 p k); [done|done|lia].
Qed.

(** A block with a header in use is one of the heap. *)
Lemma header_inuse s H N p k h :
  heap_ok s H N -> block H N p k -> words s !! (p - 8) = Some h -> inuse h = true -> inuse_of H (p - 16) (k + 16).
Proof.
  intros Hok [Hb|Hb] Hh Hu; [done|]. destruct (ms_each _ _ _ (hp_maps _ _ _ Hok) _ _ Hb) as [[_ P1] _ _ P4 _ _].
  destruct page_facts as [_ Hpg]. apply Hpg in P1. replace (p - 16 + 8) with (p - 8) in P4 by lia.
  rewrite P4 in Hh. injection Hh as <-. rewrite inuse_odd in Hu. destruct (Z.eqb_spec ((k + 16) mod 2) 0); [done|lia].
Qed.

(** C24. [realloc] of a block of the heap: it returns, and gives 0, the block
    itself, or a new block, of at least [n] bytes unless it is 0; the words
    that fit are those of the old block, in place or copied, and the other
    blocks keep theirs. After a 0 the old block is still live (the room after
    it may have been added to it). *)
Theorem realloc_heap A s p k h n :
  represents A s -> A !! p = Some k -> words s !! (p - 8) = Some h -> inuse h = true -> 0 <= n < 2 ^ 64 ->
  exists x s', realloc p n s = Ok (x, s') /\ reallocated A s p k n x s'.
Proof.
  intros HA Hp Hh Hu Hn. destruct (id HA) as (H & N & Hok & Hco & HB). apply HB in Hp as Bp.
  destruct (header_inuse s H N p k h Hok Bp Hh Hu) as [Hc Hcp]. destruct page_facts as [Hpg Hpg'].
  set (c := p - 16) in *. destruct (id Hok) as [T _ _ _ _ _]. destruct (tg_chunk _ _ T _ _ _ Hc) as [Hsz Hca Hcr _].
  pose proof (tg_csize _ _ T _ _ _ Hc) as Wc. destruct (tg_next _ _ T _ _ _ Hc Hcp) as [_ Wn].
  assert (Hsame : forall s', heap_ok s' H N -> words s' = words s -> reallocated A s p k n 0 s').
  { intros s' Hok' Hw. exists A. split; [by exists H, N|]. split; [by intros q j a _ _ _; rewrite Hw|].
    left. split_and!; [done| |by intros i _ _; rewrite Hw]. exists k. split; [done|]. by rewrite insert_id. }
  enough (Hwp : wp (realloc p n) (fun x s' => reallocated A s p k n x s') s).
  { destruct Hwp as (x & s' & ? & ?). by exists x, s'. }
  unfold realloc. rewrite (proj2 (Z.eqb_neq p 0)) by lia. apply wp_bind. unfold adjust_size.
  destruct (adjusted n) as [sz|] eqn:Had.
  2: { apply wp_bind, wp_set, wp_ret, wp_ret. apply Hsame; [|done]. by apply (heap_same s). }
  destruct (adjusted_spec n sz) as (Hs & Hle & Hmax & _); [lia|apply page_divides, Z.mod_same; lia|done|done|].
  unfold OVERHEAD, SIZE_ALIGN in Hle, Hmax. apply wp_ret. unfold MEM_TO_CHUNK, OVERHEAD. fold c.
  unfold IS_MMAPPED, NEXT_CHUNK at 1, CHUNK_SIZE at 1 2, psize, csize.
  do 2 apply wp_bind. eapply wp_load; [exact Wc|]. apply wp_ret. rewrite tag_untag by done.
  do 2 apply wp_bind. eapply wp_load; [exact Wc|]. apply wp_ret. rewrite tag_inuse by done. cbn [negb].
  do 3 apply wp_bind. eapply wp_load; [exact Wc|]. apply wp_ret, wp_ret. rewrite tag_untag by done.
  apply wp_bind. eapply wp_load; [exact Wn|]. apply wp_bind. eapply wp_load; [exact Wc|].
  rewrite Z.eqb_refl. cbn [negb].
  apply (realloc_grow s H N c (k + 16) sz
    (fun n1 => if sz <=? n1 then trim c sz ;; mret (CHUNK_TO_MEM c) else copy_realloc p sz (k + 16) c));
    [done|done|done|].
  intros n1 s1 (H1 & Hok1 & Hco1 & Hc1 & Hn1 & Hu1 & Hd1).
  destruct (tg_chunk _ _ (hp_tags _ _ _ Hok1) _ _ _ Hc1) as [_ _ Hcr1 _].
  assert (Hcp' : c + 16 = p) by (unfold c; lia).
  assert (Hdel : forall a, user_at (delete c H) N a -> user_at (delete c H1) N a).
  { intros a [(d & j & [Hne Hd]%lookup_delete_Some & Ha)|Ha]; [left|by right]. exists d, j.
    rewrite lookup_delete_ne by done. split; [|done]. apply Hu1; [done|]. split; [done|lia]. }
  destruct (Z.leb_spec sz n1).
  - apply wp_bind. eapply wp_mono; [apply (trim_spec s1 H1 N c n1 sz); try done; [by split; [|lia]|lia]|].
    intros [] s2 (H2 & Hok2 & Hco2 & _ & Hu2 & Hd2). apply wp_ret. unfold CHUNK_TO_MEM, OVERHEAD. rewrite Hcp'.
    exists (<[p := sz - 16]> A). split_and!.
    + rewrite <- Hcp'. apply (represents_resize A s s2 H N H2 c (k + 16) sz); try done.
      * apply Hu2. by right.
      * intros d j Hne. rewrite Hu2, <- Hu1 by done. split; [intros [[? _]|[? _]]; done|by left].
    + eapply others_user; [exact HB|split; [exact Hc|done]|].
      intros a Ha. rewrite Hd2 by (left; by apply Hdel). apply Hd1. by eapply user_delete.
    + right. split_and!; [lia| |by left|].
      * exists (sz - 16). split; [lia|]. by rewrite insert_delete_eq.
      * intros i Hi _. rewrite Hd2 by (right; lia). apply Hd1. eapply block_user; [exact Bp|lia].
  - assert (HA1 : represents (<[p := n1 - 16]> A) s1).
    { rewrite <- Hcp'. apply (represents_resize A s s1 H N H1 c (k + 16) n1); try done. split; [done|lia]. }
    assert (Ho1 : others_kept A p (words s) (words s1)).
    { eapply others_user; [exact HB|split; [exact Hc|done]|]. intros a Ha. apply Hd1. by eapply user_delete. }
    destruct (id Hsz) as [Hsz1 Hsz2].
    eapply wp_mono; [apply (copy_realloc_spec (<[p := n1 - 16]> A) s1 p (n1 - 16) sz (k + 16)); [done|by rewrite lookup_insert_eq|lia..]|].
    intros x s2 (A2 & HA2 & Ho2 & Hx). exists A2. split_and!; [done| |].
    + intros q j a Hne Hq Ha. rewrite (Ho2 q j a) by (done || by rewrite lookup_insert_ne by done). by apply (Ho1 q j).
    + destruct Hx as [(-> & -> & Hcop)|(Hx0 & (k' & Hk' & ->) & Hnone & Hcop)]; [left|right].
      * split_and!; [done|by exists (n1 - 16); split; [lia|]|]. intros i Hi Hi8. rewrite Hcop by lia. apply Hd1.
        eapply block_user; [exact Bp|lia].
      * assert (x <> p) by (intros ->; by rewrite lookup_insert_eq in Hnone). rewrite lookup_insert_ne in Hnone by done.
        split_and!; [done| |by right|].
        -- exists k'. split; [lia|]. by rewrite delete_insert_eq.
        -- intros i Hi Hi8. rewrite Hcop by lia. apply Hd1. eapply block_user; [exact Bp|lia].
Qed.
End realloc.
