(* ===== verification/MallocExample.v ===== *)
(** * A system for the allocator, and sessions with it

    An instance of [MallocEnv] whose system calls give the pages above the
    highest mapped address, with its laws; the witnesses of the allocator's
    theorems and runs of its code evaluate on it. *)

From Stdlib Require Import ZifyBool.
From stdpp Require Import base numbers gmap list.
From S2P Require Import Prelude Word StateMonad Malloc MallocArith MallocInv MallocOps MallocFree MallocCut MallocGrow MallocSpec MallocRealloc.

Local Open Scope Z_scope.
Ltac Zify.zify_post_hook ::= Z.to_euclidean_division_equations.

(** ** The system *)

(** Zero words at [p], [p + 8], ... *)
Fixpoint fill (w : gmap Z Z) (p : Z) (k : nat) : gmap Z Z :=
  match k with
  | O => w
  | S k => <[p := 0]> (fill w (p + 8) k)
  end.

Definition top (w : gmap Z Z) : Z := map_fold (fun a _ t => Z.max a t) 8192 w.
Definition page_up (n : Z) : Z := (n + 4095) / 4096 * 4096.

Definition give_pages (w : gmap Z Z) (n : Z) : option (Z * Z * gmap Z Z) :=
  let p := page_up (top w + 8) in
  let n := page_up n in
  if (0 <? n) && (p + n <? 2 ^ 63) then Some (p, n, fill w p (Z.to_nat (n / 8))) else None.

Fixpoint ctz_pos (p : positive) : Z :=
  match p with xO p => 1 + ctz_pos p | _ => 0 end.
Definition ctz (x : Z) : Z := match x with Zpos p => ctz_pos p | _ => 0 end.

Definition in_range (a p n : Z) : bool := (p <=? a) && (a <? p + n).

#[export] Instance paged : MallocEnv := {|
  PAGE_SIZE := 4096;
  BINS := 4096;
  a_ctz_64 := ctz;
  a_and_64 := Z.land;
  a_or_64 := Z.lor;
  expand_os := give_pages;
  mmap_os := fun w n => if n mod 4096 =? 0 then
    match give_pages w n with Some (p, _, w') => Some (p, w') | None => None end else None;
  mremap_os := fun _ _ _ _ => None;
  munmap_os := fun w p n => filter (fun x => in_range x.1 p n = false) w;
  madvise_os := fun w p n => map_imap (fun a v => Some (if in_range a p n then 0 else v)) w;
|}.

(** ** Its laws *)

Lemma fill_lookup w p k a :
  (fill w p k) !! a = if decide (p <= a < p + 8 * Z.of_nat k /\ (a - p) mod 8 = 0) then Some 0 else w !! a.
Proof.
  revert p. induction k as [|k IH]; intros p; cbn [fill]; [by rewrite decide_False by lia|].
  destruct (decide (p = a)) as [->|Hne].
  - rewrite lookup_insert_eq, decide_True; [done|]. split; [lia|]. by rewrite Z.sub_diag.
  - rewrite lookup_insert_ne, IH by done. apply decide_ext. lia.
Qed.

Lemma top_spec w : 8192 <= top w /\ forall a v, w !! a = Some v -> a <= top w.
Proof.
  unfold top. apply (map_fold_weak_ind (fun t m => 8192 <= t /\ forall a v, m !! a = Some v -> a <= t)).
  - split; [lia|]. intros a v Ha. by rewrite lookup_empty in Ha.
  - intros b u m t Hb [H1 H2]. split; [lia|]. intros a v [[-> _]|[_ Ha]]%lookup_insert_Some; [lia|].
    specialize (H2 _ _ Ha). lia.
Qed.

Lemma give_pages_provides w n p n' w' :
  give_pages w n = Some (p, n', w') -> n' = page_up n /\ provides w w' p n'.
Proof.
  unfold give_pages. destruct (_ && _) eqn:Hg; [|done]. intros [= <- <- <-]. split; [done|].
  destruct (top_spec w) as [Ht1 Ht2]. unfold page_up in *.
  apply andb_prop in Hg as [Hg1 Hg2]. set (p := (top w + 8 + 4095) / 4096 * 4096) in *. set (m := (n + 4095) / 4096 * 4096) in *.
  assert (Hp : top w < p /\ p mod 4096 = 0) by (unfold p; lia).
  assert (Hm : m mod 4096 = 0) by (unfold m; lia). clearbody p m.
  split; cbn [PAGE_SIZE paged]; [apply Hp|done|lia| | |].
  - intros a Ha. destruct (w !! a) as [v|] eqn:Hv; [|done]. apply Ht2 in Hv. lia.
  - intros a Ha Ha8. rewrite fill_lookup, decide_True by lia. eauto.
  - intros a Ha. rewrite fill_lookup, decide_False; [done|]. lia.
Qed.

Lemma ctz_pos_spec p : 0 <= ctz_pos p < Z.of_nat (Pos.size_nat p) /\ Z.testbit (Zpos p) (ctz_pos p) = true.
Proof.
  induction p as [p IH|p IH|]; cbn [ctz_pos Pos.size_nat]; [split; [lia|done]| |split; [lia|done]].
  destruct IH as [IH1 IH2]. split; [lia|]. change (Zpos (xO p)) with (2 * Zpos p).
  replace (1 + ctz_pos p) with (Z.succ (ctz_pos p)) by lia. rewrite Z.double_bits_succ. done.
Qed.

#[export] Instance paged_laws : MallocLaws paged.
Proof.
  split; cbn [PAGE_SIZE BINS a_ctz_64 a_and_64 a_or_64 expand_os mmap_os munmap_os madvise_os paged]; try done.
  - by exists 12.
  - intros x Hx. destruct x as [|p|p]; [lia| |lia]. cbn [ctz]. destruct (ctz_pos_spec p) as [Hr Ht]. split; [|done].
    split; [lia|]. destruct (decide (ctz_pos p < 64)); [done|]. rewrite testbit_high in Ht; [done|lia|lia].
  - intros w n p n' w' Hg. apply give_pages_provides in Hg as [-> Hg]. split; [unfold page_up; lia|done].
  - intros w n p w'. destruct (Z.eqb_spec (n mod 4096) 0) as [Hn|]; [|done].
    destruct (give_pages w n) as [[[q n'] w1]|] eqn:Hg; [|done]. intros [= <- <-].
    apply give_pages_provides in Hg as [-> Hg]. replace (page_up n) with n in Hg by (unfold page_up; lia). done.
  - intros w p n. split; intros a Ha.
    + destruct (w !! a) as [v|] eqn:Hv.
      * rewrite map_lookup_filter_Some. split; [done|]. cbn. unfold in_range. lia.
      * rewrite map_lookup_filter_None. by left.
    + rewrite map_lookup_filter_None. right. intros v _. cbn. unfold in_range. lia.
  - intros w p n. split; intros a Ha; rewrite map_lookup_imap.
    + destruct (w !! a); [|done]. cbn. unfold in_range. replace (_ && _) with false by lia. done.
    + destruct Ha as [v ->]. cbn. eauto.
Qed.

(** ** A process *)

Definition process : mem := mkMem (fill ∅ 4096 192) 0 0 false.

Lemma process_pristine : pristine process.
Proof.
  split_and!; [|done|done]. intros a Ha Ha8. cbn [process words]. unfold in_bins in Ha. cbn [BINS paged] in Ha.
  rewrite fill_lookup, decide_True; [done|]. change (Z.of_nat 192) with 192. lia.
Qed.

(** ** Sessions *)

Definition outcome {A} (r : res Empty_set (A * mem)) : option A := match r with Ok (a, _) => Some a | _ => None end.
Definition after (r : request) (s : mem) : mem := match serve r s with Ok (_, s') => s' | _ => s end.

Lemma serve_after r s x : outcome (serve r s) = Some x -> serve r s = Ok (x, after r s).
Proof. unfold after. destruct (serve r s) as [[a s']| | |]; cbn; congruence. Qed.

(** A block of 100 bytes, and its release. *)
Definition one_block : mem := after (Rmalloc 100) process.
Definition one_free : mem := after (Rfree 12320) one_block.

Lemma one_block_session : session {[12320 := 112]} one_block.
Proof.
  apply (session_step ∅ process (Rmalloc 100) 12320).
  - apply session_start, process_pristine.
  - cbn. lia.
  - apply serve_after. vm_compute. reflexivity.
  - right. split_and!; [done|done|vm_compute; discriminate|reflexivity].
Qed.

Lemma one_free_session : session ∅ one_free.
Proof.
  apply (session_step {[12320 := 112]} one_block (Rfree 12320) 0).
  - apply one_block_session.
  - right. by eexists.
  - apply serve_after. vm_compute. reflexivity.
  - reflexivity.
Qed.

Lemma malloc_refines_witness :
  (represents {[12320 := 112]} one_block /\ legal {[12320 := 112]} (Rmalloc 300000)) /\
  exists x s' A', serve (Rmalloc 300000) one_block = Ok (x, s') /\ answers {[12320 := 112]} (Rmalloc 300000) x A' /\
    represents A' s' /\ contents_kept {[12320 := 112]} A' (Rmalloc 300000) (words one_block) (words s').
Proof.
  assert (Hr : represents {[12320 := 112]} one_block) by apply session_represents, one_block_session.
  assert (Hl : legal {[12320 := 112]} (Rmalloc 300000)) by (cbn; lia).
  split; [done|]. apply (malloc_refines _ _ _ Hr Hl).
Defined.

Lemma session_safe_witness :
  session {[12320 := 112]} one_block /\
  exists x s' A', serve (Rwrite 12328 7) one_block = Ok (x, s') /\
    answers {[12320 := 112]} (Rwrite 12328 7) x A' /\ session A' s'.
Proof.
  split; [apply one_block_session|]. apply (session_safe _ _ one_block_session).
  exists 12320, 112. split; [done|]. split; [lia|done].
Defined.

(** The last chunk of the heap, when its footer says that it is free. *)
Lemma last_free s H N e k :
  heap_ok s H N -> heap_end s = e -> e <> 0 -> words s !! (e - 16) = Some k -> inuse k = false -> H !! (e - 16 - k) = Some (k, false).
Proof.
  intros Hok <- Hne Hk Hu. destruct (hp_end _ _ _ Hok) as [?|He]; [done|].
  by destruct (tg_before _ _ (hp_tags _ _ _ Hok) _ _ _ _ He Hk Hu).
Qed.

Lemma free_detects_witness :
  free 12320 one_free = Panic /\ free 12320 (one_block <| words ::= <[12432 := 7]> |>) = Panic.
Proof.
  assert (Ec : CHUNK_TO_MEM 12304 = 12320) by done. rewrite <- Ec. split.
  - destruct (session_represents _ _ one_free_session) as (H & N & Hok & Hco & _).
    apply (proj1 (free_detects one_free H N 12304 4064 Hok Hco)).
    change 12304 with (16384 - 16 - 4064). apply (last_free one_free H N 16384 4064 Hok); vm_compute; (reflexivity || discriminate).
  - destruct (session_represents _ _ one_block_session) as (H & N & Hok & Hco & HA).
    assert (Hb : block H N 12320 112) by by apply HA.
    assert (Hh : words one_block !! 12312 = Some 129) by (vm_compute; reflexivity).
    assert (Hf : words one_block !! 12432 = Some 129) by (vm_compute; reflexivity).
    destruct (header_inuse one_block H N 12320 112 129 Hok Hb Hh eq_refl) as [Hc Hp].
    exact (proj2 (free_detects one_block H N 12304 128 Hok Hco) 7 129 Hc Hp ltac:(vm_compute; discriminate) Hf).
Defined.

Lemma realloc_heap_witness :
  exists x s', realloc 12320 1000 one_block = Ok (x, s') /\
    reallocated {[12320 := 112]} one_block 12320 112 1000 x s'.
Proof.
  apply (realloc_heap {[12320 := 112]} one_block 12320 112 129 1000).
  - apply session_represents, one_block_session.
  - done.
  - vm_compute. reflexivity.
  - reflexivity.
  - lia.
Defined.

(** ** Shrinking a mapped block *)

Definition one_mapping : mem := after (Rmalloc 300000) process.

Lemma one_mapping_session : session {[12320 := 303072]} one_mapping.
Proof.
  apply (session_step ∅ process (Rmalloc 300000) 12320).
  - apply session_start, process_pristine.
  - cbn. lia.
  - apply serve_after. vm_compute. reflexivity.
  - right. split_and!; [done|done|vm_compute; discriminate|].
    assert (Hu : usable 300000 = 303072) by (vm_compute; reflexivity). by rewrite Hu.
Qed.

(** Shrinking a block with a mapping of its own when [mremap] fails: the
    copy into the new, smaller block takes the whole old block and runs past
    the new block's end (here into memory that is not mapped), although a
    block of the size asked for can be had. *)
Theorem realloc_shrink_overruns :
  session {[12320 := 303072]} one_mapping /\ legal {[12320 := 303072]} (Rmalloc 150000) /\
  (exists x, outcome (serve (Rmalloc 150000) one_mapping) = Some x /\ x <> 0) /\
  realloc 12320 150000 one_mapping = Panic.
Proof.
  split; [apply one_mapping_session|]. split; [cbn; lia|]. split.
  - exists 315424. split; [vm_compute; reflexivity|lia].
  - vm_compute. reflexivity.
Qed.

Lemma request_size_witness :
  exists r s', adjust_size (2 ^ 63) process = Ok (r, s') /\ words s' = words process /\
  match r with
  | Some sz => s' = process /\ sized sz /\ 2 ^ 63 + OVERHEAD <= sz < 2 ^ 63 + OVERHEAD + SIZE_ALIGN /\ SIZE_ALIGN <= sz <= 2 ^ 63 - PAGE_SIZE
  | None => enomem s' = true /\ PTRDIFF_MAX - SIZE_ALIGN - PAGE_SIZE + 1 < 2 ^ 63
  end.
Proof. apply (request_size (2 ^ 63) process). lia. Defined.
