(* ===== verification/Nfp.v ===== *)
(** * Areas of the NFP's internal bus: [src/examples/nfp_cppcore.c]

    The driver core gives its clients windows ("areas") into the address
    spaces behind the network processor's internal bus.  Areas are counted
    twice, by users of the memory ([kref]) and by holders of the hardware
    window ([refcount]); they are kept in a sorted list of resources; and a
    least-recently-used list of permanent areas serves short reads and writes.

    Areas live at addresses of a heap: an access through the address of a
    freed area is a crash.  The mutexes and the wait queue order concurrent
    callers and are not needed for one caller at a time; they are left out.

    The operations of the hardware, the kernel's allocator and wait queue,
    the headers' constants, and the functions of the driver's other files are
    the fields of [NfpOps] and [NfpLib]. *)

From Stdlib Require Import Ascii.
From stdpp Require Import base numbers gmap strings list.
From S2P Require Import Prelude StateMonad.

Local Open Scope Z_scope.
Open Scope store_scope.

(** [errno.h] *)
Definition EIO : Z := 5.
Definition EAGAIN : Z := 11.
Definition ENOMEM : Z := 12.
Definition ENODEV : Z := 19.
Definition EINVAL : Z := 22.
Definition ERESTARTSYS : Z := 512.

(** ** Data *)

(** [struct nfp_cpp_area], with the [struct nfp_cpp_resource] in it. *)
Record area := mkArea {
  a_kref : Z;
  a_refcount : Z;
  a_offset : Z;
  a_size : Z;
  r_name : string;
  r_cpp_id : Z;
  r_start : Z;
  r_end : Z;
}.
#[export] Instance area_upd : Updatable area :=
  (rd_pure mkArea <&> a_kref <&> a_refcount <&> a_offset <&> a_size <&> r_name <&> r_cpp_id
     <&> r_start <&> r_end)%upd.

(** [struct nfp_cpp_area_cache] *)
Record area_cache := mkCache { c_id : Z; c_addr : Z; c_size : Z; c_area : Z }.
#[export] Instance area_cache_upd : Updatable area_cache :=
  (rd_pure mkCache <&> c_id <&> c_addr <&> c_size <&> c_area)%upd.

(** The hardware's operations, on a state [D] of the device: [None] for an
    operation that is not provided. *)
Class NfpOps (D : Type) := {
  area_init : option (Z -> Z -> Z -> Z -> D -> Z * D);
  area_cleanup : option (Z -> D -> D);
  area_acquire : option (Z -> D -> Z * D);
  area_release : option (Z -> D -> D);
  (** result and the bytes read *)
  area_read : Z -> Z -> Z -> D -> Z * list Z * D;
  area_write : Z -> Z -> list Z -> D -> Z * D;
  (** the kernel: an address for a new area, memory for a cache entry, and
      waiting until an attempt does not give [-EAGAIN]: the status of the
      last attempt, or [None] after a signal *)
  kzalloc_area : gmap Z area -> option Z;
  kzalloc_cache : list area_cache -> bool;
  wait_acquired : (D -> Z * D) -> D -> option Z * D;
  device_unregister : D -> D;
  (** other files of the driver: error, CPP id and address on the target *)
  nfp_target_cpp : Z -> Z -> list Z -> Z * Z * Z;
  nfp_cppat_mu_locality_lsb : Z -> bool -> Z;
  NFP_CPP_ID : Z -> Z -> Z -> Z;
  NFP_CPP_ACTION_RW : Z;
  NFP_CPP_TARGET_MU : nat;
  NFP_CPP_TARGET_ARM : Z;
  NFP_CPP_SAFE_AREA_SIZE : Z;
  NFP_ARM_GCSR : Z;
  (** [NFP_CPP_INTERFACE_TYPE_of(x) == NFP_CPP_INTERFACE_TYPE_ARM] *)
  interface_is_arm : Z -> bool;
}.

(** [struct nfp_cpp]: the resource list holds the addresses of its areas. *)
Record nfp (D : Type) := mkNfp {
  areas : gmap Z area;
  resource_list : list Z;
  area_cache_list : list area_cache;
  imb_cat_table : list Z;
  mu_locality_lsb : Z;
  model : Z;
  interface : Z;
  serial : list Z;
  device : D;
}.
#[global] Arguments mkNfp {D}.
#[global] Arguments areas {D}.
#[global] Arguments resource_list {D}.
#[global] Arguments area_cache_list {D}.
#[global] Arguments imb_cat_table {D}.
#[global] Arguments mu_locality_lsb {D}.
#[global] Arguments model {D}.
#[global] Arguments interface {D}.
#[global] Arguments serial {D}.
#[global] Arguments device {D}.
#[export] Instance nfp_upd D : Updatable (nfp D) :=
  (rd_pure mkNfp <&> areas <&> resource_list <&> area_cache_list <&> imb_cat_table
     <&> mu_locality_lsb <&> model <&> interface <&> serial <&> device)%upd.

(** [int] and [atomic_t] wrap around. *)
Definition i32 (x : Z) : Z := (x + 2 ^ 31) mod 2 ^ 32 - 2 ^ 31.

Section nfp.
Context {D : Type} `{Ops : NfpOps D}.

(** An access to an area, and to the device. *)
Definition get_area (p : Z) : SM (nfp D) area := fun s =>
  match areas s !! p with Some a => Ok (a, s) | None => Panic end.
Definition put_area (p : Z) (a : area) : SM (nfp D) unit := fun s =>
  match areas s !! p with Some _ => Ok (tt, s <| areas ::= <[p := a]> |>) | None => Panic end.
Definition on_device {A} (f : D -> A * D) : SM (nfp D) A := fun s =>
  let '(a, d) := f (device s) in Ok (a, s <| device := d |>).
Definition run_device (f : D -> D) : SM (nfp D) unit := mset (fun s => s <| device ::= f |>).

(** ** Resources and reference counts *)

Definition resource_after (tmp : area) (cpp_id start : Z) : bool :=
  (r_cpp_id tmp >? cpp_id) || ((r_cpp_id tmp =? cpp_id) && (r_start tmp >? start)).

Fixpoint resource_insert (p cpp_id start : Z) (l : list Z) : SM (nfp D) (list Z) :=
  match l with
  | [] => mret [p]
  | q :: l' =>
      do! tmp := get_area q in
      if resource_after tmp cpp_id start then mret (p :: l)
      else do! l' := resource_insert p cpp_id start l' in mret (q :: l')
  end.

Definition resource_add (p : Z) : SM (nfp D) unit :=
  do! res := get_area p in
  do! l := mget resource_list in
  do! l := resource_insert p (r_cpp_id res) (r_start res) l in
  mset (fun s => s <| resource_list := l |>).

Definition resource_del (p : Z) : SM (nfp D) unit :=
  mset (fun s => s <| resource_list ::= filter (fun q => q <> p) |>).

Definition kfree (p : Z) : SM (nfp D) unit := mset (fun s => s <| areas ::= delete p |>).

Definition release_cpp_area (p : Z) : SM (nfp D) unit :=
  do! _ := get_area p in
  match area_cleanup with Some f => run_device (f p) | None => mskip end ;;
  resource_del p ;;
  kfree p.

Definition nfp_cpp_area_put (p : Z) : SM (nfp D) unit :=
  do! a := get_area p in
  put_area p (a <| a_kref ::= fun k => k - 1 |>) ;;
  mwhen (a_kref a - 1 =? 0) (release_cpp_area p).

Definition nfp_cpp_area_get (p : Z) : SM (nfp D) unit :=
  do! a := get_area p in put_area p (a <| a_kref ::= fun k => k + 1 |>).

(** ** Allocation *)

Definition nfp_cpp_area_alloc_with_name (dest : Z) (name : option string) (address size : Z) : SM (nfp D) Z :=
  do! table := mget imb_cat_table in
  let '(err, dest, tmp64) := nfp_target_cpp dest address table in
  if err <? 0 then mret 0
  else
    let address := tmp64 in
    let name := default "(reserved)"%string name in
    do! heap := mget areas in
    match kzalloc_area heap with
    | None => mret 0
    | Some p =>
        mset (fun s => s <| areas ::=
          <[p := mkArea 1 0 0 0 name dest address (u64 (address + size - 1))]> |>) ;;
        do! err := match area_init with
                   | Some f => on_device (f p dest address size)
                   | None => mret 0
                   end in
        if err <? 0 then kfree p ;; mret 0
        else
          resource_add p ;;
          do! a := get_area p in
          put_area p (a <| a_offset := address |> <| a_size := size |>) ;;
          mret p
    end.

Definition nfp_cpp_area_alloc (dest address size : Z) : SM (nfp D) Z :=
  nfp_cpp_area_alloc_with_name dest None address size.

Definition nfp_cpp_area_free (p : Z) : SM (nfp D) unit :=
  do! _ := get_area p in nfp_cpp_area_put p.

(** ** Acquiring the hardware window *)

Definition inc_refcount (p : Z) : SM (nfp D) Z :=
  do! a := get_area p in
  let n := i32 (a_refcount a + 1) in
  put_area p (a <| a_refcount := n |>) ;; mret n.
Definition dec_refcount (p : Z) : SM (nfp D) Z :=
  do! a := get_area p in
  let n := i32 (a_refcount a - 1) in
  put_area p (a <| a_refcount := n |>) ;; mret n.

Definition nfp_cpp_area_acquire (p : Z) : SM (nfp D) Z :=
  do! n := inc_refcount p in
  if n >? 1 then mret 0
  else
    match area_acquire with
    | None => mret 0
    | Some f =>
        do! status := on_device (wait_acquired (f p)) in
        let err := default (- ERESTARTSYS) status in
        if negb (err =? 0) then do! _ := dec_refcount p in mret err
        else nfp_cpp_area_get p ;; mret 0
    end.

Definition nfp_cpp_area_acquire_nonblocking (p : Z) : SM (nfp D) Z :=
  do! n := inc_refcount p in
  do! err := if n =? 1 then
               match area_acquire with Some f => on_device (f p) | None => mret 0 end
             else mret 0 in
  if err <? 0 then do! _ := dec_refcount p in mret err
  else nfp_cpp_area_get p ;; mret 0.

Definition nfp_cpp_area_release (p : Z) : SM (nfp D) unit :=
  do! n := dec_refcount p in
  mwhen (n =? 0) match area_release with Some f => run_device (f p) | None => mskip end ;;
  nfp_cpp_area_put p.

Definition nfp_cpp_area_release_free (p : Z) : SM (nfp D) unit :=
  nfp_cpp_area_release p ;; nfp_cpp_area_free p.

Definition nfp_cpp_area_alloc_acquire (name : option string) (dest address size : Z) : SM (nfp D) Z :=
  do! p := nfp_cpp_area_alloc_with_name dest name address size in
  if p =? 0 then mret 0
  else
    do! err := nfp_cpp_area_acquire p in
    if negb (err =? 0) then nfp_cpp_area_free p ;; mret 0
    else mret p.

(** ** Access to an area *)

Definition nfp_cpp_area_read (p offset length : Z) : SM (nfp D) (Z * list Z) :=
  do! _ := get_area p in
  on_device (area_read p offset length).
Definition nfp_cpp_area_write (p offset : Z) (bytes : list Z) : SM (nfp D) Z :=
  do! _ := get_area p in
  on_device (area_write p offset bytes).

(** [put_unaligned_le32] and [get_unaligned_le32], and for 64 bits. *)
Fixpoint le_bytes (k : nat) (v : Z) : list Z :=
  match k with
  | O => []
  | S k => v mod 256 :: le_bytes k (v / 256)
  end.
Fixpoint le_value (l : list Z) : Z :=
  match l with
  | [] => 0
  | b :: l => b + 256 * le_value l
  end.

(** The value is written only on success. *)
Definition area_readn (k : nat) (p offset : Z) : SM (nfp D) (Z * option Z) :=
  do! (n, tmp) := nfp_cpp_area_read p offset (Z.of_nat k) in
  if negb (n =? Z.of_nat k) then mret (if n <? 0 then n else - EIO, None)
  else mret (0, Some (le_value tmp)).
Definition area_writen (k : nat) (p offset value : Z) : SM (nfp D) Z :=
  do! n := nfp_cpp_area_write p offset (le_bytes k value) in
  mret (if n =? Z.of_nat k then 0 else if n <? 0 then n else - EIO).

Definition nfp_cpp_area_readl := area_readn 4.
Definition nfp_cpp_area_writel := area_writen 4.
Definition nfp_cpp_area_readq := area_readn 8.
Definition nfp_cpp_area_writeq := area_writen 8.

(** [k] more words from offset [i] on. *)
Fixpoint fill_words (k : nat) (p offset value i : Z) : SM (nfp D) Z :=
  match k with
  | O => mret (i32 i)
  | S k =>
      do! n := nfp_cpp_area_write p (u64 (offset + i)) (le_bytes 4 value) in
      if n <? 0 then mret n else fill_words k p offset value (i + 4)
  end.
Definition nfp_cpp_area_fill (p offset value length : Z) : SM (nfp D) Z :=
  if negb (offset mod 4 =? 0) || negb (length mod 4 =? 0) then mret (- EINVAL)
  else fill_words (Z.to_nat (length / 4)) p offset value 0.

(** ** The cache of areas *)

Definition nfp_cpp_area_cache_add (size : Z) : SM (nfp D) Z :=
  do! p := nfp_cpp_area_alloc (NFP_CPP_ID 7 NFP_CPP_ACTION_RW 0) 0 size in
  if p =? 0 then mret (- ENOMEM)
  else
    do! l := mget area_cache_list in
    if negb (kzalloc_cache l) then nfp_cpp_area_free p ;; mret (- ENOMEM)
    else
      mset (fun s => s <| area_cache_list ::= fun l => l ++ [mkCache 0 0 (as_u32 size) p] |>) ;;
      mret 0.

(** The entry whose window holds the range. *)
Definition cache_match (id addr length : Z) (c : area_cache) : bool :=
  (id =? c_id c) && (addr >=? c_addr c) && (u64 (addr + length) <=? u64 (c_addr c + c_size c)).
Definition find_match (id addr length : Z) (l : list area_cache) : option (nat * area_cache) :=
  list_find (fun c => cache_match id addr length c = true) l.

Definition round_down (x y : Z) : Z := Z.land x (u64 (Z.lnot (as_u32 (y - 1)))).

Definition set_cache (i : nat) (c : area_cache) : SM (nfp D) unit :=
  mset (fun s => s <| area_cache_list ::= <[i := c]> |>).

(** Point the entry [i], the last one, to another window. *)
Definition cache_retarget (i : nat) (c : area_cache) (id addr : Z) : SM (nfp D) bool :=
  do! c := if negb (c_id c =? 0) then
             nfp_cpp_area_release (c_area c) ;;
             let c := c <| c_id := 0 |> <| c_addr := 0 |> in
             set_cache i c ;; mret c
           else mret c in
  let c := c <| c_id := id |> <| c_addr := round_down addr (c_size c) |> in
  set_cache i c ;;
  do! err := match area_init with
             | Some f =>
                 do! _ := get_area (c_area c) in
                 on_device (f (c_area c) id (c_addr c) (c_size c))
             | None => mret 0
             end in
  if err <? 0 then mret false
  else
    do! err := nfp_cpp_area_acquire (c_area c) in
    mret (negb (err <? 0)).

(** The position of the entry to use, its area, and the offset in its window. *)
Definition area_cache_get (id addr offset length : Z) : SM (nfp D) (option (nat * Z * Z)) :=
  if (length =? 0) || (id =? 0) then mret None
  else
    do! table := mget imb_cat_table in
    let '(err, id, addr) := nfp_target_cpp id addr table in
    if err <? 0 then mret None
    else
      do! l := mget area_cache_list in
      if decide (l = []) then mret None
      else
        let addr := u64 (addr + offset) in
        match find_match id addr length l with
        | Some (i, c) => mret (Some (i, c_area c, u64 (addr - c_addr c)))
        | None =>
            let i := pred (base.length l) in
            match l !! i with
            | None => mret None
            | Some c =>
                if negb (round_down (u64 (addr + length - 1)) (c_size c) =? round_down addr (c_size c)) then mret None
                else
                  do! ok := cache_retarget i c id addr in
                  if (ok : bool) then mret (Some (i, c_area c, u64 (addr - round_down addr (c_size c))))
                  else mret None
            end
        end.

(** [list_move]: the entry becomes the first. *)
Definition area_cache_put (i : nat) : SM (nfp D) unit :=
  mset (fun s => s <| area_cache_list ::= fun l =>
    match l !! i with Some c => c :: take i l ++ drop (S i) l | None => l end |>).

(** ** Reading and writing by address *)

(** The area for an access: a cached one with its position, or a new one. *)
Definition access_area (dest address length : Z) : SM (nfp D) (Z + option nat * Z * Z) :=
  do! cache := area_cache_get dest address 0 length in
  match cache with
  | Some (i, p, offset) => mret (inr (Some i, p, offset))
  | None =>
      do! p := nfp_cpp_area_alloc dest address length in
      if p =? 0 then mret (inl (- ENOMEM))
      else
        do! err := nfp_cpp_area_acquire p in
        if negb (err =? 0) then nfp_cpp_area_free p ;; mret (inl err)
        else mret (inr (None, p, 0))
  end.

Definition access_done (cache : option nat) (p : Z) : SM (nfp D) unit :=
  match cache with
  | Some i => area_cache_put i
  | None => nfp_cpp_area_release_free p
  end.

(** [__nfp_cpp_read] and [__nfp_cpp_write] *)
Definition cpp_read_window (dest address length : Z) : SM (nfp D) (Z * list Z) :=
  do! r := access_area dest address length in
  match r with
  | inl err => mret (err, [])
  | inr (cache, p, offset) =>
      do! (n, bytes) := nfp_cpp_area_read p offset length in
      access_done cache p ;;
      mret (n, bytes)
  end.
Definition cpp_write_window (dest address : Z) (bytes : list Z) : SM (nfp D) Z :=
  do! r := access_area dest address (Z.of_nat (base.length bytes)) in
  match r with
  | inl err => mret err
  | inr (cache, p, offset) =>
      do! n := nfp_cpp_area_write p offset bytes in
      access_done cache p ;;
      mret n
  end.

(** [ALIGN(x, a)], and the length of the next access: up to the end of the
    safe window. *)
Definition ALIGN (x a : Z) : Z := Z.land (u64 (x + (a - 1))) (u64 (Z.lnot (a - 1))).
Definition window_step (addr left : Z) : Z :=
  Z.min left (u64 (ALIGN (u64 (addr + 1)) NFP_CPP_SAFE_AREA_SIZE - addr)).

Fixpoint read_windows (fuel : nat) (dest address length offset : Z) : SM (nfp D) (Z * list Z) :=
  if offset <? length then
    match fuel with
    | O => no_fuel
    | S fuel =>
        let n := window_step (u64 (address + offset)) (length - offset) in
        do! (ret, bytes) := cpp_read_window dest (u64 (address + offset)) n in
        if ret <? 0 then mret (ret, bytes)
        else if negb (ret =? n) then mret (i32 (offset + n), bytes)
        else
          do! (ret, rest) := read_windows fuel dest address length (offset + n) in
          mret (ret, bytes ++ rest)
    end
  else mret (i32 length, []).
Definition nfp_cpp_read (dest address length : Z) : SM (nfp D) (Z * list Z) :=
  read_windows (Z.to_nat length) dest address length 0.

Fixpoint write_windows (fuel : nat) (dest address offset : Z) (bytes : list Z) : SM (nfp D) Z :=
  match bytes with
  | [] => mret (i32 offset)
  | _ =>
      match fuel with
      | O => no_fuel
      | S fuel =>
          let n := window_step (u64 (address + offset)) (Z.of_nat (base.length bytes)) in
          do! ret := cpp_write_window dest (u64 (address + offset)) (take (Z.to_nat n) bytes) in
          if ret <? 0 then mret ret
          else if negb (ret =? n) then mret (i32 (offset + n))
          else write_windows fuel dest address (offset + n) (drop (Z.to_nat n) bytes)
      end
  end.
Definition nfp_cpp_write (dest address : Z) (bytes : list Z) : SM (nfp D) Z :=
  write_windows (base.length bytes) dest address 0 bytes.

(** ** Start and end *)

Definition nfp_cpp_set_mu_locality_lsb : SM (nfp D) Z :=
  do! table := mget imb_cat_table in
  let imbcppat := nth NFP_CPP_TARGET_MU table 0 in
  let mode := Z.land (Z.shiftr imbcppat 13) 7 in
  let addr40 := negb (Z.land imbcppat (Z.shiftl 1 12) =? 0) in
  let res := nfp_cppat_mu_locality_lsb mode addr40 in
  if res <? 0 then mret res
  else mset (fun s => s <| mu_locality_lsb := res |>) ;; mret 0.

(** Drop the entries of the cache, then what is left of the resources. *)
Fixpoint free_caches (l : list area_cache) : SM (nfp D) unit :=
  match l with
  | [] => mskip
  | c :: l =>
      mset (fun s => s <| area_cache_list ::= tail |>) ;;
      mwhen (negb (c_id c =? 0)) (nfp_cpp_area_release (c_area c)) ;;
      nfp_cpp_area_free (c_area c) ;;
      free_caches l
  end.
Fixpoint free_dangling (l : list Z) : SM (nfp D) unit :=
  match l with
  | [] => mskip
  | p :: l =>
      do! _ := get_area p in
      match area_release with Some f => run_device (f p) | None => mskip end ;;
      release_cpp_area p ;;
      free_dangling l
  end.

(** [op->free] may be missing. *)
Definition nfp_cpp_free (op_free : option (D -> D)) : SM (nfp D) unit :=
  do! caches := mget area_cache_list in
  free_caches caches ;;
  do! dangling := mget resource_list in
  free_dangling dangling ;;
  match op_free with Some f => run_device f | None => mskip end ;;
  run_device device_unregister.
End nfp.

(** What the start of the core calls: the device's operations that get the
    core itself, and the functions of the driver's library, which are built
    on [nfp_cpp_read] and [nfp_cpp_write]. *)
Class NfpLib (D : Type) := {
  nfp_cpp_readl : Z -> Z -> SM (nfp D) (Z * Z);
  nfp_cpp_writel : Z -> Z -> Z -> SM (nfp D) Z;
  op_get_interface : D -> Z;
  op_read_serial : option (D -> Z * list Z);
  op_init : option (SM (nfp D) Z);
  device_register : D -> Z * D;
  kzalloc_cpp : D -> bool;
  nfp_cpp_model_autodetect : SM (nfp D) (Z * Z);
  NFP_SERIAL_LEN : nat;
}.

Section core.
Context {D : Type} `{Ops : NfpOps D} `{Lib : NfpLib D}.

(** ** The XPB bus *)

Definition not32 (x : Z) : Z := as_u32 (Z.lnot x).

(** The CPP id, and the address fixed up. *)
Definition nfp_xpb_to_cpp (interface xpb_addr : Z) : Z * Z :=
  let xpb := NFP_CPP_ID 14 NFP_CPP_ACTION_RW 0 in
  let island := Z.land (Z.shiftr xpb_addr 24) 0x3f in
  if island =? 0 then (xpb, xpb_addr)
  else if negb (island =? 1) then (xpb, Z.lor xpb_addr (Z.shiftl 1 30))
  else
    let xpb_addr := Z.land xpb_addr (not32 0x7f000000) in
    if xpb_addr <? 0x60000 then (xpb, Z.lor xpb_addr (Z.shiftl 1 30))
    else if negb (interface_is_arm interface) then (xpb, Z.lor xpb_addr (Z.shiftl 1 24))
    else (xpb, xpb_addr).

Definition nfp_xpb_readl (xpb_addr : Z) : SM (nfp D) (Z * Z) :=
  do! ifc := mget interface in
  let '(cpp_dest, xpb_addr) := nfp_xpb_to_cpp ifc xpb_addr in
  nfp_cpp_readl cpp_dest xpb_addr.
Definition nfp_xpb_writel (xpb_addr value : Z) : SM (nfp D) Z :=
  do! ifc := mget interface in
  let '(cpp_dest, xpb_addr) := nfp_xpb_to_cpp ifc xpb_addr in
  nfp_cpp_writel cpp_dest xpb_addr value.
Definition masked (tmp mask value : Z) : Z := Z.lor (Z.land tmp (not32 mask)) (Z.land mask value).
Definition nfp_xpb_writelm (xpb_tgt mask value : Z) : SM (nfp D) Z :=
  do! (err, tmp) := nfp_xpb_readl xpb_tgt in
  if err <? 0 then mret err
  else nfp_xpb_writel xpb_tgt (masked tmp mask value).

(** ** The handle *)

(** The registers of the mapping table, from entry [tgt] on. *)
Fixpoint read_imb_table (k : nat) (tgt : nat) : SM (nfp D) Z :=
  match k with
  | O => mret 0
  | S k =>
      do! (err, v) := nfp_xpb_readl (0x000a0000 + Z.of_nat tgt * 4) in
      if err <? 0 then mret err
      else mset (fun s => s <| imb_cat_table ::= <[tgt := v]> |>) ;; read_imb_table k (S tgt)
  end.

Definition NFP_ARM_GCSR_SOFTMODEL2 : Z := 0x14c.
Definition NFP_ARM_GCSR_SOFTMODEL3 : Z := 0x150.

(** The core's work once the device is registered. *)
Definition start_core : SM (nfp D) Z :=
  do! err := match op_init with Some f => f | None => mret 0 end in
  if err <? 0 then mret err
  else
    do! (err, m) := nfp_cpp_model_autodetect in
    if err <? 0 then mret err
    else
      mset (fun s => s <| model := m |>) ;;
      do! err := read_imb_table 16 0 in
      if err <? 0 then mret err
      else
        let arm := NFP_CPP_ID NFP_CPP_TARGET_ARM NFP_CPP_ACTION_RW 0 in
        do! _ := nfp_cpp_readl arm (NFP_ARM_GCSR + NFP_ARM_GCSR_SOFTMODEL2) in
        do! _ := nfp_cpp_readl arm (NFP_ARM_GCSR + NFP_ARM_GCSR_SOFTMODEL3) in
        nfp_cpp_set_mu_locality_lsb.

(** The handle, or an error and what becomes of the device. *)
Definition nfp_cpp_from_operations (d : D) : res Empty_set (Z * D + nfp D) :=
  if negb (kzalloc_cpp d) then Ok (inl (- ENOMEM, d))
  else
    let ifc := op_get_interface d in
    if ifc <? 0 then Ok (inl (ifc, d))
    else
      let '(err, sn) := match op_read_serial with Some f => f d | None => (0, repeat 0 NFP_SERIAL_LEN) end in
      if negb (err =? 0) then Ok (inl (err, d))
      else
        let '(err, d) := device_register d in
        if err <? 0 then Ok (inl (err, d))
        else
          let cpp := mkNfp ∅ [] [] (repeat 0 16) 0 0 (ifc mod 2 ^ 16) sn d in
          let* (err, cpp) := start_core cpp in
          if err <? 0 then Ok (inl (err, device_unregister (device cpp))) else Ok (inr cpp).
End core.

(** ** Explicit commands *)

Record explicit_command := mkExplicit {
  e_cpp_id : Z; e_len : Z; e_byte_mask : Z;
  e_data_master : Z; e_data_ref : Z;
  e_signal_master : Z; e_signal_ref : Z;
  e_posted : Z; e_siga : Z; e_sigb : Z; e_siga_mode : Z; e_sigb_mode : Z;
}.
#[export] Instance explicit_upd : Updatable explicit_command :=
  (rd_pure mkExplicit <&> e_cpp_id <&> e_len <&> e_byte_mask <&> e_data_master <&> e_data_ref
     <&> e_signal_master <&> e_signal_ref <&> e_posted <&> e_siga <&> e_sigb <&> e_siga_mode <&> e_sigb_mode)%upd.

Definition nfp_cpp_explicit_set_target (expl : explicit_command) (cpp_id len mask : Z) : explicit_command :=
  expl <| e_cpp_id := cpp_id |> <| e_len := len |> <| e_byte_mask := mask |>.
Definition nfp_cpp_explicit_set_data (expl : explicit_command) (data_master data_ref : Z) : explicit_command :=
  expl <| e_data_master := data_master |> <| e_data_ref := data_ref |>.
Definition nfp_cpp_explicit_set_signal (expl : explicit_command) (signal_master signal_ref : Z) : explicit_command :=
  expl <| e_signal_master := signal_master |> <| e_signal_ref := signal_ref |>.
Definition nfp_cpp_explicit_set_posted (expl : explicit_command) (posted siga siga_mode sigb sigb_mode : Z) : explicit_command :=
  expl <| e_posted := posted |> <| e_siga := siga |> <| e_sigb := sigb |>
       <| e_siga_mode := siga_mode |> <| e_sigb_mode := sigb_mode |>.

(** [NFP_EXPL_OP]: an operation of the device that may be missing. *)
Definition NFP_EXPL_OP {D A : Type} (op : option (A -> D -> Z * D)) (a : A) (d : D) : Z * D :=
  match op with Some f => f a d | None => (- ENODEV, d) end.

(** The command of a new explicit area, all zero, if there is memory for it
    and the device gives one. *)
Definition nfp_cpp_explicit_acquire {D : Type} (memory : bool) (op : option (unit -> D -> Z * D)) (d : D)
    : option explicit_command * D :=
  if negb memory then (None, d)
  else
    let '(err, d) := NFP_EXPL_OP op tt d in
    if err <? 0 then (None, d) else (Some (mkExplicit 0 0 0 0 0 0 0 0 0 0 0 0), d).
Definition nfp_cpp_explicit_put {D : Type} (op : option (list Z -> D -> Z * D)) (buff : list Z) (d : D) : Z * D :=
  NFP_EXPL_OP op buff d.
Definition nfp_cpp_explicit_do {D : Type} (op : option (explicit_command * Z -> D -> Z * D))
    (expl : explicit_command) (address : Z) (d : D) : Z * D :=
  NFP_EXPL_OP op (expl, address) d.
(** The bytes read are part of the device's state after the call. *)
Definition nfp_cpp_explicit_get {D : Type} (op : option (Z -> D -> Z * D)) (len : Z) (d : D) : Z * D :=
  NFP_EXPL_OP op len d.
(** [NFP_EXPL_OP_NR] *)
Definition nfp_cpp_explicit_release {D : Type} (op : option (D -> D)) (d : D) : D :=
  match op with Some f => f d | None => d end.
