(* ===== verification/NfpAreas.v ===== *)
(** * Counting, moving and owning areas

    What the device documents, and what each operation on an area does to the
    areas, the cache and the device under it: the invariant [nfp_ok] of the
    core between accesses, and its preservation. *)

From Stdlib Require Import ZifyBool.
From stdpp Require Import base numbers gmap strings list.
From S2P Require Import Prelude Word StateMonad Nfp.

Local Open Scope Z_scope.
Ltac Zify.zify_post_hook ::= Z.to_euclidean_division_equations.

(** ** What the device documents *)

(** The bytes of the targets, the window an area is configured for, and
    whether the area holds it. *)
Class NfpView (D : Type) := {
  target_byte : D -> Z -> Z -> Z;
  window : D -> Z -> option (Z * Z * Z);
  held : D -> Z -> bool;
}.

Section view.
Context {D : Type} `{V : NfpView D}.

Definition same_bytes (d d' : D) : Prop := forall id a, target_byte d' id a = target_byte d id a.
(** Nothing changes for areas other than [p]. *)
Definition others_same (p : Z) (d d' : D) : Prop :=
  forall q, q <> p -> window d' q = window d q /\ held d' q = held d q.
Definition areas_same (d d' : D) : Prop := forall q, window d' q = window d q /\ held d' q = held d q.

(** Memory of the targets, by CPP id and address. *)
Definition bytes_upd (m : Z -> Z -> Z) (id a v : Z) : Z -> Z -> Z :=
  fun id' a' => if decide (id' = id /\ a' = a) then v else m id' a'.
Fixpoint bytes_put (m : Z -> Z -> Z) (id a : Z) (l : list Z) : Z -> Z -> Z :=
  match l with
  | [] => m
  | v :: l => bytes_put (bytes_upd m id a v) id (a + 1) l
  end.
Fixpoint bytes_get (m : Z -> Z -> Z) (id a : Z) (k : nat) : list Z :=
  match k with
  | O => []
  | S k => m id a :: bytes_get m id (a + 1) k
  end.
End view.

(** An operation of the device gives its result or a negative error.
    Whatever it gives, it leaves the areas it is not called on alone, and
    only a write changes the targets' memory. *)
Class NfpLaws (D : Type) (Ops : NfpOps D) (V : NfpView D) : Prop := {
  init_law : exists f, area_init = Some f /\ forall p id addr size d,
    let '(err, d') := f p id addr size d in same_bytes d d' /\ others_same p d d' /\
    (0 <= err -> window d' p = Some (id, addr, size) /\ held d' p = held d p);
  acquire_law : exists f, area_acquire = Some f /\ forall p w d, window d p = Some w ->
    let '(status, d') := wait_acquired (f p) d in same_bytes d d' /\ others_same p d d' /\
    (status = Some 0 /\ window d' p = Some w /\ held d' p = true \/ default (- ERESTARTSYS) status < 0);
  release_law : exists f, area_release = Some f /\ forall p d,
    same_bytes d (f p d) /\ others_same p d (f p d) /\ held (f p d) p = false;
  cleanup_law : forall f, area_cleanup = Some f -> forall p d,
    same_bytes d (f p d) /\ others_same p d (f p d);
  (** a transfer may be short *)
  read_law : forall p id addr size offset length d,
    window d p = Some (id, addr, size) -> held d p = true -> 0 <= offset -> 0 <= length -> offset + length <= size ->
    let '(n, bytes, d') := area_read p offset length d in same_bytes d d' /\ areas_same d d' /\
    (n < 0 \/ 0 <= n <= length /\ bytes = bytes_get (target_byte d) id (addr + offset) (Z.to_nat n));
  write_law : forall p id addr size offset bytes d,
    window d p = Some (id, addr, size) -> held d p = true -> 0 <= offset ->
    offset + Z.of_nat (length bytes) <= size ->
    let '(n, d') := area_write p offset bytes d in areas_same d d' /\ exists k, (k <= length bytes)%nat /\
      (n < 0 \/ n = Z.of_nat k) /\
      forall i a, target_byte d' i a = bytes_put (target_byte d) id (addr + offset) (take k bytes) i a;
  kzalloc_law : forall h p, kzalloc_area h = Some p -> h !! p = None /\ p <> 0;
  safe_size : exists k, 0 <= k < 40 /\ NFP_CPP_SAFE_AREA_SIZE = 2 ^ k;
  (** an error, or an address of 40 bits on a target, to which the following
      addresses of the safe window are mapped in order *)
  target_law : forall dest a table, let '(err, id, a') := nfp_target_cpp dest a table in
    err < 0 \/ id <> 0 /\ forall i, 0 <= i ->
      a / NFP_CPP_SAFE_AREA_SIZE = (a + i) / NFP_CPP_SAFE_AREA_SIZE ->
      0 <= a' /\ a' + i < 2 ^ 40 /\
      exists err', nfp_target_cpp dest (a + i) table = (err', id, a' + i) /\ 0 <= err';
}.

(** A device that never refuses a window, and one that transfers all it is
    asked for. *)
Definition windows_reliable {D} {Ops : NfpOps D} {V : NfpView D} : Prop :=
  (forall f p id addr size d, area_init = Some f -> 0 <= (f p id addr size d).1) /\
  (forall f p w d, area_acquire = Some f -> window d p = Some w -> (wait_acquired (f p) d).1 = Some 0).
Definition transfers_reliable {D} {Ops : NfpOps D} {V : NfpView D} : Prop :=
  (forall p id addr size offset length d, window d p = Some (id, addr, size) -> held d p = true ->
     0 <= offset -> 0 <= length -> offset + length <= size -> (area_read p offset length d).1.1 = length) /\
  (forall p id addr size offset bytes d, window d p = Some (id, addr, size) -> held d p = true ->
     0 <= offset -> offset + Z.of_nat (length bytes) <= size -> (area_write p offset bytes d).1 = Z.of_nat (length bytes)).

Section props.
Context {D : Type} {Ops : NfpOps D} {V : NfpView D} `{!NfpLaws D Ops V}.
Implicit Types s : nfp D.

(** ** Counting *)

Lemma wp_area p a (Q : area -> nfp D -> Prop) s : areas s !! p = Some a -> Q a s -> wp (get_area p) Q s.
Proof. intros Ha H. exists a, s. unfold get_area. by rewrite Ha. Qed.
Lemma wp_put_area p a (Q : unit -> nfp D -> Prop) ar rl cl im mu mo ifc se d :
  is_Some (ar !! p) -> Q tt (mkNfp (<[p := a]> ar) rl cl im mu mo ifc se d) ->
  wp (put_area p a) Q (mkNfp ar rl cl im mu mo ifc se d).
Proof. intros [x Hx] H. eexists tt, _. unfold put_area. cbn [areas]. by rewrite Hx. Qed.
Lemma wp_device {A} (f : D -> A * D) (Q : A -> nfp D -> Prop) ar rl cl im mu mo ifc se d a d' :
  f d = (a, d') -> Q a (mkNfp ar rl cl im mu mo ifc se d') -> wp (on_device f) Q (mkNfp ar rl cl im mu mo ifc se d).
Proof. intros Hf H. eexists a, _. unfold on_device. cbn [device]. by rewrite Hf. Qed.
Lemma wp_run_device f (Q : unit -> nfp D -> Prop) ar rl cl im mu mo ifc se d :
  Q tt (mkNfp ar rl cl im mu mo ifc se (f d)) -> wp (run_device f) Q (mkNfp ar rl cl im mu mo ifc se d).
Proof. intros H. by apply wp_set. Qed.

Lemma i32_small x : - 2 ^ 31 <= x < 2 ^ 31 -> i32 x = x.
Proof. unfold i32. lia. Qed.

(** The state after an area and the device changed. *)
Definition with_area (s : nfp D) (p : Z) (a : area) (d : D) : nfp D :=
  s <| areas ::= <[p := a]> |> <| device := d |>.

(** The counts of an area: with its window held, and without. *)
Definition counted (a : area) (h : bool) : area :=
  if h then a <| a_refcount := 1 |> <| a_kref := 2 |> else a <| a_refcount := 0 |> <| a_kref := 1 |>.

Lemma with_area_again s p a a' d d' : with_area (with_area s p a d) p a' d' = with_area s p a' d'.
Proof. destruct s. unfold with_area, field_update. cbn. by rewrite insert_insert_eq. Qed.

Lemma acquire_spec s p a w :
  areas s !! p = Some (counted a false) -> window (device s) p = Some w ->
  wp (nfp_cpp_area_acquire p) (fun r s' => exists d',
    same_bytes (device s) d' /\ others_same p (device s) d' /\
    (r = 0 /\ s' = with_area s p (counted a true) d' /\ window d' p = Some w /\ held d' p = true \/
     r < 0 /\ ~ windows_reliable /\ s' = with_area s p (counted a false) d')) s.
Proof.
  intros Ha Hw. destruct acquire_law as (f & Hf & Hlaw). unfold nfp_cpp_area_acquire, inc_refcount.
  destruct s as [ar rl cl im mu mo ifc se d]. cbn [areas device] in Ha, Hw |- *.
  specialize (Hlaw p w d Hw). destruct (wait_acquired (f p) d) as [st d'] eqn:Hd'. destruct Hlaw as (Hb & Ho & Hlaw).
  apply wp_bind, wp_bind. eapply wp_area; [exact Ha|]. change (i32 (a_refcount (counted a false) + 1)) with 1.
  apply wp_bind, wp_put_area; [by eexists|]. apply wp_ret. change (1 >? 1) with false. cbn iota.
  rewrite Hf. apply wp_bind. eapply wp_device; [exact Hd'|]. destruct Hlaw as [(-> & Hw' & Hh)|Herr].
  - cbn [default negb Z.eqb]. unfold nfp_cpp_area_get.
    apply wp_bind, wp_bind. eapply wp_area; [cbn [areas]; by rewrite lookup_insert_eq|].
    apply wp_put_area; [rewrite lookup_insert_eq; by eexists|]. apply wp_ret. exists d'. do 2 (split; [done|]). left.
    split_and!; [done| |done..]. rewrite insert_insert_eq. done.
  - rewrite (proj2 (Z.eqb_neq (default _ _) 0)) by lia. cbn [negb]. unfold dec_refcount.
    apply wp_bind, wp_bind. eapply wp_area; [cbn [areas]; by rewrite lookup_insert_eq|].
    apply wp_bind, wp_put_area; [rewrite lookup_insert_eq; by eexists|]. apply wp_ret, wp_ret.
    exists d'. do 2 (split; [done|]). right. split; [done|]. split.
    + intros [_ Hrel]. specialize (Hrel f p w d Hf Hw). rewrite Hd' in Hrel. cbn in Hrel. subst st. cbn in Herr. lia.
    + by rewrite insert_insert_eq.
Qed.

Lemma release_spec s p a :
  areas s !! p = Some (counted a true) ->
  wp (nfp_cpp_area_release p) (fun _ s' => exists d',
    s' = with_area s p (counted a false) d' /\
    same_bytes (device s) d' /\ others_same p (device s) d' /\ held d' p = false) s.
Proof.
  intros Ha. destruct release_law as (f & Hf & Hlaw). unfold nfp_cpp_area_release, dec_refcount, nfp_cpp_area_put.
  destruct s as [ar rl cl im mu mo ifc se d]. cbn [areas device] in Ha |- *. destruct (Hlaw p d) as (Hb & Ho & Hh).
  apply wp_bind, wp_bind. eapply wp_area; [exact Ha|]. change (i32 (a_refcount (counted a true) - 1)) with 0.
  apply wp_bind, wp_put_area; [by eexists|]. apply wp_ret. cbn [Z.eqb mwhen]. rewrite Hf. apply wp_bind, wp_run_device.
  apply wp_bind. eapply wp_area; [cbn [areas]; by rewrite lookup_insert_eq|].
  apply wp_bind, wp_put_area; [rewrite lookup_insert_eq; by eexists|].
  rewrite insert_insert_eq. cbn [Z.eqb mwhen]. apply wp_skip. exists (f p d). split_and!; done.
Qed.

Lemma release_cpp_spec s p a :
  areas s !! p = Some a ->
  wp (release_cpp_area p) (fun _ s' => exists d',
    s' = s <| areas ::= delete p |> <| resource_list ::= filter (fun q => q <> p) |> <| device := d' |> /\
    same_bytes (device s) d' /\ others_same p (device s) d') s.
Proof.
  intros Ha. unfold release_cpp_area, resource_del, kfree. destruct s as [ar rl cl im mu mo ifc se d].
  apply wp_bind. eapply wp_area; [exact Ha|]. apply wp_bind. destruct area_cleanup as [f|] eqn:Hf.
  - destruct (cleanup_law f Hf p d). apply wp_run_device, wp_bind, wp_set, wp_set. by exists (f p d).
  - apply wp_skip, wp_bind, wp_set, wp_set. by exists d.
Qed.

Lemma free_spec s p a :
  areas s !! p = Some (counted a false) ->
  wp (nfp_cpp_area_free p) (fun _ s' => exists d',
    s' = s <| areas ::= delete p |> <| resource_list ::= filter (fun q => q <> p) |> <| device := d' |> /\
    same_bytes (device s) d' /\ others_same p (device s) d') s.
Proof.
  intros Ha. unfold nfp_cpp_area_free, nfp_cpp_area_put. destruct s as [ar rl cl im mu mo ifc se d].
  cbn [areas device] in Ha |- *. apply wp_bind. eapply wp_area; [exact Ha|]. apply wp_bind. eapply wp_area; [exact Ha|].
  apply wp_bind, wp_put_area; [by eexists|]. cbn [Z.eqb Z.sub mwhen counted a_kref].
  eapply wp_mono; [eapply release_cpp_spec; cbn [areas]; by rewrite lookup_insert_eq|].
  intros [] s' (d' & -> & Hb & Ho). exists d'. split_and!; [|done..]. unfold field_update. cbn. by rewrite delete_insert_eq.
Qed.

(** ** A temporary area *)

(** The resources are the areas. *)
Definition live (s : nfp D) : Prop :=
  NoDup (resource_list s) /\ forall q, q ∈ resource_list s <-> is_Some (areas s !! q).

Lemma resource_insert_spec s p id st l :
  (forall q, q ∈ l -> is_Some (areas s !! q)) -> p ∉ l ->
  wp (resource_insert p id st l) (fun l' s' => s' = s /\ l' ≡ₚ p :: l) s.
Proof.
  intros Hl Hp. induction l as [|q l IH]; cbn [resource_insert]; [by apply wp_ret|].
  apply not_elem_of_cons in Hp as [Hpq Hpl]. destruct (Hl q ltac:(by left)) as [tmp Ht].
  apply wp_bind. eapply wp_area; [exact Ht|]. destruct (resource_after tmp id st); [by apply wp_ret|].
  apply wp_bind. eapply wp_mono; [apply IH; [intros; apply Hl; by right|done]|].
  intros l' s' [-> Hl']. apply wp_ret. split; [done|]. rewrite Hl'. apply Permutation_swap.
Qed.

(** An attempt that failed: the core is as before, and so is the device, as
    far as its memory and the core's areas go. *)
Definition untouched (s s' : nfp D) : Prop :=
  exists d', s' = s <| device := d' |> /\ same_bytes (device s) d' /\
    forall q, is_Some (areas s !! q) -> window d' q = window (device s) q /\ held d' q = held (device s) q.
Lemma untouched_refl s : untouched s s.
Proof. exists (device s). split; [by destruct s|done]. Qed.

(** There is no memory for one more area beside those of the core. *)
Definition out_of_memory (s : nfp D) : Prop :=
  exists h : gmap Z area, dom h = dom (areas s) /\ kzalloc_area h = None.

(** Why there is no new area. *)
Definition no_area (s : nfp D) (err : Z) : Prop := err < 0 \/ out_of_memory s \/ ~ windows_reliable.

Lemma alloc_spec s name dest address size err id a' :
  live s -> nfp_target_cpp dest address (imb_cat_table s) = (err, id, a') ->
  wp (nfp_cpp_area_alloc_with_name dest name address size) (fun p s' => p = 0 /\ untouched s s' /\ no_area s err \/
    p <> 0 /\ 0 <= err /\ areas s !! p = None /\ exists a l d',
      s' = s <| areas ::= <[p := counted a false]> |> <| resource_list := l |> <| device := d' |> /\
      l ≡ₚ p :: resource_list s /\
      same_bytes (device s) d' /\ others_same p (device s) d' /\ window d' p = Some (id, a', size)) s.
Proof.
  intros Hl Ht. destruct init_law as (f & Hf & Hlaw). unfold nfp_cpp_area_alloc_with_name, no_area.
  pose proof (untouched_refl s) as Hun. unfold out_of_memory.
  destruct s as [ar rl cl im mu mo ifc se d]. destruct Hl as [_ Hl]. cbn [areas device resource_list imb_cat_table] in *.
  apply wp_bind, wp_get. cbn [imb_cat_table]. rewrite Ht. destruct (Z.ltb_spec err 0); [apply wp_ret; left; by auto|].
  apply wp_bind, wp_get. cbn [areas]. destruct (kzalloc_area ar) as [p|] eqn:Hk;
    [|apply wp_ret; left; split_and!; [done|done|right; left; by exists ar]].
  destruct (kzalloc_law _ _ Hk) as [Hp Hp0]. specialize (Hlaw p id a' size d).
  destruct (f p id a' size d) as [e d'] eqn:Hd'. destruct Hlaw as (Hb & Ho & Hw).
  set (a0 := mkArea _ _ _ _ _ _ _ _).
  apply wp_bind, wp_set. change (mkNfp ar rl cl im mu mo ifc se d <| areas ::= <[p := a0]> |>) with (mkNfp (<[p := a0]> ar) rl cl im mu mo ifc se d).
  rewrite Hf. apply wp_bind. eapply wp_device; [exact Hd'|]. destruct (Z.ltb_spec e 0) as [He|He].
  { apply wp_bind, wp_set, wp_ret. left. split; [done|]. split.
    - exists d'. split_and!; [|done|].
      + unfold field_update. cbn. f_equal. by rewrite delete_insert_id.
      + intros q [x Hq]. cbn in Hq. apply Ho. intros ->. congruence.
    - right. right. intros [Hrel _]. specialize (Hrel f p id a' size d Hf). rewrite Hd' in Hrel. cbn in Hrel. lia. }
  destruct (Hw He) as [Hw' _]. apply wp_bind. unfold resource_add.
  apply wp_bind. eapply wp_area; [cbn [areas]; by rewrite lookup_insert_eq|]. apply wp_bind, wp_get. cbn [resource_list].
  assert (Hpl : p ∉ rl) by (intros [x Hx]%Hl; congruence).
  apply wp_bind. eapply wp_mono; [apply resource_insert_spec; [|done]|].
  { intros q Hq. cbn [areas]. destruct (decide (p = q)) as [->|Hne]; [rewrite lookup_insert_eq; by eexists|].
    rewrite lookup_insert_ne by done. by apply Hl. }
  intros l s' [-> Hl']. apply wp_set.
  change (mkNfp (<[p := a0]> ar) rl cl im mu mo ifc se d' <| resource_list := l |>) with (mkNfp (<[p := a0]> ar) l cl im mu mo ifc se d').
  apply wp_bind. eapply wp_area; [cbn [areas]; by rewrite lookup_insert_eq|].
  apply wp_bind, wp_put_area; [rewrite lookup_insert_eq; by eexists|]. apply wp_ret. right. split_and!; [done|done|done|].
  exists (a0 <| a_offset := a' |> <| a_size := size |>), l, d'. split_and!; [|done..]. by rewrite insert_insert_eq.
Qed.

(** ** The invariant *)

(** An entry of the cache: it owns its area, and the area's window while it
    has one. *)
Record entry_ok (s : nfp D) (c : area_cache) : Prop := {
  eo_area : exists a, areas s !! c_area c = Some (counted a (negb (c_id c =? 0)));
  eo_size : exists k, 0 <= k < 32 /\ c_size c = 2 ^ k;
  eo_window : c_id c <> 0 -> window (device s) (c_area c) = Some (c_id c, c_addr c, c_size c) /\
    held (device s) (c_area c) = true /\ 0 <= c_addr c < 2 ^ 40;
}.

Record nfp_ok (s : nfp D) : Prop := {
  no_live : live s;
  no_distinct : NoDup (c_area <$> area_cache_list s);
  no_entry : forall c, c ∈ area_cache_list s -> entry_ok s c;
}.

Lemma entry_frame s s' c :
  entry_ok s c -> areas s' !! c_area c = areas s !! c_area c ->
  window (device s') (c_area c) = window (device s) (c_area c) /\ held (device s') (c_area c) = held (device s) (c_area c) ->
  entry_ok s' c.
Proof. intros [[a Ha] Hs Hw] Hl [H1 H2]. split; [exists a; congruence|done|]. intros Hid. rewrite H1, H2. auto. Qed.

Lemma nfp_ok_device s d : nfp_ok s -> areas_same (device s) d -> nfp_ok (s <| device := d |>).
Proof.
  intros [Hl Hn He] Hd. split; [done|done|]. intros c Hc. apply (entry_frame s); [by apply He|done|apply Hd].
Qed.

Lemma nfp_ok_caches s l : nfp_ok s -> area_cache_list s ≡ₚ l -> nfp_ok (s <| area_cache_list := l |>).
Proof.
  intros [Hl Hn He] Hp. split; [done| |].
  - cbn. by rewrite <- Hp.
  - intros c Hc. cbn in Hc. rewrite <- Hp in Hc. destruct (He c Hc). by split.
Qed.

Lemma nfp_ok_untouched s s' : nfp_ok s -> untouched s s' -> nfp_ok s'.
Proof.
  intros [Hl Hn He] (d' & -> & _ & Hd). split; [done|done|]. intros c Hc. apply (entry_frame s); [by apply He|done|].
  apply Hd. destruct (He c Hc) as [[a Ha] _ _]. by eexists.
Qed.

(** What every access keeps. *)
Record kept (s s' : nfp D) : Prop := {
  kp_ok : nfp_ok s';
  kp_table : imb_cat_table s' = imb_cat_table s;
  kp_areas : dom (areas s') = dom (areas s);
  kp_uncached : area_cache_list s = [] -> area_cache_list s' = [];
}.
Lemma kept_trans s1 s2 s3 : kept s1 s2 -> kept s2 s3 -> kept s1 s3.
Proof. intros [A1 A2 A3 A4] [B1 B2 B3 B4]. split; [done|congruence|congruence|auto]. Qed.
Lemma kept_untouched s s' : nfp_ok s -> untouched s s' -> kept s s'.
Proof. intros Hok Hu. pose proof (nfp_ok_untouched _ _ Hok Hu). destruct Hu as (d' & -> & _). by split. Qed.
Lemma out_of_memory_kept s s' : dom (areas s') = dom (areas s) -> out_of_memory s' -> out_of_memory s.
Proof. intros He (h & Hd & Hk). exists h. split; [congruence|done]. Qed.

(** ** Aligned blocks *)

Lemma round_down_pow x k : 0 <= x < 2 ^ 64 -> 0 <= k < 32 -> round_down x (2 ^ k) = x - x mod 2 ^ k.
Proof.
  intros Hx Hk. unfold round_down, as_u32.
  assert (2 ^ k <= 2 ^ 31 /\ 0 < 2 ^ k) by (split; [apply Z.pow_le_mono_r; lia|lia]).
  rewrite (Z.mod_small (2 ^ k - 1)) by lia. replace (Z.lnot (2 ^ k - 1)) with (- 2 ^ k) by (unfold Z.lnot; lia).
  apply land_mask; lia.
Qed.

Lemma same_block x n m : 0 < m -> 0 < n -> x - x mod m = x + n - 1 - (x + n - 1) mod m -> x + n <= x - x mod m + m.
Proof. intros Hm Hn He. pose proof (Z.mod_pos_bound (x + n - 1) m). lia. Qed.

(** Changing an area keeps the resources. *)
Lemma live_update s s' p a a' :
  live s -> areas s !! p = Some a -> areas s' = <[p := a']> (areas s) -> resource_list s' = resource_list s -> live s'.
Proof.
  intros [Hn Hl] Ha He Hr. split; rewrite Hr; [done|]. intros q. rewrite Hl, He.
  destruct (decide (p = q)) as [<-|Hne]; [rewrite lookup_insert_eq, Ha; by split|by rewrite lookup_insert_ne].
Qed.
Lemma live_new s s' p a :
  live s -> areas s !! p = None -> areas s' = <[p := a]> (areas s) -> resource_list s' ≡ₚ p :: resource_list s -> live s'.
Proof.
  intros [Hn Hl] Ha He Hr. split; [rewrite Hr; constructor; [rewrite Hl, Ha; by intros [? ?]|done]|].
  intros q. rewrite Hr, elem_of_cons, Hl, He.
  destruct (decide (p = q)) as [<-|Hne]; [rewrite lookup_insert_eq, Ha; naive_solver|rewrite lookup_insert_ne by done; naive_solver].
Qed.
Lemma live_drop s s' p :
  live s -> areas s' = delete p (areas s) -> resource_list s' = filter (fun q => q <> p) (resource_list s) -> live s'.
Proof.
  intros [Hn Hl] He Hr. split; rewrite Hr; [by apply NoDup_filter|]. intros q. rewrite list_elem_of_filter, Hl, He.
  destruct (decide (p = q)) as [<-|Hne]; [rewrite lookup_delete_eq|rewrite lookup_delete_ne by done]; unfold is_Some; naive_solver.
Qed.

(** ** Pointing an entry to another window *)

Lemma retarget_spec s i c id addr :
  windows_reliable -> nfp_ok s -> area_cache_list s !! i = Some c -> id <> 0 -> 0 <= addr < 2 ^ 40 ->
  wp (cache_retarget i c id addr) (fun r s' => r = true /\ kept s s' /\ same_bytes (device s) (device s') /\
    exists c', area_cache_list s' !! i = Some c' /\ c_id c' = id /\ c_addr c' = round_down addr (c_size c) /\
      c_size c' = c_size c /\ c_area c' = c_area c) s.
Proof.
  intros Hrel [Hl Hn He] Hi Hid Haddr. pose proof Hrel as [Hrel1 _]. assert (Hc : c ∈ area_cache_list s) by by eapply list_elem_of_lookup_2.
  destruct (He c Hc) as [[a Ha] [k [Hk Hs]] Hw].
  assert (Hothers : forall j c2, area_cache_list s !! j = Some c2 -> j <> i -> c_area c2 <> c_area c).
  { intros j c2 Hj Hne Heq. apply Hne. eapply NoDup_lookup; [exact Hn|..]; rewrite list_lookup_fmap; [by rewrite Hj|rewrite Hi; cbn; by rewrite Heq]. }
  assert (Hround : 0 <= round_down addr (c_size c) < 2 ^ 40).
  { rewrite Hs, round_down_pow by lia. pose proof (Z.mod_pos_bound addr (2 ^ k)). pose proof (Z.mod_le addr (2 ^ k)). lia. }
  unfold cache_retarget, set_cache.
  (* The entry gives its window up. *)
  apply wp_bind.
  apply (wp_mono _ (fun c1 s1 => exists d1 l1,
    s1 = with_area s (c_area c) (counted a false) d1 <| area_cache_list := l1 |> /\
    <[i := mkCache id (round_down addr (c_size c)) (c_size c) (c_area c)]> l1 =
      <[i := mkCache id (round_down addr (c_size c)) (c_size c) (c_area c)]> (area_cache_list s) /\
    c_size c1 = c_size c /\ c_area c1 = c_area c /\
    same_bytes (device s) d1 /\ others_same (c_area c) (device s) d1)).
  { destruct (Z.eqb_spec (c_id c) 0) as [H0|H0]; cbn [negb] in *.
    - apply wp_ret. exists (device s), (area_cache_list s). split_and!; try done.
      destruct s. unfold with_area, field_update. cbn in *. by rewrite insert_id.
    - apply wp_bind. eapply wp_mono; [by apply (release_spec s (c_area c) a)|].
      intros [] s1 (d1 & -> & Hb1 & Ho1 & _). apply wp_bind, wp_set, wp_ret. exists d1. eexists. split_and!; [..|done|done|done|done].
      + reflexivity.
      + cbn. by rewrite list_insert_insert_eq. }
  intros c1 s1 (d1 & l1 & -> & Hl1 & Hs1 & Ha1 & Hb1 & Ho1).
  destruct init_law as (f & Hf & Hlaw).
  set (c' := mkCache id (round_down addr (c_size c)) (c_size c) (c_area c)) in *.
  replace (c1 <| c_id := id |> <| c_addr := round_down addr (c_size c1) |>) with c'
    by (destruct c1; unfold c', field_update; cbn in *; congruence).
  apply wp_bind, wp_set.
  set (s1 := with_area s (c_area c) (counted a false) d1 <| area_cache_list := l1 |> <| area_cache_list ::= <[i := c']> |>).
  assert (Hs1' : s1 = with_area s (c_area c) (counted a false) d1 <| area_cache_list := <[i := c']> (area_cache_list s) |>).
  { unfold s1. rewrite <- Hl1. done. }
  clearbody s1. subst s1. rewrite Hf. cbn [c_area c' c_addr c_size].
  specialize (Hlaw (c_area c) id (round_down addr (c_size c)) (c_size c) d1).
  specialize (Hrel1 f (c_area c) id (round_down addr (c_size c)) (c_size c) d1 Hf).
  destruct (f (c_area c) id (round_down addr (c_size c)) (c_size c) d1) as [e d2] eqn:Hd2. cbn in Hrel1.
  destruct Hlaw as (Hb2 & Ho2 & Hw2). destruct (Hw2 Hrel1) as [Hw2' _]. clear Hw2. rename Hw2' into Hw2.
  destruct s as [ar rl cl im mu mo ifc se d]. cbn [areas resource_list area_cache_list device imb_cat_table] in *.
  change (with_area (mkNfp ar rl cl im mu mo ifc se d) (c_area c) (counted a false) d1 <| area_cache_list := <[i := c']> cl |>)
    with (mkNfp (<[c_area c := counted a false]> ar) rl (<[i := c']> cl) im mu mo ifc se d1).
  apply wp_bind, wp_bind. eapply wp_area; [cbn [areas]; by rewrite lookup_insert_eq|].
  eapply wp_device; [exact Hd2|]. rewrite (proj2 (Z.ltb_ge e 0)) by done. apply wp_bind.
  eapply wp_mono; [eapply (acquire_spec _ (c_area c) a); [cbn [areas]; by rewrite lookup_insert_eq|exact Hw2]|].
  intros r s3 (d3 & Hb3 & Ho3 & [(-> & -> & Hw3 & Hh3)|(_ & Hno & _)]); [|by destruct (Hno Hrel)].
  cbn [device] in *. apply wp_ret. split; [done|].
  unfold with_area, field_update. cbn. rewrite insert_insert_eq.
  assert (Hlen : (i < length cl)%nat) by by eapply lookup_lt_Some.
  assert (Hoth : forall q, q <> c_area c -> window d3 q = window d q /\ held d3 q = held d q).
  { intros q Hq. destruct (Ho1 q Hq), (Ho2 q Hq), (Ho3 q Hq). split; congruence. }
  assert (Hsb : same_bytes d d3) by (intros i2 a2; by rewrite Hb3, Hb2, Hb1).
  split_and!; [split; cbn|done|].
  - split; cbn.
    + by eapply (live_update (mkNfp ar rl cl im mu mo ifc se d)).
    + replace (c_area <$> <[i := c']> cl) with (c_area <$> cl); [done|]. rewrite list_fmap_insert. cbn.
      symmetry. apply list_insert_id. by rewrite list_lookup_fmap, Hi.
    + intros c2 Hc2. apply list_elem_of_lookup in Hc2 as [j Hj]. destruct (decide (i = j)) as [<-|Hne].
      * rewrite list_lookup_insert_eq in Hj by done. injection Hj as <-. split; cbn [c_id c_addr c_size c_area c'].
        -- exists a. rewrite (proj2 (Z.eqb_neq id 0)) by done. cbn. by rewrite lookup_insert_eq.
        -- by exists k.
        -- cbn. done.
      * rewrite list_lookup_insert_ne in Hj by done. pose proof (Hothers j c2 Hj ltac:(done)) as Hne2.
        apply (entry_frame (mkNfp ar rl cl im mu mo ifc se d)); cbn.
        -- apply He. by eapply list_elem_of_lookup_2.
        -- by rewrite lookup_insert_ne.
        -- by apply Hoth.
  - done.
  - apply dom_insert_lookup_L. by eexists.
  - intros ->. by rewrite lookup_nil in Hi.
  - exists c'. split_and!; try done. by rewrite list_lookup_insert_eq.
Qed.

(** ** The area of an access *)

(** An area whose window holds [length] bytes from [addr] on, and how the
    access ends after the device was read or written. *)
Definition usable_area (s0 : nfp D) (cache : option nat) (p offset id addr length : Z) (s : nfp D) : Prop :=
  is_Some (areas s !! p) /\ held (device s) p = true /\ 0 <= offset /\
  (exists base size, window (device s) p = Some (id, base, size) /\ base + offset = addr /\ offset + length <= size) /\
  forall d, areas_same (device s) d ->
    wp (access_done cache p) (fun _ s' => kept s0 s' /\ same_bytes d (device s')) (s <| device := d |>).

Lemma cached_usable s0 s i c length id addr :
  kept s0 s -> area_cache_list s !! i = Some c -> c_id c = id -> id <> 0 ->
  c_addr c <= addr -> addr + length <= c_addr c + c_size c ->
  usable_area s0 (Some i) (c_area c) (addr - c_addr c) id addr length s.
Proof.
  intros [Hok Him Hdom Hun] Hi Hc Hid Hlo Hhi. destruct (no_entry _ Hok c ltac:(by eapply list_elem_of_lookup_2)) as [[a Ha] _ Hw].
  destruct Hw as (Hw & Hh & Hr); [congruence|]. split; [by eexists|]. split; [done|]. split; [lia|]. split.
  - exists (c_addr c), (c_size c). split; [by rewrite Hw, Hc|lia].
  - intros d Hd. apply wp_set. split; [|done]. split; [|done|done|].
    2: { intros H0. apply Hun in H0. by rewrite H0, lookup_nil in Hi. }
    pose proof (nfp_ok_device s d Hok Hd) as Hok'. destruct s as [ar rl cl im mu mo ifc se d0].
    apply (nfp_ok_caches _ (match cl !! i with Some c => c :: take i cl ++ drop (S i) cl | None => cl end)) in Hok'; [done|].
    cbn in Hi |- *. rewrite Hi. rewrite <- (take_drop_middle cl i c Hi) at 1. by rewrite Permutation_middle.
Qed.

Lemma area_cache_get_spec s dest address length err id addr :
  windows_reliable \/ area_cache_list s = [] ->
  nfp_ok s -> nfp_target_cpp dest address (imb_cat_table s) = (err, id, addr) ->
  0 < length -> (0 <= err -> id <> 0 /\ 0 <= addr /\ addr + length <= 2 ^ 40) ->
  wp (area_cache_get dest address 0 length) (fun r s' =>
    match r with
    | None => s' = s
    | Some (i, p, offset) => 0 <= err /\ same_bytes (device s) (device s') /\ usable_area s (Some i) p offset id addr length s'
    end) s.
Proof.
  intros Hrel Hok Ht Hlen Haddr. assert (Hself : kept s s) by by split. unfold area_cache_get. rewrite (proj2 (Z.eqb_neq length 0)) by lia.
  destruct (dest =? 0); cbn [orb]; [by apply wp_ret|]. apply wp_bind, wp_get. rewrite Ht.
  destruct (Z.ltb_spec err 0) as [|Herr]; [by apply wp_ret|]. destruct (Haddr Herr) as (Hid & Ha0 & Ha40).
  apply wp_bind, wp_get. destruct (decide _) as [|Hne]; [by apply wp_ret|].
  rewrite Z.add_0_r. rewrite !(u64_small addr) by lia. destruct (find_match _ _ _ _) as [[i c]|] eqn:Hf.
  - apply wp_ret. unfold find_match in Hf. apply list_find_Some in Hf as (Hi & Hm & _).
    unfold cache_match in Hm. apply andb_prop in Hm as [Hm Hm3]. apply andb_prop in Hm as [Hm1 Hm2].
    apply Z.eqb_eq in Hm1. destruct (no_entry _ Hok c ltac:(by eapply list_elem_of_lookup_2)) as [_ (k & Hk & Hs) Hw].
    destruct Hw as (_ & _ & Hr); [congruence|].
    assert (0 < 2 ^ k <= 2 ^ 31) by (split; [lia|apply Z.pow_le_mono_r; lia]).
    rewrite !u64_small in Hm3 by lia. rewrite u64_small by lia. split_and!; [done|done|].
    apply cached_usable; try done; lia.
  - destruct (area_cache_list s !! pred _) as [c|] eqn:Hi; [|by apply wp_ret].
    destruct (no_entry _ Hok c ltac:(by eapply list_elem_of_lookup_2)) as [_ (k & Hk & Hs) _].
    destruct (Z.eqb_spec (round_down (u64 (addr + length - 1)) (c_size c)) (round_down addr (c_size c))) as [Heq|];
      cbn [negb]; [|by apply wp_ret].
    assert (Hrel' : windows_reliable) by (by destruct Hrel).
    apply wp_bind. eapply wp_mono; [apply (retarget_spec s _ c id addr Hrel' Hok Hi Hid); lia|].
    intros r s' (-> & Hkept & Hb & c' & Hi' & Hc1 & Hc2 & Hc3 & Hc4). apply wp_ret.
    rewrite u64_small in Heq by lia. rewrite Hs, !round_down_pow in Heq by lia.
    assert (H2k : 0 < 2 ^ k) by lia.
    pose proof (same_block addr length (2 ^ k) H2k Hlen ltac:(lia)) as Hblock.
    rewrite Hs, round_down_pow in Hc2 by lia.
    pose proof (Z.mod_pos_bound addr (2 ^ k) H2k). pose proof (Z.mod_le addr (2 ^ k) Ha0 H2k).
    rewrite Hs, round_down_pow, u64_small by lia. split_and!; [done|done|].
    rewrite <- Hc2, <- Hc4. apply cached_usable; [done|done|done|done|lia|].
    rewrite Hc2, Hc3, Hs. lia.
Qed.

(** ** An area of one's own *)

(** An area that is not the cache's, with its window held or not. *)
Definition own (s : nfp D) (p : Z) (h : bool) : Prop :=
  exists a, areas s !! p = Some (counted a h) /\ p ∉ c_area <$> area_cache_list s.

(** The steps of an owner leave the cache and its areas alone. *)
Lemma own_frame s s' p :
  nfp_ok s -> p ∉ c_area <$> area_cache_list s -> live s' -> area_cache_list s' = area_cache_list s ->
  (forall q, q <> p -> areas s' !! q = areas s !! q) -> others_same p (device s) (device s') -> nfp_ok s'.
Proof.
  intros [Hl Hn He] Hp Hl' Hc Ha Ho. split; [done|by rewrite Hc|]. intros c Hcin. rewrite Hc in Hcin.
  assert (Hcp : c_area c <> p) by (intros <-; apply Hp, list_elem_of_fmap; by exists c).
  apply (entry_frame s); [by apply He|by apply Ha|by apply Ho].
Qed.

Lemma alloc_own s name dest address size err id a' :
  nfp_ok s -> nfp_target_cpp dest address (imb_cat_table s) = (err, id, a') ->
  wp (nfp_cpp_area_alloc_with_name dest name address size) (fun p s' =>
    p = 0 /\ untouched s s' /\ no_area s err \/
    p <> 0 /\ 0 <= err /\ nfp_ok s' /\ own s' p false /\ window (device s') p = Some (id, a', size) /\
    delete p (areas s') = areas s /\
    same_bytes (device s) (device s') /\ imb_cat_table s' = imb_cat_table s /\ area_cache_list s' = area_cache_list s) s.
Proof.
  intros Hok Ht. eapply wp_mono; [by eapply alloc_spec; [apply Hok|]|].
  intros p s' [(-> & Hun & Hno)|(Hp0 & Herr & Hp & a & l & d' & -> & Hl & Hb & Ho & Hw)]; [by left|right].
  assert (Hpc : p ∉ c_area <$> area_cache_list s).
  { intros (c & -> & Hc)%list_elem_of_fmap. destruct (no_entry _ Hok c Hc) as [[b Hb'] _ _]. congruence. }
  destruct s as [ar rl cl im mu mo ifc se d]. unfold field_update. cbn in *.
  split_and!; try done.
  - eapply own_frame; [done|exact Hpc| |done| |done].
    + eapply (live_new (mkNfp ar rl cl im mu mo ifc se d)); [apply Hok|exact Hp|reflexivity|done].
    + intros q Hq. cbn. by rewrite lookup_insert_ne.
  - exists a. cbn. by rewrite lookup_insert_eq.
  - by rewrite delete_insert_eq, delete_id.
Qed.

Lemma acquire_own s p w :
  nfp_ok s -> own s p false -> window (device s) p = Some w ->
  wp (nfp_cpp_area_acquire p) (fun r s' => exists h, nfp_ok s' /\ own s' p h /\ delete p (areas s') = delete p (areas s) /\
    same_bytes (device s) (device s') /\ imb_cat_table s' = imb_cat_table s /\ area_cache_list s' = area_cache_list s /\
    (r = 0 /\ h = true /\ window (device s') p = Some w /\ held (device s') p = true \/
     r < 0 /\ h = false /\ ~ windows_reliable)) s.
Proof.
  intros Hok (a & Ha & Hpc) Hw. eapply wp_mono; [by eapply acquire_spec|]. intros r s' (d' & Hb & Ho & Hr).
  assert (Hs' : exists h, s' = with_area s p (counted a h) d' /\
    (r = 0 /\ h = true /\ window d' p = Some w /\ held d' p = true \/ r < 0 /\ h = false /\ ~ windows_reliable))
    by (destruct Hr as [(-> & -> & H1 & H2)|(H1 & H2 & ->)]; [exists true; split; [done|by left]|exists false; split; [done|by right]]).
  clear Hr. destruct Hs' as (h & -> & Hr). exists h. destruct s as [ar rl cl im mu mo ifc se d].
  unfold with_area, field_update. cbn in *. split_and!; try done.
  - eapply own_frame; [done|exact Hpc| |done| |done].
    + by eapply (live_update (mkNfp ar rl cl im mu mo ifc se d)); [apply Hok|..].
    + intros q Hq. cbn. by rewrite lookup_insert_ne.
  - exists a. cbn. by rewrite lookup_insert_eq.
  - by rewrite delete_insert_eq.
Qed.

Lemma release_own s p :
  nfp_ok s -> own s p true ->
  wp (nfp_cpp_area_release p) (fun _ s' => nfp_ok s' /\ own s' p false /\
    (forall q, q <> p -> areas s' !! q = areas s !! q) /\
    same_bytes (device s) (device s') /\ imb_cat_table s' = imb_cat_table s /\ area_cache_list s' = area_cache_list s) s.
Proof.
  intros Hok (a & Ha & Hpc). eapply wp_mono; [by eapply release_spec|]. intros [] s1 (d1 & -> & Hb1 & Ho1 & _).
  destruct s as [ar rl cl im mu mo ifc se d]. unfold with_area, field_update. cbn in *. split_and!; try done.
  - eapply own_frame; [done|exact Hpc| |done| |done].
    + by eapply (live_update (mkNfp ar rl cl im mu mo ifc se d)); [apply Hok|..].
    + intros q Hq. cbn. by rewrite lookup_insert_ne.
  - exists a. cbn. by rewrite lookup_insert_eq.
  - intros q Hq. by rewrite lookup_insert_ne.
Qed.

Lemma free_own s p :
  nfp_ok s -> own s p false ->
  wp (nfp_cpp_area_free p) (fun _ s' => nfp_ok s' /\ areas s' = delete p (areas s) /\
    same_bytes (device s) (device s') /\ imb_cat_table s' = imb_cat_table s /\ area_cache_list s' = area_cache_list s) s.
Proof.
  intros Hok (a & Ha & Hpc). eapply wp_mono; [by eapply free_spec|]. intros [] s1 (d1 & -> & Hb1 & Ho1).
  destruct s as [ar rl cl im mu mo ifc se d]. unfold field_update. cbn in *. split_and!; try done.
  eapply own_frame; [done|exact Hpc| |done| |done].
  - by eapply (live_drop (mkNfp ar rl cl im mu mo ifc se d)); [apply Hok|..].
  - intros q Hq. cbn. by rewrite lookup_delete_ne.
Qed.

Lemma release_free_own s p :
  nfp_ok s -> own s p true ->
  wp (nfp_cpp_area_release_free p) (fun _ s' => nfp_ok s' /\ areas s' = delete p (areas s) /\
    same_bytes (device s) (device s') /\ imb_cat_table s' = imb_cat_table s /\ area_cache_list s' = area_cache_list s) s.
Proof.
  intros Hok Hown. apply wp_bind. eapply wp_mono; [by apply release_own|].
  intros [] s1 (Hok1 & Hown1 & Ha1 & Hb1 & Him1 & Hc1). eapply wp_mono; [by apply free_own|].
  intros [] s2 (Hok2 & Ha2 & Hb2 & Him2 & Hc2). split_and!; [done| |intros i x; by rewrite Hb2, Hb1|congruence..].
  rewrite Ha2. apply map_eq. intros q. destruct (decide (p = q)) as [<-|Hne]; [by rewrite !lookup_delete_eq|].
  rewrite !lookup_delete_ne by done. by apply Ha1.
Qed.

Lemma access_area_spec s dest address length err id addr :
  windows_reliable \/ area_cache_list s = [] ->
  nfp_ok s -> nfp_target_cpp dest address (imb_cat_table s) = (err, id, addr) ->
  0 < length -> (0 <= err -> id <> 0 /\ 0 <= addr /\ addr + length <= 2 ^ 40) ->
  wp (access_area dest address length) (fun r s' =>
    match r with
    | inl e => e < 0 /\ kept s s' /\ same_bytes (device s) (device s') /\ no_area s err
    | inr (cache, p, offset) => 0 <= err /\ same_bytes (device s) (device s') /\ usable_area s cache p offset id addr length s'
    end) s.
Proof.
  intros Hrel Hok Ht Hlen Haddr. unfold access_area. apply wp_bind. eapply wp_mono; [by eapply area_cache_get_spec|].
  intros [[[i p] offset]|] s1; [intros H; by apply wp_ret|intros ->].
  apply wp_bind. eapply wp_mono; [by apply (alloc_own s None dest address length err id addr)|].
  intros p s1 [(-> & Hun & Hno)|(Hp0 & Herr & Hok1 & Hown1 & Hw1 & Hdel1 & Hb1 & Him1 & Hc1)].
  { apply wp_ret. split; [done|]. split; [by apply kept_untouched|]. split; [|done]. by destruct Hun as (d' & -> & ? & _). }
  rewrite (proj2 (Z.eqb_neq _ _) Hp0). apply wp_bind. eapply wp_mono; [by eapply acquire_own|].
  intros r s2 (h & Hok2 & Hown2 & Hdel2 & Hb2 & Him2 & Hc2 & Hr). destruct Hr as [(-> & -> & Hw2 & Hh2)|(Hr & -> & Hnr)].
  - apply wp_ret. split; [done|]. split; [intros i x; by rewrite Hb2, Hb1|]. split; [destruct Hown2 as (a & Ha & _); by eexists|].
    split; [done|]. split; [lia|]. split.
    { exists addr, length. split; [done|lia]. }
    intros d Hd. eapply wp_mono; [apply (release_free_own _ p); [by apply nfp_ok_device|exact Hown2]|].
    intros [] s3 (Hok3 & Ha3 & Hb3 & Him3 & Hc3). cbn in Ha3, Him3, Hc3. split; [|done]. split; [done|congruence| |congruence].
    by rewrite Ha3, Hdel2, Hdel1.
  - rewrite (proj2 (Z.eqb_neq r 0)) by lia. cbn [negb]. apply wp_bind. eapply wp_mono; [by apply free_own|].
    intros [] s3 (Hok3 & Ha3 & Hb3 & Him3 & Hc3). apply wp_ret. split; [done|]. split; [split; [done|congruence| |congruence]|].
    { by rewrite Ha3, Hdel2, Hdel1. }
    split; [intros i x; by rewrite Hb3, Hb2, Hb1|]. by right; right.
Qed.

End props.
