(* ===== verification/NfpProps.v ===== *)
(** * Access through areas is access to the targets

    Reads and writes by address go through cached or temporary areas, in
    pieces that end at the safe windows.  On a device that does what its
    documentation says, errors and short transfers included, they equal
    reading and writing the targets' bytes one by one as far as they get.
    Areas are allocated, the cache is set up and the core taken down without
    a crash or a leak, also when the device refuses. *)

From Stdlib Require Import ZifyBool.
From stdpp Require Import base numbers gmap strings list.
From S2P Require Import Prelude Word StateMonad Nfp NfpAreas.

Local Open Scope Z_scope.
Ltac Zify.zify_post_hook ::= Z.to_euclidean_division_equations.

Section props.
Context {D : Type} {Ops : NfpOps D} {V : NfpView D} `{!NfpLaws D Ops V}.
Implicit Types s : nfp D.

(** ** One window *)






(** ** All windows *)

















(** ** The life of the core *)

Lemma empty_ok im mu mo ifc sn (d : D) : nfp_ok (mkNfp ∅ [] [] im mu mo ifc sn d).
Proof.
  split; cbn; [split; cbn; [constructor|]|constructor|intros c Hc; by apply not_elem_of_nil in Hc].
  intros q. rewrite lookup_empty. split; [by intros ?%not_elem_of_nil|by intros [? ?]].
Qed.

Lemma cache_add_spec s k :
  nfp_ok s -> 0 <= k < 32 ->
  wp (nfp_cpp_area_cache_add (2 ^ k)) (fun r s' => nfp_ok s' /\ same_bytes (device s) (device s') /\
    (r = - ENOMEM /\ area_cache_list s' = area_cache_list s /\ areas s' = areas s /\
       (kzalloc_cache (area_cache_list s) = false \/
        no_area s (nfp_target_cpp (NFP_CPP_ID 7 NFP_CPP_ACTION_RW 0) 0 (imb_cat_table s)).1.1) \/
     r = 0 /\ exists p, area_cache_list s' = area_cache_list s ++ [mkCache 0 0 (2 ^ k) p])) s.
Proof.
  intros Hok Hk. unfold nfp_cpp_area_cache_add, nfp_cpp_area_alloc.
  destruct (nfp_target_cpp (NFP_CPP_ID 7 NFP_CPP_ACTION_RW 0) 0 (imb_cat_table s)) as [[err id] a'] eqn:Ht.
  apply wp_bind. eapply wp_mono; [by eapply alloc_own|].
  intros p s1 [(-> & Hun & Hno)|(Hp0 & _ & Hok1 & Hown & _ & Hdel & Hb1 & Him1 & Hc1)].
  { apply wp_ret. pose proof (nfp_ok_untouched _ _ Hok Hun). destruct Hun as (d' & -> & Hb & _).
    split_and!; [done|done|left]. split_and!; [done|done|done|by right]. }
  rewrite (proj2 (Z.eqb_neq _ _) Hp0). apply wp_bind, wp_get. destruct (kzalloc_cache _) eqn:Hkc; cbn [negb].
  - assert (Hu : as_u32 (2 ^ k) = 2 ^ k).
    { apply Z.mod_small. assert (2 ^ k <= 2 ^ 31) by (apply Z.pow_le_mono_r; lia). lia. }
    rewrite Hu. apply wp_bind, wp_set, wp_ret. destruct Hown as (a & Ha & Hpc).
    destruct s1 as [ar rl cl im mu mo ifc se d]. unfold field_update. cbn in *. split_and!; [|done|].
    + destruct Hok1 as [Hl Hn He]. split; [done| |]; cbn in *.
      * rewrite fmap_app. apply NoDup_app. split_and!; [done| |apply NoDup_singleton].
        intros q Hq Hqp. cbn in Hqp. apply list_elem_of_singleton in Hqp as ->. by apply Hpc.
      * intros c [Hc|Hc]%elem_of_app; [destruct (He c Hc); by split|]. apply list_elem_of_singleton in Hc as ->.
        split; cbn; [by exists a|by exists k|done].
    + right. split; [done|]. exists p. by rewrite Hc1.
  - apply wp_bind. eapply wp_mono; [by apply free_own|]. intros [] s2 (Hok2 & Ha2 & Hb2 & _ & Hc2). apply wp_ret.
    split_and!; [done|intros i x; by rewrite Hb2, Hb1|left]. split_and!; [done|congruence|congruence|left; by rewrite <- Hc1].
Qed.

Lemma free_caches_spec l s :
  nfp_ok s -> area_cache_list s = l -> wp (free_caches l) (fun _ s' => nfp_ok s' /\ area_cache_list s' = []) s.
Proof.
  revert s. induction l as [|c l IH]; intros s Hok Hl; cbn [free_caches]; [by apply wp_skip|].
  apply wp_bind, wp_set. set (s1 := s <| area_cache_list ::= tail |>).
  destruct (no_entry _ Hok c ltac:(rewrite Hl; by left)) as [[a Ha] _ _].
  assert (Hok1 : nfp_ok s1 /\ own s1 (c_area c) (negb (c_id c =? 0)) /\ area_cache_list s1 = l).
  { destruct Hok as [Hlive Hn He]. unfold s1. destruct s as [ar rl cl im mu mo ifc se d]. unfold field_update. cbn in *. subst cl.
    apply NoDup_cons in Hn as [Hc Hn]. split_and!; [|by exists a|done]. split; [done|done|].
    intros c2 Hc2. destruct (He c2 ltac:(by right)). by split. }
  clearbody s1. destruct Hok1 as (Hok1 & Hown1 & Hl1). apply wp_bind.
  apply (wp_mono _ (fun _ s2 => nfp_ok s2 /\ own s2 (c_area c) false /\ area_cache_list s2 = l)).
  - destruct (Z.eqb_spec (c_id c) 0); cbn [negb mwhen] in *; [by apply wp_skip|].
    eapply wp_mono; [by apply release_own|]. intros [] s2 (H1 & H2 & _ & _ & _ & H3). split_and!; [done|done|congruence].
  - intros [] s2 (Hok2 & Hown2 & Hl2). apply wp_bind. eapply wp_mono; [by apply free_own|].
    intros [] s3 (Hok3 & _ & _ & _ & Hl3). apply IH; [done|congruence].
Qed.

Lemma filter_absent (p : Z) (l : list Z) : p ∉ l -> filter (fun q => q <> p) l = l.
Proof.
  induction l as [|q l IH]; intros Hp; [done|]. apply not_elem_of_cons in Hp as [Hq Hp].
  by rewrite filter_cons_True, IH by done.
Qed.

Lemma free_dangling_spec l s :
  live s -> resource_list s = l -> wp (free_dangling l) (fun _ s' => areas s' = ∅ /\ resource_list s' = [] /\
    area_cache_list s' = area_cache_list s) s.
Proof.
  revert s. induction l as [|p l IH]; intros s Hlive Hl; cbn [free_dangling].
  { apply wp_skip. split_and!; [|done|done]. apply map_eq. intros q. rewrite lookup_empty.
    apply eq_None_not_Some. intros Hq%(proj2 Hlive). rewrite Hl in Hq. by apply not_elem_of_nil in Hq. }
  destruct (proj1 (proj2 Hlive p)) as [a Ha]; [rewrite Hl; by left|]. destruct release_law as (f & Hf & _).
  apply wp_bind. eapply wp_area; [exact Ha|]. rewrite Hf. apply wp_bind, wp_set.
  apply wp_bind. eapply wp_mono; [by apply (release_cpp_spec _ p a); destruct s|].
  intros [] s2 (d' & -> & _ & _). destruct s as [ar rl cl im mu mo ifc se d]. unfold field_update. cbn in *. subst rl.
  destruct Hlive as [Hn Hin]. cbn in Hn. apply NoDup_cons in Hn as [Hpl Hn].
  assert (Hfl : filter (fun q => q <> p) (p :: l) = l).
  { rewrite filter_cons_False by (intros Hx; by apply Hx). by apply filter_absent. }
  rewrite Hfl. apply IH; [|done]. eapply (live_drop (mkNfp ar (p :: l) cl im mu mo ifc se d)); [split; [by constructor|done]|done|]. symmetry. exact Hfl.
Qed.

(** C36. The areas' life, on a device that may refuse windows.  A new core,
    with no area, is in order.  Adding a cached window of any power of two
    keeps it in order, and adds the entry or, if the bus address of the cache
    is not mapped, there is no memory or the device refuses, returns
    [-ENOMEM] and changes no area.  A caller's allocation and acquisition
    give it either nothing, for one of these reasons, and then the areas, the
    cache and the targets' bytes are as before (an area that was allocated
    when the device refused it is freed), or an area of its own whose window,
    held, shows the range asked for; its release frees exactly that area.
    Whatever is still allocated, the end of the core releases and frees
    every area, each once: nothing remains. *)
Theorem nfp_lifecycle :
  (forall im mu mo ifc sn (d : D), nfp_ok (mkNfp ∅ [] [] im mu mo ifc sn d)) /\
  (forall s k, nfp_ok s -> 0 <= k < 32 -> wp (nfp_cpp_area_cache_add (2 ^ k)) (fun r s' => nfp_ok s' /\
    same_bytes (device s) (device s') /\
    (r = - ENOMEM /\ area_cache_list s' = area_cache_list s /\ areas s' = areas s /\
       (kzalloc_cache (area_cache_list s) = false \/
        no_area s (nfp_target_cpp (NFP_CPP_ID 7 NFP_CPP_ACTION_RW 0) 0 (imb_cat_table s)).1.1) \/
     r = 0 /\ exists p, area_cache_list s' = area_cache_list s ++ [mkCache 0 0 (2 ^ k) p])) s) /\
  (forall s name dest address size, nfp_ok s ->
    wp (nfp_cpp_area_alloc_acquire name dest address size) (fun p s' => nfp_ok s' /\
      same_bytes (device s) (device s') /\
      (p = 0 /\ areas s' = areas s /\ area_cache_list s' = area_cache_list s /\
         no_area s (nfp_target_cpp dest address (imb_cat_table s)).1.1 \/
       p <> 0 /\ own s' p true /\ held (device s') p = true /\
       (let '(err, id, a') := nfp_target_cpp dest address (imb_cat_table s) in
        0 <= err /\ window (device s') p = Some (id, a', size)) /\
       wp (nfp_cpp_area_release_free p) (fun _ s'' => nfp_ok s'' /\ areas s'' = areas s /\
         same_bytes (device s) (device s'')) s')) s) /\
  (forall s op_free, nfp_ok s -> wp (nfp_cpp_free op_free) (fun _ s' =>
    areas s' = ∅ /\ resource_list s' = [] /\ area_cache_list s' = []) s).
Proof.
  split_and!.
  - intros. apply empty_ok.
  - intros. by apply cache_add_spec.
  - intros s name dest address size Hok. unfold nfp_cpp_area_alloc_acquire.
    destruct (nfp_target_cpp dest address (imb_cat_table s)) as [[err id] a'] eqn:Ht.
    apply wp_bind. eapply wp_mono; [by eapply alloc_own|].
    intros p s1 [(-> & Hun & Hno)|(Hp0 & Herr & Hok1 & Hown & Hw & Hdel & Hb1 & Him1 & Hc1)].
    { apply wp_ret. pose proof (nfp_ok_untouched _ _ Hok Hun). destruct Hun as (d' & -> & Hb & _).
      split_and!; [done|done|by left]. }
    rewrite (proj2 (Z.eqb_neq _ _) Hp0). apply wp_bind. eapply wp_mono; [by eapply acquire_own|].
    intros r s2 (h & Hok2 & Hown2 & Hdel2 & Hb2 & Him2 & Hc2 & [(-> & -> & Hw2 & Hh2)|(Hr & -> & Hnr)]).
    + cbn [negb Z.eqb]. apply wp_ret. split_and!; [done|intros i x; by rewrite Hb2, Hb1|right]. split_and!; try done.
      eapply wp_mono; [by apply release_free_own|]. intros [] s3 (Hok3 & Ha3 & Hb3 & _).
      split_and!; [done|congruence|intros i x; by rewrite Hb3, Hb2, Hb1].
    + rewrite (proj2 (Z.eqb_neq r 0)) by lia. cbn [negb]. apply wp_bind. eapply wp_mono; [by apply free_own|].
      intros [] s3 (Hok3 & Ha3 & Hb3 & _ & Hc3). apply wp_ret. split_and!; [done|intros i x; by rewrite Hb3, Hb2, Hb1|left].
      split_and!; [done|congruence|congruence|by right; right].
  - intros s op_free Hok. unfold nfp_cpp_free. apply wp_bind, wp_get. apply wp_bind.
    eapply wp_mono; [by apply free_caches_spec|]. intros [] s1 [Hok1 Hc1]. apply wp_bind, wp_get.
    apply wp_bind. eapply wp_mono; [apply free_dangling_spec; [apply Hok1|done]|].
    intros [] s2 (Ha & Hr & Hc2). apply wp_bind.
    destruct op_free as [f|]; [apply wp_set|apply wp_skip]; apply wp_set; split_and!; cbn; congruence.
Qed.

End props.
