(* ===== verification/NfpExample.v ===== *)
(** * A device for the areas, and what the core does on it

    A device that does what its operations document, on which the theorems
    of [NfpProps] are run; and variations that refuse a window or transfer
    less than they are asked to, which the theorems cover too, but for the
    refusal of a cached window, after which the core uses a freed area. *)

From Stdlib Require Import ZifyBool.
From stdpp Require Import base numbers gmap strings list.
From S2P Require Import Prelude Word StateMonad Nfp NfpAreas NfpProps.

Local Open Scope Z_scope.
Open Scope store_scope.
Ltac Zify.zify_post_hook ::= Z.to_euclidean_division_equations.

Record dev := mkDev { d_mem : Z -> Z -> Z; d_windows : gmap Z (Z * Z * Z); d_held : gmap Z bool }.

(** One more than the greatest address in use. *)
Definition new_address (h : gmap Z area) : Z := 1 + foldr Z.max 0 (fst <$> map_to_list h).

(** [refuse]: the target of which no window can be had; [chunk]: the bytes
    transferred at most at once. *)
Definition demo_ops (refuse : option Z) (chunk : option nat) : NfpOps dev := {|
  area_init := Some (fun p id addr size d =>
    if decide (refuse = Some id) then (- ENODEV, d)
    else (0, mkDev (d_mem d) (<[p := (id, addr, size)]> (d_windows d)) (d_held d)));
  area_cleanup := None;
  area_acquire := Some (fun p d => (0, mkDev (d_mem d) (d_windows d) (<[p := true]> (d_held d))));
  area_release := Some (fun p d => mkDev (d_mem d) (d_windows d) (<[p := false]> (d_held d)));
  area_read p offset length d :=
    match d_windows d !! p with
    | Some (id, addr, _) => let n := match chunk with Some n => Z.min length (Z.of_nat n) | None => length end in
        (n, bytes_get (d_mem d) id (addr + offset) (Z.to_nat n), d)
    | None => (- EIO, [], d)
    end;
  area_write p offset bytes d :=
    match d_windows d !! p with
    | Some (id, addr, _) =>
        let bytes := match chunk with Some n => take n bytes | None => bytes end in
        (Z.of_nat (base.length bytes), mkDev (bytes_put (d_mem d) id (addr + offset) bytes) (d_windows d) (d_held d))
    | None => (- EIO, d)
    end;
  kzalloc_area h := Some (new_address h);
  kzalloc_cache _ := true;
  wait_acquired f d := let '(r, d) := f d in (Some r, d);
  device_unregister d := d;
  nfp_target_cpp dest a _ :=
    if negb (dest =? 0) && (0 <=? a) && (a <? 2 ^ 40) then (0, dest, a) else (- EINVAL, 0, 0);
  nfp_cppat_mu_locality_lsb _ addr40 := if (addr40 : bool) then 38 else 30;
  NFP_CPP_ID target action token := Z.lor (Z.shiftl target 24) (Z.lor (Z.shiftl token 16) (Z.shiftl action 8));
  NFP_CPP_ACTION_RW := 32;
  NFP_CPP_TARGET_MU := 7;
  NFP_CPP_TARGET_ARM := 1;
  NFP_CPP_SAFE_AREA_SIZE := 2 ^ 4;
  NFP_ARM_GCSR := 0x400000;
  interface_is_arm _ := false;
|}.

(** The device as documented. *)
Definition good_ops : NfpOps dev := demo_ops None None.
#[export] Instance dev_view : NfpView dev := {|
  target_byte := d_mem;
  window d p := d_windows d !! p;
  held d p := default false (d_held d !! p);
|}.

Lemma new_address_fresh h : h !! new_address h = None /\ new_address h <> 0.
Proof.
  assert (Hmax : forall l : list Z, 0 <= foldr Z.max 0 l /\ forall x, x ∈ l -> x <= foldr Z.max 0 l).
  { induction l as [|y l [IH1 IH2]]; cbn; [split; [lia|by intros ? ?%not_elem_of_nil]|].
    split; [lia|]. intros x [->|Hx]%elem_of_cons; [lia|]. specialize (IH2 x Hx). lia. }
  unfold new_address. destruct (Hmax (fst <$> map_to_list h)) as [H1 H2]. split; [|lia].
  apply eq_None_not_Some. intros [a Ha]. assert (Hin : 1 + foldr Z.max 0 (fst <$> map_to_list h) ∈ fst <$> map_to_list h).
  { apply list_elem_of_fmap. eexists (_, a). split; [reflexivity|]. by apply elem_of_map_to_list. }
  specialize (H2 _ Hin). lia.
Qed.

#[export] Instance demo_laws refuse chunk : NfpLaws dev (demo_ops refuse chunk) dev_view.
Proof.
  split.
  - eexists. split; [reflexivity|]. intros p id addr size d. cbn. destruct (decide _) as [Hr|Hr]; [by split_and!|].
    split_and!; [done| |intros _; cbn; by rewrite lookup_insert_eq]. intros q Hq. cbn. by rewrite lookup_insert_ne.
  - eexists. split; [reflexivity|]. intros p w d Hw. cbn in Hw |- *.
    split_and!; [done| |left; split_and!; [done|done|cbn; by rewrite lookup_insert_eq]]. intros q Hq. cbn. by rewrite lookup_insert_ne.
  - eexists. split; [reflexivity|]. intros p d. split_and!; [done| |cbn; by rewrite lookup_insert_eq].
    intros q Hq. cbn. by rewrite lookup_insert_ne.
  - done.
  - intros p id addr size offset length d Hw _ Ho Hl Hs. cbn in Hw |- *. rewrite Hw. split_and!; [done|done|right].
    split; [destruct chunk; lia|done].
  - intros p id addr size offset bytes d Hw _ Ho Hs. cbn in Hw |- *. rewrite Hw. split; [done|].
    exists (base.length (match chunk with Some n => take n bytes | None => bytes end)).
    assert (Hc : take (base.length (match chunk with Some n => take n bytes | None => bytes end)) bytes =
      match chunk with Some n => take n bytes | None => bytes end).
    { destruct chunk as [n|]; [|by rewrite firstn_all]. rewrite length_take.
      destruct (Nat.le_gt_cases n (base.length bytes)); [by rewrite Nat.min_l|rewrite Nat.min_r by lia; by rewrite firstn_all, take_ge by lia]. }
    rewrite Hc. split_and!; [destruct chunk; rewrite ?length_take; lia|by right|done].
  - intros h p Hp. injection Hp as <-. apply new_address_fresh.
  - by exists 4.
  - intros dest a table. unfold nfp_target_cpp, demo_ops.
    destruct (negb (dest =? 0) && (0 <=? a) && (a <? 2 ^ 40)) eqn:He; [right|by left].
    assert (dest <> 0 /\ 0 <= a < 2 ^ 40) by lia. split; [lia|]. intros i Hi Hs. unfold NFP_CPP_SAFE_AREA_SIZE in Hs.
    assert (a + i < 2 ^ 40) by lia. split_and!; [lia|done|]. exists 0.
    replace (negb (dest =? 0) && (0 <=? a + i) && (a + i <? 2 ^ 40)) with true by lia. done.
Qed.
#[export] Instance good_laws : NfpLaws dev good_ops dev_view.
Proof. apply demo_laws. Qed.

(** A core with two cached windows of 8 bytes, and one without. *)
Definition memory (id a : Z) : Z := (id * 100 + a) mod 256.
Definition bare : nfp dev := mkNfp ∅ [] [] (repeat 0 16) 0 0 0 [] (mkDev memory ∅ ∅).
Definition demo (o : NfpOps dev) : res Empty_set (nfp dev) :=
  let* (_, s) := (do! _ := nfp_cpp_area_cache_add (Ops := o) 8 in nfp_cpp_area_cache_add (Ops := o) 8) bare in Ok s.

Lemma demo_ok s : demo good_ops = Ok s -> nfp_ok s.
Proof.
  assert (Hok : wp (do! _ := nfp_cpp_area_cache_add (Ops := good_ops) 8 in nfp_cpp_area_cache_add (Ops := good_ops) 8)
    (fun _ s => nfp_ok s) bare).
  { apply wp_bind. eapply wp_mono; [apply (cache_add_spec bare 3); [apply empty_ok|lia]|].
    intros _ s1 [Hok1 _]. eapply wp_mono; [by apply (cache_add_spec s1 3)|]. by intros _ s2 [Hok2 _]. }
  destruct Hok as (r & s' & Hrun & Hok'). unfold demo. rewrite Hrun. cbn. by intros [= <-].
Qed.

(** A write over the end of two safe windows, and what is then there. *)
Example demo_write_read : forall s, demo good_ops = Ok s ->
  wp (do! n := nfp_cpp_write (Ops := good_ops) 3 12 [1; 2; 3; 4; 5; 6; 7] in
      do! r := nfp_cpp_read (Ops := good_ops) 3 10 24 in mret (n, r))
    (fun r _ => r = (7, (24, [54; 55; 1; 2; 3; 4; 5; 6; 7; 63; 64; 65; 66; 67; 68; 69; 70; 71; 72; 73; 74; 75; 76; 77]))) s.
Proof. intros s H. vm_compute in H. injection H as <-. eexists _, _. split; [vm_compute; reflexivity|done]. Qed.


Lemma nfp_lifecycle_witness : exists s, demo good_ops = Ok s /\
  wp (nfp_cpp_free (Ops := good_ops) None) (fun _ s' => areas s' = ∅ /\ resource_list s' = [] /\ area_cache_list s' = []) s.
Proof.
  destruct (demo good_ops) as [s| | |] eqn:H; [|vm_compute in H; discriminate..].
  exists s. split; [done|]. apply nfp_lifecycle. by apply demo_ok.
Defined.

(** A device that refuses the window, and one that transfers three bytes at
    most: the theorems apply to both. *)
Example refused_read : let o := demo_ops (Some 5) None in
  (let* (r, s) := nfp_cpp_read (Ops := o) 5 0 4 bare in Ok (r, map_to_list (areas s))) = Ok ((- ENOMEM, []), []).
Proof. vm_compute. reflexivity. Qed.
Lemma refusing_device_lifecycle name address size :
  wp (nfp_cpp_area_alloc_acquire (Ops := demo_ops (Some 5) (Some 3%nat)) name 5 address size) (fun _ => nfp_ok) bare.
Proof.
  destruct (nfp_lifecycle (Ops := demo_ops (Some 5) (Some 3%nat))) as (Hnew & _ & Hacq & _).
  eapply wp_mono; [apply Hacq, Hnew|]. by intros p s' [Hok _].
Qed.

(** ** What goes wrong *)

Definition after {A} (o : NfpOps dev) (m : SM (nfp dev) A) : res Empty_set A :=
  let* s := demo o in let* (a, _) := m s in Ok a.

(** A failed move of a cached window leads to a use after free.
    [area_cache_get] sets the entry's id before it has the window.  When the
    device refuses the window the id stays, the next eviction releases an
    area that was not acquired, its last count goes, and the entry is left
    with a freed area: the access after it is a use after free. *)
Theorem failed_move_use_after_free : let o := demo_ops (Some 5) None in
  after o (nfp_cpp_read (Ops := o) 5 0 4) = Ok (- ENOMEM, []) /\
  after o (nfp_cpp_read (Ops := o) 6 0 4) = Ok (4, [88; 89; 90; 91]) /\
  after o (do! _ := nfp_cpp_read (Ops := o) 5 0 4 in nfp_cpp_read (Ops := o) 6 0 4) = Panic.
Proof. split_and!; vm_compute; reflexivity. Qed.

(** A second acquisition takes no count of the area's memory, but every
    release gives one back: of two holders the second release frees the area
    that its owner still has.  The variant that does not wait counts both. *)
Theorem nested_acquire_use_after_free : let o := good_ops in
  let twice (acquire : Z -> SM (nfp dev) Z) :=
    do! p := nfp_cpp_area_alloc (Ops := o) 3 0 8 in
    do! r1 := acquire p in do! r2 := acquire p in
    nfp_cpp_area_release (Ops := o) p ;; nfp_cpp_area_release (Ops := o) p ;;
    nfp_cpp_area_free (Ops := o) p ;; mret (r1, r2) in
  after o (twice (nfp_cpp_area_acquire_nonblocking (Ops := o))) = Ok (0, 0) /\
  after o (twice (nfp_cpp_area_acquire (Ops := o))) = Panic.
Proof. split_and!; vm_compute; reflexivity. Qed.

(** A device that transfers three bytes of the eight it is asked for: the
    result says eight. *)
Theorem short_read_reports_all : let o := demo_ops None (Some 3%nat) in
  after o (nfp_cpp_read (Ops := o) 5 0 8) = Ok (8, [244; 245; 246]).
Proof. vm_compute. reflexivity. Qed.
